(** * LocalFlare: the pure cores of the dashboard, embedded and verified

    The development follows the repository's layout.

    Embedding of the sources:
    - [JsString]: the JavaScript string primitives the sources call
      ([split], [join], [startsWith], [endsWith], [includes], [replace]
      with a string pattern), the code units and the case of letters;
    - [R2]: the [TreeNode] and [R2ObjectItem] interfaces of [FileTree.tsx],
      [Array.prototype.find] and [sort];
    - [Dashboard] and [DemoApp]: the two copies of [buildFileTree];
    - [DummyData]: [dummy-data-generator.ts], over the random sources of
      the platform;
    - [Playground]: the worker with the [Counter] durable object and the
      read-by-key routes;
    - [Core]: binding discovery and [LocalFlare.start];
    - [JsText]: [trim] and [parseInt]; [Lucide]: the icon elements;
    - [FileTreeView], [DashboardView], [DemoAppView]: the state and the
      counters of the two [FileTree] components; [R2Explorer]: selection,
      upload and folder creation;
    - [DummyRows]: [generateDummyRows], the column descriptions and the
      row count of the dialog;
    - [CounterRuns]: runs of requests to the counter routes;
    - [Config]: the configuration files and the binding summary;
      [LocalFlareClass]: the [LocalFlare] class with its fields;
    - [Analytics]: [substituteParams]; [AnalyticsWorker]: the worker that
      proxies the analytics routes.

    Vocabulary of the statements: [TreeSpec], [DummyDataSpec],
    [PlaygroundSpec], [CoreSpec], [ViewSpec], [DescriptionSpec],
    [ConfigSpec], [RegexSpec], [SqlSpec], [WorkerSpec].

    Then the proofs, the numbered statements C1 to C10 and X1 to X26 among
    them.

    A string of the program is held as its UTF-8 bytes.  Splitting, joining
    and searching act on the bytes as the program's act on the code units;
    regular expressions, white space and [trim] read the UTF-16 code
    units off the bytes; the case mappings of [toUpperCase] and
    [toLowerCase] are tables of the engine, a parameter here.  Numbers are
    binary64: those that hold sizes are integers ([Z]) handed on as they
    come, the counter rounds its sums as binary64 does, and those that
    hold fractions are rationals ([Q]).  An object that the sources fill
    by assignment is a map of its own properties; where the names come
    from outside, what [Object.prototype] holds under a name is part of
    the model.  The tree that [buildFileTree] updates in place is a store
    passed along its loops, and the alias [currentLevel] a reference into
    it. *)

From Stdlib Require Import ZArith List String Ascii Bool Lia.
From Stdlib Require Import QArith Qround.
From Stdlib Require Import Sorted Permutation.
From stdpp Require Import base gmap strings.
Import ListNotations.

Local Open Scope Z_scope.
Local Open Scope string_scope.
Local Open Scope list_scope.

(* ===================================================================== *)
(** * JavaScript string primitives *)
(* ===================================================================== *)

Module JsString.

(** [!s] for a string: only the empty string is falsy. *)
Definition isEmpty (s : string) : bool :=
  match s with
  | EmptyString => true
  | String _ _ => false
  end.

(** [s.split(sep)] for a one-character separator: never returns the empty
    array; [''.split('/')] is [['']]. *)
Fixpoint split (sep : ascii) (s : string) : list string :=
  match s with
  | EmptyString => [EmptyString]
  | String c s' =>
      if Ascii.eqb c sep then EmptyString :: split sep s'
      else match split sep s' with
           | [] => [String c EmptyString]
           | p :: ps => String c p :: ps
           end
  end.

(** [parts.join(sep)]. *)
Fixpoint join (sep : string) (parts : list string) : string :=
  match parts with
  | [] => EmptyString
  | [p] => p
  | p :: ps => p ++ sep ++ join sep ps
  end.

(** [s.startsWith(p)]. *)
Fixpoint startsWith (p s : string) : bool :=
  match p, s with
  | EmptyString, _ => true
  | String _ _, EmptyString => false
  | String a p', String b s' => Ascii.eqb a b && startsWith p' s'
  end.

(** [s.includes(p)]. *)
Fixpoint includes (p s : string) : bool :=
  startsWith p s ||
  match s with
  | EmptyString => false
  | String _ s' => includes p s'
  end.

(** [s.endsWith(p)]: [p] occurs at offset [length s - length p]. *)
Fixpoint endsWith (p s : string) : bool :=
  String.eqb p s ||
  match s with
  | EmptyString => false
  | String _ s' => endsWith p s'
  end.

(** Drop the first [n] characters. *)
Fixpoint drop (n : nat) (s : string) : string :=
  match n, s with
  | O, _ => s
  | S _, EmptyString => EmptyString
  | S n', String _ s' => drop n' s'
  end.

(** [s.replace(p, '')] with a string pattern: only the first (leftmost)
    occurrence of [p] is removed. *)
Fixpoint removeFirst (p s : string) : string :=
  if startsWith p s then drop (String.length p) s
  else match s with
       | EmptyString => EmptyString
       | String c s' => String c (removeFirst p s')
       end.

(** ** Code units

    A string of the program (one without unpaired surrogates) is held as
    its UTF-8 bytes.  The operations above act on the bytes as the program's
    act on the code units; regular expressions, white space and the case
    of letters are a matter of the UTF-16 code units, which [codeUnits]
    reads off the bytes. *)

Definition byte (c : ascii) : Z := Z.of_nat (nat_of_ascii c).

Definition isContinuation (c : ascii) : bool :=
  (128 <=? byte c)%Z && (byte c <? 192)%Z.

(** The code point that a sequence of two, three or four bytes encodes;
    [None] for bytes that are no such sequence. *)
Definition decode2 (b0 b1 : ascii) : option Z :=
  if (194 <=? byte b0)%Z && (byte b0 <? 224)%Z && isContinuation b1
  then Some ((byte b0 - 192) * 64 + (byte b1 - 128))
  else None.

Definition decode3 (b0 b1 b2 : ascii) : option Z :=
  if (224 <=? byte b0)%Z && (byte b0 <? 240)%Z && isContinuation b1 && isContinuation b2
  then
    let cp := (byte b0 - 224) * 4096 + (byte b1 - 128) * 64 + (byte b2 - 128) in
    if (2048 <=? cp)%Z && negb ((55296 <=? cp)%Z && (cp <? 57344)%Z) then Some cp else None
  else None.

Definition decode4 (b0 b1 b2 b3 : ascii) : option Z :=
  if (240 <=? byte b0)%Z && (byte b0 <? 245)%Z
     && isContinuation b1 && isContinuation b2 && isContinuation b3
  then
    let cp := (byte b0 - 240) * 262144 + (byte b1 - 128) * 4096
              + (byte b2 - 128) * 64 + (byte b3 - 128) in
    if (65536 <=? cp)%Z && (cp <? 1114112)%Z then Some cp else None
  else None.

(** U+FFFD stands for a byte that starts no sequence. *)
Definition REPLACEMENT : Z := 65533.

(** The code units of a string: one for a code point below 65536, the two
    surrogates for one above. *)
Fixpoint codeUnits (s : string) : list Z :=
  match s with
  | EmptyString => []
  | String b0 s1 =>
      if (byte b0 <? 128)%Z then byte b0 :: codeUnits s1
      else
        match s1 with
        | EmptyString => [REPLACEMENT]
        | String b1 s2 =>
            match decode2 b0 b1 with
            | Some u => u :: codeUnits s2
            | None =>
                match s2 with
                | EmptyString => REPLACEMENT :: codeUnits s1
                | String b2 s3 =>
                    match decode3 b0 b1 b2 with
                    | Some u => u :: codeUnits s3
                    | None =>
                        match s3 with
                        | EmptyString => REPLACEMENT :: codeUnits s1
                        | String b3 s4 =>
                            match decode4 b0 b1 b2 b3 with
                            | Some cp =>
                                (55296 + (cp - 65536) / 1024)
                                :: (56320 + (cp - 65536) mod 1024)
                                :: codeUnits s4
                            | None => REPLACEMENT :: codeUnits s1
                            end
                        end
                    end
                end
            end
        end
  end.

(** Every character of the string is an ASCII character. *)
Fixpoint isAscii (s : string) : bool :=
  match s with
  | EmptyString => true
  | String c s' => (byte c <? 128)%Z && isAscii s'
  end.

(** ** The case of letters *)

Definition upperChar (c : ascii) : ascii :=
  let n := nat_of_ascii c in
  if (Nat.leb 97 n && Nat.leb n 122)%bool then ascii_of_nat (n - 32) else c.

Definition lowerChar (c : ascii) : ascii :=
  let n := nat_of_ascii c in
  if (Nat.leb 65 n && Nat.leb n 90)%bool then ascii_of_nat (n + 32) else c.

Fixpoint mapChars (f : ascii -> ascii) (s : string) : string :=
  match s with
  | EmptyString => EmptyString
  | String c s' => String (f c) (mapChars f s')
  end.

(** The letters a-z and A-Z mapped, every other byte kept. *)
Definition asciiUpperCase : string -> string := mapChars upperChar.
Definition asciiLowerCase : string -> string := mapChars lowerChar.

(** [s.toUpperCase()] and [s.toLowerCase()] follow the case mappings of
    Unicode, tables that the engine holds. *)
Record Engine : Type := mkEngine
  { toUpperCase : string -> string;
    toLowerCase : string -> string }.

(** What the tables say of the ASCII characters. *)
Record EngineOk (E : Engine) : Prop := mkEngineOk
  { toUpperCase_isAscii : forall s,
      isAscii s = true -> toUpperCase E s = asciiUpperCase s;
    toLowerCase_isAscii : forall s,
      isAscii s = true -> toLowerCase E s = asciiLowerCase s }.

(** An engine to run the sources on: its tables end with the ASCII
    letters. *)
Definition asciiEngine : Engine := mkEngine asciiUpperCase asciiLowerCase.

(** Comparison byte by byte, as a JavaScript comparator result. *)
Definition codeUnitCompare (a b : string) : Z :=
  match String.compare a b with
  | Lt => -1
  | Eq => 0
  | Gt => 1
  end.

End JsString.

(* ===================================================================== *)
(** * The R2 file tree: interfaces shared by both copies of FileTree.tsx *)
(* ===================================================================== *)

Module R2.

Inductive NodeType : Type := file | folder.

Definition NodeType_eqb (a b : NodeType) : bool :=
  match a, b with
  | file, file | folder, folder => true
  | _, _ => false
  end.

(** [interface TreeNode { name; path; type; size?; children? }].  The
    builder only ever creates the two shapes
    [{name, path, type: "file", size}] and
    [{name, path, type: "folder", children}], one constructor each. *)
#[local] Unset Elimination Schemes.
Inductive TreeNode : Type :=
| File (name path : string) (size : Z)
| Folder (name path : string) (children : list TreeNode).
#[local] Set Elimination Schemes.

Definition name (node : TreeNode) : string :=
  match node with
  | File n _ _ | Folder n _ _ => n
  end.

Definition path (node : TreeNode) : string :=
  match node with
  | File _ p _ | Folder _ p _ => p
  end.

Definition type (node : TreeNode) : NodeType :=
  match node with
  | File _ _ _ => file
  | Folder _ _ _ => folder
  end.

(** [node.size]: [None] stands for [undefined]. *)
Definition size (node : TreeNode) : option Z :=
  match node with
  | File _ _ sz => Some sz
  | Folder _ _ _ => None
  end.

(** [node.children]: [None] stands for [undefined] (falsy); an array, even
    an empty one, is truthy. *)
Definition children (node : TreeNode) : option (list TreeNode) :=
  match node with
  | File _ _ _ => None
  | Folder _ _ cs => Some cs
  end.

(** [interface R2ObjectItem { key: string; size: number }]. *)
Record R2ObjectItem : Type := mkObject { key : string; objSize : Z }.

(** ** The tree as a store

    The loops of [buildFileTree] hold a reference, [currentLevel], to one of
    the arrays of the tree under construction, and update the tree through
    it.  The store is the root array with all it contains; a reference to an
    array is the path of child indices that leads to it from the root. *)

Abbreviation Ref := (list nat).

(** Apply [f] to the element of index [i], if there is one. *)
Fixpoint mapAt {A : Type} (i : nat) (f : A -> A) (l : list A) : list A :=
  match l, i with
  | [], _ => []
  | x :: l', O => f x :: l'
  | x :: l', S i' => x :: mapAt i' f l'
  end.

(** Replace the [children] array of a folder by [f] of it. *)
Definition onChildren (f : list TreeNode -> list TreeNode) (node : TreeNode)
  : TreeNode :=
  match node with
  | Folder n p cs => Folder n p (f cs)
  | File _ _ _ => node
  end.

(** The store after the array behind [ref] was updated by [f]. *)
Fixpoint updateAt (ref : Ref) (f : list TreeNode -> list TreeNode)
    (root : list TreeNode) : list TreeNode :=
  match ref with
  | [] => f root
  | i :: ref' => mapAt i (onChildren (updateAt ref' f)) root
  end.

(** The array behind [ref]. *)
Fixpoint deref (ref : Ref) (root : list TreeNode) : list TreeNode :=
  match ref with
  | [] => root
  | i :: ref' =>
      match nth_error root i with
      | Some (Folder _ _ cs) => deref ref' cs
      | _ => []
      end
  end.

(** [ref.push(node)]. *)
Definition push (ref : Ref) (node : TreeNode) (root : list TreeNode)
  : list TreeNode :=
  updateAt ref (fun level => level ++ [node]) root.

(** [level.find(node => node.name === part)], with the index of the node
    found: the first node of that name. *)
Fixpoint findFrom (k : nat) (part : string) (level : list TreeNode)
  : option (nat * TreeNode) :=
  match level with
  | [] => None
  | node :: others =>
      if String.eqb (name node) part then Some (k, node)
      else findFrom (S k) part others
  end.

Definition find (part : string) (level : list TreeNode) : option (nat * TreeNode) :=
  findFrom 0 part level.

(** [if (x)] for an optional array: an array, even an empty one, is
    truthy. *)
Definition truthy {A : Type} (x : option A) : bool :=
  match x with
  | Some _ => true
  | None => false
  end.

(** [Array.prototype.sort(compare)] is stable; for a consistent comparator
    its result is the unique stable sorted arrangement, computed here by
    insertion. *)
Section Sort.
Context {A : Type} (compare : A -> A -> Z).

Fixpoint insertSorted (x : A) (l : list A) : list A :=
  match l with
  | [] => [x]
  | y :: l' => if (compare x y <=? 0)%Z then x :: y :: l' else y :: insertSorted x l'
  end.

Fixpoint sort (l : list A) : list A :=
  match l with
  | [] => []
  | x :: l' => insertSorted x (sort l')
  end.

End Sort.

End R2.

(* ===================================================================== *)
(** * packages/dashboard/src/components/r2/FileTree.tsx *)
(* ===================================================================== *)

Module Dashboard.
Import JsString R2.

Section BuildFileTree.

(** [String.prototype.localeCompare] belongs to the platform and follows
    the ambient locale: it is a parameter of the builder. *)
Variable localeCompare : string -> string -> Z.

(** The filter of the first pass:
    [obj => !obj.key.endsWith('/.keep') && obj.key !== '.keep']. *)
Definition notKeepFile (obj : R2ObjectItem) : bool :=
  negb (endsWith "/.keep" (key obj)) && negb (String.eqb (key obj) ".keep").

(** The inner loop of the first pass, from index [i] on; [rest] holds
    [parts[i..]].  The state is the tree, [root], and the reference
    [currentLevel] into it; the result is the tree when the loop ends. *)
Fixpoint placeObject (obj : R2ObjectItem) (parts : list string) (i : nat)
    (rest : list string) (root : list TreeNode) (currentLevel : Ref)
  : list TreeNode :=
  match rest with
  | [] => root
  | part :: rest' =>
      if isEmpty part then placeObject obj parts (S i) rest' root currentLevel
      else
        let isFile := Nat.eqb i (length parts - 1) in
        let currentPath := join "/" (firstn (i + 1) parts) in
        let '(root, k, existing) :=
          match find part (deref currentLevel root) with
          | Some (k, node) => (root, k, node)
          | None =>
              let newNode :=
                if isFile then File part currentPath (objSize obj)
                else Folder part currentPath [] in
              (push currentLevel newNode root,
               length (deref currentLevel root), newNode)
          end in
        let currentLevel :=
          if negb isFile && truthy (children existing)
          then currentLevel ++ [k]     (* currentLevel = existing.children *)
          else currentLevel in
        placeObject obj parts (S i) rest' root currentLevel
  end.

(** One iteration of [for (const obj of filteredObjects)]:
    [let currentLevel = root], then the inner loop. *)
Definition addObject (root : list TreeNode) (obj : R2ObjectItem) : list TreeNode :=
  let parts := split "/" (key obj) in
  placeObject obj parts 0 parts root [].

(** The inner loop of the second pass: every non-empty part is a folder. *)
Fixpoint placeFolder (parts : list string) (i : nat)
    (rest : list string) (root : list TreeNode) (currentLevel : Ref)
  : list TreeNode :=
  match rest with
  | [] => root
  | part :: rest' =>
      if isEmpty part then placeFolder parts (S i) rest' root currentLevel
      else
        let currentPath := join "/" (firstn (i + 1) parts) in
        let '(root, k, existing) :=
          match find part (deref currentLevel root) with
          | Some (k, node) => (root, k, node)
          | None =>
              let newNode := Folder part currentPath [] in
              (push currentLevel newNode root,
               length (deref currentLevel root), newNode)
          end in
        let currentLevel :=
          if truthy (children existing)
          then currentLevel ++ [k]     (* currentLevel = existing.children *)
          else currentLevel in
        placeFolder parts (S i) rest' root currentLevel
  end.

(** One iteration of the second pass, [for (const obj of objects)]. *)
Definition addKeepFolder (root : list TreeNode) (obj : R2ObjectItem) : list TreeNode :=
  if endsWith "/.keep" (key obj) then
    let folderPath := removeFirst "/.keep" (key obj) in
    let parts := split "/" folderPath in
    placeFolder parts 0 parts root []
  else root.

(** The comparator of [sortNodes]. *)
Definition compareNodes (a b : TreeNode) : Z :=
  if negb (NodeType_eqb (type a) (type b)) then
    match type a with
    | folder => -1
    | file => 1
    end
  else localeCompare (name a) (name b).

(** [sortNodes], one node at a time: the children of a folder are sorted
    by the same function.  [sortNodes_eq] below gives the source's
    equation, [sortNodes nodes = nodes.sort(..).map(..)]. *)
Fixpoint sortNode (node : TreeNode) : TreeNode :=
  match node with
  | File _ _ _ => node
  | Folder n p cs => Folder n p (sort compareNodes (map sortNode cs))
  end.

Definition sortNodes (nodes : list TreeNode) : list TreeNode :=
  map sortNode (sort compareNodes nodes).

Definition buildFileTree (objects : list R2ObjectItem) (hideKeepFiles : bool)
  : list TreeNode :=
  let root : list TreeNode := [] in
  let filteredObjects :=
    if hideKeepFiles then List.filter notKeepFile objects else objects in
  let root := fold_left addObject filteredObjects root in
  let root := if hideKeepFiles then fold_left addKeepFolder objects root else root in
  sortNodes root.

End BuildFileTree.

End Dashboard.

(* ===================================================================== *)
(** * demo-app/src/client/components/r2/FileTree.tsx *)
(* ===================================================================== *)

Module DemoApp.
Import JsString R2.

Section BuildFileTree.

Variable localeCompare : string -> string -> Z.

Definition notKeepFile (obj : R2ObjectItem) : bool :=
  negb (endsWith "/.keep" (key obj)) && negb (String.eqb (key obj) ".keep").

(** The inner loop of the first pass, from index [i] on; [rest] holds
    [parts[i..]].  The state is the tree, [root], and the reference
    [currentLevel] into it; the result is the tree when the loop ends. *)
Fixpoint placeObject (obj : R2ObjectItem) (parts : list string) (i : nat)
    (rest : list string) (root : list TreeNode) (currentLevel : Ref)
  : list TreeNode :=
  match rest with
  | [] => root
  | part :: rest' =>
      if isEmpty part then placeObject obj parts (S i) rest' root currentLevel
      else
        let isFile := Nat.eqb i (length parts - 1) in
        let currentPath := join "/" (firstn (i + 1) parts) in
        let '(root, k, existing) :=
          match find part (deref currentLevel root) with
          | Some (k, node) => (root, k, node)
          | None =>
              let newNode :=
                if isFile then File part currentPath (objSize obj)
                else Folder part currentPath [] in
              (push currentLevel newNode root,
               length (deref currentLevel root), newNode)
          end in
        let currentLevel :=
          if negb isFile && truthy (children existing)
          then currentLevel ++ [k]     (* currentLevel = existing.children *)
          else currentLevel in
        placeObject obj parts (S i) rest' root currentLevel
  end.

(** One iteration of [for (const obj of filteredObjects)]:
    [let currentLevel = root], then the inner loop. *)
Definition addObject (root : list TreeNode) (obj : R2ObjectItem) : list TreeNode :=
  let parts := split "/" (key obj) in
  placeObject obj parts 0 parts root [].

(** The inner loop of the second pass: every non-empty part is a folder. *)
Fixpoint placeFolder (parts : list string) (i : nat)
    (rest : list string) (root : list TreeNode) (currentLevel : Ref)
  : list TreeNode :=
  match rest with
  | [] => root
  | part :: rest' =>
      if isEmpty part then placeFolder parts (S i) rest' root currentLevel
      else
        let currentPath := join "/" (firstn (i + 1) parts) in
        let '(root, k, existing) :=
          match find part (deref currentLevel root) with
          | Some (k, node) => (root, k, node)
          | None =>
              let newNode := Folder part currentPath [] in
              (push currentLevel newNode root,
               length (deref currentLevel root), newNode)
          end in
        let currentLevel :=
          if truthy (children existing)
          then currentLevel ++ [k]     (* currentLevel = existing.children *)
          else currentLevel in
        placeFolder parts (S i) rest' root currentLevel
  end.

(** One iteration of the second pass, [for (const obj of objects)]. *)
Definition addKeepFolder (root : list TreeNode) (obj : R2ObjectItem) : list TreeNode :=
  if endsWith "/.keep" (key obj) then
    let folderPath := removeFirst "/.keep" (key obj) in
    let parts := split "/" folderPath in
    placeFolder parts 0 parts root []
  else root.

Definition compareNodes (a b : TreeNode) : Z :=
  if negb (NodeType_eqb (type a) (type b)) then
    match type a with
    | folder => -1
    | file => 1
    end
  else localeCompare (name a) (name b).

Fixpoint sortNode (node : TreeNode) : TreeNode :=
  match node with
  | File _ _ _ => node
  | Folder n p cs => Folder n p (sort compareNodes (map sortNode cs))
  end.

Definition sortNodes (nodes : list TreeNode) : list TreeNode :=
  map sortNode (sort compareNodes nodes).

Definition buildFileTree (objects : list R2ObjectItem) (hideKeepFiles : bool)
  : list TreeNode :=
  let root : list TreeNode := [] in
  let filteredObjects :=
    if hideKeepFiles then List.filter notKeepFile objects else objects in
  let root := fold_left addObject filteredObjects root in
  let root := if hideKeepFiles then fold_left addKeepFolder objects root else root in
  sortNodes root.

End BuildFileTree.

End DemoApp.

(* ===================================================================== *)
(** * What a key contributes to the tree *)
(* ===================================================================== *)

Module TreeSpec.
Import JsString R2.

(** ** The loops, seen from the level they start at

    What a loop does to the array it starts from, the updates below it
    included, by recursion on the parts.  [placeObject_walk] and
    [placeFolder_walk] relate the loops of the source to these. *)

(** The first node of that name. *)
Definition findByName (part : string) (level : list TreeNode) : option TreeNode :=
  List.find (fun node => String.eqb (name node) part) level.

(** [level] after the [children] of its first node named [part] became
    [cs]. *)
Fixpoint setChildren (part : string) (cs : list TreeNode)
    (level : list TreeNode) : list TreeNode :=
  match level with
  | [] => []
  | node :: others =>
      if String.eqb (name node) part then
        match node with
        | Folder n p _ => Folder n p cs :: others
        | File _ _ _ => node :: others
        end
      else node :: setChildren part cs others
  end.

Fixpoint walkObject (obj : R2ObjectItem) (parts : list string) (i : nat)
    (rest : list string) (level : list TreeNode) : list TreeNode :=
  match rest with
  | [] => level
  | part :: rest' =>
      if isEmpty part then walkObject obj parts (S i) rest' level
      else
        let isFile := Nat.eqb i (length parts - 1) in
        let currentPath := join "/" (firstn (i + 1) parts) in
        let '(level1, existing) :=
          match findByName part level with
          | Some node => (level, node)
          | None =>
              let newNode :=
                if isFile then File part currentPath (objSize obj)
                else Folder part currentPath [] in
              (level ++ [newNode], newNode)
          end in
        match negb isFile, children existing with
        | true, Some cs =>
            setChildren part (walkObject obj parts (S i) rest' cs) level1
        | _, _ => walkObject obj parts (S i) rest' level1
        end
  end.

Fixpoint walkFolder (parts : list string) (i : nat)
    (rest : list string) (level : list TreeNode) : list TreeNode :=
  match rest with
  | [] => level
  | part :: rest' =>
      if isEmpty part then walkFolder parts (S i) rest' level
      else
        let currentPath := join "/" (firstn (i + 1) parts) in
        let '(level1, existing) :=
          match findByName part level with
          | Some node => (level, node)
          | None =>
              let newNode := Folder part currentPath [] in
              (level ++ [newNode], newNode)
          end in
        match children existing with
        | Some cs => setChildren part (walkFolder parts (S i) rest' cs) level1
        | None => walkFolder parts (S i) rest' level1
        end
  end.

(** A reference that leads through folders of the tree. *)
Fixpoint validRef (ref : Ref) (root : list TreeNode) : Prop :=
  match ref with
  | [] => True
  | i :: ref' =>
      exists nm pth cs, nth_error root i = Some (Folder nm pth cs) /\ validRef ref' cs
  end.

(** The kind of a node: its [type], with the [size] of a file. *)
Inductive Kind : Type := KFile (sz : Z) | KFolder.

Definition Kind_eqb (a b : Kind) : bool :=
  match a, b with
  | KFile x, KFile y => Z.eqb x y
  | KFolder, KFolder => true
  | _, _ => false
  end.

(** [Has level segs pth k]: walking down from the sibling list [level]
    through folders named by the segments [segs], one reaches a node whose
    name is the last segment, whose [path] is [pth] and whose kind is [k]. *)
Inductive Has : list TreeNode -> list string -> string -> Kind -> Prop :=
| Has_file level nm pth sz :
    In (File nm pth sz) level -> Has level [nm] pth (KFile sz)
| Has_folder level nm pth cs :
    In (Folder nm pth cs) level -> Has level [nm] pth KFolder
| Has_below level nm pth cs segs pth' k :
    In (Folder nm pth cs) level -> Has cs segs pth' k ->
    Has level (nm :: segs) pth' k.

(** A trie: at every level the names of the siblings are pairwise
    distinct. *)
Inductive UniqueNames : list TreeNode -> Prop :=
| UniqueNames_level level :
    List.NoDup (map name level) ->
    (forall nm pth cs, In (Folder nm pth cs) level -> UniqueNames cs) ->
    UniqueNames level.

(** The order [sortNodes] aims at: folders before files and, within a
    type, names in [localeCompare] order. *)
Definition nodeBefore (localeCompare : string -> string -> Z)
    (a b : TreeNode) : Prop :=
  match type a, type b with
  | folder, file => True
  | file, folder => False
  | _, _ => localeCompare (name a) (name b) <= 0
  end.

(** Plain alphabetic order of the names, whatever the types. *)
Definition nameBefore (localeCompare : string -> string -> Z)
    (a b : TreeNode) : Prop :=
  localeCompare (name a) (name b) <= 0.

(** Every sibling list of the tree, at every depth, is sorted for [R]. *)
Inductive EveryLevel (R : TreeNode -> TreeNode -> Prop)
  : list TreeNode -> Prop :=
| EveryLevel_intro level :
    StronglySorted R level ->
    (forall nm pth cs, In (Folder nm pth cs) level -> EveryLevel R cs) ->
    EveryLevel R level.

(** One expected node: the non-empty segments leading to it, its path and
    its kind. *)
Record Entry : Type := mkEntry
  { segs : list string; epath : string; kind : Kind }.

Definition nonEmptyParts (parts : list string) : list string :=
  List.filter (fun part => negb (isEmpty part)) parts.

(** The nodes a split key stands for: one per index [i] with a non-empty
    [parts[i]], reached through the non-empty parts up to [i], with path
    [parts.slice(0, i + 1).join("/")]; the final part of the split has kind
    [lastKind], every other part is a folder. *)
Definition keyEntries (lastKind : Kind) (parts : list string) : list Entry :=
  flat_map
    (fun i =>
       match nth_error parts i with
       | Some part =>
           if isEmpty part then []
           else [ {| segs := nonEmptyParts (firstn (i + 1) parts);
                     epath := join "/" (firstn (i + 1) parts);
                     kind := if Nat.eqb i (length parts - 1) then lastKind
                             else KFolder |} ]
       | None => []
       end)
    (seq 0 (length parts)).

(** The objects the first pass sees. *)
Definition visibleObjects (objects : list R2ObjectItem) (hideKeepFiles : bool)
  : list R2ObjectItem :=
  if hideKeepFiles then List.filter Dashboard.notKeepFile objects else objects.

Definition objectEntries (obj : R2ObjectItem) : list Entry :=
  keyEntries (KFile (objSize obj)) (split "/" (key obj)).

(** The folders a [.keep] marker stands for in the second pass. *)
Definition keepEntries (obj : R2ObjectItem) : list Entry :=
  if endsWith "/.keep" (key obj) then
    keyEntries KFolder (split "/" (removeFirst "/.keep" (key obj)))
  else [].

Definition treeEntries (objects : list R2ObjectItem) (hideKeepFiles : bool)
  : list Entry :=
  flat_map objectEntries (visibleObjects objects hideKeepFiles) ++
  (if hideKeepFiles then flat_map keepEntries objects else []).

Definition list_eqb {A : Type} (eqb : A -> A -> bool) : list A -> list A -> bool :=
  fix go (l1 l2 : list A) : bool :=
    match l1, l2 with
    | [], [] => true
    | x :: l1', y :: l2' => eqb x y && go l1' l2'
    | _, _ => false
    end.

(** Two entries agree when they do not lead to the same place, or give it
    the same path and kind. *)
Definition agree (e1 e2 : Entry) : bool :=
  negb (list_eqb String.eqb (segs e1) (segs e2)) ||
  (String.eqb (epath e1) (epath e2) && Kind_eqb (kind e1) (kind e2)).

(** No two keys disagree on a node: none uses as a folder what another
    uses as a file, nor gives the same file two sizes, nor spells the path
    of the same node differently. *)
Definition consistent (es : list Entry) : bool :=
  forallb (fun e1 => forallb (agree e1) es) es.

(** The walk of both passes, over the non-empty parts only: [items] pairs
    each non-empty part with its [currentPath]; the last item has kind
    [lastKind], the others are folders. *)
Fixpoint plant (lastKind : Kind) (items : list (string * string))
    (level : list TreeNode) : list TreeNode :=
  match items with
  | [] => level
  | (part, pth) :: items' =>
      let k := match items' with [] => lastKind | _ :: _ => KFolder end in
      match findByName part level with
      | None =>
          match k with
          | KFile sz => level ++ [File part pth sz]
          | KFolder => level ++ [Folder part pth (plant lastKind items' [])]
          end
      | Some (Folder _ _ cs) =>
          match k with
          | KFile _ => level
          | KFolder => setChildren part (plant lastKind items' cs) level
          end
      | Some (File _ _ _) =>
          match k with
          | KFile _ => level
          | KFolder => plant lastKind items' level
          end
      end
  end.

(** The non-empty parts of [rest] with their paths, [pre] being the parts
    already passed. *)
Fixpoint itemsFrom (pre rest : list string) : list (string * string) :=
  match rest with
  | [] => []
  | part :: rest' =>
      if isEmpty part then itemsFrom (pre ++ [part]) rest'
      else (part, join "/" (pre ++ [part])) :: itemsFrom (pre ++ [part]) rest'
  end.

(** An entry seen from one level up, below the folder [part]. *)
Definition under (part : string) (e : Entry) : Entry :=
  {| segs := part :: segs e; epath := epath e; kind := kind e |}.

(** The entries of a list of items, relative to the level they are planted
    in. *)
Fixpoint itemEntries (lastKind : Kind) (items : list (string * string))
  : list Entry :=
  match items with
  | [] => []
  | (part, pth) :: items' =>
      {| segs := [part]; epath := pth;
         kind := match items' with [] => lastKind | _ :: _ => KFolder end |}
      :: map (under part) (itemEntries lastKind items')
  end.

(** The kind of the last non-empty part in the first pass: a file when it
    is the final part of the split, a folder when the key ends in "/". *)
Definition lastKindOf (obj : R2ObjectItem) (parts : list string) : Kind :=
  if isEmpty (List.last parts EmptyString) then KFolder else KFile (objSize obj).

(** The entry of index [j] of [rest], the parts [pre] having been passed. *)
Definition entryAt (lastKind : Kind) (pre rest : list string) (j : nat) : Entry :=
  {| segs := nonEmptyParts (firstn (j + 1) rest);
     epath := join "/" (pre ++ firstn (j + 1) rest);
     kind := if Nat.eqb j (length rest - 1) then lastKind else KFolder |}.

(** The level holds nothing that contradicts the entries about to be
    planted. *)
Definition Compat (level : list TreeNode) (es : list Entry) : Prop :=
  forall e p k, In e es -> Has level (segs e) p k -> p = epath e /\ k = kind e.

(** The tree holds exactly the nodes listed. *)
Definition Represents (t : list TreeNode) (es : list Entry) : Prop :=
  forall s p k, Has t s p k <-> In (mkEntry s p k) es.

(** The names of all nodes of the tree satisfy [P]. *)
Inductive NamesWithin (P : string -> Prop) : list TreeNode -> Prop :=
| NamesWithin_level level :
    (forall node, In node level -> P (name node)) ->
    (forall nm pth cs, In (Folder nm pth cs) level -> NamesWithin P cs) ->
    NamesWithin P level.

(** The parts the two passes read off the keys: those of each key and
    those of each key with its first "/.keep" removed. *)
Definition keyPart (objects : list R2ObjectItem) (part : string) : Prop :=
  exists obj, In obj objects /\
    (In part (split "/" (key obj)) \/
     In part (split "/" (removeFirst "/.keep" (key obj)))).

(** A collation that files "ä" with "a", as the German one does.  Byte by
    byte "ä" comes after "z", where the Swedish collation has it. *)
Definition germanCompare (a b : string) : Z :=
  let filed (s : string) := if String.eqb s "ä" then "a" else s in
  codeUnitCompare (filed a) (filed b).

End TreeSpec.

(* ===================================================================== *)
(** * packages/dashboard/src/components/d1/dummy-data-generator.ts *)
(* ===================================================================== *)

Module DummyData.
Import JsString.

(** ** Regular expressions, as far as the sources use them

    A pattern without the [u] flag reads its subject code unit by code
    unit. *)

Inductive Regex : Type :=
| Never                       (* matches nothing *)
| Eps                         (* the empty string *)
| Chr (c : ascii)             (* a literal ASCII character, under the [i] flag *)
| Dot                         (* [.]: any code unit but a line terminator *)
| Class (members : Z -> bool) (* [\d], [\s]: a code unit of the class *)
| Seq (r1 r2 : Regex)
| Alt (r1 r2 : Regex)
| Star (r : Regex).

Fixpoint nullable (r : Regex) : bool :=
  match r with
  | Never | Chr _ | Dot | Class _ => false
  | Eps | Star _ => true
  | Seq r1 r2 => nullable r1 && nullable r2
  | Alt r1 r2 => nullable r1 || nullable r2
  end.

(** The canonical form of a code unit below 128: its upper-case letter. *)
Definition upperUnit (u : Z) : Z :=
  if (97 <=? u)%Z && (u <=? 122)%Z then u - 32 else u.

(** The [i] flag compares canonical forms, and no code unit from 128 on
    has a canonical form below 128: an ASCII character of a pattern is
    matched by the code units below 128 of the same upper-case letter. *)
Definition chrMatches (c : ascii) (u : Z) : bool :=
  (u <? 128)%Z && (upperUnit u =? upperUnit (byte c))%Z.

(** LF, CR, U+2028 and U+2029. *)
Definition isLineTerminator (u : Z) : bool :=
  (u =? 10)%Z || (u =? 13)%Z || (u =? 8232)%Z || (u =? 8233)%Z.

(** What is left of [r] after reading the code unit [u]. *)
Fixpoint deriv (u : Z) (r : Regex) : Regex :=
  match r with
  | Never | Eps => Never
  | Chr c => if chrMatches c u then Eps else Never
  | Dot => if isLineTerminator u then Never else Eps
  | Class members => if members u then Eps else Never
  | Seq r1 r2 =>
      if nullable r1 then Alt (Seq (deriv u r1) r2) (deriv u r2)
      else Seq (deriv u r1) r2
  | Alt r1 r2 => Alt (deriv u r1) (deriv u r2)
  | Star r1 => Seq (deriv u r1) (Star r1)
  end.

Fixpoint testUnits (r : Regex) (units : list Z) : bool :=
  match units with
  | [] => nullable r
  | u :: units' => testUnits (deriv u r) units'
  end.

(** [/^r$/i.test(s)]: the whole of [s] matches [r]. *)
Definition test (r : Regex) (s : string) : bool :=
  testUnits r (codeUnits s).

Fixpoint lit (s : string) : Regex :=
  match s with
  | EmptyString => Eps
  | String c s' => Seq (Chr c) (lit s')
  end.

Definition opt (r : Regex) : Regex := Alt r Eps.

Definition oneOf (words : list string) : Regex :=
  fold_right (fun w r => Alt (lit w) r) Never words.

(** [/^(created|updated|deleted|modified|published|expires?)_?at$/i],
    [/^(created|updated|deleted|modified|published)_?(date|time|on)$/i],
    [/^(start|end|begin|finish|due|birth|event)_?(date|time|at)?$/i],
    [/^date_?(of|created|updated|time)?$/i], [/^timestamp$/i],
    [/^.*_timestamp$/i]. *)
Definition DATE_TIME_PATTERNS : list Regex :=
  [ Seq (Alt (oneOf ["created"; "updated"; "deleted"; "modified"; "published"])
             (Seq (lit "expire") (opt (lit "s"))))
        (Seq (opt (lit "_")) (lit "at"));
    Seq (oneOf ["created"; "updated"; "deleted"; "modified"; "published"])
        (Seq (opt (lit "_")) (oneOf ["date"; "time"; "on"]));
    Seq (oneOf ["start"; "end"; "begin"; "finish"; "due"; "birth"; "event"])
        (Seq (opt (lit "_")) (opt (oneOf ["date"; "time"; "at"])));
    Seq (lit "date")
        (Seq (opt (lit "_")) (opt (oneOf ["of"; "created"; "updated"; "time"])));
    lit "timestamp";
    Seq (Star Dot) (lit "_timestamp") ].

(** [/^(birth|event|start|end|due)_?date$/i], [/^date$/i], [/^.*_date$/i]. *)
Definition DATE_ONLY_PATTERNS : list Regex :=
  [ Seq (oneOf ["birth"; "event"; "start"; "end"; "due"])
        (Seq (opt (lit "_")) (lit "date"));
    lit "date";
    Seq (Star Dot) (lit "_date") ].

(** [/^(start|end)_?time$/i], [/^time$/i]. *)
Definition TIME_ONLY_PATTERNS : list Regex :=
  [ Seq (oneOf ["start"; "end"]) (Seq (opt (lit "_")) (lit "time"));
    lit "time" ].

Inductive DateTimeMatch : Type := datetime | date | time.

(** The three loops return at the first pattern that matches. *)
Definition matchesDateTimePattern (E : Engine) (name : string) : option DateTimeMatch :=
  let lowerName := toLowerCase E name in
  if existsb (fun pattern => test pattern lowerName) TIME_ONLY_PATTERNS then Some time
  else if existsb (fun pattern => test pattern lowerName) DATE_ONLY_PATTERNS then Some date
  else if existsb (fun pattern => test pattern lowerName) DATE_TIME_PATTERNS
       then Some datetime
  else None.

(** ** Columns, cells and rows *)

(** Modelled from the spec: [./types] is not among the sources; the record
    holds the fields of a column the generator reads, [pk] being the
    number SQLite reports. *)
Record D1Column : Type := mkColumn
  { colName : string; colType : string; pk : Z }.

(** Modelled from the spec: [./types] is not among the sources; a cell is
    null, a number or a string. *)
Inductive D1CellValue : Type :=
| CellNull
| CellNumber (x : Q)
| CellText (s : string).

(** Modelled from the spec: [./types] is not among the sources; the
    generator reads the columns of a schema. *)
Record D1TableSchema : Type := mkSchema { columns : list D1Column }.

(** A row starts as [{}]: it holds its own properties, an assigned
    [undefined] being [None], and it may still have [Object.prototype]
    for its prototype. *)
Record Row : Type := mkRow
  { own : gmap string (option D1CellValue);
    inheritsObjectPrototype : bool }.

(** [{}]. *)
Definition emptyRow : Row := mkRow ∅ true.

(** [row[key] = value].  The name [__proto__] reaches the setter that
    [Object.prototype] holds for it, which takes [null] for the new
    prototype and drops every other cell value; once the prototype is
    gone the name is a property like the others. *)
Definition assign (key : string) (value : option D1CellValue) (row : Row) : Row :=
  if String.eqb key "__proto__" && inheritsObjectPrototype row then
    match value with
    | Some CellNull => mkRow (own row) false
    | _ => row
    end
  else mkRow (<[key := value]> (own row)) (inheritsObjectPrototype row).

(** [Object.prototype[name]?.length]: the methods every object inherits
    have the number of their parameters for [length]; the accessor
    [__proto__] gives [Object.prototype] itself, which has none. *)
Definition objectPrototypeLength (name : string) : option Z :=
  if String.eqb name "constructor" then Some 1
  else if String.eqb name "hasOwnProperty" then Some 1
  else if String.eqb name "isPrototypeOf" then Some 1
  else if String.eqb name "propertyIsEnumerable" then Some 1
  else if String.eqb name "toLocaleString" then Some 0
  else if String.eqb name "toString" then Some 0
  else if String.eqb name "valueOf" then Some 0
  else if String.eqb name "__defineGetter__" then Some 2
  else if String.eqb name "__defineSetter__" then Some 2
  else if String.eqb name "__lookupGetter__" then Some 1
  else if String.eqb name "__lookupSetter__" then Some 1
  else None.

(** What [foreignKeyValues[col.name]] gives when its [length] is above 0:
    a list the map holds, or a method the map inherits. *)
Inductive ForeignKeySource : Type :=
| SuppliedList (fkValues : list D1CellValue)
| InheritedMethod (parameters : Z).

(** ** The random sources *)

(** Faker and [Math.random] belong to the platform.  [Rng] is the state
    their draws advance, [JsDate] what [faker.date.past()] returns. *)
Record Platform : Type := mkPlatform
  { Rng : Type;
    JsDate : Type;
    faker_date_past : Rng -> JsDate * Rng;
    toISOString : JsDate -> string;
    toTimeString : JsDate -> string;
    (* faker.number.int({ min, max }) *)
    faker_number_int : Z -> Z -> Rng -> Z * Rng;
    (* faker.number.float({ min, max, fractionDigits }) *)
    faker_number_float : Z -> Z -> Z -> Rng -> Q * Rng;
    faker_datatype_boolean : Rng -> bool * Rng;
    (* faker.lorem.words({ min, max }) *)
    faker_lorem_words : Z -> Z -> Rng -> string * Rng;
    Math_random : Rng -> Q * Rng;
    (* String.prototype.toUpperCase and toLowerCase *)
    engine : Engine }.

(** What their documentation promises: draws stay within the bounds asked
    for, and [Math.random()] lies in [0, 1). *)
Record PlatformOk (P : Platform) : Prop := mkPlatformOk
  { faker_number_int_range : forall min max g,
      min <= max ->
      min <= fst (faker_number_int P min max g) <= max;
    faker_number_float_range : forall min max digits g,
      min <= max ->
      (inject_Z min <= fst (faker_number_float P min max digits g))%Q /\
      (fst (faker_number_float P min max digits g) <= inject_Z max)%Q;
    Math_random_range : forall g,
      (0 <= fst (Math_random P g))%Q /\ (fst (Math_random P g) < 1)%Q }.

Section Generator.
Context (P : Platform).

(** A computation that draws from the random sources. *)
Definition Gen (A : Type) : Type := Rng P -> A * Rng P.

Definition ret {A : Type} (a : A) : Gen A := fun g => (a, g).

Definition bind {A B : Type} (m : Gen A) (f : A -> Gen B) : Gen B :=
  fun g => let '(a, g') := m g in f a g'.

Notation "'draw' x ':=' m 'in' k" := (bind m (fun x => k))
  (at level 10, x name, m at level 100, k at level 200).

(** [s.split(sep)[0]]. *)
Definition firstPart (sep : ascii) (s : string) : string :=
  List.hd EmptyString (split sep s).

Definition isoDateTime : Gen (option D1CellValue) :=
  draw d := faker_date_past P in ret (Some (CellText (toISOString P d))).

Definition isoDate : Gen (option D1CellValue) :=
  draw d := faker_date_past P in
  ret (Some (CellText (firstPart "T" (toISOString P d)))).

Definition clockTime : Gen (option D1CellValue) :=
  draw d := faker_date_past P in
  ret (Some (CellText (firstPart " " (toTimeString P d)))).

(** [undefined] is [None]. *)
Definition generateValueForColumn (column : D1Column) : Gen (option D1CellValue) :=
  if (pk column =? 1)%Z &&
     String.eqb (toUpperCase (engine P) (colType column)) "INTEGER" then
    ret None
  else
    let type := toUpperCase (engine P) (colType column) in
    if includes "DATETIME" type || includes "TIMESTAMP" type then isoDateTime
    else if String.eqb type "DATE" then isoDate
    else if String.eqb type "TIME" then clockTime
    else if includes "INT" type then
      draw n := faker_number_int P 1 1000 in ret (Some (CellNumber (inject_Z n)))
    else if includes "REAL" type || includes "FLOAT" type || includes "DOUBLE" type then
      draw x := faker_number_float P 0 100 2 in ret (Some (CellNumber x))
    else if includes "BOOL" type then
      draw b := faker_datatype_boolean P in
      ret (Some (CellNumber (if b then 1%Q else 0%Q)))
    else if includes "NUMERIC" type || includes "DECIMAL" type then
      draw x := faker_number_float P 0 1000 2 in ret (Some (CellNumber x))
    else if includes "BLOB" type then ret (Some CellNull)
    else
      let dateTimeMatch := matchesDateTimePattern (engine P) (colName column) in
      match dateTimeMatch with
      | Some datetime => isoDateTime
      | Some date => isoDate
      | Some time => clockTime
      | None =>
          draw w := faker_lorem_words P 2 5 in ret (Some (CellText w))
      end.


(** [fkValues[Math.floor(Math.random() * fkValues.length)]]; the product is
    taken exactly. *)
Definition pickForeignKey (fkValues : list D1CellValue) : Gen (option D1CellValue) :=
  draw r := Math_random P in
  ret (nth_error fkValues
         (Z.to_nat (Qfloor (r * inject_Z (Z.of_nat (length fkValues)))))).

(** [fkValues[Math.floor(Math.random() * fkValues.length)]] on a method:
    the draw is made, and a function holds nothing under an index. *)
Definition pickFromMethod : Gen (option D1CellValue) :=
  draw r := Math_random P in ret None.

(** [foreignKeyValues && foreignKeyValues[col.name]?.length > 0], and what
    [foreignKeyValues[col.name]] then is.  The map holds the lists as its
    own properties and has [Object.prototype] for its prototype: a name
    it does not hold is looked up there. *)
Definition foreignKeysFor (foreignKeyValues : option (gmap string (list D1CellValue)))
    (col : D1Column) : option ForeignKeySource :=
  match foreignKeyValues with
  | Some fks =>
      match fks !! colName col with
      | Some fkValues =>
          if (0 <? length fkValues)%nat then Some (SuppliedList fkValues) else None
      | None =>
          match objectPrototypeLength (colName col) with
          | Some parameters =>
              if (0 <? parameters)%Z then Some (InheritedMethod parameters) else None
          | None => None
          end
      end
  | None => None
  end.

(** One iteration of [for (const col of schema.columns)]. *)
Definition fillColumn (foreignKeyValues : option (gmap string (list D1CellValue)))
    (row : Row) (col : D1Column) : Gen Row :=
  match foreignKeysFor foreignKeyValues col with
  | Some (SuppliedList fkValues) =>
      draw v := pickForeignKey fkValues in ret (assign (colName col) v row)
  | Some (InheritedMethod _) =>
      draw v := pickFromMethod in ret (assign (colName col) v row)
  | None =>
      draw value := generateValueForColumn col in
      match value with
      | Some v => ret (assign (colName col) (Some v) row)
      | None => ret row
      end
  end.

Fixpoint fillColumns (foreignKeyValues : option (gmap string (list D1CellValue)))
    (cols : list D1Column) (row : Row) : Gen Row :=
  match cols with
  | [] => ret row
  | col :: cols' =>
      draw row' := fillColumn foreignKeyValues row col in
      fillColumns foreignKeyValues cols' row'
  end.

Definition generateDummyRow (schema : D1TableSchema)
    (foreignKeyValues : option (gmap string (list D1CellValue))) : Gen Row :=
  fillColumns foreignKeyValues (columns schema) emptyRow.

End Generator.

(** A platform to run the generator on: the state counts the draws. *)
Definition countingPlatform : Platform :=
  {| Rng := nat;
     JsDate := unit;
     faker_date_past := fun g => (tt, S g);
     toISOString := fun _ => "2024-05-06T07:08:09.000Z";
     toTimeString := fun _ => "07:08:09 GMT+0000 (Coordinated Universal Time)";
     faker_number_int := fun min max g =>
       (if (min <=? max)%Z then min + Z.of_nat g mod (max - min + 1) else min, S g);
     faker_number_float := fun min max _ g => (inject_Z min, S g);
     faker_datatype_boolean := fun g => (Nat.even g, S g);
     faker_lorem_words := fun _ _ g => ("lorem ipsum", S g);
     Math_random := fun g => ((Z.of_nat g mod 4) # 4, S g);
     engine := asciiEngine |}.

End DummyData.

(* ===================================================================== *)
(** * The playground worker: the Counter durable object and the routes *)
(* ===================================================================== *)

Module Playground.

(** ** Numbers

    The numbers of the program are binary64 numbers.  One that holds an
    integer is kept as that integer, and [binary64 n] is the number the
    arithmetic gives when the exact result is the integer [n]: [n] itself
    when it is a number, otherwise the nearest number, and of two equally
    near the one whose significand is even. *)
Definition binary64 (n : Z) : Z :=
  let a := Z.abs n in
  if (a <? 2 ^ 53)%Z then n
  else
    let ulp := 2 ^ (Z.log2 a - 52) in
    let q := a / ulp in
    let r := a mod ulp in
    let rounded :=
      if (2 * r <? ulp)%Z then q
      else if (ulp <? 2 * r)%Z then q + 1
      else if Z.even q then q else q + 1 in
    Z.sgn n * (rounded * ulp).

(** A value thrown by a binding. *)
Inductive JsError : Type := mkError (message : string).

(** An awaited call either returns or throws. *)
Inductive Outcome (A : Type) : Type :=
| Returned (a : A)
| Thrown (e : JsError).
Arguments Returned {A} a.
Arguments Thrown {A} e.

(** [await] in a handler without [try]: a throw leaves the handler. *)
Definition await {A B : Type} (m : Outcome A) (k : A -> Outcome B) : Outcome B :=
  match m with
  | Returned a => k a
  | Thrown e => Thrown e
  end.

(** A row of the [users] table, as [first()] returns it. *)
Definition D1Row : Type := list (string * string).

(** What [STORAGE.get(key)] returns when the object exists. *)
Record R2ObjectBody : Type := mkR2ObjectBody
  { body : string;
    (* object.httpMetadata?.contentType *)
    httpContentType : option string }.

Inductive Body : Type :=
| JsonValue (value : Z)               (* { value } *)
| JsonError (error : string)          (* { error } *)
| JsonRow (row : D1Row)               (* the row itself *)
| JsonKeyValue (key value : string)   (* { key, value } *)
| Stream (bytes : string).            (* object.body *)

Record Response : Type := mkResponse
  { status : Z;
    headers : list (string * string);   (* those the handler sets itself *)
    payload : Body }.

(** [c.json(data)], [c.json(data, status)] and [Response.json(data)]. *)
Definition json (data : Body) (status : Z) : Response :=
  {| status := status; headers := []; payload := data |}.

(** ** The Counter durable object *)

(** An instance: the field [value] and the object's own storage, which
    holds under ['value'] a number the object has put there, an integer. *)
Record Counter : Type := mkCounter
  { value : Z; storage : gmap string Z }.

(** A new instance: [private value: number = 0], over the storage the
    platform keeps for the object. *)
Definition newCounter (stored : gmap string Z) : Counter :=
  {| value := 0; storage := stored |}.

Definition setValue (v : Z) (this : Counter) : Counter :=
  {| value := v; storage := storage this |}.

(** [await this.ctx.storage.put('value', this.value)]. *)
Definition putValue (this : Counter) : Counter :=
  {| value := value this; storage := <["value" := value this]> (storage this) |}.

(** [Counter.fetch], on the [pathname] of the request's URL. *)
Definition Counter_fetch (pathname : string) (this : Counter) : Response * Counter :=
  (* this.value = (await this.ctx.storage.get<number>('value')) ?? 0 *)
  let this := setValue (default 0 (storage this !! "value")) this in
  if String.eqb pathname "/increment" then
    (* this.value++ *)
    let this := setValue (binary64 (value this + 1)) this in
    let this := putValue this in
    (json (JsonValue (value this)) 200, this)
  else if String.eqb pathname "/decrement" then
    (* this.value-- *)
    let this := setValue (binary64 (value this - 1)) this in
    let this := putValue this in
    (json (JsonValue (value this)) 200, this)
  else if String.eqb pathname "/reset" then
    let this := setValue 0 this in
    let this := putValue this in
    (json (JsonValue (value this)) 200, this)
  else
    (json (JsonValue (value this)) 200, this).

(** The [COUNTER] namespace: [idFromName(name)] names one object per name;
    an object never addressed before starts with empty storage. *)
Definition objectNamed (name : string) (COUNTER : gmap string Counter) : Counter :=
  default (newCounter ∅) (COUNTER !! name).

(** [stub.fetch(new Request('http://counter' + pathname))]. *)
Definition stubFetch (name pathname : string) (COUNTER : gmap string Counter)
  : Response * gmap string Counter :=
  let '(response, this) := Counter_fetch pathname (objectNamed name COUNTER) in
  (response, <[name := this]> COUNTER).

(** [GET /api/counter/:name] and the three [POST] routes. *)
Definition getCounter (name : string) := stubFetch name "/".
Definition postCounterIncrement (name : string) := stubFetch name "/increment".
Definition postCounterDecrement (name : string) := stubFetch name "/decrement".
Definition postCounterReset (name : string) := stubFetch name "/reset".

(** The number the storage of the object of that name holds; a missing
    entry counts as 0. *)
Definition storedValue (name : string) (COUNTER : gmap string Counter) : Z :=
  default 0 (storage (objectNamed name COUNTER) !! "value").

(** The platform may drop an idle instance and build a new one over the
    same storage. *)
Definition evict (name : string) (COUNTER : gmap string Counter)
  : gmap string Counter :=
  <[name := newCounter (storage (objectNamed name COUNTER))]> COUNTER.

(** ** The read-by-key routes *)

(** The bindings the three routes read. *)
Record Env : Type := mkEnv
  { (* DB.prepare(sql).bind(...args).first() *)
    DB_first : string -> list string -> Outcome (option D1Row);
    (* CACHE.get(key) *)
    CACHE_get : string -> Outcome (option string);
    (* STORAGE.get(key) *)
    STORAGE_get : string -> Outcome (option R2ObjectBody) }.

(** [GET /api/users/:id]. *)
Definition getUser (env : Env) (id : string) : Outcome Response :=
  await (DB_first env "SELECT * FROM users WHERE id = ?" [id]) (fun user =>
  match user with
  | None => Returned (json (JsonError "User not found") 404)
  | Some row => Returned (json (JsonRow row) 200)
  end).

(** [GET /api/kv/:key]. *)
Definition getKV (env : Env) (key : string) : Outcome Response :=
  await (CACHE_get env key) (fun value =>
  match value with
  | None => Returned (json (JsonError "Key not found") 404)
  | Some v => Returned (json (JsonKeyValue key v) 200)
  end).

(** [GET /api/files/:key]. *)
Definition getFile (env : Env) (key : string) : Outcome Response :=
  await (STORAGE_get env key) (fun object =>
  match object with
  | None => Returned (json (JsonError "File not found") 404)
  | Some obj =>
      Returned
        {| status := 200;
           headers := [("Content-Type",
                        default "application/octet-stream" (httpContentType obj))];
           payload := Stream (body obj) |}
  end).

End Playground.

(* ===================================================================== *)
(** * packages/core: binding discovery and LocalFlare.start *)
(* ===================================================================== *)

Module Core.
Import Playground.

(** Modelled from the spec: [./types.js] is not among the sources; each
    record holds the fields of a binding that [start] reads. *)
Record D1Binding : Type := mkD1 { d1_binding : string; database_id : string }.
Record KVBinding : Type := mkKV { kv_binding : string; kv_id : string }.
Record R2Binding : Type := mkR2 { r2_binding : string; bucket_name : string }.
Record DOBinding : Type := mkDO { do_name : string; class_name : string }.
Record QueueProducer : Type := mkProducer { q_binding : string; queue : string }.
Record QueueConsumer : Type := mkConsumer { consumer_queue : string }.

Record QueuesConfig : Type := mkQueuesConfig
  { cfg_producers : option (list QueueProducer);
    cfg_consumers : option (list QueueConsumer) }.

Record DurableObjectsConfig : Type := mkDurableObjectsConfig
  { cfg_bindings : option (list DOBinding) }.

(** The parsed wrangler configuration; an absent key is [None]. *)
Record WranglerConfig : Type := mkConfig
  { main : option string;
    d1_databases : option (list D1Binding);
    kv_namespaces : option (list KVBinding);
    r2_buckets : option (list R2Binding);
    durable_objects : option DurableObjectsConfig;
    cfg_queues : option QueuesConfig;
    cfg_vars : option (gmap string string) }.

Record DiscoveredQueues : Type := mkQueues
  { producers : list QueueProducer; consumers : list QueueConsumer }.

Record DiscoveredBindings : Type := mkBindings
  { d1 : list D1Binding;
    kv : list KVBinding;
    r2 : list R2Binding;
    durableObjects : list DOBinding;
    queues : DiscoveredQueues;
    vars : gmap string string }.

(** [x ?? []] and [x?.field]. *)
Definition discoverBindings (config : WranglerConfig) : DiscoveredBindings :=
  {| d1 := default [] (d1_databases config);
     kv := default [] (kv_namespaces config);
     r2 := default [] (r2_buckets config);
     durableObjects :=
       default [] (match durable_objects config with
                   | Some d => cfg_bindings d
                   | None => None
                   end);
     queues :=
       {| producers := default [] (match cfg_queues config with
                                   | Some q => cfg_producers q
                                   | None => None
                                   end);
          consumers := default [] (match cfg_queues config with
                                   | Some q => cfg_consumers q
                                   | None => None
                                   end) |};
     vars := default ∅ (cfg_vars config) |}.

(** [Required<LocalFlareOptions>]. *)
Record LocalFlareOptions : Type := mkOptions
  { configPath : string;
    port : Z;
    dashboardPort : Z;
    persistPath : string;
    verbose : bool }.

(** The options object handed to [new Miniflare(...)]; a key that was not
    set is [None]. *)
Module Miniflare.

Record WorkerModule : Type := mkModule
  { type : string; path : string; contents : string }.

Record Options : Type := mkOptions
  { modules : list WorkerModule;
    port : Z;
    verbose : bool;
    kvPersist : string;
    d1Persist : string;
    r2Persist : string;
    durableObjectsPersist : string;
    cachePersist : string;
    bindings : gmap string string;
    d1Databases : option (gmap string string);
    kvNamespaces : option (gmap string string);
    r2Buckets : option (gmap string string);
    queueProducers : option (gmap string string);
    durableObjects : option (gmap string string) }.

End Miniflare.

(** [Object.fromEntries(entries)]: a later entry overwrites an earlier one
    with the same key. *)
Definition fromEntries (entries : list (string * string)) : gmap string string :=
  fold_left (fun obj entry => <[fst entry := snd entry]> obj) entries ∅.

(** [if (Object.keys(obj).length > 0) options.key = obj]. *)
Definition onlyIfAny (obj : gmap string string) : option (gmap string string) :=
  if (0 <? length (map_to_list obj))%nat then Some obj else None.

(** What [start] calls outside this repository's pure code: [node:path],
    the reading and parsing of the configuration file, esbuild, and the
    emulated runtime. *)
Record Host : Type := mkHost
  { resolve : list string -> string;
    dirname : string -> string;
    parseWranglerConfig : string -> Outcome WranglerConfig;
    (* buildResult.outputFiles?.[0]?.text of esbuild.build for an entry point *)
    esbuild_build : string -> Outcome (option string);
    (* new Miniflare(options), then await mf.ready *)
    miniflare_ready : Miniflare.Options -> Outcome string }.

(** [LocalFlare.start()]; when it succeeds the result is the options object
    the emulated runtime was built from. *)
Definition start (host : Host) (options : LocalFlareOptions)
  : Outcome Miniflare.Options :=
  let configPath := resolve host [configPath options] in
  let rootDir := dirname host configPath in
  await (parseWranglerConfig host configPath) (fun config =>
  let bindings_ := discoverBindings config in
  let persistRoot := resolve host [rootDir; persistPath options] in
  (* this.config.main || 'src/index.ts' *)
  let entryPoint :=
    resolve host [rootDir;
                  match main config with
                  | Some m => if JsString.isEmpty m then "src/index.ts" else m
                  | None => "src/index.ts"
                  end] in
  await (esbuild_build host entryPoint) (fun scriptContent =>
  match scriptContent with
  | None => Thrown (mkError "Failed to compile worker script")
  | Some script =>
      if JsString.isEmpty script then
        Thrown (mkError "Failed to compile worker script")
      else
        let d1Databases :=
          fromEntries (map (fun d => (d1_binding d, database_id d)) (d1 bindings_)) in
        let kvNamespaces :=
          fromEntries (map (fun k => (kv_binding k, kv_id k)) (kv bindings_)) in
        let r2Buckets :=
          fromEntries (map (fun r => (r2_binding r, bucket_name r)) (r2 bindings_)) in
        let queueProducers :=
          fromEntries (map (fun q => (q_binding q, queue q))
                           (producers (queues bindings_))) in
        let durableObjects :=
          fromEntries (map (fun d => (do_name d, class_name d))
                           (durableObjects bindings_)) in
        let miniflareOptions :=
          {| Miniflare.modules := [ {| Miniflare.type := "ESModule";
                                       Miniflare.path := entryPoint;
                                       Miniflare.contents := script |} ];
             Miniflare.port := port options;
             Miniflare.verbose := verbose options;
             Miniflare.kvPersist := persistRoot ++ "/kv";
             Miniflare.d1Persist := persistRoot ++ "/d1";
             Miniflare.r2Persist := persistRoot ++ "/r2";
             Miniflare.durableObjectsPersist := persistRoot ++ "/do";
             Miniflare.cachePersist := persistRoot ++ "/cache";
             Miniflare.bindings := vars bindings_;
             Miniflare.d1Databases := onlyIfAny d1Databases;
             Miniflare.kvNamespaces := onlyIfAny kvNamespaces;
             Miniflare.r2Buckets := onlyIfAny r2Buckets;
             Miniflare.queueProducers := onlyIfAny queueProducers;
             Miniflare.durableObjects := onlyIfAny durableObjects |} in
        await (miniflare_ready host miniflareOptions) (fun url =>
        Returned miniflareOptions)
  end)).

End Core.

(* ===================================================================== *)
(** * The dispatch table of the generator, row by row *)
(* ===================================================================== *)

Module DummyDataSpec.
Import JsString DummyData.

Section Table.
Context (P : Platform).

Definition upperType (column : D1Column) : string :=
  toUpperCase (engine P) (colType column).

(** What a generated value can be. *)
Definition yieldsNothing (v : option D1CellValue) : Prop := v = None.

Definition yieldsIsoDateTime (v : option D1CellValue) : Prop :=
  exists d, v = Some (CellText (toISOString P d)).

Definition yieldsIsoDate (v : option D1CellValue) : Prop :=
  exists d, v = Some (CellText (firstPart "T" (toISOString P d))).

Definition yieldsClockTime (v : option D1CellValue) : Prop :=
  exists d, v = Some (CellText (firstPart " " (toTimeString P d))).

Definition yieldsIntegerBetween (lo hi : Z) (v : option D1CellValue) : Prop :=
  exists n, v = Some (CellNumber (inject_Z n)) /\ lo <= n <= hi.

Definition yieldsFloatBetween (lo hi : Z) (v : option D1CellValue) : Prop :=
  exists x, v = Some (CellNumber x) /\
            (inject_Z lo <= x)%Q /\ (x <= inject_Z hi)%Q.

Definition yieldsZeroOrOne (v : option D1CellValue) : Prop :=
  v = Some (CellNumber 0) \/ v = Some (CellNumber 1).

Definition yieldsNull (v : option D1CellValue) : Prop := v = Some CellNull.

Definition yieldsWords (v : option D1CellValue) : Prop :=
  exists w, v = Some (CellText w).

Definition typeHas (word : string) (column : D1Column) : bool :=
  includes word (upperType column).

Definition nameMatches (m : option DateTimeMatch) (column : D1Column) : bool :=
  match matchesDateTimePattern (engine P) (colName column), m with
  | Some datetime, Some datetime | Some date, Some date
  | Some time, Some time | None, None => true
  | _, _ => false
  end.

(** The table as the specification lists it: the first row whose test
    holds decides. *)
Definition claimedTable
  : list ((D1Column -> bool) * (option D1CellValue -> Prop)) :=
  [ (fun c => (pk c =? 1)%Z && String.eqb (upperType c) "INTEGER", yieldsNothing);
    (fun c => typeHas "DATETIME" c || typeHas "TIMESTAMP" c, yieldsIsoDateTime);
    (typeHas "INT", yieldsIntegerBetween 1 1000);
    (fun c => typeHas "REAL" c || typeHas "FLOAT" c || typeHas "DOUBLE" c,
     yieldsFloatBetween 0 100);
    (typeHas "BOOL", yieldsZeroOrOne);
    (typeHas "BLOB", yieldsNull);
    (nameMatches None, yieldsWords) ].

(** The table of the code: the rows above, and those the specification
    leaves out (the types DATE and TIME, NUMERIC and DECIMAL, and the
    columns named like a date or a time). *)
Definition dispatchTable
  : list ((D1Column -> bool) * (option D1CellValue -> Prop)) :=
  [ (fun c => (pk c =? 1)%Z && String.eqb (upperType c) "INTEGER", yieldsNothing);
    (fun c => typeHas "DATETIME" c || typeHas "TIMESTAMP" c, yieldsIsoDateTime);
    (fun c => String.eqb (upperType c) "DATE", yieldsIsoDate);
    (fun c => String.eqb (upperType c) "TIME", yieldsClockTime);
    (typeHas "INT", yieldsIntegerBetween 1 1000);
    (fun c => typeHas "REAL" c || typeHas "FLOAT" c || typeHas "DOUBLE" c,
     yieldsFloatBetween 0 100);
    (typeHas "BOOL", yieldsZeroOrOne);
    (fun c => typeHas "NUMERIC" c || typeHas "DECIMAL" c, yieldsFloatBetween 0 1000);
    (typeHas "BLOB", yieldsNull);
    (nameMatches (Some datetime), yieldsIsoDateTime);
    (nameMatches (Some date), yieldsIsoDate);
    (nameMatches (Some time), yieldsClockTime);
    (nameMatches None, yieldsWords) ].

(** The outcome the first matching row of a table names. *)
Definition decides (table : list ((D1Column -> bool) * (option D1CellValue -> Prop)))
    (column : D1Column) (v : option D1CellValue) : Prop :=
  match List.find (fun row => fst row column) table with
  | Some row => snd row v
  | None => False
  end.

(** The foreign-key map supplies a non-empty list for the column. *)
Definition supplies (foreignKeyValues : option (gmap string (list D1CellValue)))
    (col : D1Column) (fkValues : list D1CellValue) : Prop :=
  exists fks, foreignKeyValues = Some fks /\
              fks !! colName col = Some fkValues /\ fkValues <> [].

(** What the row holds under a supplied name other than [__proto__] came
    from the list. *)
Definition fromLists (foreignKeyValues : option (gmap string (list D1CellValue)))
    (row : Row) : Prop :=
  forall col fkValues,
    supplies foreignKeyValues col fkValues ->
    colName col <> "__proto__" ->
    own row !! colName col = None \/
    exists v, own row !! colName col = Some (Some v) /\ In v fkValues.

(** Two column lists that differ only in the types and primary-key marks
    of columns the map supplies. *)
Definition sameButSupplied (foreignKeyValues : option (gmap string (list D1CellValue)))
    (cols cols' : list D1Column) : Prop :=
  Forall2 (fun c c' => colName c = colName c' /\
                       ((forall fkValues, ~ supplies foreignKeyValues c fkValues) ->
                        c = c'))
          cols cols'.

End Table.

End DummyDataSpec.

(* ===================================================================== *)
(** * Answers of the routes *)
(* ===================================================================== *)

Module PlaygroundSpec.
Import Playground.

(** The handler answered 404 with an error body. *)
Definition answersNotFound (o : Outcome Response) : Prop :=
  exists r message, o = Returned r /\ status r = 404 /\ payload r = JsonError message.

End PlaygroundSpec.

(* ===================================================================== *)
(** * What an entry of the runtime options must hold *)
(* ===================================================================== *)

Module CoreSpec.
Import Playground Core.

(** [entry], a key of the options object, stands for the bindings [pairs]
    (name and configured value, in configuration order): it is present
    exactly when there is a binding; its keys are the binding names; and a
    name maps to the value configured by its (last) binding. *)
Definition entryFor (entry : option (gmap string string))
    (pairs : list (string * string)) : Prop :=
  (is_Some entry <-> pairs <> []) /\
  forall obj, entry = Some obj ->
    (forall name, is_Some (obj !! name) <-> In name (map fst pairs)) /\
    (forall before name value after,
       pairs = before ++ (name, value) :: after ->
       ~ In name (map fst after) ->
       obj !! name = Some value).

(** A host on which [start] succeeds: the configuration binds two D1
    databases and nothing else. *)
Definition demoHost : Host :=
  {| resolve := fun segments => JsString.join "/" segments;
     dirname := fun _ => "/app";
     parseWranglerConfig := fun _ =>
       Returned {| main := None;
                   d1_databases := Some [mkD1 "DB" "db-main"; mkD1 "LOGS" "db-logs"];
                   kv_namespaces := None;
                   r2_buckets := None;
                   durable_objects := None;
                   cfg_queues := None;
                   cfg_vars := None |};
     esbuild_build := fun _ => Returned (Some "export default {}");
     miniflare_ready := fun _ => Returned "http://localhost:8787" |}.

Definition demoOptions : LocalFlareOptions :=
  {| configPath := "./wrangler.toml"; port := 8787; dashboardPort := 8788;
     persistPath := ".localflare"; verbose := false |}.

End CoreSpec.

(* ===================================================================== *)
(** * JavaScript: white space and [parseInt] *)
(* ===================================================================== *)

Module JsText.
Import JsString.

(** [WhiteSpace] and [LineTerminator], by code unit: TAB, LF, VT, FF, CR,
    SP, NBSP, U+1680, U+2000 to U+200A, U+2028, U+2029, U+202F, U+205F,
    U+3000 and U+FEFF. *)
Definition isWhiteSpace (u : Z) : bool :=
  ((9 <=? u)%Z && (u <=? 13)%Z) || (u =? 32)%Z || (u =? 160)%Z || (u =? 5760)%Z
  || ((8192 <=? u)%Z && (u <=? 8202)%Z) || (u =? 8232)%Z || (u =? 8233)%Z
  || (u =? 8239)%Z || (u =? 8287)%Z || (u =? 12288)%Z || (u =? 65279)%Z.

(** A white-space character takes one, two or three bytes. *)
Definition isWhiteSpace1 (b0 : ascii) : bool :=
  (byte b0 <? 128)%Z && isWhiteSpace (byte b0).

Definition isWhiteSpace2 (b0 b1 : ascii) : bool :=
  match decode2 b0 b1 with
  | Some u => isWhiteSpace u
  | None => false
  end.

Definition isWhiteSpace3 (b0 b1 b2 : ascii) : bool :=
  match decode3 b0 b1 b2 with
  | Some u => isWhiteSpace u
  | None => false
  end.

(** [s.trimStart()]. *)
Fixpoint trimStart (s : string) : string :=
  match s with
  | EmptyString => EmptyString
  | String b0 s1 =>
      if isWhiteSpace1 b0 then trimStart s1
      else
        match s1 with
        | EmptyString => s
        | String b1 s2 =>
            if isWhiteSpace2 b0 b1 then trimStart s2
            else
              match s2 with
              | EmptyString => s
              | String b2 s3 => if isWhiteSpace3 b0 b1 b2 then trimStart s3 else s
              end
        end
  end.

(** The same from the other end, on the bytes in reverse order. *)
Fixpoint trimReversed (r : string) : string :=
  match r with
  | EmptyString => EmptyString
  | String b0 r1 =>
      if isWhiteSpace1 b0 then trimReversed r1
      else
        match r1 with
        | EmptyString => r
        | String b1 r2 =>
            if isWhiteSpace2 b1 b0 then trimReversed r2
            else
              match r2 with
              | EmptyString => r
              | String b2 r3 => if isWhiteSpace3 b2 b1 b0 then trimReversed r3 else r
              end
        end
  end.

(** [s.trimEnd()]. *)
Definition trimEnd (s : string) : string :=
  String.rev (trimReversed (String.rev s)).

(** [s.trim()]. *)
Definition trim (s : string) : string := trimEnd (trimStart s).

Definition digitValue (c : ascii) : option Z :=
  let n := nat_of_ascii c in
  if Nat.leb 48 n && Nat.leb n 57 then Some (Z.of_nat (n - 48)) else None.

(** The value of the longest prefix of decimal digits; [acc] is the value
    of the digits read so far, [None] when none was read. *)
Fixpoint leadingDigits (acc : option Z) (s : string) : option Z :=
  match s with
  | EmptyString => acc
  | String c s' =>
      match digitValue c with
      | Some d => leadingDigits (Some (10 * default 0 acc + d)) s'
      | None => acc
      end
  end.

(** [parseInt(s, 10)]: leading white space is skipped, then an optional
    sign, then the longest run of decimal digits is read; [None] stands for
    [NaN], the result when there is no digit.  The value of the digits is
    taken exactly. *)
Definition parseInt (s : string) : option Z :=
  match trimStart s with
  | String "-" s' => option_map Z.opp (leadingDigits None s')
  | String "+" s' => leadingDigits None s'
  | s' => leadingDigits None s'
  end.

End JsText.

(* ===================================================================== *)
(** * The FileTree component: icons, counters and expanded folders *)
(* ===================================================================== *)

(** The icons of [lucide-react] the two copies of [getFileIcon] return. *)
Module Lucide.

Inductive Icon : Type :=
| FileImage | FileVideo | FileAudio | FileCode | FileJson | FileText
| FileArchive | FileSpreadsheet | FileType | File.

(** [<Icon className="..." />]. *)
Record Element : Type := mkElement { icon : Icon; className : string }.

End Lucide.

(** What both copies of the component share. *)
Module FileTreeView.
Import JsString R2.

(** [array.includes(ext)]. *)
Definition arrayIncludes (array : list string) (ext : string) : bool :=
  existsb (String.eqb ext) array.

(** [filename.split(".").pop()?.toLowerCase() || ""]: [split] never
    returns the empty array, so [pop] gives its last element. *)
Definition extensionOf (E : Engine) (filename : string) : string :=
  let ext := toLowerCase E (List.last (split "." filename) EmptyString) in
  if isEmpty ext then EmptyString else ext.

(** [handleToggleFolder], as the update of [expandedFolders]. *)
Definition handleToggleFolder (path : string) (prev : gset string) : gset string :=
  let next := prev in
  if decide (path ∈ next) then next ∖ {[ path ]} else next ∪ {[ path ]}.

(** The loop of [expandToPath]:
    [for (i = 0; i < parts.length - 1; i++)
       foldersToExpand.push(parts.slice(0, i + 1).join("/"))]. *)
Definition foldersToExpand (path : string) : list string :=
  let parts := split "/" path in
  map (fun i => join "/" (firstn (i + 1) parts)) (seq 0 (length parts - 1)).

(** [expandToPath], as the update of [expandedFolders]. *)
Definition expandToPath (path : string) (prev : gset string) : gset string :=
  fold_left (fun next f => next ∪ {[ f ]}) (foldersToExpand path) prev.

(** [handleSelect]: the state is the set of expanded folders and the state
    of the parent component, which [onSelect] updates. *)
Definition handleSelect {S : Type} (onSelect : string -> NodeType -> S -> S)
    (path : string) (type : NodeType) (state : gset string * S) : gset string * S :=
  let expandedFolders :=
    match type with
    | file => expandToPath path (fst state)
    | folder => fst state
    end in
  (expandedFolders, onSelect path type (snd state)).

(** [countFolders], the counter [count] being passed along:
    [if (node.type === "folder") { count++; if (node.children) countFolders(node.children) }]. *)
Fixpoint countFoldersNode (node : TreeNode) (count : nat) : nat :=
  match node with
  | Folder _ _ cs =>
      fold_left (fun count child => countFoldersNode child count) cs (S count)
  | File _ _ _ => count
  end.

Definition countFolders (nodes : list TreeNode) (count : nat) : nat :=
  fold_left (fun count node => countFoldersNode node count) nodes count.

Definition totalFolders (tree : list TreeNode) : nat := countFolders tree 0.

End FileTreeView.

(** [packages/dashboard/src/components/r2/FileTree.tsx]. *)
Module DashboardView.
Import JsString R2 FileTreeView.

Definition getFileIcon (E : Engine) (filename : string) : Lucide.Element :=
  let ext := extensionOf E filename in
  if arrayIncludes ["png"; "jpg"; "jpeg"; "gif"; "webp"; "svg"; "ico"; "bmp"; "tiff"] ext
  then Lucide.mkElement Lucide.FileImage "size-4 text-green-500"
  else if arrayIncludes ["mp4"; "webm"; "mov"; "avi"; "mkv"; "flv"; "wmv"] ext
  then Lucide.mkElement Lucide.FileVideo "size-4 text-purple-500"
  else if arrayIncludes ["mp3"; "wav"; "ogg"; "flac"; "aac"; "wma"; "m4a"] ext
  then Lucide.mkElement Lucide.FileAudio "size-4 text-pink-500"
  else if arrayIncludes ["js"; "ts"; "jsx"; "tsx"; "py"; "rb"; "go"; "rs"; "java"; "c";
                         "cpp"; "h"; "hpp"; "cs"; "php"; "swift"; "kt"] ext
  then Lucide.mkElement Lucide.FileCode "size-4 text-blue-500"
  else if String.eqb ext "json"
  then Lucide.mkElement Lucide.FileJson "size-4 text-yellow-500"
  else if arrayIncludes ["txt"; "md"; "mdx"; "rst"; "log"] ext
  then Lucide.mkElement Lucide.FileText "size-4 text-gray-500"
  else if arrayIncludes ["zip"; "tar"; "gz"; "rar"; "7z"; "bz2"] ext
  then Lucide.mkElement Lucide.FileArchive "size-4 text-amber-600"
  else if arrayIncludes ["csv"; "xlsx"; "xls"; "ods"] ext
  then Lucide.mkElement Lucide.FileSpreadsheet "size-4 text-emerald-600"
  else if String.eqb ext "pdf"
  then Lucide.mkElement Lucide.FileType "size-4 text-red-500"
  else if arrayIncludes ["html"; "htm"; "css"; "scss"; "sass"; "less"] ext
  then Lucide.mkElement Lucide.FileCode "size-4 text-orange-500"
  else if arrayIncludes ["yaml"; "yml"; "toml"; "ini"; "env"; "config"] ext
  then Lucide.mkElement Lucide.FileText "size-4 text-slate-500"
  else if String.eqb ext "sql"
  then Lucide.mkElement Lucide.FileCode "size-4 text-cyan-500"
  else Lucide.mkElement Lucide.File "size-4 text-muted-foreground".

(** [countFiles], the counter [count] being passed along:
    [if (node.type === "file") count++
     else if (node.children) countFiles(node.children)]. *)
Fixpoint countFilesNode (node : TreeNode) (count : nat) : nat :=
  match node with
  | File _ _ _ => S count
  | Folder _ _ cs =>
      fold_left (fun count child => countFilesNode child count) cs count
  end.

Definition countFiles (nodes : list TreeNode) (count : nat) : nat :=
  fold_left (fun count node => countFilesNode node count) nodes count.

Definition totalFiles (tree : list TreeNode) : nat := countFiles tree 0.

(** [tree.length === 0]: the component shows "No files yet". *)
Definition showsNoFilesYet (tree : list TreeNode) : bool :=
  Nat.eqb (length tree) 0.

(** [(totalFolders > 0 || totalFiles > 0)]: the header with the counts is
    shown. *)
Definition showsCounts (tree : list TreeNode) : bool :=
  Nat.ltb 0 (totalFolders tree) || Nat.ltb 0 (totalFiles tree).

End DashboardView.

(** [demo-app/src/client/components/r2/FileTree.tsx]. *)
Module DemoAppView.
Import JsString R2 FileTreeView.

Definition getFileIcon (E : Engine) (filename : string) : Lucide.Element :=
  let ext := extensionOf E filename in
  if arrayIncludes ["png"; "jpg"; "jpeg"; "gif"; "webp"; "svg"; "ico"; "bmp"; "tiff"] ext
  then Lucide.mkElement Lucide.FileImage "size-4 text-green-500"
  else if arrayIncludes ["mp4"; "webm"; "mov"; "avi"; "mkv"; "flv"; "wmv"] ext
  then Lucide.mkElement Lucide.FileVideo "size-4 text-purple-500"
  else if arrayIncludes ["mp3"; "wav"; "ogg"; "flac"; "aac"; "wma"; "m4a"] ext
  then Lucide.mkElement Lucide.FileAudio "size-4 text-pink-500"
  else if arrayIncludes ["js"; "ts"; "jsx"; "tsx"; "py"; "rb"; "go"; "rs"; "java"; "c";
                         "cpp"; "h"; "hpp"; "cs"; "php"; "swift"; "kt"] ext
  then Lucide.mkElement Lucide.FileCode "size-4 text-blue-500"
  else if String.eqb ext "json"
  then Lucide.mkElement Lucide.FileJson "size-4 text-yellow-500"
  else if arrayIncludes ["txt"; "md"; "mdx"; "rst"; "log"] ext
  then Lucide.mkElement Lucide.FileText "size-4 text-gray-500"
  else if arrayIncludes ["zip"; "tar"; "gz"; "rar"; "7z"; "bz2"] ext
  then Lucide.mkElement Lucide.FileArchive "size-4 text-amber-600"
  else if arrayIncludes ["csv"; "xlsx"; "xls"; "ods"] ext
  then Lucide.mkElement Lucide.FileSpreadsheet "size-4 text-emerald-600"
  else if String.eqb ext "pdf"
  then Lucide.mkElement Lucide.FileType "size-4 text-red-500"
  else if arrayIncludes ["html"; "htm"; "css"; "scss"; "sass"; "less"] ext
  then Lucide.mkElement Lucide.FileCode "size-4 text-orange-500"
  else if arrayIncludes ["yaml"; "yml"; "toml"; "ini"; "env"; "config"] ext
  then Lucide.mkElement Lucide.FileText "size-4 text-slate-500"
  else Lucide.mkElement Lucide.File "size-4 text-muted-foreground".

(** [handleBreadcrumbNavigate], on a path that is not [null]:
    [if (path) { expandToPath(path + "/x"); onSelect(path, "folder") }]. *)
Definition handleBreadcrumbNavigate {S : Type} (onSelect : string -> NodeType -> S -> S)
    (path : string) (state : gset string * S) : gset string * S :=
  if isEmpty path then state
  else (expandToPath (path ++ "/x")%string (fst state), onSelect path folder (snd state)).

(** [collectFolders], the set [allFolders] being passed along. *)
Fixpoint collectFoldersNode (node : TreeNode) (allFolders : gset string) : gset string :=
  match node with
  | Folder _ p cs =>
      fold_left (fun allFolders child => collectFoldersNode child allFolders) cs
                (allFolders ∪ {[ p ]})
  | File _ _ _ => allFolders
  end.

Definition collectFolders (nodes : list TreeNode) (allFolders : gset string) : gset string :=
  fold_left (fun allFolders node => collectFoldersNode node allFolders) nodes allFolders.

(** [expandAll] and [collapseAll], as the new value of [expandedFolders]. *)
Definition expandAll (tree : list TreeNode) : gset string := collectFolders tree ∅.
Definition collapseAll : gset string := ∅.

(** [const totalFiles = objects.length]. *)
Definition totalFiles (objects : list R2ObjectItem) : nat := length objects.

End DemoAppView.

(* ===================================================================== *)
(** * The R2 explorer of the dashboard *)
(* ===================================================================== *)

Module R2Explorer.
Import JsString JsText R2 Playground.

(** The state of the component that the handlers below read or set. *)
Record State : Type := mkState
  { selectedBucket : option string;
    selectedObject : option string;
    selectedType : option NodeType;
    currentFolderPath : string;
    newFolderName : string }.

(** [!selectedBucket]: [null] and the empty string are falsy. *)
Definition bucketOf (state : State) : option string :=
  match selectedBucket state with
  | Some bucket => if isEmpty bucket then None else Some bucket
  | None => None
  end.

(** [handleTreeSelect]. *)
Definition handleTreeSelect (path : string) (type : NodeType) (state : State) : State :=
  {| selectedBucket := selectedBucket state;
     selectedObject := Some path;
     selectedType := Some type;
     currentFolderPath :=
       match type with
       | folder => path
       | file =>
           let parts := split "/" path in
           if Nat.ltb 1 (length parts) then join "/" (removelast parts)
           else EmptyString
       end;
     newFolderName := newFolderName state |}.

(** An upload asked of [r2Api.uploadObject]: the bucket and the key. *)
Record Upload : Type := mkUpload { bucket : string; uploadKey : string }.

(** [uploadMutation.mutationFn], for a file of that name: the upload it
    asks for. *)
Definition uploadMutation (state : State) (fileName : string) : Outcome Upload :=
  match bucketOf state with
  | None => Thrown (mkError "No bucket selected")
  | Some bucket =>
      let uploadPath :=
        if isEmpty (currentFolderPath state) then fileName
        else (currentFolderPath state ++ "/" ++ fileName)%string in
      Returned (mkUpload bucket uploadPath)
  end.

(** [handleCreateFolder]: the upload of the marker it asks for, if any. *)
Definition handleCreateFolder (state : State) : option Upload :=
  if isEmpty (trim (newFolderName state)) then None
  else
    match bucketOf state with
    | None => None
    | Some bucket =>
        let folderPath :=
          if isEmpty (currentFolderPath state)
          then (trim (newFolderName state) ++ "/.keep")%string
          else (currentFolderPath state ++ "/" ++ trim (newFolderName state)
                ++ "/.keep")%string in
        Some (mkUpload bucket folderPath)
    end.

(** [link.download] of [handleDownload]:
    [selectedObject.split('/').pop() || selectedObject]. *)
Definition downloadName (selectedObject : string) : string :=
  let last := List.last (split "/" selectedObject) EmptyString in
  if isEmpty last then selectedObject else last.

End R2Explorer.

(* ===================================================================== *)
(** * Counting the nodes of a tree *)
(* ===================================================================== *)

Module ViewSpec.
Import JsString R2.

(** The file nodes below and including a node. *)
Fixpoint filesIn (node : TreeNode) : nat :=
  match node with
  | File _ _ _ => 1
  | Folder _ _ cs => list_sum (map filesIn cs)
  end.

Definition filesOf (level : list TreeNode) : nat := list_sum (map filesIn level).

(** The folder nodes below and including a node. *)
Fixpoint foldersIn (node : TreeNode) : nat :=
  match node with
  | File _ _ _ => 0
  | Folder _ _ cs => S (list_sum (map foldersIn cs))
  end.

Definition foldersOf (level : list TreeNode) : nat := list_sum (map foldersIn level).

(** The non-empty parts of a key: the names on the way to its node. *)
Definition segments (path : string) : list string :=
  TreeSpec.nonEmptyParts (split "/" path).

End ViewSpec.

(* ===================================================================== *)
(** * dummy-data-generator.ts: several rows, the preview and the dialog *)
(* ===================================================================== *)

Module DummyRows.
Import JsString JsText DummyData.

(** Modelled from the spec: [./types] is not among the sources; the record
    holds the fields of a foreign key that the description reads. *)
Record D1ForeignKey : Type := mkForeignKey
  { fk_from : string; fk_table : string; fk_to : string }.

Section Rows.
Context (P : Platform).

(** [i < count]. *)
Definition lessThan (i : Z) (count : Q) : bool :=
  negb (Qle_bool count (inject_Z i)).

(** The loop [for (; i < count; i++)] of [generateDummyRows], for [fuel]
    turns at most. *)
Fixpoint pushRows (schema : D1TableSchema)
    (foreignKeyValues : option (gmap string (list D1CellValue)))
    (count : Q) (fuel : nat) (i : Z) (rows : list Row) : Gen P (list Row) :=
  match fuel with
  | O => ret P rows
  | S fuel' =>
      if lessThan i count then
        bind P (generateDummyRow P schema foreignKeyValues) (fun row =>
        pushRows schema foreignKeyValues count fuel' (i + 1) (rows ++ [row]))
      else ret P rows
  end.

(** [count] is a number: a finite one here, small enough for [i] to be
    counted exactly and for an array to hold the rows.  The test
    [i < count] fails for the first time at the least integer that is not
    below [count], so that many turns are enough. *)
Definition generateDummyRows (schema : D1TableSchema) (count : Q)
    (foreignKeyValues : option (gmap string (list D1CellValue)))
  : Gen P (list Row) :=
  pushRows schema foreignKeyValues count (Z.to_nat (Qceiling count)) 0 [].

End Rows.

(** [foreignKeys?.find(f => f.from === column.name)]. *)
Definition findForeignKey (foreignKeys : option (list D1ForeignKey))
    (column : D1Column) : option D1ForeignKey :=
  match foreignKeys with
  | Some fks => List.find (fun f => String.eqb (fk_from f) (colName column)) fks
  | None => None
  end.

(** The arrow of the source text is held in its UTF-8 encoding. *)
Definition getColumnGeneratorDescription (E : Engine) (column : D1Column)
    (foreignKeys : option (list D1ForeignKey)) : string :=
  if (pk column =? 1)%Z && String.eqb (toUpperCase E (colType column)) "INTEGER" then
    "Auto-generated (skip)"
  else
    match findForeignKey foreignKeys column with
    | Some fk => ("FK → " ++ fk_table fk ++ "." ++ fk_to fk)%string
    | None =>
        let type := toUpperCase E (colType column) in
        if includes "DATETIME" type || includes "TIMESTAMP" type then
          "Random ISO datetime"
        else if String.eqb type "DATE" then "Random date (YYYY-MM-DD)"
        else if String.eqb type "TIME" then "Random time (HH:MM:SS)"
        else if includes "INT" type then "Random integer (1-1000)"
        else if includes "REAL" type || includes "FLOAT" type || includes "DOUBLE" type
        then "Random decimal (0-100)"
        else if includes "BOOL" type then "Random boolean (0/1)"
        else if includes "NUMERIC" type || includes "DECIMAL" type
        then "Random decimal (0-1000)"
        else if includes "BLOB" type then "null (skip)"
        else
          let dateTimeMatch := matchesDateTimePattern E (colName column) in
          match dateTimeMatch with
          | Some datetime => "Random ISO datetime (by name)"
          | Some date => "Random date (by name)"
          | Some time => "Random time (by name)"
          | None => "Random words"
          end
    end.

(** [useState(10)]. *)
Definition initialRowCount : Z := 10.

(** [handleRowCountChange], on [e.target.value]: the new [rowCount]. *)
Definition handleRowCountChange (targetValue : string) (rowCount : Z) : Z :=
  match parseInt targetValue with
  | Some value => if (1 <=? value)%Z && (value <=? 100)%Z then value else rowCount
  | None => rowCount     (* isNaN(value) *)
  end.

End DummyRows.

(** What a description of the preview promises about the value. *)
Module DescriptionSpec.
Import JsString DummyData DummyDataSpec DummyRows.

Section Promises.
Context (P : Platform).

Definition promises : list (string * (option D1CellValue -> Prop)) :=
  [ ("Auto-generated (skip)", yieldsNothing);
    ("Random ISO datetime", yieldsIsoDateTime P);
    ("Random date (YYYY-MM-DD)", yieldsIsoDate P);
    ("Random time (HH:MM:SS)", yieldsClockTime P);
    ("Random integer (1-1000)", yieldsIntegerBetween 1 1000);
    ("Random decimal (0-100)", yieldsFloatBetween 0 100);
    ("Random boolean (0/1)", yieldsZeroOrOne);
    ("Random decimal (0-1000)", yieldsFloatBetween 0 1000);
    ("null (skip)", yieldsNull);
    ("Random ISO datetime (by name)", yieldsIsoDateTime P);
    ("Random date (by name)", yieldsIsoDate P);
    ("Random time (by name)", yieldsClockTime P);
    ("Random words", yieldsWords) ].

(** The value is what the description announces. *)
Definition promised (description : string) (v : option D1CellValue) : Prop :=
  match List.find (fun row => String.eqb (fst row) description) promises with
  | Some row => snd row v
  | None => False
  end.

End Promises.

End DescriptionSpec.

(* ===================================================================== *)
(** * The playground worker: runs of counter requests *)
(* ===================================================================== *)

Module CounterRuns.
Import Playground.

(** The four counter routes of the worker. *)
Inductive CounterRoute : Type :=
| GetCounter          (* GET  /api/counter/:name *)
| PostIncrement       (* POST /api/counter/:name/increment *)
| PostDecrement       (* POST /api/counter/:name/decrement *)
| PostReset.          (* POST /api/counter/:name/reset *)

Definition serve (route : CounterRoute) (name : string)
  : gmap string Counter -> Response * gmap string Counter :=
  match route with
  | GetCounter => getCounter name
  | PostIncrement => postCounterIncrement name
  | PostDecrement => postCounterDecrement name
  | PostReset => postCounterReset name
  end.

(** What happens to the namespace: a request is served, or the platform
    drops the idle instance of a name. *)
Inductive Event : Type :=
| Request (route : CounterRoute) (name : string)
| Evicted (name : string).

Definition step (COUNTER : gmap string Counter) (event : Event) : gmap string Counter :=
  match event with
  | Request route name => snd (serve route name COUNTER)
  | Evicted name => evict name COUNTER
  end.

Definition run (events : list Event) (COUNTER : gmap string Counter)
  : gmap string Counter :=
  fold_left step events COUNTER.

(** The routes the events address to [name], in order. *)
Definition routesTo (name : string) (events : list Event) : list CounterRoute :=
  flat_map (fun event =>
              match event with
              | Request route name' => if String.eqb name' name then [route] else []
              | Evicted _ => []
              end) events.

(** What a route does to a number. *)
Definition apply (v : Z) (route : CounterRoute) : Z :=
  match route with
  | GetCounter => v
  | PostIncrement => v + 1
  | PostDecrement => v - 1
  | PostReset => 0
  end.

Definition replay (v : Z) (routes : list CounterRoute) : Z := fold_left apply routes v.

End CounterRuns.

(* ===================================================================== *)
(** * packages/core/src/config.ts *)
(* ===================================================================== *)

Module Config.
Import JsString JsText Playground Core.

(** [node:fs], [node:path] and the three parsers. *)
Record Fs : Type := mkFs
  { resolve : list string -> string;
    extname : string -> string;
    existsSync : string -> bool;
    readFileSync : string -> Outcome string;       (* with "utf-8" *)
    parseToml : string -> Outcome WranglerConfig;
    JSON_parse : string -> Outcome WranglerConfig;
    parseJsonc : string -> Outcome WranglerConfig;
    (* String.prototype.toUpperCase and toLowerCase *)
    String_prototype : Engine }.

Definition WRANGLER_CONFIG_FILES : list string :=
  ["wrangler.toml"; "wrangler.json"; "wrangler.jsonc"].

(** The loop of [findWranglerConfig] over the file names left. *)
Fixpoint findAmong (fs : Fs) (directory : string) (filenames : list string)
  : option string :=
  match filenames with
  | [] => None
  | filename :: others =>
      let configPath := resolve fs [directory; filename] in
      if existsSync fs configPath then Some configPath
      else findAmong fs directory others
  end.

(** [null] is [None]. *)
Definition findWranglerConfig (fs : Fs) (directory : string) : option string :=
  findAmong fs directory WRANGLER_CONFIG_FILES.

Definition parseWranglerConfig (fs : Fs) (configPath : string) : Outcome WranglerConfig :=
  let fullPath := resolve fs [configPath] in
  if negb (existsSync fs fullPath) then
    Thrown (mkError ("Wrangler config not found at: " ++ fullPath)%string)
  else
    await (readFileSync fs fullPath) (fun content =>
    let ext := toLowerCase (String_prototype fs) (extname fs fullPath) in
    if String.eqb ext ".toml" then parseToml fs content
    else if String.eqb ext ".json" then JSON_parse fs content
    else if String.eqb ext ".jsonc" then parseJsonc fs content
    else
      let trimmed := trim content in
      if startsWith "{" trimmed then parseJsonc fs content
      else parseToml fs content).

Section Summary.

(** [Object.keys] lists the keys of an object in the order they were set,
    which the map does not record: the listing is left to the engine. *)
Variable Object_keys : gmap string string -> list string.

Definition getBindingSummary (bindings : DiscoveredBindings) : list string :=
  let summary : list string := [] in
  let summary :=
    if Nat.ltb 0 (length (d1 bindings))
    then summary ++ [("D1 Databases: " ++ join ", " (map d1_binding (d1 bindings)))%string]
    else summary in
  let summary :=
    if Nat.ltb 0 (length (kv bindings))
    then summary ++ [("KV Namespaces: " ++ join ", " (map kv_binding (kv bindings)))%string]
    else summary in
  let summary :=
    if Nat.ltb 0 (length (r2 bindings))
    then summary ++ [("R2 Buckets: " ++ join ", " (map r2_binding (r2 bindings)))%string]
    else summary in
  let summary :=
    if Nat.ltb 0 (length (durableObjects bindings))
    then summary ++ [("Durable Objects: " ++
                      join ", " (map do_name (durableObjects bindings)))%string]
    else summary in
  let summary :=
    if Nat.ltb 0 (length (producers (queues bindings)))
    then summary ++ [("Queue Producers: " ++
                      join ", " (map q_binding (producers (queues bindings))))%string]
    else summary in
  let summary :=
    if Nat.ltb 0 (length (consumers (queues bindings)))
    then summary ++ [("Queue Consumers: " ++
                      join ", " (map consumer_queue (consumers (queues bindings))))%string]
    else summary in
  let summary :=
    if Nat.ltb 0 (length (Object_keys (vars bindings)))
    then summary ++ [("Environment Variables: " ++
                      join ", " (Object_keys (vars bindings)))%string]
    else summary in
  summary.

End Summary.

End Config.

(* ===================================================================== *)
(** * packages/core/src/localflare.ts: the class *)
(* ===================================================================== *)

Module LocalFlareClass.
Import JsString Playground Core.

(** What the class calls outside this repository. *)
Record Platform : Type := mkPlatform
  { fs : Config.Fs;
    dirname : string -> string;
    (* buildResult.outputFiles?.[0]?.text of esbuild.build for an entry point *)
    esbuild_build : string -> Outcome (option string);
    Object_keys : gmap string string -> list string;
    (* an instance of Miniflare, and what its accessors return *)
    Mf : Type;
    Binding : Type;
    newMiniflare : Miniflare.Options -> Outcome Mf;
    mf_ready : Mf -> Outcome string;
    mf_dispose : Mf -> Outcome unit;
    mf_getD1Database : Mf -> string -> Outcome Binding;
    mf_getKVNamespace : Mf -> string -> Outcome Binding;
    mf_getR2Bucket : Mf -> string -> Outcome Binding;
    mf_getDurableObjectNamespace : Mf -> string -> Outcome Binding;
    mf_getQueueProducer : Mf -> string -> Outcome Binding;
    mf_getBindings : Mf -> Outcome Binding }.

(** [LocalFlareOptions]: every key is optional. *)
Record PartialOptions : Type := mkPartialOptions
  { given_configPath : option string;
    given_port : option Z;
    given_dashboardPort : option Z;
    given_persistPath : option string;
    given_verbose : option bool }.

Section Class.
Context (platform : Platform).

(** The fields of an instance, and the lines written to the console. *)
Record State : Type := mkState
  { mf : option (Mf platform);
    config : option WranglerConfig;
    bindings : option DiscoveredBindings;
    options : LocalFlareOptions;
    console : list string }.

(** [new LocalFlare(options)]. *)
Definition new (given : PartialOptions) (console : list string) : State :=
  {| mf := None; config := None; bindings := None;
     options :=
       {| configPath := default "./wrangler.toml" (given_configPath given);
          port := default 8787 (given_port given);
          dashboardPort := default 8788 (given_dashboardPort given);
          persistPath := default ".localflare" (given_persistPath given);
          verbose := default false (given_verbose given) |};
     console := console |}.

Definition log (line : string) (this : State) : State :=
  {| mf := mf this; config := config this; bindings := bindings this;
     options := options this; console := console this ++ [line] |}.

(** The options object [start] builds. *)
Definition miniflareOptionsFor (options : LocalFlareOptions)
    (bindings_ : DiscoveredBindings) (persistRoot entryPoint script : string)
  : Miniflare.Options :=
  let d1Databases :=
    fromEntries (map (fun d => (d1_binding d, database_id d)) (d1 bindings_)) in
  let kvNamespaces :=
    fromEntries (map (fun k => (kv_binding k, kv_id k)) (kv bindings_)) in
  let r2Buckets :=
    fromEntries (map (fun r => (r2_binding r, bucket_name r)) (r2 bindings_)) in
  let queueProducers :=
    fromEntries (map (fun q => (q_binding q, queue q))
                     (producers (queues bindings_))) in
  let durableObjects :=
    fromEntries (map (fun d => (do_name d, class_name d))
                     (durableObjects bindings_)) in
  {| Miniflare.modules := [ {| Miniflare.type := "ESModule";
                               Miniflare.path := entryPoint;
                               Miniflare.contents := script |} ];
     Miniflare.port := port options;
     Miniflare.verbose := verbose options;
     Miniflare.kvPersist := (persistRoot ++ "/kv")%string;
     Miniflare.d1Persist := (persistRoot ++ "/d1")%string;
     Miniflare.r2Persist := (persistRoot ++ "/r2")%string;
     Miniflare.durableObjectsPersist := (persistRoot ++ "/do")%string;
     Miniflare.cachePersist := (persistRoot ++ "/cache")%string;
     Miniflare.bindings := vars bindings_;
     Miniflare.d1Databases := onlyIfAny d1Databases;
     Miniflare.kvNamespaces := onlyIfAny kvNamespaces;
     Miniflare.r2Buckets := onlyIfAny r2Buckets;
     Miniflare.queueProducers := onlyIfAny queueProducers;
     Miniflare.durableObjects := onlyIfAny durableObjects |}.

(** The block of [start] that logs the discovered bindings:
    [if (this.options.verbose) { console.log(...); ...forEach(line =>
     console.log(`   ${line}`)); console.log('') }]. *)
Definition logDiscovered (bindings_ : DiscoveredBindings) (this : State) : State :=
  if verbose (options this) then
    let this := log (String "010" "📦 Discovered bindings:") this in
    let this :=
      fold_left (fun this line => log ("   " ++ line)%string this)
                (Config.getBindingSummary (Object_keys platform) bindings_) this in
    log "" this
  else this.

(** [start()]: how the promise settles, and the state left behind. *)
Definition start (this : State) : Outcome unit * State :=
  let configPath := Config.resolve (fs platform) [configPath (options this)] in
  let rootDir := dirname platform configPath in
  match Config.parseWranglerConfig (fs platform) configPath with
  | Thrown e => (Thrown e, this)
  | Returned config_ =>
      let bindings_ := discoverBindings config_ in
      let this :=
        {| mf := mf this; config := Some config_; bindings := Some bindings_;
           options := options this; console := console this |} in
      let this := logDiscovered bindings_ this in
      let persistRoot :=
        Config.resolve (fs platform) [rootDir; persistPath (options this)] in
      let entryPoint :=
        Config.resolve (fs platform)
          [rootDir;
           match main config_ with
           | Some m => if isEmpty m then "src/index.ts" else m
           | None => "src/index.ts"
           end] in
      match esbuild_build platform entryPoint with
      | Thrown e => (Thrown e, this)
      | Returned scriptContent =>
          match scriptContent with
          | None => (Thrown (mkError "Failed to compile worker script"), this)
          | Some script =>
              if isEmpty script then
                (Thrown (mkError "Failed to compile worker script"), this)
              else
                let miniflareOptions :=
                  miniflareOptionsFor (options this) bindings_ persistRoot
                                      entryPoint script in
                match newMiniflare platform miniflareOptions with
                | Thrown e => (Thrown e, this)
                | Returned instance =>
                    let this :=
                      {| mf := Some instance; config := config this;
                         bindings := bindings this; options := options this;
                         console := console this |} in
                    match mf_ready platform instance with
                    | Thrown e => (Thrown e, this)
                    | Returned url =>
                        (Returned tt, log ("⚡ Worker running at " ++ url)%string this)
                    end
                end
          end
      end
  end.

(** [stop()]. *)
Definition stop (this : State) : Outcome unit * State :=
  match mf this with
  | Some instance =>
      match mf_dispose platform instance with
      | Thrown e => (Thrown e, this)
      | Returned _ =>
          (Returned tt,
           {| mf := None; config := config this; bindings := bindings this;
              options := options this; console := console this |})
      end
  | None => (Returned tt, this)
  end.

Definition notRunning : JsError :=
  mkError "LocalFlare is not running. Call start() first.".

(** [this.ensureRunning()], then the call on [this.mf!]. *)
Definition whenRunning {A : Type} (this : State) (call : Mf platform -> Outcome A)
  : Outcome A :=
  match mf this with
  | None => Thrown notRunning
  | Some instance => call instance
  end.

Definition getD1Database (bindingName : string) (this : State) :=
  whenRunning this (fun instance => mf_getD1Database platform instance bindingName).
Definition getKVNamespace (bindingName : string) (this : State) :=
  whenRunning this (fun instance => mf_getKVNamespace platform instance bindingName).
Definition getR2Bucket (bindingName : string) (this : State) :=
  whenRunning this (fun instance => mf_getR2Bucket platform instance bindingName).
Definition getDurableObjectNamespace (bindingName : string) (this : State) :=
  whenRunning this
    (fun instance => mf_getDurableObjectNamespace platform instance bindingName).
Definition getQueueProducer (bindingName : string) (this : State) :=
  whenRunning this (fun instance => mf_getQueueProducer platform instance bindingName).
Definition getAllBindings (this : State) :=
  whenRunning this (fun instance => mf_getBindings platform instance).

Definition getDiscoveredBindings (this : State) : option DiscoveredBindings :=
  bindings this.
Definition getConfig (this : State) : option WranglerConfig := config this.
Definition getOptions (this : State) : LocalFlareOptions := options this.
Definition getMiniflare (this : State) : option (Mf platform) := mf this.
Definition isRunning (this : State) : bool :=
  match mf this with Some _ => true | None => false end.

(** The host [Core.start] runs on, read off the platform. *)
Definition hostOf : Host :=
  {| Core.resolve := Config.resolve (fs platform);
     Core.dirname := dirname platform;
     Core.parseWranglerConfig := Config.parseWranglerConfig (fs platform);
     Core.esbuild_build := esbuild_build platform;
     Core.miniflare_ready := fun options =>
       await (newMiniflare platform options) (mf_ready platform) |}.

End Class.

End LocalFlareClass.

(** Vocabulary for the statements about the summary. *)
Module ConfigSpec.
Import JsString.

(** The summary has a line that starts with [label]. *)
Definition hasLine (label : string) (summary : list string) : bool :=
  existsb (startsWith label) summary.

(** A platform to run the class on: the configuration file exists and
    binds one KV namespace, the bundle is built, an instance of the runtime
    is its options object, and whether it becomes ready is [becomesReady]. *)
Definition demoPlatform (becomesReady : bool) : LocalFlareClass.Platform :=
  {| LocalFlareClass.fs :=
       {| Config.resolve := JsString.join "/";
          Config.extname := fun _ => ".toml";
          Config.existsSync := fun _ => true;
          Config.readFileSync := fun _ => Playground.Returned "name = 'demo'";
          Config.parseToml := fun _ =>
            Playground.Returned
              {| Core.main := Some "src/worker.ts";
                 Core.d1_databases := None;
                 Core.kv_namespaces := Some [Core.mkKV "CACHE" "kv-1"];
                 Core.r2_buckets := None;
                 Core.durable_objects := None;
                 Core.cfg_queues := None;
                 Core.cfg_vars := None |};
          Config.JSON_parse := fun _ => Playground.Thrown (Playground.mkError "not JSON");
          Config.parseJsonc := fun _ => Playground.Thrown (Playground.mkError "not JSONC");
          Config.String_prototype := asciiEngine |};
     LocalFlareClass.dirname := fun _ => "/app";
     LocalFlareClass.esbuild_build := fun _ => Playground.Returned (Some "export default {}");
     LocalFlareClass.Object_keys := fun obj => map fst (map_to_list obj);
     LocalFlareClass.Mf := Core.Miniflare.Options;
     LocalFlareClass.Binding := string;
     LocalFlareClass.newMiniflare := fun options => Playground.Returned options;
     LocalFlareClass.mf_ready := fun _ =>
       if becomesReady then Playground.Returned "http://localhost:8787"
       else Playground.Thrown (Playground.mkError "listen EADDRINUSE");
     LocalFlareClass.mf_dispose := fun _ => Playground.Returned tt;
     LocalFlareClass.mf_getD1Database := fun _ name => Playground.Returned name;
     LocalFlareClass.mf_getKVNamespace := fun _ name => Playground.Returned name;
     LocalFlareClass.mf_getR2Bucket := fun _ name => Playground.Returned name;
     LocalFlareClass.mf_getDurableObjectNamespace := fun _ name => Playground.Returned name;
     LocalFlareClass.mf_getQueueProducer := fun _ name => Playground.Returned name;
     LocalFlareClass.mf_getBindings := fun _ => Playground.Returned "bindings" |}.

Definition noOptions : LocalFlareClass.PartialOptions :=
  LocalFlareClass.mkPartialOptions None None None None None.

End ConfigSpec.

(* ===================================================================== *)
(** * What a regular expression matches *)
(* ===================================================================== *)

Module RegexSpec.
Import JsString DummyData.

(** The sequences of code units a pattern matches as a whole, under the
    [i] flag. *)
Inductive Matches : Regex -> list Z -> Prop :=
| Matches_Eps : Matches Eps []
| Matches_Chr c u : chrMatches c u = true -> Matches (Chr c) [u]
| Matches_Dot u : isLineTerminator u = false -> Matches Dot [u]
| Matches_Class members u : members u = true -> Matches (Class members) [u]
| Matches_Seq r1 r2 us1 us2 :
    Matches r1 us1 -> Matches r2 us2 -> Matches (Seq r1 r2) (us1 ++ us2)
| Matches_Alt_l r1 r2 us : Matches r1 us -> Matches (Alt r1 r2) us
| Matches_Alt_r r1 r2 us : Matches r2 us -> Matches (Alt r1 r2) us
| Matches_Star_nil r : Matches (Star r) []
| Matches_Star_app r us1 us2 :
    Matches r us1 -> Matches (Star r) us2 -> Matches (Star r) (us1 ++ us2).

(** All concatenations of a string of the first list with one of the
    second. *)
Definition concatAll (l1 l2 : list string) : list string :=
  flat_map (fun a => map (fun b => (a ++ b)%string) l2) l1.

(** The upper-case forms of the strings a pattern of literal characters
    matches: a finite list. *)
Fixpoint language (r : Regex) : option (list string) :=
  match r with
  | Never => Some []
  | Eps => Some [EmptyString]
  | Chr c => Some [String (upperChar c) EmptyString]
  | Dot | Class _ => None
  | Seq r1 r2 =>
      match language r1, language r2 with
      | Some l1, Some l2 => Some (concatAll l1 l2)
      | _, _ => None
      end
  | Alt r1 r2 =>
      match language r1, language r2 with
      | Some l1, Some l2 => Some (l1 ++ l2)
      | _, _ => None
      end
  | Star _ => None
  end.

(** The code units are below 128 and, case apart, those of the string [w]
    of capitals. *)
Definition reads (units : list Z) (w : string) : Prop :=
  Forall (fun u => u < 128) units /\ map upperUnit units = codeUnits w.

(** No code unit of the string is a line terminator. *)
Definition onOneLine (s : string) : bool :=
  forallb (fun u => negb (isLineTerminator u)) (codeUnits s).

End RegexSpec.

(* ===================================================================== *)
(** * The analytics queries: substituteParams *)
(* ===================================================================== *)

Module Analytics.
Import JsString JsText DummyData.

(** [GetSubstitution] for a pattern without capture groups: in the
    replacement text, [$$] stands for a dollar sign, [$&] for the matched
    text, [$`] for the text before the match and [$'] for the text after
    it; any other character, a lone [$] included, stands for itself. *)
Fixpoint expand (replacement matched before after : string) : string :=
  match replacement with
  | EmptyString => EmptyString
  | String "$" (String "$" rest) => String "$" (expand rest matched before after)
  | String "$" (String "&" rest) => matched ++ expand rest matched before after
  | String "$" (String "`" rest) => before ++ expand rest matched before after
  | String "$" (String "'" rest) => after ++ expand rest matched before after
  | String c rest => String c (expand rest matched before after)
  end%string.

(** [s.replace(new RegExp(escaped(pattern), 'g'), replacement)] for a
    non-empty [pattern]: every occurrence of the pattern, scanning from
    the left and never overlapping, is replaced by the expansion of the
    replacement.  [before] is the text already passed and [skip] the
    number of characters left of an occurrence being passed. *)
Fixpoint replaceFrom (pattern replacement before : string) (skip : nat) (s : string)
  : string :=
  match s with
  | EmptyString => EmptyString
  | String c s' =>
      match skip with
      | S skip' =>
          replaceFrom pattern replacement (before ++ String c EmptyString) skip' s'
      | O =>
          if startsWith pattern s then
            (expand replacement pattern before (drop (String.length pattern) s) ++
             replaceFrom pattern replacement (before ++ String c EmptyString)
                         (String.length pattern - 1) s')%string
          else
            String c (replaceFrom pattern replacement
                                  (before ++ String c EmptyString) 0 s')
      end
  end.

Definition replaceAll (pattern replacement s : string) : string :=
  replaceFrom pattern replacement EmptyString 0 s.

(** [value.replace(/'/g, "''")]. *)
Fixpoint doubleQuotes (value : string) : string :=
  match value with
  | EmptyString => EmptyString
  | String "'" rest => String "'" (String "'" (doubleQuotes rest))
  | String c rest => String c (doubleQuotes rest)
  end.

(** One or more. *)
Definition plus (r : Regex) : Regex := Seq r (Star r).

(** The digits 0 to 9. *)
Definition isDigit (u : Z) : bool := (48 <=? u)%Z && (u <=? 57)%Z.

(** [\d] and [\s]. *)
Definition digit : Regex := Class isDigit.

Definition space : Regex := Class isWhiteSpace.

(** [/^'\d+'\s+(SECOND|MINUTE|HOUR|DAY|WEEK|MONTH|YEAR)$/i]. *)
Definition INTERVAL_PATTERN : Regex :=
  Seq (lit "'")
      (Seq (plus digit)
           (Seq (lit "'")
                (Seq (plus space)
                     (oneOf ["SECOND"; "MINUTE"; "HOUR"; "DAY"; "WEEK"; "MONTH";
                             "YEAR"])))).

(** A parameter: a string, or a number as [String(value)] prints it. *)
Inductive ParamValue : Type :=
| StringValue (value : string)
| NumberValue (printed : string).

(** What is put in the place of the placeholder. *)
Definition escapedValue (value : ParamValue) : string :=
  match value with
  | StringValue value =>
      let isIntervalValue := test INTERVAL_PATTERN value in
      if isIntervalValue then value
      else ("'" ++ doubleQuotes value ++ "'")%string
  | NumberValue printed => printed
  end.

(** One turn of the loop over [Object.entries(params)]. *)
Definition substituteParam (result : string) (entry : string * ParamValue) : string :=
  let '(key, value) := entry in
  let placeholder := ("{{" ++ key ++ "}}")%string in
  replaceAll placeholder (escapedValue value) result.

(** [substituteParams]: [params] holds the entries in the order
    [Object.entries] gives them; no [params] is [None]. *)
Definition substituteParams (query : string)
    (params : option (list (string * ParamValue))) : string :=
  match params with
  | None => query
  | Some entries => fold_left substituteParam entries query
  end.

End Analytics.

(** Reading SQL string literals back. *)
Module SqlSpec.
Import JsString.

(** The text of a literal after its opening quote: its value and what
    follows the closing quote; two quotes in a row stand for one. *)
Fixpoint readQuoted (s : string) : option (string * string) :=
  match s with
  | EmptyString => None
  | String "'" (String "'" rest) =>
      match readQuoted rest with
      | Some (value, after) => Some (String "'" value, after)
      | None => None
      end
  | String "'" rest => Some (EmptyString, rest)
  | String c rest =>
      match readQuoted rest with
      | Some (value, after) => Some (String c value, after)
      | None => None
      end
  end.

(** A string literal at the start of [s]. *)
Definition readLiteral (s : string) : option (string * string) :=
  match s with
  | String "'" rest => readQuoted rest
  | _ => None
  end.

(** Every code unit of the string satisfies [p]. *)
Definition allUnits (p : Z -> bool) (s : string) : bool :=
  forallb p (codeUnits s).

End SqlSpec.

(* ===================================================================== *)
(** * The dashboard worker: the analytics proxy *)
(* ===================================================================== *)

Module AnalyticsWorker.
Import JsString DummyData Playground RegexSpec Analytics.

Definition CF_API_BASE : string := "https://api.cloudflare.com/client/v4/accounts".

(** A JSON value, as [JSON.stringify] is given it; a field whose value is
    [undefined] is left out of its object. *)
#[local] Unset Elimination Schemes.
Inductive Json : Type :=
| JNull
| JBool (b : bool)
| JNumber (q : Q)
| JString (s : string)
| JArray (items : list Json)
| JObject (fields : list (string * Json)).
#[local] Set Elimination Schemes.

(** Truthiness of a value read from JSON. *)
Definition truthy (j : Json) : bool :=
  match j with
  | JNull => false
  | JBool b => b
  | JNumber q => negb (Qeq_bool q 0)
  | JString s => negb (isEmpty s)
  | JArray _ | JObject _ => true
  end.

Inductive Body : Type :=
| NoBody
| Text (text : string)
| Stringified (data : Json).

(** A response, with the headers its constructor was given. *)
Record Response : Type := mkResponse
  { status : Z;
    headers : gmap string string;
    body : Body }.

(** The body of a query request, as the handler's cast types it. *)
Record QueryBody : Type := mkQueryBody
  { query : string;
    params : option (list (string * ParamValue)) }.

(** What the handler reads of a request: [url.pathname], [method],
    [headers.get] and [json()]. *)
Record Request : Type := mkRequest
  { pathname : string;
    method : string;
    headers_get : string -> option string;
    json : Outcome QueryBody }.

Record Env : Type := mkEnv
  { ASSETS_fetch : Request -> Outcome Response }.

(** A request sent to the Cloudflare API. *)
Record ApiRequest : Type := mkApiRequest
  { api_url : string;
    api_method : string;
    api_headers : gmap string string;
    api_body : string }.

(** The result of a query, as the handler's cast types it; a field may be
    absent.  A row lists its fields in the order [Object.values] gives. *)
Record QueryResult : Type := mkQueryResult
  { data : option (list (list (string * Json)));
    meta : option (list (string * string));
    rows : option Q;
    rows_before_limit_at_least : option Q }.

Record ApiResponse : Type := mkApiResponse
  { ok : bool;
    api_text : Outcome string;
    api_json : Outcome QueryResult }.

(** The global [fetch] and [decodeURIComponent]. *)
Record Platform : Type := mkPlatform
  { global_fetch : ApiRequest -> Outcome ApiResponse;
    decodeURIComponent : string -> Outcome string }.

Definition corsHeaders : gmap string string :=
  <["Access-Control-Allow-Origin" := "*"]>
  (<["Access-Control-Allow-Methods" := "GET, POST, OPTIONS"]>
  (<["Access-Control-Allow-Headers" := "Content-Type, X-CF-Account-ID, X-CF-API-Token"]>
   ∅)).

(** The spread [...extraHeaders] comes last: its entries win. *)
Definition jsonResponse (data : Json) (status : Z) (extraHeaders : gmap string string)
  : Response :=
  mkResponse status
    (extraHeaders ∪ <["Content-Type" := "application/json"]> corsHeaders)
    (Stringified data).

(** [path.match(/^\/datasets\/(.+)\/schema$/)] is not null: the path is
    [/datasets/], one character or more, none of them a line terminator,
    and [/schema]. *)
Definition matchesSchemaRoute (path : string) : bool :=
  startsWith "/datasets/" path &&
  (let rest := drop 10 path in
   endsWith "/schema" rest &&
   (7 <? String.length rest)%nat &&
   onOneLine rest).

(** [path.split('/')[2]], of a path the schema route matched: it has four
    parts or more. *)
Definition thirdPart (path : string) : string :=
  nth 2 (split "/" path) EmptyString.

(** [!value], of a header read with [headers.get]. *)
Definition missing (value : option string) : bool :=
  match value with
  | None => true
  | Some s => isEmpty s
  end.

Definition orZero (n : option Q) : Q :=
  match n with
  | Some q => if Qeq_bool q 0 then 0%Q else q
  | None => 0%Q
  end.

(** [a || b || 0] on numbers that may be absent. *)
Definition firstNonZero (a b : option Q) : Q :=
  match a with
  | Some q => if Qeq_bool q 0 then orZero b else q
  | None => orZero b
  end.

(** [{ id: name, name }] with [name = row.name || Object.values(row)[0]]. *)
Definition datasetOf (row : list (string * Json)) : Json :=
  let first := match row with [] => None | (_, v) :: _ => Some v end in
  let name :=
    match list_find (fun field => String.eqb (fst field) "name") row with
    | Some (_, (_, v)) => if truthy v then Some v else first
    | None => first
    end in
  match name with
  | Some v => JObject [("id", v); ("name", v)]
  | None => JObject []
  end.

Definition rowJson (row : list (string * Json)) : Json := JObject row.

Definition columnJson (col : string * string) : Json :=
  JObject [("name", JString (fst col)); ("type", JString (snd col))].

Definition orEmpty {A : Type} (l : option (list A)) : list A :=
  match l with
  | Some l => l
  | None => []
  end.

Definition missingCredentials : Response :=
  jsonResponse
    (JObject [("error", JString "Missing credentials");
              ("message", JString "Configure API credentials in Settings.")])
    400 ∅.

Section Worker.

Variable platform : Platform.

(** The statements of the [try] block up to the call of the API: the SQL
    to send, or the response returned at once. *)
Definition chooseSql (request : Request) (path : string) : Outcome (Response + string) :=
  if String.eqb path "/datasets" then
    Returned (inr "SHOW TABLES")
  else if matchesSchemaRoute path then
    await (decodeURIComponent platform (thirdPart path)) (fun datasetId =>
    Returned (inr ("SELECT * FROM " ++ datasetId ++ " LIMIT 1")%string))
  else if String.eqb path "/query" && String.eqb (method request) "POST" then
    await (json request) (fun body =>
    Returned (inr (substituteParams (query body) (params body))))
  else
    Returned (inl (jsonResponse (JObject [("error", JString "Not found")]) 404 ∅)).

Definition apiRequest (accountId apiToken sql : string) : ApiRequest :=
  mkApiRequest
    (CF_API_BASE ++ "/" ++ accountId ++ "/analytics_engine/sql")%string
    "POST"
    (<["Authorization" := ("Bearer " ++ apiToken)%string]>
     (<["Content-Type" := "text/plain"]> ∅))
    sql.

(** The statements of the [try] block after the call of the API. *)
Definition answerFrom (path : string) (cfResponse : ApiResponse) : Outcome Response :=
  if negb (ok cfResponse) then
    await (api_text cfResponse) (fun errorText =>
    Returned (jsonResponse
      (JObject [("error", JString "Query failed"); ("message", JString errorText);
                ("data", JArray []); ("meta", JNull)]) 502 ∅))
  else
    await (api_json cfResponse) (fun result =>
    if String.eqb path "/datasets" then
      let datasets := map datasetOf (orEmpty (data result)) in
      Returned (jsonResponse (JObject [("datasets", JArray datasets)]) 200 ∅)
    else if matchesSchemaRoute path then
      await (decodeURIComponent platform (thirdPart path)) (fun datasetId =>
      let columns := map columnJson (orEmpty (meta result)) in
      Returned (jsonResponse
        (JObject [("datasetId", JString datasetId); ("columns", JArray columns)])
        200 ∅))
    else
      Returned (jsonResponse
        (JObject [("data", JArray (map rowJson (orEmpty (data result))));
                  ("meta", JArray (map columnJson (orEmpty (meta result))));
                  ("rowCount", JNumber (orZero (rows result)));
                  ("totalRows",
                   JNumber (firstNonZero (rows_before_limit_at_least result)
                                         (rows result)))])
        200 ∅)).

(** The [try] block: its outcome, and the requests it sent to the API. *)
Definition tryBlock (request : Request) (path accountId apiToken : string)
  : Outcome Response * list ApiRequest :=
  match chooseSql request path with
  | Thrown e => (Thrown e, [])
  | Returned (inl response) => (Returned response, [])
  | Returned (inr sql) =>
      let sent := apiRequest accountId apiToken sql in
      (await (global_fetch platform sent) (answerFrom path), [sent])
  end.

(** [fetch(request, env)]: the response, and the requests sent to the API
    on the way.  A thrown value is an [Error] here, so that the [catch]
    reports its message. *)
Definition fetch (request : Request) (env : Env) : Response * list ApiRequest :=
  if negb (startsWith "/api/analytics" (pathname request)) then
    match ASSETS_fetch env request with
    | Returned response => (response, [])
    | Thrown _ => (mkResponse 404 ∅ (Text "Not Found"), [])
    end
  else if String.eqb (method request) "OPTIONS" then
    (mkResponse 204 corsHeaders NoBody, [])
  else
    let accountId := headers_get request "X-CF-Account-ID" in
    let apiToken := headers_get request "X-CF-API-Token" in
    let path := removeFirst "/api/analytics" (pathname request) in
    if String.eqb path "/health" then
      (jsonResponse
         (JObject [("status", JString "ok");
                   ("hasCredentials", JBool (negb (missing accountId) &&
                                             negb (missing apiToken)))])
         200 ∅, [])
    else
      match accountId, apiToken with
      | Some accountId, Some apiToken =>
          if isEmpty accountId || isEmpty apiToken then
            (missingCredentials, [])
          else
            match tryBlock request path accountId apiToken with
            | (Returned response, sent) => (response, sent)
            | (Thrown (mkError message), sent) =>
                (jsonResponse
                   (JObject [("error", JString "Request failed");
                             ("message", JString message)]) 500 ∅, sent)
            end
      | _, _ =>
          (missingCredentials, [])
      end.

End Worker.

End AnalyticsWorker.

(** ** Vocabulary for the worker *)

Module WorkerSpec.
Import JsString AnalyticsWorker.

(** The response carries the three CORS headers. *)
Definition allowsAnyOrigin (response : Response) : Prop :=
  headers response !! "Access-Control-Allow-Origin" = Some "*" /\
  headers response !! "Access-Control-Allow-Methods" = Some "GET, POST, OPTIONS" /\
  headers response !! "Access-Control-Allow-Headers"
    = Some "Content-Type, X-CF-Account-ID, X-CF-API-Token".

(** The part of the path after [/api/analytics]. *)
Definition routeOf (request : Request) : string :=
  removeFirst "/api/analytics" (pathname request).

End WorkerSpec.
(* ===================================================================== *)
(** * Proofs *)
(* ===================================================================== *)

Import JsString R2 TreeSpec.

(** ** The primitives on examples *)

Example split_keeps_empty_parts :
  split "/" "/a//b/" = [""; "a"; ""; "b"; ""] /\ split "/" "" = [""].
Proof. split; reflexivity. Qed.

Example join_slice :
  join "/" (firstn 3 (split "/" "a//b/c")) = "a//b".
Proof. reflexivity. Qed.

Example endsWith_keep :
  endsWith "/.keep" "docs/.keep" = true /\ endsWith "/.keep" ".keep" = false.
Proof. split; reflexivity. Qed.

(** [replace] removes the leftmost "/.keep", which need not be the one the
    key ends in. *)
Example removeFirst_leftmost :
  removeFirst "/.keep" "a/.keep/b/.keep" = "a/b/.keep".
Proof. reflexivity. Qed.

Example asciiUpperCase_letters :
  asciiUpperCase "Double precision" = "DOUBLE PRECISION".
Proof. reflexivity. Qed.

(** The three bytes of U+2028 are one code unit, the four of U+1F600 the
    two surrogates. *)
Example codeUnits_sequences :
  codeUnits (String "a" (String "226" (String "128" (String "168" "b")))) =
  [97; 8232; 98] /\
  codeUnits (String "240" (String "159" (String "152" (String "128" "")))) =
  [55357; 56832].
Proof. split; reflexivity. Qed.

Example name_patterns :
  map (DummyData.matchesDateTimePattern asciiEngine)
      ["created_at"; "ExpiresAt"; "start_time"; "birth_date"; "login_timestamp"; "price"] =
  [Some DummyData.datetime; Some DummyData.datetime; Some DummyData.time;
   Some DummyData.date; Some DummyData.datetime; None].
Proof. reflexivity. Qed.

(** [.] stops at U+2028. *)
Example name_with_line_separator :
  DummyData.matchesDateTimePattern asciiEngine
    (String "a" (String "226" (String "128" (String "168" "_date")))) = None.
Proof. reflexivity. Qed.

(** ** Lists and strings *)

Lemma isEmpty_true (s : string) : isEmpty s = true <-> s = EmptyString.
Proof. destruct s; simpl; split; congruence. Qed.

Lemma isEmpty_false (s : string) : isEmpty s = false <-> s <> EmptyString.
Proof. destruct s; simpl; split; congruence. Qed.

Lemma last_app_cons {A : Type} (pre : list A) (x : A) (rest : list A) (d : A) :
  List.last (pre ++ x :: rest) d = List.last (x :: rest) d.
Proof.
  induction pre as [|y pre IH]; [reflexivity|].
  change ((y :: pre) ++ x :: rest) with (y :: (pre ++ x :: rest)).
  destruct (pre ++ x :: rest) eqn:E.
  - destruct pre; discriminate.
  - rewrite <- E in *. simpl. rewrite E. rewrite <- E. exact IH.
Qed.

Lemma itemsFrom_nil_last (rest pre : list string) :
  rest <> [] -> itemsFrom pre rest = [] ->
  isEmpty (List.last rest EmptyString) = true.
Proof.
  revert pre. induction rest as [|part rest IH]; intros pre Hne Hnil; [congruence|].
  simpl in Hnil. destruct (isEmpty part) eqn:E; [|discriminate].
  destruct rest as [|r rs]; [exact E|].
  change (List.last (part :: r :: rs) EmptyString)
    with (List.last (r :: rs) EmptyString).
  apply (IH (pre ++ [part])); [discriminate|exact Hnil].
Qed.

Lemma firstn_length_app1 {A : Type} (pre : list A) (x : A) (rest : list A) :
  firstn (length pre + 1) (pre ++ x :: rest) = pre ++ [x].
Proof.
  induction pre as [|y pre IH]; simpl; [reflexivity|]. now rewrite IH.
Qed.

Lemma findByName_app_None (part : string) (l1 l2 : list TreeNode) :
  findByName part l1 = None ->
  findByName part (l1 ++ l2) = findByName part l2.
Proof.
  unfold findByName. induction l1 as [|n l1 IH]; simpl; [reflexivity|].
  destruct (String.eqb (name n) part); [discriminate|]. exact IH.
Qed.

Lemma setChildren_app_new (part pth : string) (cs0 cs level : list TreeNode) :
  findByName part level = None ->
  setChildren part cs (level ++ [Folder part pth cs0]) =
  level ++ [Folder part pth cs].
Proof.
  unfold findByName. induction level as [|n level IH]; simpl.
  - rewrite String.eqb_refl. reflexivity.
  - destruct (String.eqb (name n) part); [discriminate|].
    intros H. now rewrite IH.
Qed.

(** A successful [find] splits the level around the first node of that
    name, which is the one [setChildren] updates. *)
Lemma findByName_split (part : string) (level : list TreeNode) (node : TreeNode) :
  findByName part level = Some node ->
  exists l1 l2,
    level = l1 ++ node :: l2 /\ name node = part /\
    findByName part l1 = None /\
    forall nm pth cs cs', node = Folder nm pth cs ->
      setChildren part cs' level = l1 ++ Folder nm pth cs' :: l2.
Proof.
  unfold findByName. induction level as [|n level IH]; simpl; [discriminate|].
  destruct (String.eqb (name n) part) eqn:E.
  - intros [= ->]. exists [], level. repeat split; auto.
    + now apply String.eqb_eq.
    + intros nm pth cs cs' ->. reflexivity.
  - intros H. destruct (IH H) as (l1 & l2 & -> & Hn & Hnone & Hset).
    exists (n :: l1), l2. repeat split; auto.
    + simpl. now rewrite E.
    + intros nm pth cs cs' Hnode. simpl. rewrite (Hset _ _ _ _ Hnode). reflexivity.
Qed.

Lemma findByName_None_names (part : string) (level : list TreeNode) :
  findByName part level = None <-> ~ In part (map name level).
Proof.
  unfold findByName. induction level as [|n level IH]; simpl.
  - tauto.
  - destruct (String.eqb (name n) part) eqn:E.
    + apply String.eqb_eq in E. split; [discriminate|]. intros H. exfalso. tauto.
    + apply String.eqb_neq in E. rewrite IH. tauto.
Qed.

(** ** The walks are [plant] over the non-empty parts *)

Lemma plant_cons (lastKind : Kind) (part pth : string)
    (items' : list (string * string)) (level : list TreeNode) :
  plant lastKind ((part, pth) :: items') level =
  let k := match items' with [] => lastKind | _ :: _ => KFolder end in
  match findByName part level with
  | None =>
      match k with
      | KFile sz => level ++ [File part pth sz]
      | KFolder => level ++ [Folder part pth (plant lastKind items' [])]
      end
  | Some (Folder _ _ cs) =>
      match k with
      | KFile _ => level
      | KFolder => setChildren part (plant lastKind items' cs) level
      end
  | Some (File _ _ _) =>
      match k with
      | KFile _ => level
      | KFolder => plant lastKind items' level
      end
  end.
Proof. reflexivity. Qed.

Lemma walkObject_plant (obj : R2ObjectItem) (parts rest pre : list string)
    (level : list TreeNode) :
  parts = pre ++ rest ->
  walkObject obj parts (length pre) rest level =
  plant (lastKindOf obj parts) (itemsFrom pre rest) level.
Proof.
  revert pre level. induction rest as [|part rest IH]; intros pre level Hparts.
  - reflexivity.
  - assert (Hnext : parts = (pre ++ [part]) ++ rest)
      by (rewrite <- app_assoc; exact Hparts).
    assert (Hlen : S (length pre) = length (pre ++ [part]))
      by (rewrite length_app; simpl; lia).
    simpl. destruct (isEmpty part) eqn:E.
    + rewrite Hlen. now apply IH.
    + rewrite Hlen.
      replace (firstn (length pre + 1) parts) with (pre ++ [part])
        by (rewrite Hparts; symmetry; apply firstn_length_app1).
      destruct rest as [|r rs].
      * (* the final part: a file *)
        replace (length pre =? length parts - 1)%nat with true
          by (symmetry; apply Nat.eqb_eq; rewrite Hparts, length_app; simpl; lia).
        assert (Hk : lastKindOf obj parts = KFile (objSize obj)).
        { unfold lastKindOf. rewrite Hparts, last_app_cons. simpl. now rewrite E. }
        simpl. rewrite Hk.
        destruct (findByName part level) as [[? ? ?|? ? ?]|]; reflexivity.
      * (* an inner part: a folder *)
        replace (length pre =? length parts - 1)%nat with false
          by (symmetry; apply Nat.eqb_neq; rewrite Hparts, length_app; simpl; lia).
        set (items' := itemsFrom (pre ++ [part]) (r :: rs)).
        assert (Hk : match items' with
                     | [] => lastKindOf obj parts
                     | _ :: _ => KFolder
                     end = KFolder).
        { destruct items' eqn:Hi; [|reflexivity].
          unfold lastKindOf. rewrite Hparts, last_app_cons.
          change (List.last (part :: r :: rs) EmptyString)
            with (List.last (r :: rs) EmptyString).
          rewrite (itemsFrom_nil_last (r :: rs) (pre ++ [part]));
            [reflexivity|discriminate|exact Hi]. }
        rewrite plant_cons. cbn zeta. rewrite Hk.
        destruct (findByName part level) as [[nm pth sz|nm pth cs]|] eqn:Hf; cbn [negb children].
        -- now apply IH.
        -- f_equal. now apply IH.
        -- rewrite setChildren_app_new by exact Hf.
           f_equal. f_equal. f_equal. now apply IH.
Qed.

Lemma walkFolder_plant (parts rest pre : list string) (level : list TreeNode) :
  parts = pre ++ rest ->
  walkFolder parts (length pre) rest level =
  plant KFolder (itemsFrom pre rest) level.
Proof.
  revert pre level. induction rest as [|part rest IH]; intros pre level Hparts.
  - reflexivity.
  - assert (Hnext : parts = (pre ++ [part]) ++ rest)
      by (rewrite <- app_assoc; exact Hparts).
    assert (Hlen : S (length pre) = length (pre ++ [part]))
      by (rewrite length_app; simpl; lia).
    simpl. destruct (isEmpty part) eqn:E.
    + rewrite Hlen. now apply IH.
    + rewrite Hlen.
      replace (firstn (length pre + 1) parts) with (pre ++ [part])
        by (rewrite Hparts; symmetry; apply firstn_length_app1).
      set (items' := itemsFrom (pre ++ [part]) rest).
      assert (Hk : match items' with [] => KFolder | _ :: _ => KFolder end = KFolder)
        by (destruct items'; reflexivity).
      rewrite plant_cons. cbn zeta. rewrite Hk.
      destruct (findByName part level) as [[nm pth sz|nm pth cs]|] eqn:Hf; cbn [negb children].
      * now apply IH.
      * f_equal. now apply IH.
      * rewrite setChildren_app_new by exact Hf.
        f_equal. f_equal. f_equal. now apply IH.
Qed.

(** ** The store: updates through a reference *)

Lemma mapAt_ext_at {A : Type} (i : nat) (f g : A -> A) (l : list A) :
  (forall x, nth_error l i = Some x -> f x = g x) ->
  mapAt i f l = mapAt i g l.
Proof.
  revert i. induction l as [|y l IH]; intros [|i] H; simpl; try reflexivity.
  - now rewrite (H y).
  - f_equal. apply IH. exact H.
Qed.

Lemma mapAt_mapAt {A : Type} (i : nat) (f g : A -> A) (l : list A) :
  mapAt i f (mapAt i g l) = mapAt i (fun x => f (g x)) l.
Proof.
  revert i. induction l as [|y l IH]; intros [|i]; simpl; try reflexivity.
  now rewrite IH.
Qed.

Lemma nth_error_mapAt {A : Type} (i : nat) (f : A -> A) (l : list A) :
  nth_error (mapAt i f l) i = option_map f (nth_error l i).
Proof.
  revert i. induction l as [|y l IH]; intros [|i]; simpl; try reflexivity.
  apply IH.
Qed.

Lemma mapAt_length_app {A : Type} (f : A -> A) (l : list A) (x : A) :
  mapAt (length l) f (l ++ [x]) = l ++ [f x].
Proof. induction l as [|y l IH]; simpl; [reflexivity|]. now rewrite IH. Qed.

Lemma nth_error_length_app {A : Type} (l : list A) (x : A) :
  nth_error (l ++ [x]) (length l) = Some x.
Proof. induction l as [|y l IH]; simpl; [reflexivity|exact IH]. Qed.

Lemma updateAt_ext_at (ref : Ref) (f g : list TreeNode -> list TreeNode) :
  forall root, validRef ref root ->
  f (deref ref root) = g (deref ref root) ->
  updateAt ref f root = updateAt ref g root.
Proof.
  induction ref as [|i ref IH]; intros root Hv Hfg; [exact Hfg|].
  destruct Hv as (nm & pth & cs & Hi & Hv). simpl in Hfg. rewrite Hi in Hfg.
  simpl. apply mapAt_ext_at. intros x Hx. rewrite Hi in Hx. inversion Hx; subst x.
  simpl. f_equal. now apply IH.
Qed.

Lemma updateAt_updateAt (ref : Ref) (f g : list TreeNode -> list TreeNode) :
  forall root,
  updateAt ref g (updateAt ref f root) = updateAt ref (fun level => g (f level)) root.
Proof.
  induction ref as [|i ref IH]; intros root; [reflexivity|].
  simpl. rewrite mapAt_mapAt. apply mapAt_ext_at. intros [nm pth sz|nm pth cs] _.
  - reflexivity.
  - simpl. f_equal. apply IH.
Qed.

Lemma updateAt_id (ref : Ref) :
  forall root, updateAt ref (fun level => level) root = root.
Proof.
  induction ref as [|i ref IH]; intros root; [reflexivity|].
  simpl. revert i. induction root as [|node root IHroot]; intros [|i]; simpl;
    try reflexivity.
  - destruct node; simpl; [reflexivity|]. now rewrite IH.
  - now rewrite IHroot.
Qed.

Lemma updateAt_snoc (ref : Ref) (k : nat) (g : list TreeNode -> list TreeNode) :
  forall root,
  updateAt (ref ++ [k]) g root = updateAt ref (mapAt k (onChildren g)) root.
Proof.
  induction ref as [|i ref IH]; intros root.
  - simpl. apply mapAt_ext_at. intros [nm pth sz|nm pth cs] _; reflexivity.
  - simpl. apply mapAt_ext_at. intros [nm pth sz|nm pth cs] _; [reflexivity|].
    simpl. f_equal. apply IH.
Qed.

Lemma deref_updateAt (ref : Ref) (f : list TreeNode -> list TreeNode) :
  forall root, validRef ref root ->
  deref ref (updateAt ref f root) = f (deref ref root) /\
  validRef ref (updateAt ref f root).
Proof.
  induction ref as [|i ref IH]; intros root Hv; [now split|].
  destruct Hv as (nm & pth & cs & Hi & Hv). simpl.
  rewrite nth_error_mapAt, Hi. simpl.
  destruct (IH cs Hv) as [Hd Hv']. split; [exact Hd|].
  exists nm, pth, (updateAt ref f cs). split; [reflexivity|exact Hv'].
Qed.

Lemma validRef_snoc (ref : Ref) (k : nat) :
  forall root nm pth cs,
  validRef ref root ->
  nth_error (deref ref root) k = Some (Folder nm pth cs) ->
  validRef (ref ++ [k]) root.
Proof.
  induction ref as [|i ref IH]; intros root nm pth cs Hv Hk.
  - simpl in *. exists nm, pth, cs. now split.
  - destruct Hv as (nm' & pth' & cs' & Hi & Hv). simpl in Hk. rewrite Hi in Hk.
    simpl. exists nm', pth', cs'. split; [exact Hi|]. eapply IH; eauto.
Qed.

(** [find] returns the node [findByName] returns, with its index, and an
    update of the children of the node of that index is [setChildren]. *)
Lemma findFrom_Some (part : string) (level : list TreeNode) :
  forall k0 k node,
  findFrom k0 part level = Some (k, node) ->
  exists j, k = (k0 + j)%nat /\
    findByName part level = Some node /\
    nth_error level j = Some node /\
    forall g, mapAt j (onChildren g) level =
              match node with
              | Folder _ _ cs => setChildren part (g cs) level
              | File _ _ _ => level
              end.
Proof.
  unfold findByName.
  induction level as [|n level IH]; intros k0 k node H; [discriminate|].
  simpl in H. simpl. destruct (String.eqb (name n) part) eqn:E.
  - inversion H; subst. exists 0%nat. split; [lia|]. split; [reflexivity|].
    split; [reflexivity|]. intros g.
    destruct node as [nm pth sz|nm pth cs]; cbn [mapAt onChildren setChildren];
      rewrite ?E; reflexivity.
  - destruct (IH _ _ _ H) as (j & -> & Hby & Hnth & Hmap).
    exists (S j). split; [lia|]. split; [exact Hby|]. split; [exact Hnth|].
    intros g. cbn [mapAt]. rewrite Hmap.
    destruct node as [nm pth sz|nm pth cs]; cbn [setChildren];
      rewrite ?E; reflexivity.
Qed.

Lemma find_Some (part : string) (level : list TreeNode) (k : nat) (node : TreeNode) :
  find part level = Some (k, node) ->
  findByName part level = Some node /\
  nth_error level k = Some node /\
  forall g, mapAt k (onChildren g) level =
            match node with
            | Folder _ _ cs => setChildren part (g cs) level
            | File _ _ _ => level
            end.
Proof.
  intros H. destruct (findFrom_Some _ _ _ _ _ H) as (j & -> & H1 & H2 & H3).
  now repeat split.
Qed.

Lemma find_None (part : string) (level : list TreeNode) :
  find part level = None -> findByName part level = None.
Proof.
  unfold find, findByName. generalize 0%nat.
  induction level as [|n level IH]; intros k0 H; [reflexivity|].
  simpl in *. destruct (String.eqb (name n) part); [discriminate|]. eauto.
Qed.

(** ** The loops of the source update the store as the walks say *)

Lemma walkObject_cons (obj : R2ObjectItem) (parts : list string) (i : nat)
    (part : string) (rest' : list string) (level : list TreeNode) :
  walkObject obj parts i (part :: rest') level =
  if isEmpty part then walkObject obj parts (S i) rest' level
  else
    let isFile := Nat.eqb i (length parts - 1) in
    let currentPath := join "/" (firstn (i + 1) parts) in
    let '(level1, existing) :=
      match findByName part level with
      | Some node => (level, node)
      | None =>
          let newNode :=
            if isFile then File part currentPath (objSize obj)
            else Folder part currentPath [] in
          (level ++ [newNode], newNode)
      end in
    match negb isFile, children existing with
    | true, Some cs => setChildren part (walkObject obj parts (S i) rest' cs) level1
    | _, _ => walkObject obj parts (S i) rest' level1
    end.
Proof. reflexivity. Qed.

Lemma walkFolder_cons (parts : list string) (i : nat)
    (part : string) (rest' : list string) (level : list TreeNode) :
  walkFolder parts i (part :: rest') level =
  if isEmpty part then walkFolder parts (S i) rest' level
  else
    let currentPath := join "/" (firstn (i + 1) parts) in
    let '(level1, existing) :=
      match findByName part level with
      | Some node => (level, node)
      | None =>
          let newNode := Folder part currentPath [] in
          (level ++ [newNode], newNode)
      end in
    match children existing with
    | Some cs => setChildren part (walkFolder parts (S i) rest' cs) level1
    | None => walkFolder parts (S i) rest' level1
    end.
Proof. reflexivity. Qed.

(** One step of either loop, once the node to continue from is known:
    [step] is what the rest of the loop does from a given level. *)
Lemma loop_step_found (ref : Ref) (root : list TreeNode) (part : string)
    (k : nat) (existing : TreeNode) (descend : bool)
    (step : list TreeNode -> list TreeNode) :
  validRef ref root ->
  find part (deref ref root) = Some (k, existing) ->
  validRef (if descend && truthy (children existing) then ref ++ [k] else ref) root /\
  updateAt (if descend && truthy (children existing) then ref ++ [k] else ref)
           step root =
  updateAt ref
    (fun level =>
       match descend, children existing with
       | true, Some cs => setChildren part (step cs) level
       | _, _ => step level
       end) root.
Proof.
  intros Hv Hfind. destruct (find_Some _ _ _ _ Hfind) as (_ & Hnth & Hmap).
  destruct descend; [|now split].
  destruct existing as [nm pth sz|nm pth cs]; [now split|].
  cbn [andb truthy children]. split.
  - eapply validRef_snoc; eauto.
  - rewrite updateAt_snoc. apply updateAt_ext_at; [exact Hv|]. apply Hmap.
Qed.

Lemma loop_step_new_file (ref : Ref) (root : list TreeNode) (part pth : string)
    (sz : Z) (step : list TreeNode -> list TreeNode) :
  validRef ref root ->
  validRef ref (push ref (File part pth sz) root) /\
  updateAt ref step (push ref (File part pth sz) root) =
  updateAt ref (fun level => step (level ++ [File part pth sz])) root.
Proof.
  intros Hv. unfold push. split.
  - now apply deref_updateAt.
  - apply updateAt_updateAt.
Qed.

Lemma loop_step_new_folder (ref : Ref) (root : list TreeNode) (part pth : string)
    (step : list TreeNode -> list TreeNode) :
  validRef ref root ->
  find part (deref ref root) = None ->
  validRef (ref ++ [length (deref ref root)]) (push ref (Folder part pth []) root) /\
  updateAt (ref ++ [length (deref ref root)]) step
           (push ref (Folder part pth []) root) =
  updateAt ref
    (fun level => setChildren part (step []) (level ++ [Folder part pth []])) root.
Proof.
  intros Hv Hfind. unfold push. apply find_None in Hfind.
  destruct (deref_updateAt ref (fun level => level ++ [Folder part pth []]) root Hv)
    as [Hd Hv'].
  split.
  - eapply validRef_snoc; [exact Hv'|]. rewrite Hd. apply nth_error_length_app.
  - rewrite updateAt_snoc, updateAt_updateAt.
    apply updateAt_ext_at; [exact Hv|]. cbv beta.
    rewrite mapAt_length_app. simpl onChildren.
    now rewrite setChildren_app_new.
Qed.

Lemma placeObject_walk (obj : R2ObjectItem) (parts rest : list string) :
  forall i root ref, validRef ref root ->
  Dashboard.placeObject obj parts i rest root ref =
  updateAt ref (walkObject obj parts i rest) root.
Proof.
  induction rest as [|part rest IH]; intros i root ref Hv.
  - simpl. symmetry. apply updateAt_id.
  - cbn [Dashboard.placeObject].
    destruct (isEmpty part) eqn:E.
    + rewrite IH by exact Hv. apply updateAt_ext_at; [exact Hv|].
      now rewrite walkObject_cons, E.
    + destruct (find part (deref ref root)) as [[k existing]|] eqn:Hfind.
      * destruct (loop_step_found ref root part k existing
                    (negb (i =? length parts - 1)%nat)
                    (walkObject obj parts (S i) rest) Hv Hfind) as [Hv' Hstep].
        rewrite IH by exact Hv'. rewrite Hstep.
        apply updateAt_ext_at; [exact Hv|].
        rewrite walkObject_cons, E. cbn zeta.
        destruct (find_Some _ _ _ _ Hfind) as (-> & _ & _). reflexivity.
      * destruct (i =? length parts - 1)%nat eqn:HisFile; cbn [negb andb truthy children].
        -- destruct (loop_step_new_file ref root part
                       (join "/" (firstn (i + 1) parts)) (objSize obj)
                       (walkObject obj parts (S i) rest) Hv) as [Hv' Hstep].
           rewrite IH by exact Hv'. rewrite Hstep.
           apply updateAt_ext_at; [exact Hv|].
           rewrite walkObject_cons, E. cbn zeta.
           rewrite (find_None _ _ Hfind), HisFile. reflexivity.
        -- destruct (loop_step_new_folder ref root part
                       (join "/" (firstn (i + 1) parts))
                       (walkObject obj parts (S i) rest) Hv Hfind) as [Hv' Hstep].
           rewrite IH by exact Hv'. rewrite Hstep.
           apply updateAt_ext_at; [exact Hv|].
           rewrite walkObject_cons, E. cbn zeta.
           rewrite (find_None _ _ Hfind), HisFile. reflexivity.
Qed.

Lemma placeFolder_walk (parts rest : list string) :
  forall i root ref, validRef ref root ->
  Dashboard.placeFolder parts i rest root ref =
  updateAt ref (walkFolder parts i rest) root.
Proof.
  induction rest as [|part rest IH]; intros i root ref Hv.
  - simpl. symmetry. apply updateAt_id.
  - cbn [Dashboard.placeFolder].
    destruct (isEmpty part) eqn:E.
    + rewrite IH by exact Hv. apply updateAt_ext_at; [exact Hv|].
      now rewrite walkFolder_cons, E.
    + destruct (find part (deref ref root)) as [[k existing]|] eqn:Hfind.
      * destruct (loop_step_found ref root part k existing true
                    (walkFolder parts (S i) rest) Hv Hfind) as [Hv' Hstep].
        cbn [andb] in Hv', Hstep.
        rewrite IH by exact Hv'. rewrite Hstep.
        apply updateAt_ext_at; [exact Hv|].
        rewrite walkFolder_cons, E. cbn zeta.
        destruct (find_Some _ _ _ _ Hfind) as (-> & _ & _). reflexivity.
      * cbn [truthy children].
        destruct (loop_step_new_folder ref root part
                    (join "/" (firstn (i + 1) parts))
                    (walkFolder parts (S i) rest) Hv Hfind) as [Hv' Hstep].
        rewrite IH by exact Hv'. rewrite Hstep.
        apply updateAt_ext_at; [exact Hv|].
        rewrite walkFolder_cons, E. cbn zeta.
        rewrite (find_None _ _ Hfind). reflexivity.
Qed.

Lemma addObject_plant (root : list TreeNode) (obj : R2ObjectItem) :
  Dashboard.addObject root obj =
  plant (lastKindOf obj (split "/" (key obj)))
        (itemsFrom [] (split "/" (key obj))) root.
Proof.
  unfold Dashboard.addObject. cbn zeta. rewrite placeObject_walk by exact I.
  now apply (walkObject_plant obj _ _ []).
Qed.

Lemma addKeepFolder_plant (root : list TreeNode) (obj : R2ObjectItem) :
  Dashboard.addKeepFolder root obj =
  if endsWith "/.keep" (key obj) then
    plant KFolder (itemsFrom [] (split "/" (removeFirst "/.keep" (key obj)))) root
  else root.
Proof.
  unfold Dashboard.addKeepFolder. destruct (endsWith "/.keep" (key obj)); [|reflexivity].
  cbn zeta. rewrite placeFolder_walk by exact I.
  now apply (walkFolder_plant _ _ []).
Qed.

(** ** Reaching nodes *)

Lemma Has_nil (s : list string) (p : string) (k : Kind) : ~ Has [] s p k.
Proof. intros H. inversion H; subst; contradiction. Qed.

Lemma Has_app (l1 l2 : list TreeNode) (s : list string) (p : string) (k : Kind) :
  Has (l1 ++ l2) s p k <-> Has l1 s p k \/ Has l2 s p k.
Proof.
  split.
  - intros H. inversion H as [? ? ? ? Hin|? ? ? ? Hin|? ? ? ? ? ? ? Hin Hcs]; subst;
      apply in_app_or in Hin; destruct Hin;
      eauto using Has_file, Has_folder, Has_below.
  - intros [H|H];
      inversion H as [? ? ? ? Hin|? ? ? ? Hin|? ? ? ? ? ? ? Hin Hcs]; subst;
      eauto using Has_file, Has_folder, Has_below, in_or_app.
Qed.

Lemma Has_one_file (nm pth : string) (sz : Z) (s : list string) (p : string) (k : Kind) :
  Has [File nm pth sz] s p k <-> s = [nm] /\ p = pth /\ k = KFile sz.
Proof.
  split.
  - intros H. inversion H as [? ? ? ? Hin|? ? ? ? Hin|? ? ? ? ? ? ? Hin Hcs]; subst;
      destruct Hin as [Hin|[]]; inversion Hin; subst; auto.
  - intros (-> & -> & ->). apply Has_file. now left.
Qed.

Lemma Has_one_folder (nm pth : string) (cs : list TreeNode)
    (s : list string) (p : string) (k : Kind) :
  Has [Folder nm pth cs] s p k <->
  (s = [nm] /\ p = pth /\ k = KFolder) \/
  (exists s', s = nm :: s' /\ Has cs s' p k).
Proof.
  split.
  - intros H. inversion H as [? ? ? ? Hin|? ? ? ? Hin|? ? ? ? ? ? ? Hin Hcs]; subst;
      destruct Hin as [Hin|[]]; inversion Hin; subst; eauto.
  - intros [(-> & -> & ->)|(s' & -> & H)].
    + eapply Has_folder. now left.
    + eapply Has_below; [now left|exact H].
Qed.

Lemma Has_middle (l1 l2 : list TreeNode) (n : TreeNode)
    (s : list string) (p : string) (k : Kind) :
  Has (l1 ++ n :: l2) s p k <-> Has l1 s p k \/ Has [n] s p k \/ Has l2 s p k.
Proof.
  change (n :: l2) with ([n] ++ l2). now rewrite !Has_app.
Qed.

(** The name of the node reached is the last segment. *)
Lemma Has_segs_nonempty (level : list TreeNode) (s : list string) (p : string) (k : Kind) :
  Has level s p k -> s <> [].
Proof. intros H. inversion H; discriminate. Qed.

Lemma In_under (part : string) (es : list Entry) (s : list string) (p : string) (k : Kind) :
  In (mkEntry s p k) (map (under part) es) <->
  exists s', s = part :: s' /\ In (mkEntry s' p k) es.
Proof.
  rewrite in_map_iff. split.
  - intros ([s' p' k'] & Heq & Hin). unfold under in Heq. simpl in Heq.
    inversion Heq; subst. eauto.
  - intros (s' & -> & Hin). exists (mkEntry s' p k). split; [reflexivity|exact Hin].
Qed.

(** ** What the walk does to the tree *)


Lemma Compat_nil (es : list Entry) : Compat [] es.
Proof. intros e p k _ H. now apply Has_nil in H. Qed.

Lemma itemEntries_last_file (lastKind : Kind) (items : list (string * string)) (sz : Z) :
  match items with [] => lastKind | _ :: _ => KFolder end = KFile sz ->
  items = [].
Proof. destruct items; [reflexivity|discriminate]. Qed.

Lemma plant_spec (lastKind : Kind) (items : list (string * string)) :
  forall level, Compat level (itemEntries lastKind items) ->
  forall s p k,
    Has (plant lastKind items level) s p k <->
    Has level s p k \/ In (mkEntry s p k) (itemEntries lastKind items).
Proof.
  induction items as [|[part pth] items IH]; intros level Hc s p k.
  - simpl. tauto.
  - rewrite plant_cons. cbn zeta.
    cbn [itemEntries] in *.
    set (k0 := match items with [] => lastKind | _ :: _ => KFolder end) in *.
    set (e0 := {| segs := [part]; epath := pth; kind := k0 |}) in *.
    assert (He0 : forall q kq, Has level [part] q kq -> q = pth /\ kq = k0).
    { intros q kq Hq. apply (Hc e0); [now left|exact Hq]. }
    assert (Hsub : forall cs nm pth1, In (Folder nm pth1 cs) level -> nm = part ->
                   Compat cs (itemEntries lastKind items)).
    { intros cs nm pth1 Hin -> e q kq He Hq.
      apply (Hc (under part e)).
      - right. now apply in_map.
      - simpl. eapply Has_below; eauto. }
    destruct (findByName part level) as [[nm pth1 sz1|nm pth1 cs]|] eqn:Hf.
    + (* an existing file *)
      destruct (findByName_split _ _ _ Hf) as (l1 & l2 & Hlevel & Hnm & _ & _).
      simpl in Hnm. subst nm.
      assert (Hhere : Has level [part] pth1 (KFile sz1)).
      { apply Has_file. rewrite Hlevel. apply in_or_app. right. now left. }
      destruct (He0 _ _ Hhere) as [-> Hk]. rewrite <- Hk.
      assert (Hitems : items = []) by (eapply itemEntries_last_file; symmetry; exact Hk).
      subst items. simpl. split; [tauto|].
      intros [H|[H|[]]]; [exact H|]. inversion H; subst. rewrite <- Hk. exact Hhere.
    + (* an existing folder *)
      destruct (findByName_split _ _ _ Hf) as (l1 & l2 & Hlevel & Hnm & _ & Hset).
      simpl in Hnm. subst nm.
      assert (Hhere : Has level [part] pth1 KFolder).
      { eapply Has_folder. rewrite Hlevel. apply in_or_app. right. now left. }
      destruct (He0 _ _ Hhere) as [-> Hk]. rewrite <- Hk.
      rewrite (Hset _ _ _ _ eq_refl).
      assert (Hcs : Compat cs (itemEntries lastKind items)).
      { apply (Hsub cs part pth); [|reflexivity].
        rewrite Hlevel. apply in_or_app. right. now left. }
      specialize (IH cs Hcs).
      rewrite Hlevel, !Has_middle, !Has_one_folder.
      simpl. rewrite In_under.
      split.
      * intros [H|[[H|(s' & -> & H)]|H]]; try tauto.
        -- apply IH in H. destruct H as [H|H]; [left; right; left; right; eauto|].
           right. right. eauto.
      * intros [[H|[[H|(s' & -> & H)]|H]]|[H|(s' & -> & H)]]; try tauto.
        -- right. left. right. exists s'. split; [reflexivity|]. apply IH. now left.
        -- inversion H; subst. rewrite <- Hk. tauto.
        -- right. left. right. exists s'. split; [reflexivity|]. apply IH. now right.
    + (* no node of that name yet *)
      destruct k0 as [sz|] eqn:Hk.
      * assert (Hitems : items = []) by (eapply itemEntries_last_file; exact Hk).
        subst items. simpl. rewrite Has_app, Has_one_file.
        split.
        -- intros [H|(-> & -> & ->)]; [tauto|]. right. left.
           unfold e0. reflexivity.
        -- intros [H|[H|[]]]; [tauto|]. right. unfold e0 in H. inversion H; subst. auto.
      * specialize (IH [] (Compat_nil _)).
        rewrite Has_app, Has_one_folder. simpl. rewrite In_under.
        split.
        -- intros [H|[(-> & -> & ->)|(s' & -> & H)]]; [tauto| |].
           ++ right. left. reflexivity.
           ++ apply IH in H. destruct H as [H|H]; [now apply Has_nil in H|].
              right. right. eauto.
        -- intros [H|[H|(s' & -> & H)]]; [tauto| |].
           ++ unfold e0 in H. inversion H; subst. tauto.
           ++ right. right. exists s'. split; [reflexivity|]. apply IH. now right.
Qed.

(** ** The entries of a key, by index and by walk *)


Lemma entryAt_skip (lastKind : Kind) (pre : list string) (part r : string)
    (rs : list string) (j : nat) :
  isEmpty part = true ->
  entryAt lastKind pre (part :: r :: rs) (S j) =
  entryAt lastKind (pre ++ [part]) (r :: rs) j.
Proof.
  intros E. unfold entryAt. f_equal.
  - simpl. now rewrite E.
  - simpl. now rewrite <- app_assoc.
  - simpl. now rewrite Nat.sub_0_r.
Qed.

Lemma entryAt_under (lastKind : Kind) (pre : list string) (part r : string)
    (rs : list string) (j : nat) :
  isEmpty part = false ->
  entryAt lastKind pre (part :: r :: rs) (S j) =
  under part (entryAt lastKind (pre ++ [part]) (r :: rs) j).
Proof.
  intros E. unfold entryAt, under. cbn [segs epath kind]. f_equal.
  - simpl. now rewrite E.
  - simpl. now rewrite <- app_assoc.
  - simpl. now rewrite Nat.sub_0_r.
Qed.

Lemma itemsFrom_cons (pre : list string) (part : string) (rest : list string) :
  itemsFrom pre (part :: rest) =
  if isEmpty part then itemsFrom (pre ++ [part]) rest
  else (part, join "/" (pre ++ [part])) :: itemsFrom (pre ++ [part]) rest.
Proof. reflexivity. Qed.

Lemma first_entry_kind (lastKind K' : Kind) (pre : list string) (r : string)
    (rs : list string) :
  K' = (if isEmpty (List.last (r :: rs) EmptyString) then KFolder else lastKind) ->
  match itemsFrom pre (r :: rs) with [] => K' | _ :: _ => KFolder end = KFolder.
Proof.
  intros HK. destruct (itemsFrom pre (r :: rs)) eqn:Hi; [|reflexivity].
  rewrite HK, (itemsFrom_nil_last (r :: rs) pre);
    [reflexivity|discriminate|exact Hi].
Qed.

Lemma itemEntries_itemsFrom (lastKind K' : Kind) (rest : list string) :
  forall pre e,
  K' = (if isEmpty (List.last rest EmptyString) then KFolder else lastKind) ->
  (In e (itemEntries K' (itemsFrom pre rest)) <->
   exists j part, nth_error rest j = Some part /\ isEmpty part = false /\
                  e = entryAt lastKind pre rest j).
Proof.
  induction rest as [|part rest IH]; intros pre e HK.
  - simpl. split; [tauto|]. intros (j & part & H & _). destruct j; discriminate.
  - destruct rest as [|r rs].
    + (* the final part *)
      simpl in HK. simpl. destruct (isEmpty part) eqn:E.
      * simpl. split; [tauto|]. intros (j & q & Hj & Hq & _).
        destruct j as [|j]; simpl in Hj; [|destruct j; discriminate].
        inversion Hj; subst. congruence.
      * simpl. unfold entryAt. split.
        -- intros [<-|[]]. exists 0%nat, part. repeat split; auto.
           simpl. rewrite E, HK. reflexivity.
        -- intros (j & q & Hj & Hq & ->).
           destruct j as [|j]; simpl in Hj; [|destruct j; discriminate].
           left. simpl. rewrite E, HK. reflexivity.
    + (* an inner part *)
      assert (HK' : K' = (if isEmpty (List.last (r :: rs) EmptyString)
                          then KFolder else lastKind)) by exact HK.
      specialize (IH (pre ++ [part])).
      rewrite itemsFrom_cons. destruct (isEmpty part) eqn:E.
      * rewrite (IH e HK'). split.
        -- intros (j & q & Hj & Hq & ->). exists (S j), q. repeat split; auto.
           symmetry. now apply entryAt_skip.
        -- intros (j & q & Hj & Hq & ->). destruct j as [|j].
           ++ simpl in Hj. inversion Hj; subst. congruence.
           ++ exists j, q. repeat split; auto. now apply entryAt_skip.
      * cbn [itemEntries]. cbn [In]. rewrite in_map_iff. split.
        -- intros [<-|(e' & <- & He')].
           ++ exists 0%nat, part. repeat split; auto.
              rewrite (first_entry_kind lastKind K' _ _ _ HK').
              unfold entryAt. simpl. now rewrite E.
           ++ apply (IH e' HK') in He'. destruct He' as (j & q & Hj & Hq & ->).
              exists (S j), q. repeat split; auto.
              symmetry. now apply entryAt_under.
        -- intros (j & q & Hj & Hq & ->). destruct j as [|j].
           ++ left. rewrite (first_entry_kind lastKind K' _ _ _ HK').
              unfold entryAt. simpl. now rewrite E.
           ++ right. exists (entryAt lastKind (pre ++ [part]) (r :: rs) j).
              split; [symmetry; now apply entryAt_under|].
              apply (IH _ HK'). exists j, q. repeat split; auto.
Qed.

Lemma In_keyEntries (lastKind : Kind) (parts : list string) (e : Entry) :
  In e (keyEntries lastKind parts) <->
  exists i part, nth_error parts i = Some part /\ isEmpty part = false /\
                 e = entryAt lastKind [] parts i.
Proof.
  unfold keyEntries. rewrite in_flat_map. split.
  - intros (i & _ & Hi). destruct (nth_error parts i) as [part|] eqn:Hn; [|contradiction].
    destruct (isEmpty part) eqn:E; [contradiction|].
    destruct Hi as [<-|[]]. exists i, part. repeat split; auto.
  - intros (i & part & Hn & E & ->). exists i. split.
    + apply in_seq. split; [lia|]. simpl. apply nth_error_Some. congruence.
    + rewrite Hn, E. now left.
Qed.

(** The walk of the first pass plants the entries of the object. *)
Lemma objectEntries_items (obj : R2ObjectItem) (e : Entry) :
  In e (itemEntries (lastKindOf obj (split "/" (key obj)))
                    (itemsFrom [] (split "/" (key obj)))) <->
  In e (objectEntries obj).
Proof.
  unfold objectEntries. rewrite In_keyEntries.
  apply itemEntries_itemsFrom. reflexivity.
Qed.

(** The walk of the second pass plants the folders of the marker. *)
Lemma keyEntries_folder_items (parts : list string) (e : Entry) :
  In e (itemEntries KFolder (itemsFrom [] parts)) <-> In e (keyEntries KFolder parts).
Proof.
  rewrite In_keyEntries. apply itemEntries_itemsFrom.
  now destruct (isEmpty (List.last parts EmptyString)).
Qed.

(** ** Consistency of a list of entries *)

Lemma list_eqb_string_refl (l : list string) : list_eqb String.eqb l l = true.
Proof. induction l as [|x l IH]; simpl; [reflexivity|]. now rewrite String.eqb_refl. Qed.

Lemma Kind_eqb_eq (a b : Kind) : Kind_eqb a b = true -> a = b.
Proof.
  destruct a, b; simpl; try discriminate; auto.
  intros H. apply Z.eqb_eq in H. now subst.
Qed.

Lemma consistent_agree (es : list Entry) (e1 e2 : Entry) :
  consistent es = true -> In e1 es -> In e2 es -> segs e1 = segs e2 ->
  epath e1 = epath e2 /\ kind e1 = kind e2.
Proof.
  unfold consistent. rewrite forallb_forall. intros H H1 H2 Hs.
  specialize (H e1 H1). rewrite forallb_forall in H. specialize (H e2 H2).
  unfold agree in H. rewrite Hs, list_eqb_string_refl in H. simpl in H.
  apply andb_true_iff in H. destruct H as [Hp Hk].
  split; [now apply String.eqb_eq|now apply Kind_eqb_eq].
Qed.


Lemma fold_represents {X : Type} (step : list TreeNode -> X -> list TreeNode)
    (ents : X -> list Entry) :
  (forall t x, Compat t (ents x) ->
     forall s p k, Has (step t x) s p k <-> Has t s p k \/ In (mkEntry s p k) (ents x)) ->
  forall xs t es,
    (forall e1 e2, In e1 (es ++ flat_map ents xs) -> In e2 (es ++ flat_map ents xs) ->
       segs e1 = segs e2 -> epath e1 = epath e2 /\ kind e1 = kind e2) ->
    Represents t es ->
    Represents (fold_left step xs t) (es ++ flat_map ents xs).
Proof.
  intros Hstep xs. induction xs as [|x xs IH]; intros t es Hcons Hrep.
  - simpl. rewrite app_nil_r. exact Hrep.
  - simpl. rewrite app_assoc. apply IH.
    + intros e1 e2. rewrite <- app_assoc. apply Hcons.
    + assert (Hc : Compat t (ents x)).
      { intros e p k He Hhas. apply Hrep in Hhas.
        destruct (Hcons (mkEntry (segs e) p k) e) as [Hp Hk]; simpl; auto.
        - apply in_or_app. now left.
        - apply in_or_app. right. simpl. apply in_or_app. now left. }
      intros s p k. rewrite (Hstep t x Hc), in_app_iff, (Hrep s p k). tauto.
Qed.

Lemma Compat_ext (t : list TreeNode) (es es' : list Entry) :
  (forall e, In e es' -> In e es) -> Compat t es -> Compat t es'.
Proof. intros Hin Hc e p k He. apply Hc. now apply Hin. Qed.

Lemma addObject_spec (t : list TreeNode) (obj : R2ObjectItem) :
  Compat t (objectEntries obj) ->
  forall s p k,
    Has (Dashboard.addObject t obj) s p k <->
    Has t s p k \/ In (mkEntry s p k) (objectEntries obj).
Proof.
  intros Hc s p k. rewrite addObject_plant, plant_spec.
  - now rewrite objectEntries_items.
  - eapply Compat_ext; [|exact Hc]. intros e. apply objectEntries_items.
Qed.

Lemma addKeepFolder_spec (t : list TreeNode) (obj : R2ObjectItem) :
  Compat t (keepEntries obj) ->
  forall s p k,
    Has (Dashboard.addKeepFolder t obj) s p k <->
    Has t s p k \/ In (mkEntry s p k) (keepEntries obj).
Proof.
  unfold keepEntries. intros Hc s p k. rewrite addKeepFolder_plant.
  destruct (endsWith "/.keep" (key obj)).
  - rewrite plant_spec.
    + now rewrite keyEntries_folder_items.
    + eapply Compat_ext; [|exact Hc]. intros e. apply keyEntries_folder_items.
  - simpl. tauto.
Qed.

(** Before sorting, a consistent input gives exactly its entries. *)
Lemma passes_represent (objects : list R2ObjectItem) (hideKeepFiles : bool) :
  consistent (treeEntries objects hideKeepFiles) = true ->
  Represents
    (let root := fold_left Dashboard.addObject
                   (visibleObjects objects hideKeepFiles) [] in
     if hideKeepFiles then fold_left Dashboard.addKeepFolder objects root else root)
    (treeEntries objects hideKeepFiles).
Proof.
  intros Hcons. unfold treeEntries in *. cbn zeta.
  assert (H1 : Represents (fold_left Dashboard.addObject
                             (visibleObjects objects hideKeepFiles) [])
                 ([] ++ flat_map objectEntries (visibleObjects objects hideKeepFiles))).
  { apply fold_represents.
    - apply addObject_spec.
    - intros e1 e2 He1 He2. apply (consistent_agree _ _ _ Hcons);
        apply in_or_app; left; assumption.
    - intros s p k. split; [intros H; now apply Has_nil in H|intros []]. }
  simpl in H1. destruct hideKeepFiles.
  - apply fold_represents.
    + apply addKeepFolder_spec.
    + intros e1 e2. apply (consistent_agree _ _ _ Hcons).
    + exact H1.
  - rewrite app_nil_r. exact H1.
Qed.

(** ** Sorting *)

Section SortFacts.
Context {A : Type} (compare : A -> A -> Z).

Lemma insertSorted_perm (x : A) (l : list A) :
  Permutation (insertSorted compare x l) (x :: l).
Proof.
  induction l as [|y l IH]; simpl; [reflexivity|].
  destruct (compare x y <=? 0)%Z; [reflexivity|].
  rewrite IH. apply perm_swap.
Qed.

Lemma sort_perm (l : list A) : Permutation (sort compare l) l.
Proof.
  induction l as [|x l IH]; simpl; [reflexivity|].
  rewrite insertSorted_perm. now constructor.
Qed.

Lemma In_sort (x : A) (l : list A) : In x (sort compare l) <-> In x l.
Proof.
  split; apply Permutation_in; [apply sort_perm|symmetry; apply sort_perm].
Qed.

(** For a consistent comparator the result is sorted. *)
Hypothesis compare_total : forall a b, compare a b <= 0 \/ compare b a <= 0.
Hypothesis compare_trans :
  forall a b c, compare a b <= 0 -> compare b c <= 0 -> compare a c <= 0.

Lemma insertSorted_sorted (x : A) (l : list A) :
  StronglySorted (fun a b => compare a b <= 0) l ->
  StronglySorted (fun a b => compare a b <= 0) (insertSorted compare x l).
Proof.
  induction l as [|y l IH]; intros Hs; simpl.
  - constructor; constructor.
  - inversion Hs as [|? ? Hl Hy]; subst.
    destruct (Z.leb_spec (compare x y) 0) as [Hxy|Hxy].
    + constructor; [exact Hs|]. constructor; [exact Hxy|].
      rewrite List.Forall_forall in *. intros z Hz. eapply compare_trans; eauto.
    + constructor; [now apply IH|].
      rewrite List.Forall_forall in *. intros z Hz.
      apply (Permutation_in _ (insertSorted_perm x l)) in Hz.
      destruct Hz as [<-|Hz]; [|now apply Hy].
      destruct (compare_total x y); [lia|assumption].
Qed.

Lemma sort_sorted (l : list A) :
  StronglySorted (fun a b => compare a b <= 0) (sort compare l).
Proof.
  induction l as [|x l IH]; simpl; [constructor|]. now apply insertSorted_sorted.
Qed.

End SortFacts.

Lemma sort_map {A : Type} (compare : A -> A -> Z) (f : A -> A) (l : list A) :
  (forall a b, compare (f a) (f b) = compare a b) ->
  sort compare (map f l) = map f (sort compare l).
Proof.
  intros Hf. induction l as [|x l IH]; simpl; [reflexivity|].
  rewrite IH. generalize (sort compare l) as s. intros s.
  induction s as [|y s IHs]; simpl; [reflexivity|].
  rewrite Hf. destruct (compare x y <=? 0)%Z; simpl; [reflexivity|]. now rewrite IHs.
Qed.

Lemma StronglySorted_map {A : Type} (R : A -> A -> Prop) (f : A -> A) (l : list A) :
  (forall a b, R a b -> R (f a) (f b)) ->
  StronglySorted R l -> StronglySorted R (map f l).
Proof.
  intros Hf Hs. induction Hs as [|x l Hs IH Hx]; simpl; constructor; auto.
  rewrite List.Forall_forall in *. intros y Hy. apply in_map_iff in Hy.
  destruct Hy as (z & <- & Hz). auto.
Qed.

(** Induction over trees, with the hypothesis for every child. *)
Lemma TreeNode_ind' (P : TreeNode -> Prop) :
  (forall nm pth sz, P (File nm pth sz)) ->
  (forall nm pth cs, Forall P cs -> P (Folder nm pth cs)) ->
  forall node, P node.
Proof.
  intros Hfile Hfolder. fix IH 1. intros [nm pth sz|nm pth cs].
  - apply Hfile.
  - apply Hfolder. induction cs as [|c cs IHcs]; constructor; [apply IH|exact IHcs].
Qed.

Section SortNodes.
Variable localeCompare : string -> string -> Z.

Lemma sortNode_name (node : TreeNode) :
  name (Dashboard.sortNode localeCompare node) = name node.
Proof. now destruct node. Qed.

Lemma sortNode_type (node : TreeNode) :
  type (Dashboard.sortNode localeCompare node) = type node.
Proof. now destruct node. Qed.

Lemma compareNodes_sortNode (a b : TreeNode) :
  Dashboard.compareNodes localeCompare
    (Dashboard.sortNode localeCompare a) (Dashboard.sortNode localeCompare b) =
  Dashboard.compareNodes localeCompare a b.
Proof.
  unfold Dashboard.compareNodes. now rewrite !sortNode_name, !sortNode_type.
Qed.

(** The source's equation: the children of a folder are [sortNodes] of the
    children. *)
Lemma sortNodes_eq (nm pth : string) (cs : list TreeNode) :
  Dashboard.sortNode localeCompare (Folder nm pth cs) =
  Folder nm pth (Dashboard.sortNodes localeCompare cs).
Proof.
  unfold Dashboard.sortNodes. simpl. f_equal.
  apply sort_map, compareNodes_sortNode.
Qed.

Lemma In_sortNodes (node : TreeNode) (l : list TreeNode) :
  In node (Dashboard.sortNodes localeCompare l) <->
  exists m, In m l /\ node = Dashboard.sortNode localeCompare m.
Proof.
  unfold Dashboard.sortNodes. rewrite in_map_iff. split.
  - intros (m & <- & Hm). exists m. split; [now apply In_sort in Hm|reflexivity].
  - intros (m & Hm & ->). exists m. split; [reflexivity|now apply In_sort].
Qed.

Lemma In_sortNodes_file (nm pth : string) (sz : Z) (l : list TreeNode) :
  In (File nm pth sz) (Dashboard.sortNodes localeCompare l) <-> In (File nm pth sz) l.
Proof.
  rewrite In_sortNodes. split.
  - intros ([? ? ?|? ? ?] & Hm & Heq); [simpl in Heq; now inversion Heq; subst|].
    rewrite sortNodes_eq in Heq. discriminate.
  - intros H. exists (File nm pth sz). auto.
Qed.

Lemma In_sortNodes_folder (nm pth : string) (cs' : list TreeNode) (l : list TreeNode) :
  In (Folder nm pth cs') (Dashboard.sortNodes localeCompare l) <->
  exists cs, In (Folder nm pth cs) l /\ cs' = Dashboard.sortNodes localeCompare cs.
Proof.
  rewrite In_sortNodes. split.
  - intros ([? ? ?|n p cs] & Hm & Heq); [discriminate|].
    rewrite sortNodes_eq in Heq. inversion Heq; subst. eauto.
  - intros (cs & Hin & ->). exists (Folder nm pth cs). split; [exact Hin|].
    now rewrite sortNodes_eq.
Qed.

(** Sorting moves siblings around and nothing else. *)
Lemma Has_sortNodes (l : list TreeNode) (s : list string) (p : string) (k : Kind) :
  Has (Dashboard.sortNodes localeCompare l) s p k <-> Has l s p k.
Proof.
  split.
  - revert l. induction s as [|nm s IH]; intros l H.
    + now apply Has_segs_nonempty in H.
    + inversion H as [? ? ? ? Hin|? ? ? ? Hin|? ? ? cs' ? ? ? Hin Hcs]; subst.
      * rewrite In_sortNodes_file in Hin. now apply Has_file.
      * rewrite In_sortNodes_folder in Hin. destruct Hin as (cs0 & Hin & _).
        eapply Has_folder; eauto.
      * rewrite In_sortNodes_folder in Hin. destruct Hin as (cs0 & Hin & ->).
        eapply Has_below; eauto.
  - intros H. induction H as [level nm pth sz Hin|level nm pth cs Hin
                             |level nm pth cs segs pth' k Hin Hcs IH].
    + apply Has_file. now apply In_sortNodes_file.
    + eapply Has_folder. apply In_sortNodes_folder. eauto.
    + eapply Has_below; [|exact IH]. apply In_sortNodes_folder. eauto.
Qed.

Lemma sortNodes_names_perm (l : list TreeNode) :
  Permutation (map name (Dashboard.sortNodes localeCompare l)) (map name l).
Proof.
  unfold Dashboard.sortNodes. rewrite map_map.
  rewrite (map_ext _ name) by apply sortNode_name.
  apply Permutation_map, sort_perm.
Qed.

Lemma UniqueNames_sortNodes (l : list TreeNode) :
  UniqueNames l -> UniqueNames (Dashboard.sortNodes localeCompare l).
Proof.
  intros H. induction H as [level Hnd Hcs IH]. constructor.
  - eapply Permutation_NoDup; [symmetry; apply sortNodes_names_perm|exact Hnd].
  - intros nm pth cs' Hin. rewrite In_sortNodes_folder in Hin.
    destruct Hin as (cs & Hin & ->). eauto.
Qed.

End SortNodes.

Lemma StronglySorted_impl {A : Type} (R R' : A -> A -> Prop) (l : list A) :
  (forall a b, R a b -> R' a b) -> StronglySorted R l -> StronglySorted R' l.
Proof.
  intros HR Hs. induction Hs as [|x l Hs IH Hx]; constructor; auto.
  rewrite List.Forall_forall in *. auto.
Qed.

Section SortedLevels.
Variable localeCompare : string -> string -> Z.
Hypothesis localeCompare_total :
  forall a b, localeCompare a b <= 0 \/ localeCompare b a <= 0.
Hypothesis localeCompare_trans :
  forall a b c, localeCompare a b <= 0 -> localeCompare b c <= 0 ->
                localeCompare a c <= 0.

Lemma compareNodes_nodeBefore (a b : TreeNode) :
  Dashboard.compareNodes localeCompare a b <= 0 <-> nodeBefore localeCompare a b.
Proof.
  unfold Dashboard.compareNodes, nodeBefore.
  destruct (type a), (type b); simpl; try tauto; split; try tauto; lia.
Qed.

Lemma compareNodes_total (a b : TreeNode) :
  Dashboard.compareNodes localeCompare a b <= 0 \/
  Dashboard.compareNodes localeCompare b a <= 0.
Proof.
  rewrite !compareNodes_nodeBefore. unfold nodeBefore.
  destruct (type a), (type b); auto.
Qed.

Lemma compareNodes_trans (a b c : TreeNode) :
  Dashboard.compareNodes localeCompare a b <= 0 ->
  Dashboard.compareNodes localeCompare b c <= 0 ->
  Dashboard.compareNodes localeCompare a c <= 0.
Proof.
  rewrite !compareNodes_nodeBefore. unfold nodeBefore.
  destruct (type a), (type b), (type c); try tauto; eauto.
Qed.

Lemma nodeBefore_sortNode (a b : TreeNode) :
  nodeBefore localeCompare a b ->
  nodeBefore localeCompare (Dashboard.sortNode localeCompare a)
                           (Dashboard.sortNode localeCompare b).
Proof. unfold nodeBefore. now rewrite !sortNode_name, !sortNode_type. Qed.

Lemma sortNodes_level_sorted (l : list TreeNode) :
  StronglySorted (nodeBefore localeCompare) (Dashboard.sortNodes localeCompare l).
Proof.
  unfold Dashboard.sortNodes.
  apply StronglySorted_map; [apply nodeBefore_sortNode|].
  eapply StronglySorted_impl; [intros a b; apply compareNodes_nodeBefore|].
  apply sort_sorted; [apply compareNodes_total|apply compareNodes_trans].
Qed.

Lemma sortNodes_every_level (l : list TreeNode) :
  EveryLevel (nodeBefore localeCompare) (Dashboard.sortNodes localeCompare l).
Proof.
  assert (Hnode : forall node,
             match node with
             | Folder _ _ cs =>
                 EveryLevel (nodeBefore localeCompare)
                            (Dashboard.sortNodes localeCompare cs)
             | File _ _ _ => True
             end).
  { induction node as [nm pth sz|nm pth cs IH] using TreeNode_ind'; [exact I|].
    constructor; [apply sortNodes_level_sorted|].
    intros nm' pth' cs' Hin. rewrite In_sortNodes_folder in Hin.
    destruct Hin as (cs0 & Hin & ->).
    rewrite List.Forall_forall in IH. exact (IH _ Hin). }
  constructor; [apply sortNodes_level_sorted|].
  intros nm pth cs' Hin. rewrite In_sortNodes_folder in Hin.
  destruct Hin as (cs0 & Hin & ->). exact (Hnode (Folder nm pth cs0)).
Qed.

End SortedLevels.

(** ** The walk keeps sibling names distinct *)

Lemma UniqueNames_nil : UniqueNames [].
Proof. constructor; [constructor|intros ? ? ? []]. Qed.

Lemma NoDup_snoc {A : Type} (l : list A) (x : A) :
  List.NoDup l -> ~ In x l -> List.NoDup (l ++ [x]).
Proof.
  intros Hnd Hx. eapply Permutation_NoDup; [apply Permutation_cons_append|].
  now constructor.
Qed.

Lemma plant_unique (lastKind : Kind) (items : list (string * string)) :
  forall level, UniqueNames level -> UniqueNames (plant lastKind items level).
Proof.
  induction items as [|[part pth] items IH]; intros level Hu; [exact Hu|].
  rewrite plant_cons. cbn zeta.
  destruct Hu as [level Hnd Hcs].
  destruct (findByName part level) as [[nm pth1 sz1|nm pth1 cs]|] eqn:Hf.
  - destruct (match items with [] => lastKind | _ :: _ => KFolder end).
    + now constructor.
    + apply IH. now constructor.
  - destruct (match items with [] => lastKind | _ :: _ => KFolder end).
    + now constructor.
    + destruct (findByName_split _ _ _ Hf) as (l1 & l2 & Hlevel & Hnm & _ & Hset).
      rewrite (Hset _ _ _ _ eq_refl). subst level. constructor.
      * rewrite map_app in *. exact Hnd.
      * intros nm' pth' cs' Hin. apply in_app_or in Hin.
        destruct Hin as [Hin|[Heq|Hin]].
        -- apply (Hcs nm' pth' cs'). apply in_or_app. now left.
        -- inversion Heq; subst. apply IH. apply (Hcs nm' pth' cs).
           apply in_or_app. right. now left.
        -- apply (Hcs nm' pth' cs'). apply in_or_app. right. now right.
  - apply findByName_None_names in Hf.
    destruct (match items with [] => lastKind | _ :: _ => KFolder end).
    + constructor.
      * rewrite map_app. simpl. now apply NoDup_snoc.
      * intros nm' pth' cs' Hin. apply in_app_or in Hin.
        destruct Hin as [Hin|[Heq|[]]]; [eauto|discriminate].
    + constructor.
      * rewrite map_app. simpl. now apply NoDup_snoc.
      * intros nm' pth' cs' Hin. apply in_app_or in Hin.
        destruct Hin as [Hin|[Heq|[]]]; [eauto|].
        inversion Heq; subst. apply IH, UniqueNames_nil.
Qed.

(** ** Where file nodes come from *)

Lemma last_cons_nonempty {A : Type} (x : A) (l : list A) (d : A) :
  l <> [] -> List.last (x :: l) d = List.last l d.
Proof. destruct l; [congruence|reflexivity]. Qed.

(** Whatever the tree held before, a file node of the new tree was there
    already or is the file of the walk's last item. *)
Lemma plant_files (lastKind : Kind) (items : list (string * string)) :
  forall level s p sz,
    Has (plant lastKind items level) s p (KFile sz) ->
    Has level s p (KFile sz) \/
    (lastKind = KFile sz /\
     exists items0 part, items = items0 ++ [(part, p)] /\
                         List.last s EmptyString = part).
Proof.
  induction items as [|[part pth] items IH]; intros level s p sz H; [now left|].
  rewrite plant_cons in H. cbn zeta in H.
  assert (Hlater : forall s', s' <> [] ->
            (lastKind = KFile sz /\
             exists items0 part', items = items0 ++ [(part', p)] /\
                                  List.last s' EmptyString = part') ->
            lastKind = KFile sz /\
            exists items0 part', (part, pth) :: items = items0 ++ [(part', p)] /\
                                 List.last (part :: s') EmptyString = part').
  { intros s' Hs' (HK & items0 & part' & -> & Hl). split; [exact HK|].
    exists ((part, pth) :: items0), part'. split; [reflexivity|].
    now rewrite last_cons_nonempty. }
  destruct (findByName part level) as [[nm pth1 sz1|nm pth1 cs]|] eqn:Hf.
  - destruct (match items with [] => lastKind | _ :: _ => KFolder end) eqn:Hk.
    + now left.
    + apply IH in H. destruct H as [H|(HK & items0 & part' & -> & Hl)]; [now left|].
      right. split; [exact HK|].
      exists ((part, pth) :: items0), part'. split; [reflexivity|exact Hl].
  - destruct (match items with [] => lastKind | _ :: _ => KFolder end) eqn:Hk.
    + now left.
    + destruct (findByName_split _ _ _ Hf) as (l1 & l2 & Hlevel & Hnm & _ & Hset).
      rewrite (Hset _ _ _ _ eq_refl) in H. rewrite Hlevel.
      simpl in Hnm. subst nm.
      rewrite Has_middle, Has_one_folder in *.
      destruct H as [H|[[(_ & _ & [=])|(s' & -> & H)]|H]]; try tauto.
      pose proof (Has_segs_nonempty _ _ _ _ H) as Hne.
      apply IH in H. destruct H as [H|H].
      * left. right. left. right. eauto.
      * right. now apply Hlater.
  - destruct (match items with [] => lastKind | _ :: _ => KFolder end) eqn:Hk.
    + rewrite Has_app, Has_one_file in H.
      destruct H as [H|(-> & -> & [= ->])]; [now left|].
      right. apply itemEntries_last_file in Hk as Hnil. subst items. simpl in Hk.
      split; [exact Hk|]. exists [], part. split; reflexivity.
    + rewrite Has_app, Has_one_folder in H.
      destruct H as [H|[(_ & _ & [=])|(s' & -> & H)]]; [now left|].
      pose proof (Has_segs_nonempty _ _ _ _ H) as Hne.
      apply IH in H. destruct H as [H|H]; [now apply Has_nil in H|].
      right. now apply Hlater.
Qed.

(** ** Keys, parts and the [.keep] marker *)

Lemma split_nonempty (sep : ascii) (s : string) : split sep s <> [].
Proof.
  destruct s as [|c s]; simpl; [discriminate|].
  destruct (Ascii.eqb c sep); [discriminate|]. destruct (split sep s); discriminate.
Qed.

Lemma join_cons (sep p : string) (ps : list string) :
  ps <> [] -> join sep (p :: ps) = (p ++ sep ++ join sep ps)%string.
Proof. destruct ps; [congruence|reflexivity]. Qed.

(** [key.split("/").join("/")] is the key. *)
Lemma join_split (s : string) : join "/" (split "/" s) = s.
Proof.
  induction s as [|c s IH]; [reflexivity|]. simpl.
  destruct (Ascii.eqb_spec c "/"%char) as [->|Hc].
  - rewrite join_cons by apply split_nonempty. simpl. now rewrite IH.
  - destruct (split "/" s) as [|p ps] eqn:Hs; [now apply split_nonempty in Hs|].
    destruct ps as [|q qs].
    + simpl in *. now rewrite IH.
    + rewrite join_cons by discriminate. rewrite join_cons in IH by discriminate.
      rewrite <- IH. reflexivity.
Qed.

Lemma itemsFrom_last (rest : list string) :
  forall pre, rest <> [] -> isEmpty (List.last rest EmptyString) = false ->
  exists items0,
    itemsFrom pre rest =
    items0 ++ [(List.last rest EmptyString, join "/" (pre ++ rest))].
Proof.
  induction rest as [|part rest IH]; intros pre Hne Hlast; [congruence|].
  rewrite itemsFrom_cons. destruct rest as [|r rs].
  - simpl in *. rewrite Hlast. now exists [].
  - destruct (IH (pre ++ [part])) as (items0 & Hi); [discriminate|exact Hlast|].
    rewrite Hi, <- app_assoc. simpl app at 2.
    change (List.last (part :: r :: rs) EmptyString)
      with (List.last (r :: rs) EmptyString).
    destruct (isEmpty part).
    + now exists items0.
    + now exists ((part, join "/" (pre ++ [part])) :: items0).
Qed.

Lemma endsWith_app (p s : string) : endsWith p (s ++ p) = true.
Proof.
  induction s as [|c s IH]; simpl.
  - destruct p; simpl; rewrite ?String.eqb_refl, ?Ascii.eqb_refl; reflexivity.
  - rewrite IH. apply orb_true_r.
Qed.

Lemma endsWith_cons (p : string) (c : ascii) (s : string) :
  endsWith p s = true -> endsWith p (String c s) = true.
Proof. intros H. simpl. rewrite H. apply orb_true_r. Qed.

(** A key whose final part is [.keep] is one the filter removes. *)
Lemma last_split_keep (k : string) :
  List.last (split "/" k) EmptyString = ".keep" ->
  k = ".keep" \/ endsWith "/.keep" k = true.
Proof.
  induction k as [|c k IH]; [discriminate|]. simpl split.
  destruct (Ascii.eqb_spec c "/"%char) as [->|Hc].
  - rewrite last_cons_nonempty by apply split_nonempty. intros H.
    right. destruct (IH H) as [->|He]; [reflexivity|now apply endsWith_cons].
  - pose proof (join_split k) as Hj.
    destruct (split "/" k) as [|p ps] eqn:Hs; [now apply split_nonempty in Hs|].
    destruct ps as [|q qs].
    + simpl in Hj. subst p. simpl. intros [= -> ->]. now left.
    + rewrite last_cons_nonempty by discriminate.
      change (List.last (p :: q :: qs) EmptyString)
        with (List.last (q :: qs) EmptyString) in IH.
      intros H. specialize (IH H). right. destruct IH as [->|He].
      * discriminate.
      * now apply endsWith_cons.
Qed.

Lemma notKeepFile_last (obj : R2ObjectItem) :
  Dashboard.notKeepFile obj = true ->
  List.last (split "/" (key obj)) EmptyString <> ".keep".
Proof.
  unfold Dashboard.notKeepFile. intros H Hl.
  apply andb_true_iff in H. destruct H as [H1 H2].
  apply negb_true_iff in H1, H2.
  destruct (last_split_keep _ Hl) as [Hk|He].
  - rewrite Hk in H2. discriminate.
  - congruence.
Qed.

(** "/.keep" does not overlap itself: in front of a copy of it, it can
    only start inside what comes before. *)
Lemma startsWith_keep_app (t : string) :
  t <> EmptyString ->
  startsWith "/.keep" (t ++ "/.keep") = true -> startsWith "/.keep" t = true.
Proof.
  intros Hne.
  destruct t as [|c1 [|c2 [|c3 [|c4 [|c5 [|c6 t]]]]]]; [congruence| | | | | |];
    simpl;
    repeat match goal with
           | |- context [Ascii.eqb ?a ?b] => destruct (Ascii.eqb a b)
           end; simpl; auto.
Qed.

Lemma removeFirst_cons (p : string) (c : ascii) (s : string) :
  removeFirst p (String c s) =
  if startsWith p (String c s) then drop (String.length p) (String c s)
  else String c (removeFirst p s).
Proof. reflexivity. Qed.

(** Removing the first "/.keep" strips the marker exactly when the folder
    path holds no "/.keep" of its own. *)
Lemma removeFirst_keep (folderPath : string) :
  includes "/.keep" folderPath = false ->
  removeFirst "/.keep" (folderPath ++ "/.keep") = folderPath.
Proof.
  induction folderPath as [|c t IH]; intros Hinc; [reflexivity|].
  cbn [includes] in Hinc. apply orb_false_iff in Hinc. destruct Hinc as [Hs Ht].
  change (String c t ++ "/.keep")%string with (String c (t ++ "/.keep")).
  rewrite removeFirst_cons.
  destruct (startsWith "/.keep" (String c (t ++ "/.keep"))) eqn:Hst.
  - apply (startsWith_keep_app (String c t)) in Hst; [congruence|discriminate].
  - f_equal. now apply IH.
Qed.

Lemma addObject_files (t : list TreeNode) (obj : R2ObjectItem)
    (s : list string) (p : string) (sz : Z) :
  Has (Dashboard.addObject t obj) s p (KFile sz) ->
  Has t s p (KFile sz) \/
  (p = key obj /\ sz = objSize obj /\
   List.last s EmptyString = List.last (split "/" (key obj)) EmptyString).
Proof.
  rewrite addObject_plant. intros H. apply plant_files in H.
  destruct H as [H|(HK & items0 & part & Hitems & Hlast)]; [now left|right].
  unfold lastKindOf in HK.
  destruct (isEmpty (List.last (split "/" (key obj)) EmptyString)) eqn:E;
    [discriminate|].
  inversion HK; subst sz.
  destruct (itemsFrom_last (split "/" (key obj)) [] (split_nonempty _ _) E)
    as (items1 & Hi).
  rewrite Hi in Hitems. apply app_inj_tail in Hitems.
  destruct Hitems as [_ Heq]. inversion Heq; subst.
  simpl. now rewrite join_split.
Qed.

Lemma addKeepFolder_files (t : list TreeNode) (obj : R2ObjectItem)
    (s : list string) (p : string) (sz : Z) :
  Has (Dashboard.addKeepFolder t obj) s p (KFile sz) -> Has t s p (KFile sz).
Proof.
  rewrite addKeepFolder_plant. destruct (endsWith "/.keep" (key obj)); [|auto].
  intros H. apply plant_files in H. destruct H as [H|[[=] _]]. exact H.
Qed.

Lemma fold_files {X : Type} (step : list TreeNode -> X -> list TreeNode)
    (origin : X -> list string -> string -> Z -> Prop) :
  (forall t x s p sz, Has (step t x) s p (KFile sz) ->
                      Has t s p (KFile sz) \/ origin x s p sz) ->
  forall xs t s p sz,
    Has (fold_left step xs t) s p (KFile sz) ->
    Has t s p (KFile sz) \/ exists x, In x xs /\ origin x s p sz.
Proof.
  intros Hstep xs. induction xs as [|x xs IH]; intros t s p sz H; [now left|].
  simpl in H. apply IH in H. destruct H as [H|(y & Hy & Ho)].
  - apply Hstep in H. destruct H as [H|H]; [now left|].
    right. exists x. split; [now left|exact H].
  - right. exists y. split; [now right|exact Ho].
Qed.

Lemma fold_unique {X : Type} (step : list TreeNode -> X -> list TreeNode) :
  (forall t x, UniqueNames t -> UniqueNames (step t x)) ->
  forall xs t, UniqueNames t -> UniqueNames (fold_left step xs t).
Proof.
  intros Hstep xs. induction xs as [|x xs IH]; intros t Ht; [exact Ht|].
  simpl. apply IH, Hstep, Ht.
Qed.

Section BuildFileTreeFacts.
Variable localeCompare : string -> string -> Z.

Lemma buildFileTree_eq (objects : list R2ObjectItem) (hideKeepFiles : bool) :
  Dashboard.buildFileTree localeCompare objects hideKeepFiles =
  Dashboard.sortNodes localeCompare
    (let root := fold_left Dashboard.addObject
                   (visibleObjects objects hideKeepFiles) [] in
     if hideKeepFiles then fold_left Dashboard.addKeepFolder objects root else root).
Proof. reflexivity. Qed.

Lemma buildFileTree_represents (objects : list R2ObjectItem) (hideKeepFiles : bool) :
  consistent (treeEntries objects hideKeepFiles) = true ->
  Represents (Dashboard.buildFileTree localeCompare objects hideKeepFiles)
             (treeEntries objects hideKeepFiles).
Proof.
  intros Hc s p k. rewrite buildFileTree_eq, Has_sortNodes.
  now apply passes_represent.
Qed.

Lemma buildFileTree_unique (objects : list R2ObjectItem) (hideKeepFiles : bool) :
  UniqueNames (Dashboard.buildFileTree localeCompare objects hideKeepFiles).
Proof.
  rewrite buildFileTree_eq. apply UniqueNames_sortNodes. cbn zeta.
  assert (H1 : UniqueNames (fold_left Dashboard.addObject
                              (visibleObjects objects hideKeepFiles) [])).
  { apply fold_unique; [|apply UniqueNames_nil].
    intros t x Ht. rewrite addObject_plant. now apply plant_unique. }
  destruct hideKeepFiles; [|exact H1].
  apply fold_unique; [|exact H1].
  intros t x Ht. rewrite addKeepFolder_plant.
  destruct (endsWith "/.keep" (key x)); [now apply plant_unique|exact Ht].
Qed.

(** Every file node is the file of an object the first pass saw. *)
Lemma buildFileTree_files (objects : list R2ObjectItem) (hideKeepFiles : bool)
    (s : list string) (p : string) (sz : Z) :
  Has (Dashboard.buildFileTree localeCompare objects hideKeepFiles) s p (KFile sz) ->
  exists obj, In obj (visibleObjects objects hideKeepFiles) /\
              p = key obj /\ sz = objSize obj /\
              List.last s EmptyString = List.last (split "/" (key obj)) EmptyString.
Proof.
  rewrite buildFileTree_eq, Has_sortNodes. cbn zeta. intros H.
  assert (H1 : Has (fold_left Dashboard.addObject
                      (visibleObjects objects hideKeepFiles) []) s p (KFile sz)).
  { destruct hideKeepFiles; [|exact H].
    apply (fold_files Dashboard.addKeepFolder (fun _ _ _ _ => False)) in H.
    - destruct H as [H|(x & _ & [])]. exact H.
    - intros t x s0 p0 sz0 H0. left. now apply addKeepFolder_files in H0. }
  apply (fold_files Dashboard.addObject
           (fun obj s p sz => p = key obj /\ sz = objSize obj /\
              List.last s EmptyString = List.last (split "/" (key obj)) EmptyString))
    in H1.
  - destruct H1 as [H1|(obj & Hin & Ho)]; [now apply Has_nil in H1|]. eauto.
  - intros t x s0 p0 sz0. apply addObject_files.
Qed.

End BuildFileTreeFacts.

(** ** Code-unit order is a consistent comparator *)

Lemma string_compare_trans (a b c : string) :
  String.compare a b <> Gt -> String.compare b c <> Gt -> String.compare a c <> Gt.
Proof.
  revert b c. induction a as [|x a IH]; intros [|y b] [|z c]; simpl; try congruence.
  unfold Ascii.compare.
  destruct (N.compare_spec (N_of_ascii x) (N_of_ascii y)) as [Hxy|Hxy|Hxy];
    destruct (N.compare_spec (N_of_ascii y) (N_of_ascii z)) as [Hyz|Hyz|Hyz];
    destruct (N.compare_spec (N_of_ascii x) (N_of_ascii z)) as [Hxz|Hxz|Hxz];
    try congruence; try lia.
  apply IH.
Qed.

Lemma codeUnitCompare_le (a b : string) :
  codeUnitCompare a b <= 0 <-> String.compare a b <> Gt.
Proof.
  unfold codeUnitCompare. destruct (String.compare a b); split; try congruence; lia.
Qed.

Lemma codeUnitCompare_total (a b : string) :
  codeUnitCompare a b <= 0 \/ codeUnitCompare b a <= 0.
Proof.
  rewrite !codeUnitCompare_le, (String.compare_antisym a b).
  destruct (String.compare b a); simpl; intuition congruence.
Qed.

Lemma codeUnitCompare_trans (a b c : string) :
  codeUnitCompare a b <= 0 -> codeUnitCompare b c <= 0 -> codeUnitCompare a c <= 0.
Proof. rewrite !codeUnitCompare_le. apply string_compare_trans. Qed.

(* ===================================================================== *)
(** * The file tree: claims *)
(* ===================================================================== *)

(** C1, as amended.  Provided no two keys disagree on a node (none uses as
    a folder what another uses as a file, gives one file two sizes or
    spells the path of one node in two ways, the folders of hidden [.keep]
    markers included), [buildFileTree] returns a path-segment trie: sibling
    names are distinct at every level; every key the first pass sees, split
    on "/", has one node per non-empty part, nested under the nodes of the
    preceding non-empty parts, whose path is the "/"-joined prefix of parts
    up to it; that node is a file carrying the object's size when the part
    is the final part of the split, and a folder otherwise (so the last
    non-empty part of a key ending in "/" is a folder); and the tree holds
    no node beyond those and the marker folders. *)
Theorem C1_buildFileTree_trie (localeCompare : string -> string -> Z)
    (objects : list R2ObjectItem) (hideKeepFiles : bool) :
  consistent (treeEntries objects hideKeepFiles) = true ->
  let tree := Dashboard.buildFileTree localeCompare objects hideKeepFiles in
  UniqueNames tree /\
  (forall obj, In obj (visibleObjects objects hideKeepFiles) ->
     let parts := split "/" (key obj) in
     forall i part, nth_error parts i = Some part -> part <> EmptyString ->
       Has tree (nonEmptyParts (firstn (i + 1) parts))
           (join "/" (firstn (i + 1) parts))
           (if Nat.eqb i (length parts - 1) then KFile (objSize obj) else KFolder)) /\
  (forall s p k, Has tree s p k ->
     In (mkEntry s p k) (treeEntries objects hideKeepFiles)).
Proof.
  intros Hc tree. split; [apply buildFileTree_unique|]. split.
  - intros obj Hobj parts i part Hi Hpart.
    apply (buildFileTree_represents localeCompare _ _ Hc).
    unfold treeEntries. apply in_or_app. left.
    apply in_flat_map. exists obj. split; [exact Hobj|].
    unfold objectEntries. apply In_keyEntries.
    exists i, part. split; [exact Hi|]. split; [now apply isEmpty_false|reflexivity].
  - intros s p k H. now apply (buildFileTree_represents localeCompare _ _ Hc).
Qed.

Lemma C1_buildFileTree_trie_witness :
  consistent (treeEntries [mkObject "img/a.png" 10; mkObject "img/raw/" 0;
                           mkObject "notes.txt" 3; mkObject "tmp/.keep" 0] true) = true /\
  Has (Dashboard.buildFileTree codeUnitCompare
         [mkObject "img/a.png" 10; mkObject "img/raw/" 0;
          mkObject "notes.txt" 3; mkObject "tmp/.keep" 0] true)
      ["img"; "a.png"] "img/a.png" (KFile 10).
Proof.
  split; [reflexivity|].
  exact (proj1 (proj2 (C1_buildFileTree_trie codeUnitCompare
           [mkObject "img/a.png" 10; mkObject "img/raw/" 0;
            mkObject "notes.txt" 3; mkObject "tmp/.keep" 0] true eq_refl))
         (mkObject "img/a.png" 10) (or_introl eq_refl) 1%nat "a.png" eq_refl
         ltac:(discriminate)).
Defined.

(** C1 as stated fails: the last non-empty segment of a key ending in "/"
    becomes a folder, and a key that runs through an existing file is
    planted beside it, not below it (nor is the file it names created when
    a folder of that name is there). *)
Lemma C1_counterexample :
  Dashboard.buildFileTree codeUnitCompare
    [mkObject "docs/" 7; mkObject "a" 1; mkObject "a/b" 2] true =
  [Folder "docs" "docs" []; File "a" "a" 1; File "b" "a/b" 2] /\
  ~ Has (Dashboard.buildFileTree codeUnitCompare
           [mkObject "docs/" 7; mkObject "a" 1; mkObject "a/b" 2] true)
        ["docs"] "docs" (KFile 7).
Proof.
  split; [reflexivity|]. intros H.
  inversion H as [? ? ? ? Hin|? ? ? ? Hin|? ? ? ? ? ? ? Hin Hcs]; subst.
  - simpl in Hin. intuition discriminate.
  - now apply Has_segs_nonempty in Hcs.
Qed.

(** C2, as amended.  For a consistent [localeCompare] (total and
    transitive), every sibling list of the tree, at every level, has its
    folders before its files and, within each type, its names in
    [localeCompare] order. *)
Theorem C2_siblings_folders_first_then_names
    (localeCompare : string -> string -> Z)
    (objects : list R2ObjectItem) (hideKeepFiles : bool) :
  (forall a b, localeCompare a b <= 0 \/ localeCompare b a <= 0) ->
  (forall a b c, localeCompare a b <= 0 -> localeCompare b c <= 0 ->
                 localeCompare a c <= 0) ->
  EveryLevel (nodeBefore localeCompare)
             (Dashboard.buildFileTree localeCompare objects hideKeepFiles).
Proof.
  intros Htotal Htrans. rewrite buildFileTree_eq.
  now apply sortNodes_every_level.
Qed.

Lemma C2_siblings_folders_first_then_names_witness :
  EveryLevel (nodeBefore codeUnitCompare)
    (Dashboard.buildFileTree codeUnitCompare
       [mkObject "zoo/x" 1; mkObject "b" 2; mkObject "a" 3; mkObject "art/y" 4] true).
Proof.
  exact (C2_siblings_folders_first_then_names codeUnitCompare
           [mkObject "zoo/x" 1; mkObject "b" 2; mkObject "a" 3; mkObject "art/y" 4]
           true codeUnitCompare_total codeUnitCompare_trans).
Defined.

(** C2 as stated fails: the folder "zoo" comes before the file "a". *)
Lemma C2_counterexample :
  Dashboard.buildFileTree codeUnitCompare [mkObject "zoo/x" 1; mkObject "a" 2] true =
  [Folder "zoo" "zoo" [File "x" "zoo/x" 1]; File "a" "a" 2] /\
  ~ EveryLevel (nameBefore codeUnitCompare)
      (Dashboard.buildFileTree codeUnitCompare
         [mkObject "zoo/x" 1; mkObject "a" 2] true).
Proof.
  split; [reflexivity|]. intros H. inversion H as [level Hs _]; subst.
  inversion Hs as [|? ? _ Hall]; subst.
  inversion Hall as [|? ? Hza _]; subst.
  unfold nameBefore in Hza. vm_compute in Hza. now apply Hza.
Qed.

(** ** What the tree takes from the comparator *)

Lemma insertSorted_ext {A : Type} (c1 c2 : A -> A -> Z) (x : A) (l : list A) :
  (forall y, In y l -> c1 x y = c2 x y) ->
  insertSorted c1 x l = insertSorted c2 x l.
Proof.
  induction l as [|y l IH]; intros H; [reflexivity|].
  simpl. rewrite (H y) by now left.
  destruct (c2 x y <=? 0)%Z; [reflexivity|].
  f_equal. apply IH. intros z Hz. apply H. now right.
Qed.

Lemma sort_ext_in {A : Type} (c1 c2 : A -> A -> Z) (l : list A) :
  (forall x y, In x l -> In y l -> c1 x y = c2 x y) ->
  sort c1 l = sort c2 l.
Proof.
  induction l as [|x l IH]; intros H; [reflexivity|].
  simpl. rewrite IH by (intros; apply H; now right).
  apply insertSorted_ext. intros y Hy. apply In_sort in Hy.
  apply H; [now left|now right].
Qed.

Lemma sortNodes_ext (lc1 lc2 : string -> string -> Z) (P : string -> Prop)
    (t : list TreeNode) :
  (forall a b, P a -> P b -> lc1 a b = lc2 a b) ->
  NamesWithin P t ->
  Dashboard.sortNodes lc1 t = Dashboard.sortNodes lc2 t.
Proof.
  intros Hlc Ht. induction Ht as [level Hnames _ IH].
  unfold Dashboard.sortNodes.
  assert (Hsort : sort (Dashboard.compareNodes lc1) level =
                  sort (Dashboard.compareNodes lc2) level).
  { apply sort_ext_in. intros x y Hx Hy. unfold Dashboard.compareNodes.
    now rewrite (Hlc (name x) (name y)) by auto. }
  rewrite Hsort. apply map_ext_in. intros node Hnode. apply In_sort in Hnode.
  destruct node as [nm pth sz|nm pth cs]; [reflexivity|].
  rewrite !sortNodes_eq. f_equal. now apply (IH nm pth cs).
Qed.

Lemma NamesWithin_nil (P : string -> Prop) : NamesWithin P [].
Proof. constructor; intros; contradiction. Qed.

Lemma plant_names (P : string -> Prop) (lastKind : Kind)
    (items : list (string * string)) :
  (forall part pth, In (part, pth) items -> P part) ->
  forall level, NamesWithin P level -> NamesWithin P (plant lastKind items level).
Proof.
  induction items as [|[part pth] items IH]; intros Hitems level Hl; [exact Hl|].
  assert (Hpart : P part) by (apply (Hitems part pth); now left).
  assert (Hrest : forall q pq, In (q, pq) items -> P q)
    by (intros q pq Hq; apply (Hitems q pq); now right).
  specialize (IH Hrest).
  rewrite plant_cons. cbn zeta.
  destruct Hl as [level Hnames Hcs].
  destruct (findByName part level) as [[nm pth1 sz1|nm pth1 cs]|] eqn:Hf.
  - destruct (match items with [] => lastKind | _ :: _ => KFolder end).
    + now constructor.
    + apply IH. now constructor.
  - destruct (match items with [] => lastKind | _ :: _ => KFolder end).
    + now constructor.
    + destruct (findByName_split _ _ _ Hf) as (l1 & l2 & Hlevel & Hnm & _ & Hset).
      rewrite (Hset _ _ _ _ eq_refl). subst level. constructor.
      * intros node Hin. apply in_app_or in Hin. destruct Hin as [Hin|[<-|Hin]].
        -- apply Hnames. apply in_or_app. now left.
        -- apply (Hnames (Folder nm pth1 cs)). apply in_or_app. right. now left.
        -- apply Hnames. apply in_or_app. right. now right.
      * intros nm' pth' cs' Hin. apply in_app_or in Hin.
        destruct Hin as [Hin|[Heq|Hin]].
        -- apply (Hcs nm' pth' cs'). apply in_or_app. now left.
        -- inversion Heq; subst. apply IH. apply (Hcs nm' pth' cs).
           apply in_or_app. right. now left.
        -- apply (Hcs nm' pth' cs'). apply in_or_app. right. now right.
  - destruct (match items with [] => lastKind | _ :: _ => KFolder end).
    + constructor.
      * intros node Hin. apply in_app_or in Hin.
        destruct Hin as [Hin|[<-|[]]]; [now apply Hnames|exact Hpart].
      * intros nm' pth' cs' Hin. apply in_app_or in Hin.
        destruct Hin as [Hin|[Heq|[]]]; [eauto|discriminate].
    + constructor.
      * intros node Hin. apply in_app_or in Hin.
        destruct Hin as [Hin|[<-|[]]]; [now apply Hnames|exact Hpart].
      * intros nm' pth' cs' Hin. apply in_app_or in Hin.
        destruct Hin as [Hin|[Heq|[]]]; [eauto|].
        inversion Heq; subst. apply IH, NamesWithin_nil.
Qed.

Lemma itemsFrom_parts (rest : list string) :
  forall pre part pth, In (part, pth) (itemsFrom pre rest) -> In part rest.
Proof.
  induction rest as [|r rest IH]; intros pre part pth H; [contradiction|].
  rewrite itemsFrom_cons in H. destruct (isEmpty r).
  - right. eapply IH; eauto.
  - destruct H as [[= <- _]|H]; [now left|]. right. eapply IH; eauto.
Qed.

Lemma fold_names {X : Type} (P : string -> Prop)
    (step : list TreeNode -> X -> list TreeNode) (xs : list X) :
  (forall t x, In x xs -> NamesWithin P t -> NamesWithin P (step t x)) ->
  forall t, NamesWithin P t -> NamesWithin P (fold_left step xs t).
Proof.
  induction xs as [|x xs IH]; intros Hstep t Ht; [exact Ht|].
  simpl. apply IH.
  - intros t' y Hy. apply Hstep. now right.
  - apply Hstep; [now left|exact Ht].
Qed.

(** Before sorting, every node is named by a part of a key. *)
Lemma passes_names (objects : list R2ObjectItem) (hideKeepFiles : bool) :
  NamesWithin (keyPart objects)
    (let root := fold_left Dashboard.addObject
                   (visibleObjects objects hideKeepFiles) [] in
     if hideKeepFiles then fold_left Dashboard.addKeepFolder objects root else root).
Proof.
  cbn zeta.
  assert (H1 : NamesWithin (keyPart objects)
                 (fold_left Dashboard.addObject
                    (visibleObjects objects hideKeepFiles) [])).
  { apply fold_names; [|apply NamesWithin_nil].
    intros t obj Hobj Ht. rewrite addObject_plant. apply plant_names; [|exact Ht].
    intros part pth Hin. apply itemsFrom_parts in Hin.
    exists obj. split; [|now left].
    unfold visibleObjects in Hobj. destruct hideKeepFiles; [|exact Hobj].
    now apply filter_In in Hobj. }
  destruct hideKeepFiles; [|exact H1].
  apply fold_names; [|exact H1].
  intros t obj Hobj Ht. rewrite addKeepFolder_plant.
  destruct (endsWith "/.keep" (key obj)); [|exact Ht].
  apply plant_names; [|exact Ht].
  intros part pth Hin. apply itemsFrom_parts in Hin.
  exists obj. split; [exact Hobj|now right].
Qed.

(** C7, as amended.  [buildFileTree] reads one thing outside its
    arguments: the collation of the engine, which [localeCompare] applies
    to the names of siblings.  For two calls with equal object lists and
    equal flags, the trees are equal when the two collations order the
    parts of the keys alike, under one collation in particular; and under
    any two collations the trees hold the same nodes, whatever the order of
    the siblings. *)
Theorem C7_buildFileTree_deterministic (localeCompare1 localeCompare2 : string -> string -> Z)
    (objects1 objects2 : list R2ObjectItem) (hide1 hide2 : bool) :
  objects1 = objects2 -> hide1 = hide2 ->
  ((forall a b, keyPart objects1 a -> keyPart objects1 b ->
                localeCompare1 a b = localeCompare2 a b) ->
   Dashboard.buildFileTree localeCompare1 objects1 hide1 =
   Dashboard.buildFileTree localeCompare2 objects2 hide2) /\
  (forall segs pth k,
     Has (Dashboard.buildFileTree localeCompare1 objects1 hide1) segs pth k <->
     Has (Dashboard.buildFileTree localeCompare2 objects2 hide2) segs pth k).
Proof.
  intros <- <-. split.
  - intros Hlc. rewrite !buildFileTree_eq.
    apply (sortNodes_ext _ _ (keyPart objects1)); [exact Hlc|].
    apply passes_names.
  - intros segs pth k. rewrite !buildFileTree_eq. now rewrite !Has_sortNodes.
Qed.

Lemma C7_buildFileTree_deterministic_witness :
  Dashboard.buildFileTree codeUnitCompare [mkObject "a/b" 1; mkObject "c" 2] true =
  Dashboard.buildFileTree
    (fun x y => if String.eqb x "elsewhere" then 0 else codeUnitCompare x y)
    [mkObject "a/b" 1; mkObject "c" 2] true.
Proof.
  refine (proj1 (C7_buildFileTree_deterministic codeUnitCompare
            (fun x y => if String.eqb x "elsewhere" then 0 else codeUnitCompare x y)
            [mkObject "a/b" 1; mkObject "c" 2] [mkObject "a/b" 1; mkObject "c" 2]
            true true eq_refl eq_refl) _).
  intros x y (obj & Hobj & Hx) _.
  simpl in Hobj. destruct Hobj as [<-|[<-|[]]]; simpl in Hx;
    destruct Hx as [Hx|Hx];
    repeat (destruct Hx as [<-|Hx]; [reflexivity|]); contradiction.
Defined.

(** C7 as stated fails: the tree depends on the collation.  The same two
    objects, listed alike, come out in one order where "ä" is filed after
    "z" and in the other where it is filed with "a". *)
Lemma C7_counterexample :
  let objects := [mkObject "z" 1; mkObject "ä" 2] in
  Dashboard.buildFileTree codeUnitCompare objects true =
    [File "z" "z" 1; File "ä" "ä" 2] /\
  Dashboard.buildFileTree germanCompare objects true =
    [File "ä" "ä" 2; File "z" "z" 1] /\
  Dashboard.buildFileTree codeUnitCompare objects true <>
  Dashboard.buildFileTree germanCompare objects true.
Proof.
  cbn zeta. split; [reflexivity|]. split; [reflexivity|]. discriminate.
Qed.

(** ** The two copies, function by function *)

Lemma placeObject_same (obj : R2ObjectItem) (parts rest : list string) :
  forall i root currentLevel,
    Dashboard.placeObject obj parts i rest root currentLevel =
    DemoApp.placeObject obj parts i rest root currentLevel.
Proof.
  induction rest as [|part rest IH]; intros i root currentLevel; [reflexivity|].
  cbn [Dashboard.placeObject DemoApp.placeObject].
  destruct (isEmpty part); [apply IH|].
  destruct (find part (deref currentLevel root)) as [[k existing]|]; apply IH.
Qed.

Lemma placeFolder_same (parts rest : list string) :
  forall i root currentLevel,
    Dashboard.placeFolder parts i rest root currentLevel =
    DemoApp.placeFolder parts i rest root currentLevel.
Proof.
  induction rest as [|part rest IH]; intros i root currentLevel; [reflexivity|].
  cbn [Dashboard.placeFolder DemoApp.placeFolder].
  destruct (isEmpty part); [apply IH|].
  destruct (find part (deref currentLevel root)) as [[k existing]|]; apply IH.
Qed.

Lemma addObject_same (root : list TreeNode) (obj : R2ObjectItem) :
  Dashboard.addObject root obj = DemoApp.addObject root obj.
Proof. apply placeObject_same. Qed.

Lemma addKeepFolder_same (root : list TreeNode) (obj : R2ObjectItem) :
  Dashboard.addKeepFolder root obj = DemoApp.addKeepFolder root obj.
Proof.
  unfold Dashboard.addKeepFolder, DemoApp.addKeepFolder.
  destruct (endsWith "/.keep" (key obj)); [apply placeFolder_same|reflexivity].
Qed.

Lemma filter_same_objects (objects : list R2ObjectItem) :
  List.filter Dashboard.notKeepFile objects = List.filter DemoApp.notKeepFile objects.
Proof. apply List.filter_ext. intros obj. reflexivity. Qed.

Lemma fold_left_ext {A B : Type} (f g : A -> B -> A) :
  (forall a b, f a b = g a b) ->
  forall l a, fold_left f l a = fold_left g l a.
Proof.
  intros Hfg l. induction l as [|b l IH]; intros a; [reflexivity|].
  simpl. now rewrite Hfg, IH.
Qed.

Lemma sortNode_same (localeCompare : string -> string -> Z) (node : TreeNode) :
  Dashboard.sortNode localeCompare node = DemoApp.sortNode localeCompare node.
Proof.
  induction node as [nm pth sz|nm pth cs IH] using TreeNode_ind'; [reflexivity|].
  cbn [Dashboard.sortNode DemoApp.sortNode].
  replace (map (DemoApp.sortNode localeCompare) cs)
    with (map (Dashboard.sortNode localeCompare) cs); [reflexivity|].
  apply map_ext_in. intros c Hc.
  rewrite List.Forall_forall in IH. now apply IH.
Qed.

Lemma sortNodes_same (localeCompare : string -> string -> Z) (nodes : list TreeNode) :
  Dashboard.sortNodes localeCompare nodes = DemoApp.sortNodes localeCompare nodes.
Proof.
  unfold Dashboard.sortNodes, DemoApp.sortNodes.
  change (DemoApp.compareNodes localeCompare)
    with (Dashboard.compareNodes localeCompare).
  apply map_ext. apply sortNode_same.
Qed.

(** C8.  The dashboard's and the demo app's [buildFileTree] return the
    same tree on every object list and flag. *)
Theorem C8_dashboard_demo_same (localeCompare : string -> string -> Z)
    (objects : list R2ObjectItem) (hideKeepFiles : bool) :
  Dashboard.buildFileTree localeCompare objects hideKeepFiles =
  DemoApp.buildFileTree localeCompare objects hideKeepFiles.
Proof.
  unfold Dashboard.buildFileTree, DemoApp.buildFileTree.
  rewrite (filter_same_objects objects).
  rewrite (fold_left_ext _ _ addObject_same).
  rewrite (fold_left_ext _ _ addKeepFolder_same).
  apply sortNodes_same.
Qed.

(** C9, as amended.  With [hideKeepFiles] true: no file node is named
    [.keep], every file node being the file of an object that is not a
    marker; an object whose key is exactly [.keep] contributes nothing; and
    when no two keys disagree on a node, a marker whose key is a folder path
    followed by "/.keep", the folder path holding no "/.keep" itself, has a
    folder node for every non-empty part of the folder path.  (A folder may
    still be named [.keep].) *)
Theorem C9_keep_markers (localeCompare : string -> string -> Z)
    (objects : list R2ObjectItem) :
  let tree := Dashboard.buildFileTree localeCompare objects true in
  (forall s p sz, Has tree s p (KFile sz) ->
     List.last s EmptyString <> ".keep" /\
     exists obj, In obj objects /\ Dashboard.notKeepFile obj = true /\
                 p = key obj /\ sz = objSize obj) /\
  (forall before after sz, objects = before ++ mkObject ".keep" sz :: after ->
     tree = Dashboard.buildFileTree localeCompare (before ++ after) true) /\
  (consistent (treeEntries objects true) = true ->
   forall obj folderPath,
     In obj objects -> key obj = (folderPath ++ "/.keep")%string ->
     includes "/.keep" folderPath = false ->
     let parts := split "/" folderPath in
     forall i part, nth_error parts i = Some part -> part <> EmptyString ->
       Has tree (nonEmptyParts (firstn (i + 1) parts))
           (join "/" (firstn (i + 1) parts)) KFolder).
Proof.
  intros tree. split; [|split].
  - intros s p sz H. apply buildFileTree_files in H.
    destruct H as (obj & Hin & -> & -> & Hlast).
    unfold visibleObjects in Hin. apply filter_In in Hin. destruct Hin as [Hin Hv].
    split; [rewrite Hlast; now apply notKeepFile_last|]. eauto.
  - intros before after sz ->. unfold tree. rewrite !buildFileTree_eq.
    f_equal. unfold visibleObjects. cbn zeta.
    rewrite !List.filter_app, !fold_left_app. simpl. reflexivity.
  - intros Hc obj folderPath Hin Hkey Hinc parts i part Hi Hpart.
    apply (buildFileTree_represents localeCompare _ _ Hc).
    unfold treeEntries. apply in_or_app. right.
    apply in_flat_map. exists obj. split; [exact Hin|].
    unfold keepEntries. rewrite Hkey, endsWith_app, removeFirst_keep by exact Hinc.
    apply In_keyEntries. exists i, part.
    split; [exact Hi|]. split; [now apply isEmpty_false|].
    unfold entryAt. simpl.
    now destruct (i =? length (split "/" folderPath) - 1)%nat.
Qed.

Lemma C9_keep_markers_witness :
  consistent (treeEntries [mkObject "a/b/.keep" 0; mkObject "a/c.txt" 5] true) = true /\
  Has (Dashboard.buildFileTree codeUnitCompare
         [mkObject "a/b/.keep" 0; mkObject "a/c.txt" 5] true)
      ["a"; "b"] "a/b" KFolder.
Proof.
  split; [reflexivity|].
  exact (proj2 (proj2 (C9_keep_markers codeUnitCompare
           [mkObject "a/b/.keep" 0; mkObject "a/c.txt" 5])) eq_refl
         (mkObject "a/b/.keep" 0) "a/b" (or_introl eq_refl) eq_refl eq_refl
         1%nat "b" eq_refl ltac:(discriminate)).
Defined.

(** C9 as stated fails: a key below a folder called [.keep] is no marker,
    and the tree shows that folder. *)
Lemma C9_counterexample :
  Dashboard.buildFileTree codeUnitCompare [mkObject ".keep/notes.txt" 3] true =
  [Folder ".keep" ".keep" [File "notes.txt" ".keep/notes.txt" 3]] /\
  Has (Dashboard.buildFileTree codeUnitCompare [mkObject ".keep/notes.txt" 3] true)
      [".keep"] ".keep" KFolder.
Proof.
  split; [reflexivity|]. eapply Has_folder. simpl. left. reflexivity.
Qed.

(** A marker below a folder called [.keep]: [replace] strips the first
    "/.keep", so the folders planted are [a], [b] and [.keep], not [a],
    [.keep] and [b]. *)
Example keep_marker_below_keep_folder :
  Dashboard.buildFileTree codeUnitCompare [mkObject "a/.keep/b/.keep" 0] true =
  [Folder "a" "a" [Folder "b" "a/b" [Folder ".keep" "a/b/.keep" []]]].
Proof. reflexivity. Qed.

(* ===================================================================== *)
(** * The dummy-data generator: claims *)
(* ===================================================================== *)

Import DummyData DummyDataSpec.

Lemma countingPlatform_ok : PlatformOk countingPlatform.
Proof.
  constructor.
  - intros min max g Hle. simpl.
    destruct (Z.leb_spec min max) as [_|Hlt]; [|lia].
    pose proof (Z.mod_pos_bound (Z.of_nat g) (max - min + 1)). lia.
  - intros min max digits g Hle. simpl. split.
    + apply Qle_refl.
    + rewrite <- Zle_Qle. exact Hle.
  - intros g. simpl.
    pose proof (Z.mod_pos_bound (Z.of_nat g) 4).
    unfold Qle, Qlt. simpl. lia.
Qed.

Section GeneratorFacts.
Context (P : Platform) (ok : PlatformOk P).

Lemma isoDateTime_yields (g : Rng P) : yieldsIsoDateTime P (fst (isoDateTime P g)).
Proof.
  unfold isoDateTime, bind, ret. destruct (faker_date_past P g) as [d g'].
  now exists d.
Qed.

Lemma isoDate_yields (g : Rng P) : yieldsIsoDate P (fst (isoDate P g)).
Proof.
  unfold isoDate, bind, ret. destruct (faker_date_past P g) as [d g'].
  now exists d.
Qed.

Lemma clockTime_yields (g : Rng P) : yieldsClockTime P (fst (clockTime P g)).
Proof.
  unfold clockTime, bind, ret. destruct (faker_date_past P g) as [d g'].
  now exists d.
Qed.

Lemma integer_yields (lo hi : Z) (g : Rng P) :
  lo <= hi ->
  yieldsIntegerBetween lo hi
    (fst (bind P (faker_number_int P lo hi)
               (fun n => ret P (Some (CellNumber (inject_Z n)))) g)).
Proof.
  intros Hle. pose proof (faker_number_int_range P ok lo hi g Hle) as Hr.
  unfold bind, ret. destruct (faker_number_int P lo hi g) as [n g'].
  exists n. split; [reflexivity|exact Hr].
Qed.

Lemma float_yields (lo hi digits : Z) (g : Rng P) :
  lo <= hi ->
  yieldsFloatBetween lo hi
    (fst (bind P (faker_number_float P lo hi digits)
               (fun x => ret P (Some (CellNumber x))) g)).
Proof.
  intros Hle. pose proof (faker_number_float_range P ok lo hi digits g Hle) as Hr.
  unfold bind, ret. destruct (faker_number_float P lo hi digits g) as [x g'].
  exists x. split; [reflexivity|exact Hr].
Qed.

Lemma boolean_yields (g : Rng P) :
  yieldsZeroOrOne
    (fst (bind P (faker_datatype_boolean P)
               (fun b => ret P (Some (CellNumber (if b then 1%Q else 0%Q)))) g)).
Proof.
  unfold bind, ret. destruct (faker_datatype_boolean P g) as [[|] g'];
    [now right|now left].
Qed.

Lemma words_yields (g : Rng P) :
  yieldsWords
    (fst (bind P (faker_lorem_words P 2 5)
               (fun w => ret P (Some (CellText w))) g)).
Proof.
  unfold bind, ret. destruct (faker_lorem_words P 2 5 g) as [w g']. now exists w.
Qed.

End GeneratorFacts.




(** ** Rows and foreign keys *)

Section RowFacts.
Context (P : Platform) (ok : PlatformOk P).

(** The index computed from [Math.random()] is within the list. *)
Lemma pickForeignKey_member (fkValues : list D1CellValue) (g : Rng P) :
  fkValues <> [] ->
  exists v, fst (pickForeignKey P fkValues g) = Some v /\ In v fkValues.
Proof.
  intros Hne. unfold pickForeignKey, bind, ret.
  pose proof (Math_random_range P ok g) as [H0 H1].
  destruct (Math_random P g) as [r g']. cbn [fst] in H0, H1 |- *.
  set (len := Z.of_nat (length fkValues)).
  assert (Hlen : 0 < len) by (destruct fkValues; [congruence|unfold len; simpl; lia]).
  assert (Hlo : 0 <= Qfloor (r * inject_Z len)).
  { pose proof (Qfloor_resp_le 0 (r * inject_Z len)) as Hf.
    change (Qfloor 0) with 0 in Hf. apply Hf.
    apply Qmult_le_0_compat; [exact H0|].
    change 0%Q with (inject_Z 0). rewrite <- Zle_Qle. lia. }
  assert (Hhi : Qfloor (r * inject_Z len) < len).
  { rewrite Zlt_Qlt. eapply Qle_lt_trans; [apply Qfloor_le|].
    apply Qlt_le_trans with (1 * inject_Z len)%Q.
    - apply Qmult_lt_compat_r; [|exact H1].
      change 0%Q with (inject_Z 0). rewrite <- Zlt_Qlt. exact Hlen.
    - rewrite Qmult_1_l. apply Qle_refl. }
  destruct (nth_error fkValues (Z.to_nat (Qfloor (r * inject_Z len)))) as [v|] eqn:Hn.
  - exists v. split; [reflexivity|]. eapply nth_error_In; eauto.
  - apply nth_error_None in Hn. unfold len in *. lia.
Qed.

Variable foreignKeyValues : option (gmap string (list D1CellValue)).

Lemma foreignKeysFor_supplies (col : D1Column) (fkValues : list D1CellValue) :
  foreignKeysFor foreignKeyValues col = Some (SuppliedList fkValues) <->
  supplies foreignKeyValues col fkValues.
Proof.
  unfold foreignKeysFor, supplies. split.
  - destruct foreignKeyValues as [fks|]; [|discriminate].
    destruct (fks !! colName col) as [vs|] eqn:Hl.
    + destruct vs as [|v vs]; simpl; [discriminate|].
      intros [= <-]. exists fks. repeat split; auto; discriminate.
    + destruct (objectPrototypeLength (colName col)) as [n|]; [|discriminate].
      destruct (0 <? n)%Z; discriminate.
  - intros (fks & -> & Hl & Hne). rewrite Hl.
    destruct fkValues; [congruence|reflexivity].
Qed.

Lemma foreignKeysFor_name (c c' : D1Column) :
  colName c = colName c' ->
  foreignKeysFor foreignKeyValues c = foreignKeysFor foreignKeyValues c'.
Proof. unfold foreignKeysFor. now intros ->. Qed.

Lemma supplies_same_name (c c' : D1Column) (vs vs' : list D1CellValue) :
  colName c = colName c' ->
  supplies foreignKeyValues c vs -> supplies foreignKeyValues c' vs' -> vs = vs'.
Proof.
  intros Hn (fks & -> & Hl & _) (fks' & [= <-] & Hl' & _). congruence.
Qed.

(** An assignment touches the property of its name at most, and removes
    none; under a name other than [__proto__] it leaves the value. *)
Lemma assign_other (key name : string) (value : option D1CellValue) (row : Row) :
  key <> name -> own (assign key value row) !! name = own row !! name.
Proof.
  intros Hne. unfold assign.
  destruct (String.eqb key "__proto__" && inheritsObjectPrototype row).
  - now destruct value as [[| |]|].
  - cbn [own]. now rewrite lookup_insert_ne.
Qed.

Lemma assign_same (key : string) (value : option D1CellValue) (row : Row) :
  key <> "__proto__" -> own (assign key value row) !! key = Some value.
Proof.
  intros Hne. unfold assign. apply String.eqb_neq in Hne. rewrite Hne.
  cbn [andb own]. apply lookup_insert_eq.
Qed.

Lemma assign_keeps (key name : string) (value : option D1CellValue) (row : Row) :
  own row !! name <> None -> own (assign key value row) !! name <> None.
Proof.
  intros Hname. unfold assign.
  destruct (String.eqb key "__proto__" && inheritsObjectPrototype row).
  - now destruct value as [[| |]|].
  - cbn [own]. destruct (decide (key = name)) as [<-|Hne].
    + now rewrite lookup_insert_eq.
    + now rewrite lookup_insert_ne.
Qed.

Lemma fillColumn_fromLists (row : Row) (col : D1Column) (g : Rng P) :
  fromLists foreignKeyValues row ->
  fromLists foreignKeyValues (fst (fillColumn P foreignKeyValues row col g)) /\
  (forall name, own row !! name <> None ->
                own (fst (fillColumn P foreignKeyValues row col g)) !! name <> None) /\
  (forall fkValues, supplies foreignKeyValues col fkValues ->
     colName col <> "__proto__" ->
     own (fst (fillColumn P foreignKeyValues row col g)) !! colName col <> None).
Proof.
  intros Hrow. unfold fillColumn.
  destruct (foreignKeysFor foreignKeyValues col) as [[vs|n]|] eqn:Hfk.
  - apply foreignKeysFor_supplies in Hfk.
    assert (Hne : vs <> []) by (destruct Hfk as (? & _ & _ & H); exact H).
    destruct (pickForeignKey_member vs g Hne) as (v & Hv & Hin).
    unfold bind, ret. destruct (pickForeignKey P vs g) as [picked g'].
    simpl in Hv. subst picked. cbn [fst]. split; [|split].
    + intros c fkValues Hc Hproto.
      destruct (decide (colName col = colName c)) as [Heq|Hneq].
      * right. exists v. rewrite <- Heq, assign_same by congruence.
        split; [reflexivity|].
        now rewrite <- (supplies_same_name col c vs fkValues Heq Hfk Hc).
      * rewrite assign_other by exact Hneq. now apply Hrow.
    + intros name Hname. now apply assign_keeps.
    + intros _ _ Hproto. now rewrite assign_same.
  - assert (Hnot : forall fkValues, ~ supplies foreignKeyValues col fkValues).
    { intros fkValues H. apply foreignKeysFor_supplies in H. congruence. }
    unfold pickFromMethod, bind, ret. destruct (Math_random P g) as [r g'].
    cbn [fst]. split; [|split].
    + intros c fkValues Hc Hproto.
      destruct (decide (colName col = colName c)) as [Heq|Hneq].
      * exfalso. destruct Hc as (fks & Hf & Hl & Hne).
        apply (Hnot fkValues). exists fks. rewrite Heq. auto.
      * rewrite assign_other by exact Hneq. now apply Hrow.
    + intros name Hname. now apply assign_keeps.
    + intros fkValues H. now apply Hnot in H.
  - assert (Hnot : forall fkValues, ~ supplies foreignKeyValues col fkValues).
    { intros fkValues H. apply foreignKeysFor_supplies in H. congruence. }
    unfold bind, ret.
    destruct (generateValueForColumn P col g) as [[v|] g']; cbn [fst].
    + split; [|split].
      * intros c fkValues Hc Hproto.
        destruct (decide (colName col = colName c)) as [Heq|Hneq].
        -- exfalso. destruct Hc as (fks & Hf & Hl & Hne).
           apply (Hnot fkValues). exists fks. rewrite Heq. auto.
        -- rewrite assign_other by exact Hneq. now apply Hrow.
      * intros name Hname. now apply assign_keeps.
      * intros fkValues H. now apply Hnot in H.
    + split; [exact Hrow|]. split; [auto|].
      intros fkValues H. now apply Hnot in H.
Qed.

Lemma fillColumns_fromLists (cols : list D1Column) :
  forall (row : Row) (g : Rng P),
  fromLists foreignKeyValues row ->
  fromLists foreignKeyValues (fst (fillColumns P foreignKeyValues cols row g)) /\
  (forall name, own row !! name <> None ->
                own (fst (fillColumns P foreignKeyValues cols row g)) !! name <> None) /\
  (forall col fkValues, In col cols -> supplies foreignKeyValues col fkValues ->
     colName col <> "__proto__" ->
     own (fst (fillColumns P foreignKeyValues cols row g)) !! colName col <> None).
Proof.
  induction cols as [|c cols IH]; intros row g Hrow.
  - simpl. split; [exact Hrow|]. split; [auto|]. intros col fkValues [].
  - cbn [fillColumns]. unfold bind.
    destruct (fillColumn_fromLists row c g Hrow) as (H1 & H2 & H3).
    destruct (fillColumn P foreignKeyValues row c g) as [row1 g1]. cbn [fst] in *.
    destruct (IH row1 g1 H1) as (I1 & I2 & I3).
    split; [exact I1|]. split; [auto|].
    intros col fkValues [<-|Hin] Hs Hproto; [|eauto].
    apply I2. eapply H3; eauto.
Qed.

Lemma fillColumn_same (row : Row) (c c' : D1Column) (g : Rng P) :
  colName c = colName c' ->
  ((forall fkValues, ~ supplies foreignKeyValues c fkValues) -> c = c') ->
  fillColumn P foreignKeyValues row c' g = fillColumn P foreignKeyValues row c g.
Proof.
  intros Hn Hsame. unfold fillColumn.
  rewrite <- (foreignKeysFor_name c c' Hn).
  destruct (foreignKeysFor foreignKeyValues c) as [[vs|n]|] eqn:Hfk.
  - now rewrite Hn.
  - rewrite <- Hsame; [reflexivity|].
    intros fkValues H. apply foreignKeysFor_supplies in H. congruence.
  - rewrite <- Hsame; [reflexivity|].
    intros fkValues H. apply foreignKeysFor_supplies in H. congruence.
Qed.

Lemma fillColumns_same (cols cols' : list D1Column) :
  sameButSupplied foreignKeyValues cols cols' ->
  forall (row : Row) (g : Rng P),
    fillColumns P foreignKeyValues cols' row g =
    fillColumns P foreignKeyValues cols row g.
Proof.
  intros H. induction H as [|c c' cols cols' [Hn Hsame] _ IH]; intros row g.
  - reflexivity.
  - cbn [fillColumns]. unfold bind. rewrite (fillColumn_same row c c' g Hn Hsame).
    destruct (fillColumn P foreignKeyValues row c g) as [row1 g1]. apply IH.
Qed.

End RowFacts.




(* ===================================================================== *)
(** * The playground worker: claims *)
(* ===================================================================== *)

Import Playground PlaygroundSpec.

Lemma objectNamed_insert (name : string) (this : Counter) (COUNTER : gmap string Counter) :
  objectNamed name (<[name := this]> COUNTER) = this.
Proof. unfold objectNamed. now rewrite lookup_insert_eq. Qed.

Lemma objectNamed_insert_ne (name other : string) (this : Counter)
    (COUNTER : gmap string Counter) :
  other <> name ->
  objectNamed other (<[name := this]> COUNTER) = objectNamed other COUNTER.
Proof. intros H. unfold objectNamed. now rewrite lookup_insert_ne. Qed.

(** An integer of magnitude up to 2^53 is a number. *)
Lemma binary64_exact (n : Z) : Z.abs n <= 2 ^ 53 -> binary64 n = n.
Proof.
  intros Hn. unfold binary64.
  destruct (Z.ltb_spec (Z.abs n) (2 ^ 53)) as [_|Hge]; [reflexivity|].
  change (2 ^ 53) with 9007199254740992 in Hn, Hge.
  assert (Hcases : n = 9007199254740992 \/ n = -9007199254740992) by lia.
  destruct Hcases as [->| ->]; reflexivity.
Qed.

(** The answer and the storage left behind, by path. *)
Lemma Counter_fetch_spec (pathname : string) (this : Counter) :
  let v := default 0 (storage this !! "value") in
  let v' := if String.eqb pathname "/increment" then binary64 (v + 1)
            else if String.eqb pathname "/decrement" then binary64 (v - 1)
            else if String.eqb pathname "/reset" then 0
            else v in
  fst (Counter_fetch pathname this) = json (JsonValue v') 200 /\
  value (snd (Counter_fetch pathname this)) = v' /\
  storage (snd (Counter_fetch pathname this)) =
    if String.eqb pathname "/increment" || String.eqb pathname "/decrement"
       || String.eqb pathname "/reset"
    then <["value" := v']> (storage this) else storage this.
Proof.
  unfold Counter_fetch.
  destruct (String.eqb pathname "/increment"); [repeat split|].
  destruct (String.eqb pathname "/decrement"); [repeat split|].
  destruct (String.eqb pathname "/reset"); repeat split.
Qed.

Lemma stubFetch_spec (name pathname : string) (COUNTER : gmap string Counter) :
  stubFetch name pathname COUNTER =
  (fst (Counter_fetch pathname (objectNamed name COUNTER)),
   <[name := snd (Counter_fetch pathname (objectNamed name COUNTER))]> COUNTER).
Proof.
  unfold stubFetch. now destruct (Counter_fetch pathname (objectNamed name COUNTER)).
Qed.

Lemma storedValue_after (name pathname : string) (COUNTER : gmap string Counter) :
  storedValue name (snd (stubFetch name pathname COUNTER)) =
  default 0 (storage (snd (Counter_fetch pathname (objectNamed name COUNTER)))
             !! "value").
Proof.
  rewrite stubFetch_spec. unfold storedValue. cbn [snd].
  now rewrite objectNamed_insert.
Qed.

(** What the four routes answer and store, in terms of the stored value. *)
Lemma routes_spec (name pathname : string) (COUNTER : gmap string Counter) :
  let v := storedValue name COUNTER in
  let v' := if String.eqb pathname "/increment" then binary64 (v + 1)
            else if String.eqb pathname "/decrement" then binary64 (v - 1)
            else if String.eqb pathname "/reset" then 0
            else v in
  fst (stubFetch name pathname COUNTER) = json (JsonValue v') 200 /\
  storedValue name (snd (stubFetch name pathname COUNTER)) = v'.
Proof.
  cbn zeta. rewrite storedValue_after, stubFetch_spec. cbn [fst].
  destruct (Counter_fetch_spec pathname (objectNamed name COUNTER)) as (Hr & _ & Hs).
  cbn zeta in Hr, Hs. fold (storedValue name COUNTER) in Hr, Hs.
  rewrite Hr, Hs. split; [reflexivity|].
  destruct (String.eqb pathname "/increment"); cbn [orb];
    [now rewrite lookup_insert_eq|].
  destruct (String.eqb pathname "/decrement"); cbn [orb];
    [now rewrite lookup_insert_eq|].
  destruct (String.eqb pathname "/reset"); cbn [orb];
    [now rewrite lookup_insert_eq|].
  reflexivity.
Qed.

(** Below 2^53 the increments and decrements are exact. *)
Lemma counter_requests_exact (name : string) (COUNTER : gmap string Counter) :
  let v := storedValue name COUNTER in
  Z.abs v < 2 ^ 53 ->
  (fst (postCounterIncrement name COUNTER) = json (JsonValue (v + 1)) 200 /\
   storedValue name (snd (postCounterIncrement name COUNTER)) = v + 1) /\
  (fst (postCounterDecrement name COUNTER) = json (JsonValue (v - 1)) 200 /\
   storedValue name (snd (postCounterDecrement name COUNTER)) = v - 1) /\
  (fst (postCounterReset name COUNTER) = json (JsonValue 0) 200 /\
   storedValue name (snd (postCounterReset name COUNTER)) = 0) /\
  (fst (getCounter name COUNTER) = json (JsonValue v) 200 /\
   storedValue name (snd (getCounter name COUNTER)) = v).
Proof.
  intros v Hsafe. change (2 ^ 53) with 9007199254740992 in Hsafe.
  unfold postCounterIncrement, postCounterDecrement, postCounterReset, getCounter.
  pose proof (routes_spec name "/increment" COUNTER) as Hinc.
  pose proof (routes_spec name "/decrement" COUNTER) as Hdec.
  pose proof (routes_spec name "/reset" COUNTER) as Hreset.
  pose proof (routes_spec name "/" COUNTER) as Hget.
  cbn zeta in Hinc, Hdec, Hreset, Hget. fold v in Hinc, Hdec, Hreset, Hget.
  cbn [String.eqb Ascii.eqb Bool.eqb] in Hinc, Hdec, Hreset, Hget.
  rewrite binary64_exact in Hinc by (change (2 ^ 53) with 9007199254740992; lia).
  rewrite binary64_exact in Hdec by (change (2 ^ 53) with 9007199254740992; lia).
  repeat split; tauto.
Qed.

(** C4, as amended.  For every counter name, with [v] the value its
    storage holds (0 when the entry is missing): when [v] is an integer of
    magnitude below 2^53, [/increment] stores and returns [v + 1] and
    [/decrement] [v - 1]; whatever [v] is, they store and return the number
    nearest to [v + 1] and to [v - 1]; [/reset] stores and returns 0, and
    any other path returns [v] and leaves the storage as it was.  Each
    request reads the value from the storage, so the answer is the same
    after the instance was rebuilt over its storage; the value stored is
    what the next request to the same name reads; the counters of other
    names are untouched. *)
Theorem C4_counter_requests (name : string) (COUNTER : gmap string Counter) :
  let v := storedValue name COUNTER in
  (Z.abs v < 2 ^ 53 ->
   (fst (postCounterIncrement name COUNTER) = json (JsonValue (v + 1)) 200 /\
    storedValue name (snd (postCounterIncrement name COUNTER)) = v + 1) /\
   (fst (postCounterDecrement name COUNTER) = json (JsonValue (v - 1)) 200 /\
    storedValue name (snd (postCounterDecrement name COUNTER)) = v - 1)) /\
  (fst (postCounterIncrement name COUNTER) = json (JsonValue (binary64 (v + 1))) 200 /\
   storedValue name (snd (postCounterIncrement name COUNTER)) = binary64 (v + 1)) /\
  (fst (postCounterDecrement name COUNTER) = json (JsonValue (binary64 (v - 1))) 200 /\
   storedValue name (snd (postCounterDecrement name COUNTER)) = binary64 (v - 1)) /\
  (fst (postCounterReset name COUNTER) = json (JsonValue 0) 200 /\
   storedValue name (snd (postCounterReset name COUNTER)) = 0) /\
  (forall pathname,
     pathname <> "/increment" -> pathname <> "/decrement" -> pathname <> "/reset" ->
     fst (stubFetch name pathname COUNTER) = json (JsonValue v) 200 /\
     storage (objectNamed name (snd (stubFetch name pathname COUNTER))) =
     storage (objectNamed name COUNTER)) /\
  (forall pathname,
     fst (stubFetch name pathname (evict name COUNTER)) =
     fst (stubFetch name pathname COUNTER) /\
     storedValue name (snd (stubFetch name pathname (evict name COUNTER))) =
     storedValue name (snd (stubFetch name pathname COUNTER))) /\
  (forall pathname,
     fst (getCounter name (snd (stubFetch name pathname COUNTER))) =
     json (JsonValue (storedValue name (snd (stubFetch name pathname COUNTER)))) 200) /\
  (forall pathname other, other <> name ->
     storedValue other (snd (stubFetch name pathname COUNTER)) =
     storedValue other COUNTER).
Proof.
  intros v.
  assert (Hknown : forall pathname v',
            (String.eqb pathname "/increment" || String.eqb pathname "/decrement"
             || String.eqb pathname "/reset") = true ->
            (if String.eqb pathname "/increment" then binary64 (v + 1)
             else if String.eqb pathname "/decrement" then binary64 (v - 1)
             else if String.eqb pathname "/reset" then 0 else v) = v' ->
            fst (stubFetch name pathname COUNTER) = json (JsonValue v') 200 /\
            storedValue name (snd (stubFetch name pathname COUNTER)) = v').
  { intros pathname v' Hp Hv'. rewrite storedValue_after, stubFetch_spec. cbn [fst].
    destruct (Counter_fetch_spec pathname (objectNamed name COUNTER)) as (Hr & _ & Hs).
    cbn zeta in Hr, Hs. fold (storedValue name COUNTER) in Hr, Hs. fold v in Hr, Hs.
    rewrite Hr, Hs, Hp, Hv'. split; [reflexivity|]. now rewrite lookup_insert_eq. }
  split.
  { intros Hsafe. change (2 ^ 53) with 9007199254740992 in Hsafe. split.
    - apply Hknown; [reflexivity|]. apply binary64_exact.
      change (2 ^ 53) with 9007199254740992. lia.
    - apply Hknown; [reflexivity|]. apply binary64_exact.
      change (2 ^ 53) with 9007199254740992. lia. }
  split; [now apply Hknown|]. split; [now apply Hknown|]. split; [now apply Hknown|].
  split; [|split; [|split]].
  - intros pathname H1 H2 H3.
    apply String.eqb_neq in H1, H2, H3.
    rewrite stubFetch_spec. cbn [fst snd]. rewrite objectNamed_insert.
    destruct (Counter_fetch_spec pathname (objectNamed name COUNTER)) as (Hr & _ & Hs).
    cbn zeta in Hr, Hs. rewrite H1, H2, H3 in Hr, Hs. split; [exact Hr|exact Hs].
  - intros pathname. rewrite !storedValue_after, !stubFetch_spec. cbn [fst].
    unfold evict. rewrite objectNamed_insert.
    destruct (Counter_fetch_spec pathname (newCounter (storage (objectNamed name COUNTER))))
      as (Hr & _ & Hs).
    destruct (Counter_fetch_spec pathname (objectNamed name COUNTER)) as (Hr' & _ & Hs').
    cbn zeta in *. cbn [newCounter storage] in Hr, Hs.
    rewrite Hr, Hr', Hs, Hs'. split; reflexivity.
  - intros pathname. unfold getCounter. rewrite (stubFetch_spec name "/"). cbn [fst].
    destruct (Counter_fetch_spec "/" (objectNamed name (snd (stubFetch name pathname COUNTER))))
      as (Hr & _ & _).
    exact Hr.
  - intros pathname other Hne. rewrite stubFetch_spec. unfold storedValue. cbn [snd].
    now rewrite objectNamed_insert_ne.
Qed.

Lemma C4_counter_requests_witness :
  fst (postCounterIncrement "visits" {[ "visits" := mkCounter 0 {[ "value" := 41 ]} ]}) =
  json (JsonValue 42) 200.
Proof.
  refine (proj1 (proj1 (proj1
            (C4_counter_requests "visits"
               {[ "visits" := mkCounter 0 {[ "value" := 41 ]} ]}) _))).
  reflexivity.
Defined.

(** C4 as stated fails at 2^53: the next integer is no number, the
    increment gives 2^53 again, and the counter stays where it is. *)
Lemma C4_counterexample :
  let COUNTER : gmap string Counter :=
    {[ "visits" := mkCounter 0 {[ "value" := 9007199254740992 ]} ]} in
  storedValue "visits" COUNTER = 2 ^ 53 /\
  fst (postCounterIncrement "visits" COUNTER) = json (JsonValue (2 ^ 53)) 200 /\
  storedValue "visits" (snd (postCounterIncrement "visits" COUNTER)) = 2 ^ 53.
Proof. cbn zeta. repeat split; reflexivity. Qed.


(** C5.  Each read-by-key route answers 404 with an error body exactly
    when the lookup of its binding returns null; when the lookup returns a
    value the route answers 200 with it; and when the lookup throws, the
    route throws the same error. *)
Theorem C5_read_routes_404_iff_null (env : Env) (k : string) :
  (* GET /api/users/:id *)
  ((answersNotFound (getUser env k) <->
    DB_first env "SELECT * FROM users WHERE id = ?" [k] = Returned None) /\
   (forall row, DB_first env "SELECT * FROM users WHERE id = ?" [k] = Returned (Some row) ->
      getUser env k = Returned (json (JsonRow row) 200)) /\
   (forall e, DB_first env "SELECT * FROM users WHERE id = ?" [k] = Thrown e ->
      getUser env k = Thrown e)) /\
  (* GET /api/kv/:key *)
  ((answersNotFound (getKV env k) <-> CACHE_get env k = Returned None) /\
   (forall v, CACHE_get env k = Returned (Some v) ->
      getKV env k = Returned (json (JsonKeyValue k v) 200)) /\
   (forall e, CACHE_get env k = Thrown e -> getKV env k = Thrown e)) /\
  (* GET /api/files/:key *)
  ((answersNotFound (getFile env k) <-> STORAGE_get env k = Returned None) /\
   (forall obj, STORAGE_get env k = Returned (Some obj) ->
      exists r, getFile env k = Returned r /\ status r = 200 /\
                payload r = Stream (body obj)) /\
   (forall e, STORAGE_get env k = Thrown e -> getFile env k = Thrown e)).
Proof.
  unfold answersNotFound, getUser, getKV, getFile, await.
  split; [|split].
  - destruct (DB_first env "SELECT * FROM users WHERE id = ?" [k]) as [[row|]|e];
      (split; [split|split]); try congruence; eauto.
    + intros (r & m & [= <-] & Hs & _). discriminate Hs.
    + intros (r & m & [=] & _).
  - destruct (CACHE_get env k) as [[v|]|e];
      (split; [split|split]); try congruence; eauto.
    + intros (r & m & [= <-] & Hs & _). discriminate Hs.
    + intros (r & m & [=] & _).
  - destruct (STORAGE_get env k) as [[obj|]|e];
      (split; [split|split]); try congruence; eauto.
    + intros (r & m & [= <-] & Hs & _). discriminate Hs.
    + intros obj' [= <-]. eauto.
    + intros (r & m & [=] & _).
Qed.

Lemma C5_read_routes_404_iff_null_witness :
  answersNotFound
    (getKV {| DB_first := fun _ _ => Returned None;
              CACHE_get := fun key => if String.eqb key "motd"
                                      then Returned (Some "hello") else Returned None;
              STORAGE_get := fun _ => Thrown (mkError "bucket offline") |} "missing") /\
  getFile {| DB_first := fun _ _ => Returned None;
             CACHE_get := fun key => if String.eqb key "motd"
                                     then Returned (Some "hello") else Returned None;
             STORAGE_get := fun _ => Thrown (mkError "bucket offline") |} "missing" =
  Thrown (mkError "bucket offline").
Proof.
  pose proof (C5_read_routes_404_iff_null
    {| DB_first := fun _ _ => Returned None;
       CACHE_get := fun key => if String.eqb key "motd"
                               then Returned (Some "hello") else Returned None;
       STORAGE_get := fun _ => Thrown (mkError "bucket offline") |} "missing")
    as (_ & (Hkv & _ & _) & (_ & _ & Hfile)).
  split.
  - apply Hkv. reflexivity.
  - apply Hfile. reflexivity.
Defined.

(* ===================================================================== *)
(** * LocalFlare.start: claims *)
(* ===================================================================== *)

Import Core CoreSpec.

Lemma fromEntries_fold_other (pairs : list (string * string))
    (acc : gmap string string) (name : string) :
  ~ In name (map fst pairs) ->
  fold_left (fun obj entry => <[fst entry := snd entry]> obj) pairs acc !! name =
  acc !! name.
Proof.
  revert acc. induction pairs as [|[k v] pairs IH]; intros acc Hnot; [reflexivity|].
  simpl in *. rewrite IH by tauto. apply lookup_insert_ne. tauto.
Qed.

Lemma fromEntries_fold_keys (pairs : list (string * string))
    (acc : gmap string string) (name : string) :
  is_Some (fold_left (fun obj entry => <[fst entry := snd entry]> obj) pairs acc !! name)
  <-> In name (map fst pairs) \/ is_Some (acc !! name).
Proof.
  revert acc. induction pairs as [|[k v] pairs IH]; intros acc; simpl; [tauto|].
  rewrite IH. destruct (decide (k = name)) as [->|Hne].
  - rewrite lookup_insert_eq. split; [tauto|]. intros _. right. eauto.
  - rewrite lookup_insert_ne by exact Hne. tauto.
Qed.

Lemma fromEntries_keys (pairs : list (string * string)) (name : string) :
  is_Some (fromEntries pairs !! name) <-> In name (map fst pairs).
Proof.
  unfold fromEntries. rewrite fromEntries_fold_keys, lookup_empty.
  split; [intros [H|[x [=]]]; exact H|tauto].
Qed.

Lemma fromEntries_last (before after : list (string * string)) (name value : string) :
  ~ In name (map fst after) ->
  fromEntries (before ++ (name, value) :: after) !! name = Some value.
Proof.
  intros Hnot. unfold fromEntries. rewrite fold_left_app. simpl.
  rewrite fromEntries_fold_other by exact Hnot. apply lookup_insert_eq.
Qed.

Lemma onlyIfAny_spec (obj : gmap string string) :
  onlyIfAny obj = if decide (obj = ∅) then None else Some obj.
Proof.
  unfold onlyIfAny. destruct (map_to_list obj) as [|p l] eqn:Hl.
  - apply map_to_list_empty_iff in Hl. subst. now rewrite decide_True.
  - rewrite decide_False; [reflexivity|].
    intros ->. rewrite map_to_list_empty in Hl. discriminate.
Qed.

Lemma fromEntries_empty (pairs : list (string * string)) :
  fromEntries pairs = ∅ <-> pairs = [].
Proof.
  split; [|now intros ->].
  destruct pairs as [|[k v] pairs]; [reflexivity|]. intros H.
  assert (Hk : is_Some (fromEntries ((k, v) :: pairs) !! k))
    by (apply fromEntries_keys; now left).
  rewrite H, lookup_empty in Hk. destruct Hk as [x [=]].
Qed.

Lemma entryFor_fromEntries (pairs : list (string * string)) :
  entryFor (onlyIfAny (fromEntries pairs)) pairs.
Proof.
  unfold entryFor. rewrite onlyIfAny_spec.
  destruct (decide (fromEntries pairs = ∅)) as [He|Hne].
  - apply fromEntries_empty in He. subst. split.
    + split; [intros [x [=]]|congruence].
    + intros obj [=].
  - split.
    + split; [|eauto]. intros _ ->. now apply Hne.
    + intros obj [= <-]. split.
      * apply fromEntries_keys.
      * intros before name value after -> Hnot. now apply fromEntries_last.
Qed.




(* ===================================================================== *)
(** * The FileTree component *)
(* ===================================================================== *)

Import FileTreeView ViewSpec.

(** ** Splitting and joining *)

Lemma split_app_sep (sep : ascii) (a b : string) :
  split sep (a ++ String sep b) = split sep a ++ split sep b.
Proof.
  induction a as [|c a IH]; simpl.
  - now rewrite Ascii.eqb_refl.
  - destruct (Ascii.eqb c sep); [now rewrite IH|].
    rewrite IH. destruct (split sep a) as [|p ps] eqn:E; [now apply split_nonempty in E|].
    reflexivity.
Qed.

(** A string free of the separator is its own single part. *)
Lemma split_no_sep (sep : ascii) (s : string) :
  includes (String sep EmptyString) s = false -> split sep s = [s].
Proof.
  induction s as [|c s IH]; [reflexivity|].
  cbn [includes startsWith]. intros H. apply orb_false_iff in H. destruct H as [H1 H2].
  rewrite andb_true_r in H1. simpl. rewrite Ascii.eqb_sym, H1.
  now rewrite (IH H2).
Qed.

Lemma split_parts_no_sep (sep : ascii) (s part : string) :
  In part (split sep s) -> includes (String sep EmptyString) part = false.
Proof.
  revert part. induction s as [|c s IH]; intros part; simpl.
  - intros [<-|[]]. reflexivity.
  - destruct (Ascii.eqb c sep) eqn:E.
    + intros [<-|H]; [reflexivity|now apply IH].
    + destruct (split sep s) as [|p ps] eqn:Hs; [now apply split_nonempty in Hs|].
      intros [<-|H].
      * cbn [includes startsWith]. rewrite Ascii.eqb_sym, E. simpl.
        apply IH. now left.
      * apply IH. now right.
Qed.

(** [parts.join("/").split("/")] gives the parts back when none of them
    holds a "/". *)
Lemma split_join (parts : list string) :
  parts <> [] ->
  (forall part, In part parts -> includes "/" part = false) ->
  split "/" (join "/" parts) = parts.
Proof.
  induction parts as [|p ps IH]; [congruence|]. intros _ Hall.
  destruct ps as [|q qs].
  - simpl. apply split_no_sep. apply Hall. now left.
  - rewrite join_cons by discriminate.
    change (p ++ "/" ++ join "/" (q :: qs))%string
      with (p ++ String "/" (join "/" (q :: qs)))%string.
    rewrite split_app_sep, IH; [|discriminate|intros; apply Hall; now right].
    rewrite split_no_sep by (apply Hall; now left). reflexivity.
Qed.

Lemma nonEmptyParts_app (l1 l2 : list string) :
  nonEmptyParts (l1 ++ l2) = nonEmptyParts l1 ++ nonEmptyParts l2.
Proof. apply List.filter_app. Qed.

(** ** The counters *)

Lemma list_sum_perm (l1 l2 : list nat) :
  Permutation l1 l2 -> list_sum l1 = list_sum l2.
Proof. intros H. induction H; simpl; lia. Qed.

Lemma countFilesNode_eq (node : TreeNode) :
  forall count, DashboardView.countFilesNode node count = (count + filesIn node)%nat.
Proof.
  induction node as [nm pth sz|nm pth cs IH] using TreeNode_ind'; intros count.
  - simpl. lia.
  - simpl. revert count. induction IH as [|c cs Hc _ IHcs]; intros count; simpl.
    + lia.
    + rewrite IHcs, Hc. lia.
Qed.

Lemma countFiles_eq (nodes : list TreeNode) :
  forall count, DashboardView.countFiles nodes count = (count + filesOf nodes)%nat.
Proof.
  unfold DashboardView.countFiles, filesOf.
  induction nodes as [|n nodes IH]; intros count; simpl; [lia|].
  rewrite IH, countFilesNode_eq. lia.
Qed.

Lemma countFoldersNode_eq (node : TreeNode) :
  forall count, countFoldersNode node count = (count + foldersIn node)%nat.
Proof.
  induction node as [nm pth sz|nm pth cs IH] using TreeNode_ind'; intros count.
  - simpl. lia.
  - simpl.
    assert (H : forall count',
              fold_left (fun count child => countFoldersNode child count) cs count' =
              (count' + list_sum (map foldersIn cs))%nat).
    { clear count.
      induction IH as [|c cs Hc _ IHcs]; intros count'; simpl; [lia|].
      rewrite IHcs, Hc. lia. }
    rewrite H. lia.
Qed.

Lemma countFolders_eq (nodes : list TreeNode) :
  forall count, countFolders nodes count = (count + foldersOf nodes)%nat.
Proof.
  unfold countFolders, foldersOf.
  induction nodes as [|n nodes IH]; intros count; simpl; [lia|].
  rewrite IH, countFoldersNode_eq. lia.
Qed.

(** X1.  The header of the file tree is shown exactly when the tree is not
    empty: a tree without nodes is the only one in which both counters,
    [totalFolders] and [totalFiles], are zero.  So the test
    [totalFolders > 0 || totalFiles > 0] of the component never fails once
    the "No files yet" branch was not taken. *)
Theorem X1_counters_zero_only_for_empty_tree (tree : list TreeNode) :
  (tree = [] <->
   totalFolders tree = 0%nat /\ DashboardView.totalFiles tree = 0%nat) /\
  DashboardView.showsCounts tree = negb (DashboardView.showsNoFilesYet tree).
Proof.
  assert (H : tree = [] <->
              totalFolders tree = 0%nat /\ DashboardView.totalFiles tree = 0%nat).
  { unfold totalFolders, DashboardView.totalFiles.
    rewrite countFolders_eq, countFiles_eq. unfold foldersOf, filesOf.
    destruct tree as [|[nm pth sz|nm pth cs] tree]; simpl.
    - tauto.
    - split; [discriminate|]. intros [_ H]. discriminate.
    - split; [discriminate|]. intros [H _]. discriminate. }
  split; [exact H|].
  unfold DashboardView.showsCounts, DashboardView.showsNoFilesYet.
  destruct tree as [|n tree]; [reflexivity|].
  simpl. destruct H as [_ H].
  destruct (totalFolders (n :: tree)) eqn:E1; [|reflexivity].
  destruct (DashboardView.totalFiles (n :: tree)) eqn:E2; [|reflexivity].
  discriminate H. now split.
Qed.

Lemma filesOf_app (l1 l2 : list TreeNode) :
  filesOf (l1 ++ l2) = (filesOf l1 + filesOf l2)%nat.
Proof. unfold filesOf. now rewrite map_app, list_sum_app. Qed.

Lemma filesOf_perm (l1 l2 : list TreeNode) :
  Permutation l1 l2 -> filesOf l1 = filesOf l2.
Proof. intros H. apply list_sum_perm, Permutation_map, H. Qed.

Lemma filesIn_sortNode (localeCompare : string -> string -> Z) (node : TreeNode) :
  filesIn (Dashboard.sortNode localeCompare node) = filesIn node.
Proof.
  induction node as [nm pth sz|nm pth cs IH] using TreeNode_ind'; [reflexivity|].
  simpl. change (list_sum (map filesIn ?l)) with (filesOf l).
  rewrite (filesOf_perm _ _ (sort_perm _ _)).
  unfold filesOf. rewrite map_map. f_equal.
  induction IH as [|c cs Hc _ IHcs]; simpl; [reflexivity|]. now rewrite Hc, IHcs.
Qed.

(** Sorting moves nodes around: the number of files stays. *)
Lemma filesOf_sortNodes (localeCompare : string -> string -> Z) (l : list TreeNode) :
  filesOf (Dashboard.sortNodes localeCompare l) = filesOf l.
Proof.
  unfold Dashboard.sortNodes, filesOf. rewrite map_map.
  rewrite (map_ext _ filesIn) by apply filesIn_sortNode.
  apply list_sum_perm, Permutation_map, sort_perm.
Qed.

(** A walk adds at most one file, and none when it plants folders. *)
Lemma filesOf_plant (lastKind : Kind) (items : list (string * string)) :
  forall level,
    (filesOf (plant lastKind items level) <=
     filesOf level + match lastKind with KFile _ => 1 | KFolder => 0 end)%nat.
Proof.
  induction items as [|[part pth] items IH]; intros level; [simpl; lia|].
  rewrite plant_cons. cbn zeta.
  destruct (findByName part level) as [[nm pth1 sz1|nm pth1 cs]|] eqn:Hf.
  - destruct (match items with [] => lastKind | _ :: _ => KFolder end); [lia|apply IH].
  - destruct (match items with [] => lastKind | _ :: _ => KFolder end); [lia|].
    destruct (findByName_split _ _ _ Hf) as (l1 & l2 & Hlevel & _ & _ & Hset).
    rewrite (Hset _ _ _ _ eq_refl), Hlevel.
    change (?n :: l2) with ([n] ++ l2). rewrite !filesOf_app.
    specialize (IH cs). unfold filesOf at 2 5. simpl.
    change (list_sum (map filesIn ?l)) with (filesOf l). lia.
  - destruct (match items with [] => lastKind | _ :: _ => KFolder end) eqn:Hk.
    + apply itemEntries_last_file in Hk as Hnil. subst items. simpl in Hk. subst lastKind.
      rewrite filesOf_app. unfold filesOf at 2. simpl. lia.
    + rewrite filesOf_app. specialize (IH []). unfold filesOf at 2. simpl.
      change (list_sum (map filesIn ?l)) with (filesOf l).
      change (filesOf []) with 0%nat in IH. lia.
Qed.

Lemma filesOf_addObject (t : list TreeNode) (obj : R2ObjectItem) :
  (filesOf (Dashboard.addObject t obj) <= S (filesOf t))%nat.
Proof.
  rewrite addObject_plant.
  pose proof (filesOf_plant (lastKindOf obj (split "/" (key obj)))
                (itemsFrom [] (split "/" (key obj))) t) as H.
  destruct (lastKindOf obj (split "/" (key obj))); lia.
Qed.

Lemma filesOf_addKeepFolder (t : list TreeNode) (obj : R2ObjectItem) :
  (filesOf (Dashboard.addKeepFolder t obj) <= filesOf t)%nat.
Proof.
  rewrite addKeepFolder_plant. destruct (endsWith "/.keep" (key obj)); [|lia].
  pose proof (filesOf_plant KFolder
                (itemsFrom [] (split "/" (removeFirst "/.keep" (key obj)))) t) as H.
  simpl in H. lia.
Qed.

(** X2.  The dashboard counts the file nodes of the tree, the demo app the
    objects listed ([objects.length]); the first count never exceeds the
    number of objects the first pass of [buildFileTree] sees, which never
    exceeds the second. *)
Theorem X2_file_count_within_objects (localeCompare : string -> string -> Z)
    (objects : list R2ObjectItem) (hideKeepFiles : bool) :
  (DashboardView.totalFiles (Dashboard.buildFileTree localeCompare objects hideKeepFiles)
   <= length (visibleObjects objects hideKeepFiles))%nat /\
  (length (visibleObjects objects hideKeepFiles) <= DemoAppView.totalFiles objects)%nat.
Proof.
  split.
  - unfold DashboardView.totalFiles. rewrite countFiles_eq, buildFileTree_eq.
    rewrite filesOf_sortNodes. cbn zeta. simpl.
    assert (H1 : forall objs t,
              (filesOf (fold_left Dashboard.addObject objs t)
               <= filesOf t + length objs)%nat).
    { induction objs as [|o objs IH]; intros t; simpl; [lia|].
      specialize (IH (Dashboard.addObject t o)).
      pose proof (filesOf_addObject t o). lia. }
    assert (H2 : forall objs t,
              (filesOf (fold_left Dashboard.addKeepFolder objs t) <= filesOf t)%nat).
    { induction objs as [|o objs IH]; intros t; simpl; [lia|].
      specialize (IH (Dashboard.addKeepFolder t o)).
      pose proof (filesOf_addKeepFolder t o). lia. }
    specialize (H1 (visibleObjects objects hideKeepFiles) []).
    change (filesOf []) with 0%nat in H1.
    destruct hideKeepFiles; [|exact H1].
    etransitivity; [apply H2|exact H1].
  - unfold DemoAppView.totalFiles, visibleObjects.
    destruct hideKeepFiles; [apply List.filter_length_le|lia].
Qed.

(** ** The set of expanded folders *)

(** X3.  Toggling a folder twice restores the set of expanded folders, and
    a toggle changes the state of that folder only: it is expanded
    afterwards exactly when it was not before, every other path keeps its
    state. *)
Theorem X3_toggle_folder (path : string) (prev : gset string) :
  handleToggleFolder path (handleToggleFolder path prev) = prev /\
  (path ∈ handleToggleFolder path prev <-> path ∉ prev) /\
  (forall other, other <> path ->
     (other ∈ handleToggleFolder path prev <-> other ∈ prev)).
Proof.
  unfold handleToggleFolder. cbn zeta.
  destruct (decide (path ∈ prev)) as [Hin|Hout].
  - split; [|split].
    + destruct (decide (path ∈ prev ∖ {[path]})) as [H|_].
      * apply elem_of_difference in H. destruct H as [_ H].
        exfalso. apply H. now apply elem_of_singleton.
      * apply set_eq. intros x.
        rewrite elem_of_union, elem_of_difference, elem_of_singleton.
        destruct (decide (x = path)) as [->|Hne]; tauto.
    + rewrite elem_of_difference, elem_of_singleton. tauto.
    + intros other Hne. rewrite elem_of_difference, elem_of_singleton. tauto.
  - split; [|split].
    + destruct (decide (path ∈ prev ∪ {[path]})) as [_|H].
      * apply set_eq. intros x.
        rewrite elem_of_difference, elem_of_union, elem_of_singleton.
        destruct (decide (x = path)) as [->|Hne]; tauto.
      * exfalso. apply H. apply elem_of_union. right. now apply elem_of_singleton.
    + rewrite elem_of_union, elem_of_singleton. tauto.
    + intros other Hne. rewrite elem_of_union, elem_of_singleton. tauto.
Qed.

Lemma expandToPath_spec (path q : string) (prev : gset string) :
  q ∈ expandToPath path prev <-> q ∈ prev \/ In q (foldersToExpand path).
Proof.
  unfold expandToPath. generalize (foldersToExpand path) as fs. intros fs.
  revert prev. induction fs as [|f fs IH]; intros prev; simpl.
  - tauto.
  - rewrite IH, elem_of_union, elem_of_singleton. intuition congruence.
Qed.

Lemma In_foldersToExpand (path q : string) :
  In q (foldersToExpand path) <->
  exists i, (i < length (split "/" path) - 1)%nat /\
            q = join "/" (firstn (i + 1) (split "/" path)).
Proof.
  unfold foldersToExpand. cbn zeta. rewrite in_map_iff. split.
  - intros (i & <- & Hi). apply in_seq in Hi. exists i. split; [lia|reflexivity].
  - intros (i & Hi & ->). exists i. split; [reflexivity|]. apply in_seq. lia.
Qed.

(** The non-empty parts before the last one: each proper prefix of them,
    if not empty, ends at some index of the split that is not the last. *)
Lemma nonEmptyParts_prefix (parts : list string) :
  forall pre rest,
    nonEmptyParts parts = pre ++ rest -> pre <> [] -> rest <> [] ->
    exists j part,
      nth_error parts j = Some part /\ isEmpty part = false /\
      nonEmptyParts (firstn (j + 1) parts) = pre /\ (j < length parts - 1)%nat.
Proof.
  induction parts as [|x parts IH]; intros pre rest Heq Hpre Hrest.
  - simpl in Heq. symmetry in Heq. apply app_eq_nil in Heq. tauto.
  - unfold nonEmptyParts in Heq. simpl in Heq.
    fold (nonEmptyParts parts) in Heq.
    destruct (isEmpty x) eqn:Ex; simpl in Heq.
    + destruct (IH pre rest Heq Hpre Hrest) as (j & part & Hn & He & Hf & Hj).
      exists (S j), part. repeat split; auto.
      * unfold nonEmptyParts. simpl. rewrite Ex. exact Hf.
      * simpl. lia.
    + destruct pre as [|p pre]; [congruence|].
      simpl in Heq. injection Heq as <- Heq.
      destruct pre as [|p' pre].
      * exists 0%nat, x. repeat split; auto.
        -- unfold nonEmptyParts. simpl. now rewrite Ex.
        -- simpl. destruct parts; [simpl in Heq; subst rest; congruence|simpl; lia].
      * destruct (IH (p' :: pre) rest Heq) as (j & part & Hn & He & Hf & Hj);
          [discriminate|exact Hrest|].
        exists (S j), part. repeat split; auto.
        -- unfold nonEmptyParts. simpl. rewrite Ex. simpl. f_equal. exact Hf.
        -- simpl. lia.
Qed.

Lemma keepEntries_folders (obj : R2ObjectItem) (e : Entry) :
  In e (keepEntries obj) -> kind e = KFolder.
Proof.
  unfold keepEntries. destruct (endsWith "/.keep" (key obj)); [|intros []].
  rewrite In_keyEntries. intros (i & part & _ & _ & ->). unfold entryAt. simpl.
  now destruct (i =? _)%nat.
Qed.

(** A file node of a consistent tree lies where the key of its object
    leads. *)
Lemma file_entry_origin (objects : list R2ObjectItem) (hideKeepFiles : bool)
    (s : list string) (p : string) (sz : Z) :
  In (mkEntry s p (KFile sz)) (treeEntries objects hideKeepFiles) ->
  exists obj, In obj (visibleObjects objects hideKeepFiles) /\
              p = key obj /\ s = segments (key obj).
Proof.
  unfold treeEntries. intros H. apply in_app_or in H. destruct H as [H|H].
  - apply in_flat_map in H. destruct H as (obj & Hobj & He).
    exists obj. split; [exact Hobj|].
    unfold objectEntries in He. apply In_keyEntries in He.
    destruct He as (i & part & Hn & Hp & He). unfold entryAt in He. simpl in He.
    injection He as Hs Hpth Hk.
    destruct (i =? length (split "/" (key obj)) - 1)%nat eqn:Ei; [|discriminate].
    apply Nat.eqb_eq in Ei.
    assert (Hall : firstn (i + 1) (split "/" (key obj)) = split "/" (key obj)).
    { apply firstn_all2. lia. }
    rewrite Hall in *. split; [now rewrite Hpth, join_split|exact Hs].
  - destruct hideKeepFiles; [|contradiction].
    apply in_flat_map in H. destruct H as (obj & _ & He).
    apply keepEntries_folders in He. discriminate.
Qed.

(** X4.  Selecting a file of the tree makes it visible.  In the tree built
    from keys that do not disagree on a node, take a file node and any node
    on the way to it (the segments leading to that node are a proper prefix
    of those leading to the file): after [handleSelect] on the file's path,
    the path of that node is among the expanded folders, and no folder that
    was expanded is collapsed. *)
Theorem X4_select_file_expands_ancestors (localeCompare : string -> string -> Z)
    (objects : list R2ObjectItem) {S : Type}
    (onSelect : string -> NodeType -> S -> S) (state : gset string * S)
    (pre rest : list string) (p q : string) (sz : Z) (k : Kind) :
  consistent (treeEntries objects true) = true ->
  let tree := Dashboard.buildFileTree localeCompare objects true in
  Has tree (pre ++ rest) p (KFile sz) ->
  rest <> [] ->
  Has tree pre q k ->
  q ∈ fst (handleSelect onSelect p file state) /\
  fst state ⊆ fst (handleSelect onSelect p file state).
Proof.
  intros Hc tree Hfile Hrest Hpre. unfold handleSelect. simpl. split.
  - apply expandToPath_spec. right.
    pose proof (buildFileTree_represents localeCompare _ _ Hc) as Hrep.
    apply Hrep in Hfile. apply Hrep in Hpre.
    destruct (file_entry_origin _ _ _ _ _ Hfile) as (obj & Hobj & -> & Hs).
    unfold segments in Hs. symmetry in Hs.
    assert (Hne : pre <> []).
    { intros ->. apply Hrep in Hpre. now apply Has_segs_nonempty in Hpre. }
    destruct (nonEmptyParts_prefix _ _ _ Hs Hne Hrest) as (j & part & Hn & He & Hf & Hj).
    assert (Hin : In (entryAt (KFile (objSize obj)) [] (split "/" (key obj)) j)
                     (treeEntries objects true)).
    { unfold treeEntries. apply in_or_app. left. apply in_flat_map.
      exists obj. split; [exact Hobj|]. unfold objectEntries. apply In_keyEntries.
      exists j, part. auto. }
    destruct (consistent_agree _ _ _ Hc Hpre Hin) as [Hq _].
    { simpl. symmetry. exact Hf. }
    simpl in Hq. apply In_foldersToExpand. exists j. split; [exact Hj|exact Hq].
  - intros x Hx. apply expandToPath_spec. now left.
Qed.

Lemma X4_select_file_expands_ancestors_witness :
  "img" ∈ fst (handleSelect (fun _ _ (s : unit) => s) "img/raw/a.png" file (∅, tt)).
Proof.
  refine (proj1 (X4_select_file_expands_ancestors codeUnitCompare
                   [mkObject "img/raw/a.png" 10; mkObject "img/b.png" 2]
                   (fun _ _ (s : unit) => s) (∅, tt)
                   ["img"] ["raw"; "a.png"] "img/raw/a.png" "img" 10 KFolder
                   eq_refl _ _ _)).
  - simpl. eapply Has_below; [left; reflexivity|].
    eapply Has_below; [left; reflexivity|]. apply Has_file. left. reflexivity.
  - discriminate.
  - simpl. eapply Has_folder. left. reflexivity.
Defined.

Lemma firstn_app_le {A : Type} (n : nat) (l1 l2 : list A) :
  (n <= length l1)%nat -> firstn n (l1 ++ l2) = firstn n l1.
Proof.
  intros H. rewrite firstn_app. replace (n - length l1)%nat with 0%nat by lia.
  simpl. apply app_nil_r.
Qed.

(** X5.  The breadcrumb of the demo app navigates to a folder by expanding
    the path of a made-up child of it ([path + "/x"]): this expands the
    folder itself and every prefix of its path, and nothing else. *)
Theorem X5_breadcrumb_expands_folder_and_prefixes {S : Type}
    (onSelect : string -> NodeType -> S -> S) (path : string)
    (state : gset string * S) (q : string) :
  path <> EmptyString ->
  (q ∈ fst (DemoAppView.handleBreadcrumbNavigate onSelect path state) <->
   q ∈ fst state \/ In q (foldersToExpand path) \/ q = path) /\
  snd (DemoAppView.handleBreadcrumbNavigate onSelect path state) =
  onSelect path folder (snd state).
Proof.
  intros Hne. unfold DemoAppView.handleBreadcrumbNavigate.
  apply isEmpty_false in Hne. rewrite Hne. simpl. split; [|reflexivity].
  rewrite expandToPath_spec, !In_foldersToExpand.
  change (path ++ "/x")%string with (path ++ String "/" "x")%string.
  rewrite split_app_sep. simpl (split "/" "x").
  rewrite length_app. simpl (length ["x"]).
  pose proof (split_nonempty "/" path) as Hparts.
  assert (Hlen : (0 < length (split "/" path))%nat).
  { destruct (split "/" path); [congruence|simpl; lia]. }
  split.
  - intros [H|(i & Hi & ->)]; [now left|right].
    rewrite firstn_app_le by lia.
    destruct (Nat.eq_dec i (length (split "/" path) - 1)%nat) as [->|Hi'].
    + right. rewrite firstn_all2 by lia. apply join_split.
    + left. exists i. split; [lia|reflexivity].
  - intros [H|[(i & Hi & ->)| ->]]; [now left| |]; right.
    + exists i. split; [lia|]. now rewrite firstn_app_le by lia.
    + exists (length (split "/" path) - 1)%nat. split; [lia|].
      rewrite firstn_app_le by lia. rewrite firstn_all2 by lia.
      symmetry. apply join_split.
Qed.

Lemma X5_breadcrumb_expands_folder_and_prefixes_witness :
  "a/b" ∈ fst (DemoAppView.handleBreadcrumbNavigate (fun _ _ (s : unit) => s)
                 "a/b" (∅, tt)).
Proof.
  exact (proj2 (proj1 (X5_breadcrumb_expands_folder_and_prefixes
                         (fun _ _ (s : unit) => s) "a/b" (∅, tt) "a/b"
                         ltac:(discriminate)))
               (or_intror (or_intror eq_refl))).
Defined.

Lemma Has_in (level : list TreeNode) (s : list string) (p : string) (k : Kind) :
  Has level s p k <-> exists node, In node level /\ Has [node] s p k.
Proof.
  split.
  - intros H. inversion H as [? ? ? ? Hin|? ? ? ? Hin|? ? ? ? ? ? ? Hin Hcs]; subst.
    + eexists. split; [exact Hin|]. apply Has_file. now left.
    + eexists. split; [exact Hin|]. eapply Has_folder. now left.
    + eexists. split; [exact Hin|]. eapply Has_below; [now left|exact Hcs].
  - intros (node & Hin & H).
    inversion H as [? ? ? ? Hn|? ? ? ? Hn|? ? ? ? ? ? ? Hn Hcs]; subst;
      destruct Hn as [->|[]].
    + now apply Has_file.
    + eapply Has_folder; eauto.
    + eapply Has_below; eauto.
Qed.

Lemma collectFoldersNode_spec (node : TreeNode) :
  forall allFolders q,
    q ∈ DemoAppView.collectFoldersNode node allFolders <->
    q ∈ allFolders \/ exists s, Has [node] s q KFolder.
Proof.
  induction node as [nm pth sz|nm pth cs IH] using TreeNode_ind'; intros allFolders q.
  - simpl. split; [tauto|]. intros [H|(s & H)]; [exact H|].
    apply Has_one_file in H. destruct H as (_ & _ & [=]).
  - simpl.
    assert (H : forall acc,
              q ∈ fold_left (fun allFolders child =>
                               DemoAppView.collectFoldersNode child allFolders) cs acc <->
              q ∈ acc \/ exists s, Has cs s q KFolder).
    { induction IH as [|c cs Hc _ IHcs]; intros acc; simpl.
      - split; [tauto|]. intros [H|(s & H)]; [exact H|now apply Has_nil in H].
      - rewrite IHcs, Hc. split.
        + intros [[H|(s & H)]|(s & H)]; auto; right; exists s.
          * change (c :: cs) with ([c] ++ cs). apply Has_app. now left.
          * change (c :: cs) with ([c] ++ cs). apply Has_app. now right.
        + intros [H|(s & H)]; auto.
          change (c :: cs) with ([c] ++ cs) in H. apply Has_app in H.
          destruct H as [H|H]; eauto. }
    rewrite H, elem_of_union, elem_of_singleton. split.
    + intros [[Hq| ->]|(s & Hs)]; auto; right.
      * exists [nm]. apply Has_one_folder. now left.
      * exists (nm :: s). apply Has_one_folder. right. eauto.
    + intros [Hq|(s & Hs)]; auto. apply Has_one_folder in Hs.
      destruct Hs as [(_ & -> & _)|(s' & _ & Hs)]; eauto.
Qed.

(** X6.  [expandAll] of the demo app expands exactly the folders of the
    tree: a path is in the new set of expanded folders if and only if some
    folder node of the tree, at whatever depth, has that path. *)
Theorem X6_expandAll_is_the_folder_paths (tree : list TreeNode) (q : string) :
  q ∈ DemoAppView.expandAll tree <-> exists s, Has tree s q KFolder.
Proof.
  unfold DemoAppView.expandAll, DemoAppView.collectFolders.
  assert (H : forall acc,
            q ∈ fold_left (fun allFolders node =>
                             DemoAppView.collectFoldersNode node allFolders) tree acc <->
            q ∈ acc \/ exists s, Has tree s q KFolder).
  { induction tree as [|n tree IH]; intros acc; simpl.
    - split; [tauto|]. intros [H|(s & H)]; [exact H|now apply Has_nil in H].
    - rewrite IH, collectFoldersNode_spec. split.
      + intros [[H|(s & H)]|(s & H)]; auto; right; exists s.
        * change (n :: tree) with ([n] ++ tree). apply Has_app. now left.
        * change (n :: tree) with ([n] ++ tree). apply Has_app. now right.
      + intros [H|(s & H)]; auto.
        change (n :: tree) with ([n] ++ tree) in H. apply Has_app in H.
        destruct H as [H|H]; eauto. }
  rewrite H. split; [|auto]. intros [Hq|Hq]; [|exact Hq].
  now apply elem_of_empty in Hq.
Qed.

(** ** The icon of a file *)

Lemma lowerChar_upperChar (c : ascii) : lowerChar (upperChar c) = lowerChar c.
Proof. destruct c as [[] [] [] [] [] [] [] []]; reflexivity. Qed.

Lemma upperChar_lowerChar (c : ascii) : upperChar (lowerChar c) = upperChar c.
Proof. destruct c as [[] [] [] [] [] [] [] []]; reflexivity. Qed.

Lemma upperChar_is_dot (c : ascii) :
  Ascii.eqb (upperChar c) "."%char = Ascii.eqb c "."%char.
Proof. destruct c as [[] [] [] [] [] [] [] []]; reflexivity. Qed.

Lemma asciiLowerCase_asciiUpperCase (s : string) :
  asciiLowerCase (asciiUpperCase s) = asciiLowerCase s.
Proof.
  unfold asciiLowerCase, asciiUpperCase.
  induction s as [|c s IH]; simpl; [reflexivity|]. now rewrite lowerChar_upperChar, IH.
Qed.

Lemma asciiUpperCase_asciiLowerCase (s : string) :
  asciiUpperCase (asciiLowerCase s) = asciiUpperCase s.
Proof.
  unfold asciiLowerCase, asciiUpperCase.
  induction s as [|c s IH]; simpl; [reflexivity|]. now rewrite upperChar_lowerChar, IH.
Qed.

Lemma asciiEngine_ok : EngineOk asciiEngine.
Proof. constructor; intros s _; reflexivity. Qed.

Lemma upperChar_ascii (c : ascii) :
  (byte (upperChar c) <? 128)%Z = (byte c <? 128)%Z.
Proof. destruct c as [[] [] [] [] [] [] [] []]; reflexivity. Qed.

Lemma isAscii_asciiUpperCase (s : string) : isAscii (asciiUpperCase s) = isAscii s.
Proof.
  unfold asciiUpperCase. induction s as [|c s IH]; [reflexivity|].
  simpl. now rewrite upperChar_ascii, IH.
Qed.

(** The parts of a string of ASCII characters are such strings. *)
Lemma isAscii_split (sep : ascii) (s part : string) :
  isAscii s = true -> In part (split sep s) -> isAscii part = true.
Proof.
  revert part. induction s as [|c s IH]; intros part Hs; simpl.
  - intros [<-|[]]. reflexivity.
  - simpl in Hs. apply andb_true_iff in Hs. destruct Hs as [Hc Hs].
    destruct (Ascii.eqb c sep).
    + intros [<-|H]; [reflexivity|now apply IH].
    + destruct (split sep s) as [|p ps] eqn:E; simpl.
      * intros [<-|[]]. simpl. now rewrite Hc.
      * intros [<-|H].
        -- simpl. rewrite Hc. apply IH; [exact Hs|now left].
        -- apply IH; [exact Hs|now right].
Qed.

Lemma last_In {A : Type} (l : list A) (d : A) : l <> [] -> In (List.last l d) l.
Proof.
  induction l as [|x l IH]; [congruence|]. intros _.
  destruct l as [|y l]; [now left|]. right. apply IH. discriminate.
Qed.

(** A character map that keeps the separator apart maps the parts. *)
Lemma split_mapChars (f : ascii -> ascii) (sep : ascii) (s : string) :
  (forall c, Ascii.eqb (f c) sep = Ascii.eqb c sep) ->
  split sep (mapChars f s) = map (mapChars f) (split sep s).
Proof.
  intros Hf. induction s as [|c s IH]; [reflexivity|]. simpl.
  rewrite Hf, IH. destruct (Ascii.eqb c sep); [reflexivity|].
  now destruct (split sep s).
Qed.

Lemma last_map {A B : Type} (f : A -> B) (l : list A) (d : A) :
  List.last (map f l) (f d) = f (List.last l d).
Proof.
  induction l as [|x l IH]; [reflexivity|].
  destruct l as [|y l]; [reflexivity|]. exact IH.
Qed.

Section IconFacts.
Context (E : Engine).

(** On a name of ASCII characters the extension does not see the case. *)
Lemma extensionOf_toUpperCase (filename : string) :
  EngineOk E -> isAscii filename = true ->
  extensionOf E (toUpperCase E filename) = extensionOf E filename.
Proof.
  intros ok Hascii. unfold extensionOf.
  rewrite (toUpperCase_isAscii E ok filename Hascii). unfold asciiUpperCase.
  rewrite (split_mapChars upperChar) by apply upperChar_is_dot.
  change EmptyString with (mapChars upperChar EmptyString) at 1 3.
  rewrite last_map. fold (asciiUpperCase (List.last (split "." filename) EmptyString)).
  assert (Hlast : isAscii (List.last (split "." filename) EmptyString) = true).
  { apply (isAscii_split "." filename); [exact Hascii|].
    apply last_In, split_nonempty. }
  rewrite (toLowerCase_isAscii E ok) by now rewrite isAscii_asciiUpperCase.
  rewrite (toLowerCase_isAscii E ok) by exact Hlast.
  now rewrite asciiLowerCase_asciiUpperCase.
Qed.

Lemma extensionOf_after_dot (stem ext : string) :
  includes "." ext = false ->
  extensionOf E (stem ++ "." ++ ext) = extensionOf E ext.
Proof.
  intros Hext. unfold extensionOf.
  change (stem ++ "." ++ ext)%string with (stem ++ String "." ext)%string.
  rewrite split_app_sep, (split_no_sep "." ext Hext).
  now rewrite last_app_cons.
Qed.

End IconFacts.

(** X7.  The icon of a file depends on its extension only: a name that
    ends in a dot followed by a dot-free extension gets the icon of that
    extension, a name without a dot counting as its own extension; and for
    a name of ASCII characters the case of the letters does not matter:
    the name in upper case gets the same icon. *)
Theorem X7_icon_by_extension (E : Engine) (filename stem ext : string) :
  EngineOk E ->
  isAscii filename = true ->
  includes "." ext = false ->
  DashboardView.getFileIcon E (toUpperCase E filename) =
    DashboardView.getFileIcon E filename /\
  DashboardView.getFileIcon E (stem ++ "." ++ ext) = DashboardView.getFileIcon E ext /\
  DemoAppView.getFileIcon E (toUpperCase E filename) =
    DemoAppView.getFileIcon E filename /\
  DemoAppView.getFileIcon E (stem ++ "." ++ ext) = DemoAppView.getFileIcon E ext.
Proof.
  intros ok Hascii Hext. unfold DashboardView.getFileIcon, DemoAppView.getFileIcon.
  now rewrite (extensionOf_toUpperCase E filename ok Hascii),
              (extensionOf_after_dot E stem ext Hext).
Qed.

Lemma X7_icon_by_extension_witness :
  DashboardView.getFileIcon asciiEngine ("photo.of.me" ++ "." ++ "PNG") =
  DashboardView.getFileIcon asciiEngine "PNG".
Proof.
  exact (proj1 (proj2 (X7_icon_by_extension asciiEngine "readme.MD" "photo.of.me" "PNG"
                          asciiEngine_ok eq_refl eq_refl))).
Defined.

(** X8.  The two copies of [getFileIcon] differ on one extension: for a
    file whose extension is "sql" the dashboard shows the code icon in cyan
    and the demo app the plain file icon; for every other file they return
    the same element. *)
Theorem X8_icons_of_both_copies (E : Engine) (filename : string) :
  (extensionOf E filename = "sql" ->
   DashboardView.getFileIcon E filename =
     Lucide.mkElement Lucide.FileCode "size-4 text-cyan-500" /\
   DemoAppView.getFileIcon E filename =
     Lucide.mkElement Lucide.File "size-4 text-muted-foreground") /\
  (extensionOf E filename <> "sql" ->
   DashboardView.getFileIcon E filename = DemoAppView.getFileIcon E filename).
Proof.
  unfold DashboardView.getFileIcon, DemoAppView.getFileIcon. cbn zeta.
  generalize (extensionOf E filename) as ext. intros ext. split.
  - intros ->. split; reflexivity.
  - intros Hne.
    repeat match goal with
           | |- context [if arrayIncludes ?l ext then _ else _] =>
               destruct (arrayIncludes l ext); [reflexivity|]
           | |- context [if String.eqb ext ?w then _ else _] =>
               destruct (String.eqb_spec ext w); [first [reflexivity|congruence]|]
           end.
    reflexivity.
Qed.

Lemma X8_icons_of_both_copies_witness :
  DashboardView.getFileIcon asciiEngine "schema.SQL" =
    Lucide.mkElement Lucide.FileCode "size-4 text-cyan-500" /\
  DemoAppView.getFileIcon asciiEngine "schema.SQL" =
    Lucide.mkElement Lucide.File "size-4 text-muted-foreground".
Proof.
  exact (proj1 (X8_icons_of_both_copies asciiEngine "schema.SQL") eq_refl).
Defined.

(* ===================================================================== *)
(** * The R2 explorer *)
(* ===================================================================== *)

(** [trim] takes the ideographic space U+3000 and the byte order mark
    U+FEFF off, and leaves the last letter of "voilà" whole. *)
Example trim_white_space :
  JsText.trim (" drafts" ++ String "227" (String "128" (String "128" ""))) = "drafts" /\
  JsText.trim (String "239" (String "187" (String "191" "{ }"))) = "{ }" /\
  JsText.trim "voilà " = "voilà".
Proof. repeat split; reflexivity. Qed.

Lemma join_empty_parts (parts : list string) :
  join "/" parts = EmptyString -> nonEmptyParts parts = [].
Proof.
  destruct parts as [|p [|q qs]]; [reflexivity| |].
  - simpl. now intros ->.
  - rewrite join_cons by discriminate. destruct p; discriminate.
Qed.

Lemma removelast_nonEmptyParts (parts : list string) :
  parts <> [] -> List.last parts EmptyString <> EmptyString ->
  removelast (nonEmptyParts parts) = nonEmptyParts (removelast parts).
Proof.
  intros Hne Hlast.
  rewrite (app_removelast_last EmptyString Hne) at 1.
  rewrite nonEmptyParts_app. unfold nonEmptyParts at 2. simpl.
  apply isEmpty_false in Hlast. rewrite Hlast. simpl.
  apply removelast_last.
Qed.

Lemma segments_single (name : string) :
  name <> EmptyString -> includes "/" name = false -> segments name = [name].
Proof.
  intros Hne Hs. unfold segments. rewrite (split_no_sep "/" name Hs).
  unfold nonEmptyParts. simpl. apply isEmpty_false in Hne. now rewrite Hne.
Qed.

Lemma segments_child (folderPath name : string) :
  name <> EmptyString -> includes "/" name = false ->
  segments (folderPath ++ "/" ++ name) = segments folderPath ++ [name].
Proof.
  intros Hne Hs. unfold segments.
  change (folderPath ++ "/" ++ name)%string with (folderPath ++ String "/" name)%string.
  rewrite split_app_sep, nonEmptyParts_app. f_equal.
  now apply segments_single.
Qed.

(** X9.  An upload lands where the selection points.  After
    [handleTreeSelect] on a folder, a file uploaded under a plain name (not
    empty, without "/") gets a key whose segments are those of the folder
    followed by the name: the file becomes a child of the folder.  After
    [handleTreeSelect] on a file (a path whose last part is not empty), the
    segments are those of the file with the last one replaced by the name:
    the upload becomes a sibling of the file.  The bucket is the selected
    one. *)
Theorem X9_upload_lands_in_selection (path : string) (type : NodeType)
    (state : R2Explorer.State) (bucket fileName : string) :
  R2Explorer.bucketOf state = Some bucket ->
  fileName <> EmptyString -> includes "/" fileName = false ->
  (type = file -> List.last (split "/" path) EmptyString <> EmptyString) ->
  exists upload,
    R2Explorer.uploadMutation (R2Explorer.handleTreeSelect path type state) fileName
      = Returned upload /\
    R2Explorer.bucket upload = bucket /\
    segments (R2Explorer.uploadKey upload) =
      match type with
      | folder => segments path
      | file => removelast (segments path)
      end ++ [fileName].
Proof.
  intros Hb Hne Hs Hlast. unfold R2Explorer.uploadMutation.
  assert (Hb' : R2Explorer.bucketOf (R2Explorer.handleTreeSelect path type state)
                = Some bucket) by exact Hb.
  rewrite Hb'. eexists. split; [reflexivity|]. split; [reflexivity|]. simpl.
  destruct type.
  - specialize (Hlast eq_refl).
    pose proof (split_nonempty "/" path) as Hparts.
    unfold segments at 2. rewrite removelast_nonEmptyParts by assumption.
    destruct (Nat.ltb_spec 1 (length (split "/" path))) as [Hlen|Hlen].
    + destruct (isEmpty (join "/" (removelast (split "/" path)))) eqn:E.
      * apply isEmpty_true in E. rewrite (join_empty_parts _ E).
        now apply segments_single.
      * rewrite segments_child by assumption. f_equal. unfold segments.
        rewrite split_join; [reflexivity| |].
        -- destruct (split "/" path) as [|a [|b l]]; simpl in *; [lia|lia|discriminate].
        -- intros part Hin. apply (split_parts_no_sep "/" path).
           rewrite (app_removelast_last EmptyString Hparts).
           apply in_or_app. now left.
    + simpl. destruct (split "/" path) as [|a [|b l]]; simpl in *; [congruence| |lia].
      now apply segments_single.
  - destruct (isEmpty path) eqn:E.
    + apply isEmpty_true in E. subst path. now apply segments_single.
    + now apply segments_child.
Qed.

Lemma X9_upload_lands_in_selection_witness :
  exists upload,
    R2Explorer.uploadMutation
      (R2Explorer.handleTreeSelect "img/raw/a.png" file
         (R2Explorer.mkState (Some "FILES") None None "" "")) "b.png"
      = Returned upload /\
    R2Explorer.bucket upload = "FILES" /\
    segments (R2Explorer.uploadKey upload) = ["img"; "raw"] ++ ["b.png"].
Proof.
  exact (X9_upload_lands_in_selection "img/raw/a.png" file
           (R2Explorer.mkState (Some "FILES") None None "" "") "FILES" "b.png"
           eq_refl ltac:(discriminate) eq_refl ltac:(discriminate)).
Defined.

Lemma string_app_assoc (a b c : string) : ((a ++ b) ++ c = a ++ b ++ c)%string.
Proof.
  induction a as [|x a IH]; [reflexivity|].
  change (String x ((a ++ b) ++ c) = String x (a ++ b ++ c))%string. now rewrite IH.
Qed.

Lemma nth_error_last {A : Type} (l : list A) (d : A) :
  l <> [] -> nth_error l (length l - 1) = Some (List.last l d).
Proof.
  intros Hne. rewrite (app_removelast_last d Hne) at 1 2.
  rewrite length_app, nth_error_app2 by (simpl; lia).
  replace (length (removelast l) + length [List.last l d] - 1 - length (removelast l))%nat
    with 0%nat by (simpl; lia).
  reflexivity.
Qed.

(** X10.  A folder created from the dialog shows up in the tree.
    [handleCreateFolder] uploads a marker whose key is the current folder
    path, the trimmed name and "/.keep".  For a plain name (without "/"),
    a folder path holding no "/.keep" of its own, and a listing in which no
    two keys disagree on a node: once the marker is listed, the tree has a
    folder node of that name below the segments of the current folder,
    with the folder path as its path; and no file node stands for the
    marker. *)
Theorem X10_created_folder_appears (localeCompare : string -> string -> Z)
    (state : R2Explorer.State) (upload : R2Explorer.Upload)
    (objects : list R2ObjectItem) (sz : Z) :
  R2Explorer.handleCreateFolder state = Some upload ->
  let name := JsText.trim (R2Explorer.newFolderName state) in
  let folderPath :=
    if isEmpty (R2Explorer.currentFolderPath state) then name
    else (R2Explorer.currentFolderPath state ++ "/" ++ name)%string in
  includes "/" name = false ->
  includes "/.keep" folderPath = false ->
  In (mkObject (R2Explorer.uploadKey upload) sz) objects ->
  consistent (treeEntries objects true) = true ->
  let tree := Dashboard.buildFileTree localeCompare objects true in
  R2Explorer.uploadKey upload = (folderPath ++ "/.keep")%string /\
  Has tree (segments (R2Explorer.currentFolderPath state) ++ [name]) folderPath KFolder /\
  (forall s p sz', Has tree s p (KFile sz') -> p <> R2Explorer.uploadKey upload).
Proof.
  intros Hcreate name folderPath Hname Hkeep Hin Hc tree.
  unfold R2Explorer.handleCreateFolder in Hcreate. fold name in Hcreate.
  destruct (isEmpty name) eqn:Ename; [discriminate|].
  destruct (R2Explorer.bucketOf state) as [b|]; [|discriminate].
  injection Hcreate as <-. cbn [R2Explorer.uploadKey] in *.
  assert (Hkey : (if isEmpty (R2Explorer.currentFolderPath state)
                  then (name ++ "/.keep")%string
                  else (R2Explorer.currentFolderPath state ++ "/" ++ name ++ "/.keep")%string)
                 = (folderPath ++ "/.keep")%string).
  { unfold folderPath. destruct (isEmpty (R2Explorer.currentFolderPath state));
      [reflexivity|]. now rewrite !string_app_assoc. }
  rewrite Hkey in *. split; [reflexivity|]. split.
  - apply (buildFileTree_represents localeCompare _ _ Hc).
    unfold treeEntries. apply in_or_app. right.
    apply in_flat_map. eexists. split; [exact Hin|].
    unfold keepEntries. cbn [key].
    rewrite endsWith_app, removeFirst_keep by exact Hkeep.
    apply In_keyEntries.
    pose proof (split_nonempty "/" folderPath) as Hparts.
    assert (Hsegs : segments folderPath =
                    segments (R2Explorer.currentFolderPath state) ++ [name]).
    { unfold folderPath. apply isEmpty_false in Ename.
      destruct (isEmpty (R2Explorer.currentFolderPath state)) eqn:E.
      - apply isEmpty_true in E. rewrite E. now apply segments_single.
      - now apply segments_child. }
    assert (Hlast : List.last (split "/" folderPath) EmptyString = name).
    { assert (H : List.last (nonEmptyParts (split "/" folderPath)) EmptyString = name).
      { fold (segments folderPath). rewrite Hsegs. now rewrite last_last. }
      unfold folderPath in *.
      destruct (isEmpty (R2Explorer.currentFolderPath state)).
      - now rewrite (split_no_sep "/" name Hname).
      - change (R2Explorer.currentFolderPath state ++ "/" ++ name)%string
          with (R2Explorer.currentFolderPath state ++ String "/" name)%string.
        rewrite split_app_sep, (split_no_sep "/" name Hname). now rewrite last_last. }
    exists (length (split "/" folderPath) - 1)%nat, name. split; [|split].
    + rewrite <- Hlast. now apply nth_error_last.
    + exact Ename.
    + unfold entryAt. simpl. rewrite Nat.eqb_refl.
      rewrite firstn_all2 by lia. rewrite join_split.
      fold (segments folderPath). now rewrite Hsegs.
  - intros s p sz' H -> .
    apply buildFileTree_files in H. destruct H as (obj & Hobj & Hk & _).
    unfold visibleObjects in Hobj. apply filter_In in Hobj. destruct Hobj as [_ Hv].
    unfold Dashboard.notKeepFile in Hv. rewrite <- Hk, endsWith_app in Hv. discriminate.
Qed.

Lemma X10_created_folder_appears_witness :
  Has (Dashboard.buildFileTree codeUnitCompare
         [mkObject "docs/a.txt" 3; mkObject "docs/drafts/.keep" 0] true)
      (segments "docs" ++ ["drafts"]) "docs/drafts" KFolder.
Proof.
  exact (proj1 (proj2 (X10_created_folder_appears codeUnitCompare
           (R2Explorer.mkState (Some "FILES") None None "docs" "  drafts ")
           (R2Explorer.mkUpload "FILES" "docs/drafts/.keep")
           [mkObject "docs/a.txt" 3; mkObject "docs/drafts/.keep" 0] 0
           eq_refl eq_refl eq_refl (or_intror (or_introl eq_refl)) eq_refl))).
Defined.

(* ===================================================================== *)
(** * The dummy-data generator: several rows, the preview, the dialog *)
(* ===================================================================== *)

Import JsText DummyRows DescriptionSpec.

(** [i < count] holds below the least integer that is not below [count],
    and fails from there on. *)
Lemma lessThan_spec (i : Z) (count : Q) :
  lessThan i count = true <-> i < Qceiling count.
Proof.
  unfold lessThan. rewrite negb_true_iff, <- not_true_iff_false, Qle_bool_iff.
  split.
  - intros Hnot. destruct (Z.lt_ge_cases i (Qceiling count)) as [Hlt|Hge]; [exact Hlt|].
    exfalso. apply Hnot. eapply Qle_trans; [apply Qle_ceiling|].
    rewrite <- Zle_Qle. exact Hge.
  - intros Hlt Hle. apply Qceiling_resp_le in Hle. rewrite Qceiling_Z in Hle. lia.
Qed.

(** The loop runs until the test fails: fuel for the turns that are left
    is enough, and more changes nothing. *)
Lemma pushRows_spec (P : Platform) (schema : D1TableSchema)
    (foreignKeyValues : option (gmap string (list D1CellValue)))
    (good : Row -> Prop) (count : Q) :
  (forall g, good (fst (generateDummyRow P schema foreignKeyValues g))) ->
  forall fuel i rows g,
    fuel = Z.to_nat (Qceiling count - i) ->
    Forall good rows ->
    length (fst (pushRows P schema foreignKeyValues count fuel i rows g)) =
      (length rows + fuel)%nat /\
    Forall good (fst (pushRows P schema foreignKeyValues count fuel i rows g)) /\
    forall extra,
      pushRows P schema foreignKeyValues count (fuel + extra) i rows g =
      pushRows P schema foreignKeyValues count fuel i rows g.
Proof.
  intros Hgood. induction fuel as [|fuel IH]; intros i rows g Hfuel Hrows.
  - simpl. split; [lia|]. split; [exact Hrows|].
    intros [|extra]; [reflexivity|]. cbn [pushRows].
    destruct (lessThan i count) eqn:E; [|reflexivity].
    apply lessThan_spec in E. lia.
  - assert (Hlt : i < Qceiling count) by lia.
    apply lessThan_spec in Hlt. cbn [pushRows Nat.add]. rewrite Hlt.
    unfold bind. specialize (Hgood g).
    destruct (generateDummyRow P schema foreignKeyValues g) as [row g1].
    cbn [fst] in Hgood.
    destruct (IH (i + 1) (rows ++ [row]) g1) as (Hlen & Hall & Hmore).
    + lia.
    + apply Forall_app. split; [exact Hrows|]. now constructor.
    + split; [|split; [exact Hall|exact Hmore]].
      rewrite Hlen, length_app. simpl. lia.
Qed.

Lemma generateDummyRow_fromLists (P : Platform) (ok : PlatformOk P)
    (schema : D1TableSchema)
    (foreignKeyValues : option (gmap string (list D1CellValue))) (g : Rng P)
    (col : D1Column) (fkValues : list D1CellValue) :
  In col (columns schema) -> supplies foreignKeyValues col fkValues ->
  colName col <> "__proto__" ->
  exists v, own (fst (generateDummyRow P schema foreignKeyValues g)) !! colName col =
            Some (Some v) /\ In v fkValues.
Proof.
  intros Hin Hs Hproto. unfold generateDummyRow.
  assert (Hempty : fromLists foreignKeyValues emptyRow).
  { intros c vs _ _. left. apply lookup_empty. }
  destruct (fillColumns_fromLists P ok foreignKeyValues (columns schema) emptyRow g
              Hempty) as (H1 & _ & H3).
  destruct (H1 col fkValues Hs Hproto) as [Hnone|Hgood]; [|exact Hgood].
  exfalso. exact (H3 col fkValues Hin Hs Hproto Hnone).
Qed.



Lemma promised_intro (P : Platform) (description : string)
    (promise : option D1CellValue -> Prop) (v : option D1CellValue) :
  List.find (fun row => String.eqb (fst row) description) (promises P) =
    Some (description, promise) ->
  promise v -> promised P description v.
Proof. unfold promised. now intros ->. Qed.





Lemma handleRowCountChange_range (targetValue : string) (rowCount : Z) :
  1 <= rowCount <= 100 -> 1 <= handleRowCountChange targetValue rowCount <= 100.
Proof.
  intros H. unfold handleRowCountChange.
  destruct (parseInt targetValue) as [value|]; [|exact H].
  destruct (Z.leb_spec 1 value); [|exact H].
  destruct (Z.leb_spec value 100); [|exact H].
  simpl. lia.
Qed.

(** X14.  Whatever is typed into the dialog, in whatever order, the row
    count it holds stays between 1 and 100: an input is taken over only
    when [parseInt] reads from it an integer in that range.  Asked for that
    many rows, [generateDummyRows] returns between 1 and 100 of them. *)
Theorem X14_row_count_stays_within_bounds (inputs : list string) :
  let rowCount :=
    fold_left (fun rowCount targetValue => handleRowCountChange targetValue rowCount)
              inputs initialRowCount in
  1 <= rowCount <= 100 /\
  forall (P : Platform) (schema : D1TableSchema)
         (foreignKeyValues : option (gmap string (list D1CellValue))) (g : Rng P),
    (1 <= length (fst (generateDummyRows P schema (inject_Z rowCount)
                                         foreignKeyValues g)) <= 100)%nat.
Proof.
  assert (H : forall rowCount, 1 <= rowCount <= 100 ->
            1 <= fold_left (fun rowCount targetValue =>
                              handleRowCountChange targetValue rowCount)
                           inputs rowCount <= 100).
  { induction inputs as [|v inputs IH]; intros rowCount Hr; [exact Hr|].
    simpl. apply IH. now apply handleRowCountChange_range. }
  intros rowCount. specialize (H initialRowCount ltac:(unfold initialRowCount; lia)).
  fold rowCount in H. split; [exact H|].
  intros P schema foreignKeyValues g. unfold generateDummyRows.
  destruct (pushRows_spec P schema foreignKeyValues (fun _ => True)
              (inject_Z rowCount) (fun _ => I)
              (Z.to_nat (Qceiling (inject_Z rowCount))) 0 [] g ltac:(f_equal; lia)
              (List.Forall_nil _)) as [Hlen _].
  rewrite Hlen, Qceiling_Z. simpl. lia.
Qed.

(* ===================================================================== *)
(** * The playground worker: runs of counter requests *)
(* ===================================================================== *)

Import CounterRuns.

(** A route moves a number by one at most. *)
Lemma apply_bound (v : Z) (route : CounterRoute) :
  Z.abs (apply v route) <= Z.abs v + 1.
Proof. destruct route; simpl; lia. Qed.

(** Below 2^53 the routes compute exactly. *)
Lemma serve_spec (route : CounterRoute) (name : string) (COUNTER : gmap string Counter) :
  Z.abs (storedValue name COUNTER) < 2 ^ 53 ->
  fst (serve route name COUNTER) =
    json (JsonValue (apply (storedValue name COUNTER) route)) 200 /\
  storedValue name (snd (serve route name COUNTER)) =
    apply (storedValue name COUNTER) route.
Proof.
  intros Hsafe.
  destruct (counter_requests_exact name COUNTER Hsafe) as (Hinc & Hdec & Hreset & Hget).
  destruct route; cbn [serve apply]; assumption.
Qed.

Lemma serve_other (route : CounterRoute) (name other : string)
    (COUNTER : gmap string Counter) :
  other <> name ->
  storedValue other (snd (serve route name COUNTER)) = storedValue other COUNTER.
Proof.
  intros Hne.
  unfold serve, getCounter, postCounterIncrement, postCounterDecrement, postCounterReset.
  destruct route; rewrite stubFetch_spec; unfold storedValue; cbn [snd];
    now rewrite objectNamed_insert_ne.
Qed.

Lemma storedValue_evict (name other : string) (COUNTER : gmap string Counter) :
  storedValue other (evict name COUNTER) = storedValue other COUNTER.
Proof.
  unfold storedValue, evict. destruct (decide (other = name)) as [->|Hne].
  - now rewrite objectNamed_insert.
  - now rewrite objectNamed_insert_ne.
Qed.

Lemma replay_app (v : Z) (routes routes' : list CounterRoute) :
  replay v (routes ++ routes') = replay (replay v routes) routes'.
Proof. unfold replay. apply fold_left_app. Qed.

Lemma replay_bound (routes : list CounterRoute) :
  forall v, Z.abs (replay v routes) <= Z.abs v + Z.of_nat (length routes).
Proof.
  unfold replay. induction routes as [|route routes IH]; intros v; simpl; [lia|].
  specialize (IH (apply v route)). pose proof (apply_bound v route). lia.
Qed.

Lemma routesTo_cons (name : string) (event : Event) (events : list Event) :
  routesTo name (event :: events) = routesTo name [event] ++ routesTo name events.
Proof. unfold routesTo. simpl. now rewrite app_nil_r. Qed.

Lemma storedValue_run (name : string) (events : list Event) :
  forall COUNTER,
    Z.abs (storedValue name COUNTER) + Z.of_nat (length (routesTo name events))
      <= 2 ^ 53 ->
    storedValue name (run events COUNTER) =
    replay (storedValue name COUNTER) (routesTo name events).
Proof.
  unfold run. induction events as [|event events IH]; intros COUNTER Hsafe;
    [reflexivity|].
  rewrite (routesTo_cons name event events) in Hsafe |- *.
  rewrite length_app, Nat2Z.inj_add in Hsafe.
  cbn [fold_left]. rewrite replay_app.
  assert (Hstep : storedValue name (step COUNTER event) =
                  replay (storedValue name COUNTER) (routesTo name [event])).
  { destruct event as [route name'|name']; cbn [step routesTo flat_map].
    - destruct (String.eqb_spec name' name) as [->|Hne].
      + cbn [routesTo flat_map] in Hsafe. rewrite String.eqb_refl in Hsafe.
        cbn [length app] in Hsafe.
        destruct (serve_spec route name COUNTER) as [_ Hsame]; [lia|].
        exact Hsame.
      + apply serve_other. congruence.
    - apply storedValue_evict. }
  rewrite <- Hstep. apply IH. rewrite Hstep.
  pose proof (replay_bound (routesTo name [event]) (storedValue name COUNTER)). lia.
Qed.

(** X15.  The value of a counter is the replay of the requests addressed
    to it.  Take a run of counter requests to any names, with instances
    dropped by the platform in between, and a name whose stored value and
    number of requests in the run add up to less than 2^53 in magnitude:
    the value stored under the name after the run is what the routes
    addressed to it, applied in order to the value stored at the outset,
    give ([increment] adds 1, [decrement] subtracts 1, [reset] gives 0, the
    plain read changes nothing); and the answer to the next request
    carries the value that one more step gives.  Requests to other names
    and evictions leave it alone. *)
Theorem X15_counter_value_is_replay (events : list Event) (route : CounterRoute)
    (name : string) (COUNTER : gmap string Counter) :
  Z.abs (storedValue name COUNTER) + Z.of_nat (length (routesTo name events))
    < 2 ^ 53 ->
  storedValue name (run events COUNTER) =
    replay (storedValue name COUNTER) (routesTo name events) /\
  fst (serve route name (run events COUNTER)) =
    json (JsonValue (replay (storedValue name COUNTER)
                            (routesTo name events ++ [route]))) 200.
Proof.
  intros Hsafe.
  assert (Hrun := storedValue_run name events COUNTER ltac:(lia)).
  split; [exact Hrun|].
  destruct (serve_spec route name (run events COUNTER)) as [Hr _].
  - rewrite Hrun.
    pose proof (replay_bound (routesTo name events) (storedValue name COUNTER)). lia.
  - rewrite Hr, Hrun. now rewrite replay_app.
Qed.

Lemma X15_counter_value_is_replay_witness :
  storedValue "visits"
    (run [Request PostIncrement "visits"; Request PostIncrement "other";
          Evicted "visits"; Request PostIncrement "visits";
          Request PostDecrement "visits"] ∅) = 1.
Proof.
  refine (proj1 (X15_counter_value_is_replay
            [Request PostIncrement "visits"; Request PostIncrement "other";
             Evicted "visits"; Request PostIncrement "visits";
             Request PostDecrement "visits"] GetCounter "visits" ∅ _)).
  reflexivity.
Defined.

(* ===================================================================== *)
(** * packages/core: the configuration file, the summary, the class *)
(* ===================================================================== *)

Import ConfigSpec.

Lemma findAmong_spec (fs : Config.Fs) (directory : string) (filenames : list string) :
  match Config.findAmong fs directory filenames with
  | None =>
      forall filename, In filename filenames ->
        Config.existsSync fs (Config.resolve fs [directory; filename]) = false
  | Some found =>
      exists before filename after,
        filenames = before ++ filename :: after /\
        found = Config.resolve fs [directory; filename] /\
        Config.existsSync fs found = true /\
        forall earlier, In earlier before ->
          Config.existsSync fs (Config.resolve fs [directory; earlier]) = false
  end.
Proof.
  induction filenames as [|filename others IH]; simpl; [intros ? []|].
  destruct (Config.existsSync fs (Config.resolve fs [directory; filename])) eqn:E.
  - exists [], filename, others. repeat split; auto. intros ? [].
  - destruct (Config.findAmong fs directory others) as [found|].
    + destruct IH as (before & f & after & -> & -> & Hex & Hbefore).
      exists (filename :: before), f, after. repeat split; auto.
      intros earlier [<-|Hin]; auto.
    + intros f [<-|Hin]; auto.
Qed.

(** X16.  [findWranglerConfig] returns the first of [wrangler.toml],
    [wrangler.json], [wrangler.jsonc] that exists in the directory: the
    path it returns exists, and every name of higher priority is missing;
    it returns [null] exactly when none of the three exists. *)
Theorem X16_first_existing_config_file (fs : Config.Fs) (directory : string) :
  (Config.findWranglerConfig fs directory = None <->
   forall filename, In filename Config.WRANGLER_CONFIG_FILES ->
     Config.existsSync fs (Config.resolve fs [directory; filename]) = false) /\
  (forall found, Config.findWranglerConfig fs directory = Some found ->
     exists before filename after,
       Config.WRANGLER_CONFIG_FILES = before ++ filename :: after /\
       found = Config.resolve fs [directory; filename] /\
       Config.existsSync fs found = true /\
       forall earlier, In earlier before ->
         Config.existsSync fs (Config.resolve fs [directory; earlier]) = false).
Proof.
  unfold Config.findWranglerConfig.
  pose proof (findAmong_spec fs directory Config.WRANGLER_CONFIG_FILES) as H.
  destruct (Config.findAmong fs directory Config.WRANGLER_CONFIG_FILES) as [found|].
  - split.
    + split; [discriminate|]. intros Hnone.
      destruct H as (before & filename & after & Heq & -> & Hex & _).
      rewrite Hnone in Hex; [discriminate|]. rewrite Heq. apply in_or_app. right. now left.
    + intros ? [= <-]. exact H.
  - split; [tauto|discriminate].
Qed.

Lemma hasLine_step (label line : string) (present : bool) (summary : list string) :
  hasLine label (if present then summary ++ [line] else summary) =
  hasLine label summary || (present && startsWith label line).
Proof.
  unfold hasLine. destruct present; simpl.
  - rewrite existsb_app. simpl. now rewrite orb_false_r.
  - now rewrite orb_false_r.
Qed.

Lemma is_Some_onlyIfAny {A : Type} (f : A -> string * string) (l : list A) :
  is_Some (onlyIfAny (fromEntries (map f l))) <-> Nat.ltb 0 (length l) = true.
Proof.
  destruct (entryFor_fromEntries (map f l)) as [H _]. rewrite H.
  destruct l as [|x l]; simpl; split.
  - intros Hne. now contradiction Hne.
  - discriminate.
  - reflexivity.
  - discriminate.
Qed.



(** ** The class *)

Section ClassFacts.
Context (platform : LocalFlareClass.Platform).

Lemma log_lines_fields (lines : list string) :
  forall st : LocalFlareClass.State platform,
    LocalFlareClass.mf platform
      (fold_left (fun this line => LocalFlareClass.log platform ("   " ++ line) this)
                 lines st) = LocalFlareClass.mf platform st /\
    LocalFlareClass.config platform
      (fold_left (fun this line => LocalFlareClass.log platform ("   " ++ line) this)
                 lines st) = LocalFlareClass.config platform st /\
    LocalFlareClass.bindings platform
      (fold_left (fun this line => LocalFlareClass.log platform ("   " ++ line) this)
                 lines st) = LocalFlareClass.bindings platform st /\
    LocalFlareClass.options platform
      (fold_left (fun this line => LocalFlareClass.log platform ("   " ++ line) this)
                 lines st) = LocalFlareClass.options platform st.
Proof.
  induction lines as [|l lines IH]; intros st; [repeat split|].
  simpl fold_left.
  destruct (IH (LocalFlareClass.log platform ("   " ++ l) st)) as (H1 & H2 & H3 & H4).
  rewrite H1, H2, H3, H4. repeat split.
Qed.

(** Logging touches the console only. *)
Lemma logDiscovered_fields (found : DiscoveredBindings)
    (this : LocalFlareClass.State platform) :
  LocalFlareClass.mf platform (LocalFlareClass.logDiscovered platform found this) =
    LocalFlareClass.mf platform this /\
  LocalFlareClass.config platform (LocalFlareClass.logDiscovered platform found this) =
    LocalFlareClass.config platform this /\
  LocalFlareClass.bindings platform (LocalFlareClass.logDiscovered platform found this) =
    LocalFlareClass.bindings platform this /\
  LocalFlareClass.options platform (LocalFlareClass.logDiscovered platform found this) =
    LocalFlareClass.options platform this.
Proof.
  unfold LocalFlareClass.logDiscovered.
  destruct (verbose _); [|repeat split]. cbn zeta.
  cbn [LocalFlareClass.log LocalFlareClass.mf LocalFlareClass.config
       LocalFlareClass.bindings LocalFlareClass.options].
  destruct (log_lines_fields
              (Config.getBindingSummary (LocalFlareClass.Object_keys platform) found)
              (LocalFlareClass.log platform (String "010" "📦 Discovered bindings:") this))
    as (H1 & H2 & H3 & H4).
  rewrite H1, H2, H3, H4. repeat split.
Qed.

(** [start] of the class settles as [Core.start] does on the host of the
    platform. *)
Lemma class_start_outcome (this : LocalFlareClass.State platform) :
  match start (LocalFlareClass.hostOf platform) (LocalFlareClass.options platform this) with
  | Returned passed =>
      fst (LocalFlareClass.start platform this) = Returned tt /\
      exists instance,
        LocalFlareClass.newMiniflare platform passed = Returned instance /\
        LocalFlareClass.mf platform (snd (LocalFlareClass.start platform this)) =
          Some instance
  | Thrown e => fst (LocalFlareClass.start platform this) = Thrown e
  end.
Proof.
  unfold start, LocalFlareClass.start, await.
  cbn [LocalFlareClass.hostOf resolve dirname parseWranglerConfig esbuild_build
       miniflare_ready].
  unfold await.
  destruct (Config.parseWranglerConfig _ _) as [config|e]; [|reflexivity].
  cbn zeta.
  match goal with
  | |- context [LocalFlareClass.logDiscovered platform ?found ?st] =>
      destruct (logDiscovered_fields found st) as (_ & _ & _ & Hopts);
      set (logged := LocalFlareClass.logDiscovered platform found st) in *
  end.
  rewrite Hopts. cbn [LocalFlareClass.options].
  destruct (LocalFlareClass.esbuild_build platform _) as [[script|]|e];
    [|reflexivity|reflexivity].
  destruct (isEmpty script); [reflexivity|].
  unfold LocalFlareClass.miniflareOptionsFor. cbn zeta.
  destruct (LocalFlareClass.newMiniflare platform _) as [instance|e] eqn:Hnew;
    cbv beta iota; [|reflexivity].
  destruct (LocalFlareClass.mf_ready platform instance) as [url|e];
    cbv beta iota; [|reflexivity].
  split; [reflexivity|]. exists instance. split; [exact Hnew|reflexivity].
Qed.

End ClassFacts.

(** X18.  How [start] of the class settles, and what it leaves behind.  It
    settles as [Core.start] does on the same host.  When it succeeds the
    instance is running: [getMiniflare] is the instance the runtime built
    from the options [Core.start] computes, and [getConfig] and
    [getDiscoveredBindings] are the parsed configuration and its bindings.
    When the configuration file is missing it throws "Wrangler config not
    found at: " followed by the resolved path, and the instance is left
    exactly as it was.  And [start] never turns a running instance into one
    that is not. *)
Theorem X18_start_of_the_class (platform : LocalFlareClass.Platform)
    (this : LocalFlareClass.State platform) :
  let settled := LocalFlareClass.start platform this in
  (forall passed,
     start (LocalFlareClass.hostOf platform) (LocalFlareClass.options platform this)
       = Returned passed ->
     fst settled = Returned tt /\
     LocalFlareClass.isRunning platform (snd settled) = true /\
     (exists instance,
        LocalFlareClass.newMiniflare platform passed = Returned instance /\
        LocalFlareClass.getMiniflare platform (snd settled) = Some instance) /\
     exists config,
       Config.parseWranglerConfig (LocalFlareClass.fs platform)
         (Config.resolve (LocalFlareClass.fs platform)
            [configPath (LocalFlareClass.options platform this)]) = Returned config /\
       LocalFlareClass.getConfig platform (snd settled) = Some config /\
       LocalFlareClass.getDiscoveredBindings platform (snd settled) =
         Some (discoverBindings config)) /\
  (forall e,
     start (LocalFlareClass.hostOf platform) (LocalFlareClass.options platform this)
       = Thrown e ->
     fst settled = Thrown e) /\
  (let fullPath :=
     Config.resolve (LocalFlareClass.fs platform)
       [Config.resolve (LocalFlareClass.fs platform)
          [configPath (LocalFlareClass.options platform this)]] in
   Config.existsSync (LocalFlareClass.fs platform) fullPath = false ->
   settled = (Thrown (mkError ("Wrangler config not found at: " ++ fullPath)), this)) /\
  (LocalFlareClass.isRunning platform this = true ->
   LocalFlareClass.isRunning platform (snd settled) = true).
Proof.
  intros settled. pose proof (class_start_outcome platform this) as Hcore.
  fold settled in Hcore. split; [|split; [|split]].
  - intros passed Hpassed. rewrite Hpassed in Hcore.
    destruct Hcore as (Hok & instance & Hnew & Hmf).
    split; [exact Hok|]. split.
    { unfold LocalFlareClass.isRunning. now rewrite Hmf. }
    split; [exists instance; split; [exact Hnew|exact Hmf]|].
    unfold start, await in Hpassed.
    cbn [LocalFlareClass.hostOf resolve parseWranglerConfig] in Hpassed.
    unfold settled, LocalFlareClass.start in *.
    destruct (Config.parseWranglerConfig _ _) as [config|e]; [|discriminate].
    exists config. split; [reflexivity|]. cbn zeta in *.
    match goal with
    | |- context [LocalFlareClass.logDiscovered platform ?found ?st] =>
        destruct (logDiscovered_fields platform found st) as (_ & Hc & Hb & _);
        set (logged := LocalFlareClass.logDiscovered platform found st) in *
    end.
    destruct (LocalFlareClass.esbuild_build platform _) as [[script|]|e];
      try discriminate.
    destruct (isEmpty script); [discriminate|].
    destruct (LocalFlareClass.newMiniflare platform _) as [instance'|e];
      [|discriminate].
    unfold LocalFlareClass.getConfig, LocalFlareClass.getDiscoveredBindings.
    destruct (LocalFlareClass.mf_ready platform instance') as [url|e];
      [|discriminate].
    cbn [snd LocalFlareClass.log LocalFlareClass.config LocalFlareClass.bindings].
    now rewrite Hc, Hb.
  - intros e He. now rewrite He in Hcore.
  - intros fullPath Hmissing. unfold settled, LocalFlareClass.start.
    unfold Config.parseWranglerConfig. fold fullPath. now rewrite Hmissing.
  - intros Hrun. unfold settled, LocalFlareClass.start, LocalFlareClass.isRunning in *.
    destruct (Config.parseWranglerConfig _ _) as [config|e]; [|exact Hrun].
    cbn zeta.
    match goal with
    | |- context [LocalFlareClass.logDiscovered platform ?found ?st] =>
        destruct (logDiscovered_fields platform found st) as (Hm & _ & _ & _);
        set (logged := LocalFlareClass.logDiscovered platform found st) in *
    end.
    cbn [LocalFlareClass.mf] in Hm.
    destruct (LocalFlareClass.esbuild_build platform _) as [[script|]|e];
      cbn [snd]; try (now rewrite Hm).
    destruct (isEmpty script); cbn [snd]; [now rewrite Hm|].
    destruct (LocalFlareClass.newMiniflare platform _) as [instance|e];
      cbn [snd]; [|now rewrite Hm].
    now destruct (LocalFlareClass.mf_ready platform instance).
Qed.

(** X19.  A start that fails while the runtime gets ready leaves the
    instance running.  [this.mf] is assigned before [await this.mf.ready]:
    when the configuration is parsed, the bundle built and the runtime
    constructed, but [ready] rejects with [e], then [start] rejects with
    [e], yet [isRunning()] is true afterwards and the accessors hand out
    the bindings of the instance that never became ready. *)
Theorem X19_failed_ready_leaves_instance (platform : LocalFlareClass.Platform)
    (this : LocalFlareClass.State platform) (passed : Miniflare.Options)
    (instance : LocalFlareClass.Mf platform) (e : JsError) (bindingName : string) :
  start {| resolve := Config.resolve (LocalFlareClass.fs platform);
           dirname := LocalFlareClass.dirname platform;
           parseWranglerConfig := Config.parseWranglerConfig (LocalFlareClass.fs platform);
           esbuild_build := LocalFlareClass.esbuild_build platform;
           miniflare_ready := fun _ => Returned "" |}
        (LocalFlareClass.options platform this) = Returned passed ->
  LocalFlareClass.newMiniflare platform passed = Returned instance ->
  LocalFlareClass.mf_ready platform instance = Thrown e ->
  let settled := LocalFlareClass.start platform this in
  fst settled = Thrown e /\
  LocalFlareClass.isRunning platform (snd settled) = true /\
  LocalFlareClass.getMiniflare platform (snd settled) = Some instance /\
  LocalFlareClass.getD1Database platform bindingName (snd settled) =
    LocalFlareClass.mf_getD1Database platform instance bindingName.
Proof.
  intros Hpassed Hnew Hready settled.
  unfold start, await in Hpassed. cbn [resolve dirname parseWranglerConfig esbuild_build
                                       miniflare_ready] in Hpassed.
  unfold settled, LocalFlareClass.start.
  destruct (Config.parseWranglerConfig _ _) as [config|e0]; [|discriminate].
  cbn zeta in *.
  match goal with
  | |- context [LocalFlareClass.logDiscovered platform ?found ?st] =>
      destruct (logDiscovered_fields platform found st) as (_ & _ & _ & Hopts);
      set (logged := LocalFlareClass.logDiscovered platform found st) in *
  end.
  rewrite Hopts. cbn [LocalFlareClass.options].
  destruct (LocalFlareClass.esbuild_build platform _) as [[script|]|e0];
    try discriminate.
  destruct (isEmpty script); [discriminate|].
  injection Hpassed as Hpassed. subst passed.
  match goal with
  | |- context [LocalFlareClass.newMiniflare platform ?built] =>
      change (LocalFlareClass.newMiniflare platform built = Returned instance) in Hnew
  end.
  rewrite Hnew, Hready. cbn [fst snd].
  unfold LocalFlareClass.isRunning, LocalFlareClass.getMiniflare,
    LocalFlareClass.getD1Database, LocalFlareClass.whenRunning.
  cbn [LocalFlareClass.mf]. repeat split.
Qed.

Lemma X19_failed_ready_leaves_instance_witness :
  fst (LocalFlareClass.start (demoPlatform false)
         (LocalFlareClass.new (demoPlatform false) noOptions [])) =
    Thrown (mkError "listen EADDRINUSE") /\
  LocalFlareClass.isRunning (demoPlatform false)
    (snd (LocalFlareClass.start (demoPlatform false)
            (LocalFlareClass.new (demoPlatform false) noOptions []))) = true.
Proof.
  destruct (start {| resolve := Config.resolve (LocalFlareClass.fs (demoPlatform false));
                     dirname := LocalFlareClass.dirname (demoPlatform false);
                     parseWranglerConfig :=
                       Config.parseWranglerConfig (LocalFlareClass.fs (demoPlatform false));
                     esbuild_build := LocalFlareClass.esbuild_build (demoPlatform false);
                     miniflare_ready := fun _ => Returned "" |}
                  (LocalFlareClass.options (demoPlatform false)
                     (LocalFlareClass.new (demoPlatform false) noOptions [])))
    as [passed|e0] eqn:Hstart; [|vm_compute in Hstart; discriminate Hstart].
  destruct (X19_failed_ready_leaves_instance (demoPlatform false)
              (LocalFlareClass.new (demoPlatform false) noOptions [])
              passed passed (mkError "listen EADDRINUSE") "DB"
              Hstart eq_refl eq_refl) as (H1 & H2 & _).
  split; [exact H1|exact H2].
Defined.

(** X20.  The accessors need a running instance, and [stop] ends one.  On
    a new instance, and after a [stop] that succeeded, [isRunning()] is
    false and each of the six accessors throws "LocalFlare is not running.
    Call start() first."; a [stop] that succeeded keeps the configuration,
    the bindings and the options, and stopping again does nothing; a [stop]
    whose [dispose] fails leaves the instance as it was. *)
Theorem X20_stop_and_accessors (platform : LocalFlareClass.Platform)
    (this : LocalFlareClass.State platform) (given : LocalFlareClass.PartialOptions)
    (console : list string) (bindingName : string) :
  let stopped := LocalFlareClass.stop platform this in
  let idle (s : LocalFlareClass.State platform) :=
    LocalFlareClass.isRunning platform s = false /\
    LocalFlareClass.getD1Database platform bindingName s =
      Thrown LocalFlareClass.notRunning /\
    LocalFlareClass.getKVNamespace platform bindingName s =
      Thrown LocalFlareClass.notRunning /\
    LocalFlareClass.getR2Bucket platform bindingName s =
      Thrown LocalFlareClass.notRunning /\
    LocalFlareClass.getDurableObjectNamespace platform bindingName s =
      Thrown LocalFlareClass.notRunning /\
    LocalFlareClass.getQueueProducer platform bindingName s =
      Thrown LocalFlareClass.notRunning /\
    LocalFlareClass.getAllBindings platform s = Thrown LocalFlareClass.notRunning in
  idle (LocalFlareClass.new platform given console) /\
  (fst stopped = Returned tt ->
   idle (snd stopped) /\
   LocalFlareClass.getConfig platform (snd stopped) =
     LocalFlareClass.getConfig platform this /\
   LocalFlareClass.getDiscoveredBindings platform (snd stopped) =
     LocalFlareClass.getDiscoveredBindings platform this /\
   LocalFlareClass.getOptions platform (snd stopped) =
     LocalFlareClass.getOptions platform this /\
   LocalFlareClass.stop platform (snd stopped) = (Returned tt, snd stopped)) /\
  (forall e, fst stopped = Thrown e -> snd stopped = this).
Proof.
  intros stopped idle.
  assert (Hidle : forall s, LocalFlareClass.mf platform s = None -> idle s).
  { intros s Hs. unfold idle, LocalFlareClass.isRunning, LocalFlareClass.getD1Database,
      LocalFlareClass.getKVNamespace, LocalFlareClass.getR2Bucket,
      LocalFlareClass.getDurableObjectNamespace, LocalFlareClass.getQueueProducer,
      LocalFlareClass.getAllBindings, LocalFlareClass.whenRunning.
    rewrite Hs. repeat split. }
  split; [now apply Hidle|].
  unfold stopped, LocalFlareClass.stop.
  destruct (LocalFlareClass.mf platform this) as [instance|] eqn:Hmf.
  - destruct (LocalFlareClass.mf_dispose platform instance) as [[]|e0]; cbn [fst snd].
    + split; [|discriminate]. intros _. split; [now apply Hidle|]. repeat split.
    + split; [discriminate|]. reflexivity.
  - cbn [fst snd]. split; [|discriminate]. intros _.
    split; [now apply Hidle|]. rewrite Hmf. repeat split.
Qed.

(* ===================================================================== *)
(** * Code units *)
(* ===================================================================== *)

(** ** The decoder, sequence by sequence *)

Lemma codeUnits_ascii (b0 : ascii) (s1 : string) :
  (byte b0 <? 128)%Z = true -> codeUnits (String b0 s1) = byte b0 :: codeUnits s1.
Proof. intros H. simpl. now rewrite H. Qed.

Lemma codeUnits_two (b0 b1 : ascii) (s2 : string) (u : Z) :
  (byte b0 <? 128)%Z = false -> decode2 b0 b1 = Some u ->
  codeUnits (String b0 (String b1 s2)) = u :: codeUnits s2.
Proof. intros H0 H2. simpl. now rewrite H0, H2. Qed.

Lemma codeUnits_three (b0 b1 b2 : ascii) (s3 : string) (u : Z) :
  (byte b0 <? 128)%Z = false -> decode2 b0 b1 = None -> decode3 b0 b1 b2 = Some u ->
  codeUnits (String b0 (String b1 (String b2 s3))) = u :: codeUnits s3.
Proof. intros H0 H2 H3. cbn [codeUnits]. now rewrite H0, H2, H3. Qed.

Lemma codeUnits_four (b0 b1 b2 b3 : ascii) (s4 : string) (cp : Z) :
  (byte b0 <? 128)%Z = false -> decode2 b0 b1 = None -> decode3 b0 b1 b2 = None ->
  decode4 b0 b1 b2 b3 = Some cp ->
  codeUnits (String b0 (String b1 (String b2 (String b3 s4)))) =
  (55296 + (cp - 65536) / 1024) :: (56320 + (cp - 65536) mod 1024) :: codeUnits s4.
Proof. intros H0 H2 H3 H4. cbn [codeUnits]. now rewrite H0, H2, H3, H4. Qed.

(** A byte from 128 on that starts no sequence gives U+FFFD, and the
    decoder goes on behind it. *)
Lemma codeUnits_alone (b0 : ascii) :
  (byte b0 <? 128)%Z = false -> codeUnits (String b0 EmptyString) = [REPLACEMENT].
Proof. intros H0. simpl. now rewrite H0. Qed.

Lemma codeUnits_bad2 (b0 b1 : ascii) :
  (byte b0 <? 128)%Z = false -> decode2 b0 b1 = None ->
  codeUnits (String b0 (String b1 EmptyString)) =
  REPLACEMENT :: codeUnits (String b1 EmptyString).
Proof. intros H0 H2. cbn [codeUnits]. now rewrite H0, H2. Qed.

Lemma codeUnits_bad3 (b0 b1 b2 : ascii) :
  (byte b0 <? 128)%Z = false -> decode2 b0 b1 = None -> decode3 b0 b1 b2 = None ->
  codeUnits (String b0 (String b1 (String b2 EmptyString))) =
  REPLACEMENT :: codeUnits (String b1 (String b2 EmptyString)).
Proof. intros H0 H2 H3. cbn [codeUnits]. now rewrite H0, H2, H3. Qed.

Lemma codeUnits_bad4 (b0 b1 b2 b3 : ascii) (s4 : string) :
  (byte b0 <? 128)%Z = false -> decode2 b0 b1 = None -> decode3 b0 b1 b2 = None ->
  decode4 b0 b1 b2 b3 = None ->
  codeUnits (String b0 (String b1 (String b2 (String b3 s4)))) =
  REPLACEMENT :: codeUnits (String b1 (String b2 (String b3 s4))).
Proof. intros H0 H2 H3 H4. cbn [codeUnits]. now rewrite H0, H2, H3, H4. Qed.

(** A sequence goes on with continuation bytes only. *)
Lemma decode2_continued (b0 b1 : ascii) :
  isContinuation b1 = false -> decode2 b0 b1 = None.
Proof. intros H. unfold decode2. now rewrite H, andb_false_r. Qed.

Lemma decode3_continued (b0 b1 b2 : ascii) :
  isContinuation b1 = false \/ isContinuation b2 = false -> decode3 b0 b1 b2 = None.
Proof.
  intros [H|H]; unfold decode3; rewrite H, ?andb_false_r; reflexivity.
Qed.

Lemma decode4_continued (b0 b1 b2 b3 : ascii) :
  isContinuation b1 = false \/ isContinuation b2 = false \/ isContinuation b3 = false ->
  decode4 b0 b1 b2 b3 = None.
Proof.
  intros [H|[H|H]]; unfold decode4; rewrite H, ?andb_false_r; reflexivity.
Qed.

(** A lead byte before a byte that continues nothing stands alone. *)
Lemma codeUnits_lead1 (b0 c : ascii) (t : string) :
  (byte b0 <? 128)%Z = false -> isContinuation c = false ->
  codeUnits (String b0 (String c t)) = REPLACEMENT :: codeUnits (String c t).
Proof.
  intros H0 Hc. pose proof (decode2_continued b0 c Hc) as H2.
  destruct t as [|b2 [|b3 s4]].
  - now apply codeUnits_bad2.
  - apply codeUnits_bad3; auto using decode3_continued.
  - apply codeUnits_bad4; auto using decode3_continued, decode4_continued.
Qed.

Lemma codeUnits_lead2 (b0 b1 c : ascii) (t : string) :
  (byte b0 <? 128)%Z = false -> decode2 b0 b1 = None -> isContinuation c = false ->
  codeUnits (String b0 (String b1 (String c t))) =
  REPLACEMENT :: codeUnits (String b1 (String c t)).
Proof.
  intros H0 H2 Hc. destruct t as [|b3 s4].
  - apply codeUnits_bad3; auto using decode3_continued.
  - apply codeUnits_bad4; auto using decode3_continued, decode4_continued.
Qed.

Lemma codeUnits_lead3 (b0 b1 b2 c : ascii) (t : string) :
  (byte b0 <? 128)%Z = false -> decode2 b0 b1 = None -> decode3 b0 b1 b2 = None ->
  isContinuation c = false ->
  codeUnits (String b0 (String b1 (String b2 (String c t)))) =
  REPLACEMENT :: codeUnits (String b1 (String b2 (String c t))).
Proof.
  intros H0 H2 H3 Hc. apply codeUnits_bad4; auto using decode4_continued.
Qed.

(** ** Concatenation

    The code units of [a ++ b] are those of [a] followed by those of [b]
    when [b] starts with a byte that continues no sequence. *)
Lemma codeUnits_app (c : ascii) (t : string) :
  isContinuation c = false ->
  forall a, codeUnits (a ++ String c t) = codeUnits a ++ codeUnits (String c t).
Proof.
  intros Hc a. remember (String.length a) as n eqn:Hn.
  assert (Hle : (String.length a <= n)%nat) by lia. clear Hn.
  revert a Hle. induction n as [|n IH]; intros a Hle.
  { destruct a; [reflexivity|simpl in Hle; lia]. }
  destruct a as [|b0 a1]; [reflexivity|]. simpl in Hle.
  change (String b0 a1 ++ String c t)%string with (String b0 (a1 ++ String c t)).
  destruct (byte b0 <? 128)%Z eqn:H0.
  { rewrite !(codeUnits_ascii b0) by exact H0. rewrite IH by lia. reflexivity. }
  destruct a1 as [|b1 a2].
  { change (EmptyString ++ String c t)%string with (String c t).
    now rewrite codeUnits_lead1, codeUnits_alone. }
  simpl in Hle.
  change (String b1 a2 ++ String c t)%string with (String b1 (a2 ++ String c t)).
  destruct (decode2 b0 b1) as [u|] eqn:H2.
  { rewrite !(codeUnits_two b0 b1 _ u) by assumption. rewrite IH by lia. reflexivity. }
  destruct a2 as [|b2 a3].
  { change (EmptyString ++ String c t)%string with (String c t).
    rewrite codeUnits_lead2, codeUnits_bad2 by assumption.
    change (String b1 (String c t)) with (String b1 EmptyString ++ String c t)%string.
    rewrite IH by (simpl; lia). reflexivity. }
  simpl in Hle.
  change (String b2 a3 ++ String c t)%string with (String b2 (a3 ++ String c t)).
  destruct (decode3 b0 b1 b2) as [u|] eqn:H3.
  { rewrite !(codeUnits_three b0 b1 b2 _ u) by assumption. rewrite IH by lia.
    reflexivity. }
  destruct a3 as [|b3 a4].
  { change (EmptyString ++ String c t)%string with (String c t).
    rewrite codeUnits_lead3, codeUnits_bad3 by assumption.
    change (String b1 (String b2 (String c t)))
      with (String b1 (String b2 EmptyString) ++ String c t)%string.
    rewrite IH by (simpl; lia). reflexivity. }
  simpl in Hle.
  change (String b3 a4 ++ String c t)%string with (String b3 (a4 ++ String c t)).
  destruct (decode4 b0 b1 b2 b3) as [cp|] eqn:H4.
  { rewrite !(codeUnits_four b0 b1 b2 b3 _ cp) by assumption. rewrite IH by lia.
    reflexivity. }
  rewrite !codeUnits_bad4 by assumption.
  change (String b1 (String b2 (String b3 (a4 ++ String c t))))
    with (String b1 (String b2 (String b3 a4)) ++ String c t)%string.
  rewrite IH by (simpl; lia). reflexivity.
Qed.

(** ** What a sequence gives *)

Lemma decode2_ge (b0 b1 : ascii) (u : Z) : decode2 b0 b1 = Some u -> 128 <= u.
Proof.
  unfold decode2, isContinuation.
  destruct (Z.leb_spec 194 (byte b0)); [|discriminate].
  destruct (Z.ltb_spec (byte b0) 224); [|discriminate].
  destruct (Z.leb_spec 128 (byte b1)); [|discriminate].
  destruct (Z.ltb_spec (byte b1) 192); [|discriminate].
  simpl. intros [= <-]. lia.
Qed.

Lemma decode3_ge (b0 b1 b2 : ascii) (u : Z) : decode3 b0 b1 b2 = Some u -> 128 <= u.
Proof.
  unfold decode3.
  destruct ((224 <=? byte b0)%Z && (byte b0 <? 240)%Z && isContinuation b1
            && isContinuation b2); [|discriminate].
  cbn zeta.
  destruct (Z.leb_spec 2048 ((byte b0 - 224) * 4096 + (byte b1 - 128) * 64
                             + (byte b2 - 128))); [|discriminate].
  destruct (negb _); [|discriminate]. simpl. intros [= <-]. lia.
Qed.

Lemma decode4_ge (b0 b1 b2 b3 : ascii) (cp : Z) :
  decode4 b0 b1 b2 b3 = Some cp -> 65536 <= cp.
Proof.
  unfold decode4.
  destruct ((240 <=? byte b0)%Z && (byte b0 <? 245)%Z && isContinuation b1
            && isContinuation b2 && isContinuation b3); [|discriminate].
  cbn zeta.
  destruct (Z.leb_spec 65536 ((byte b0 - 240) * 262144 + (byte b1 - 128) * 4096
                              + (byte b2 - 128) * 64 + (byte b3 - 128)));
    [|discriminate].
  destruct (_ <? 1114112)%Z; [|discriminate]. simpl. intros [= <-]. lia.
Qed.

(** What the decoder reads first off a string that starts with a byte
    from 128 on: one or two code units, none below 128, and it goes on
    behind the bytes read. *)
Lemma codeUnits_first (b0 : ascii) (s1 : string) :
  (byte b0 <? 128)%Z = false ->
  exists chunk rest ws,
    String b0 s1 = (chunk ++ rest)%string /\
    (String.length rest < String.length (String b0 s1))%nat /\
    codeUnits (String b0 s1) = ws ++ codeUnits rest /\
    ws <> [] /\ Forall (fun w => 128 <= w) ws.
Proof.
  intros H0.
  assert (Hbad : forall s, s = s1 ->
            codeUnits (String b0 s1) = REPLACEMENT :: codeUnits s1 ->
            exists chunk rest ws,
              String b0 s1 = (chunk ++ rest)%string /\
              (String.length rest < String.length (String b0 s1))%nat /\
              codeUnits (String b0 s1) = ws ++ codeUnits rest /\
              ws <> [] /\ Forall (fun w => 128 <= w) ws).
  { intros s _ Heq. exists (String b0 EmptyString), s1, [REPLACEMENT].
    split; [reflexivity|]. split; [simpl; lia|]. split; [exact Heq|].
    split; [discriminate|]. constructor; [unfold REPLACEMENT; lia|constructor]. }
  destruct s1 as [|b1 s2].
  { apply (Hbad EmptyString eq_refl). now apply codeUnits_alone. }
  destruct (decode2 b0 b1) as [u|] eqn:H2.
  { exists (String b0 (String b1 EmptyString)), s2, [u].
    split; [reflexivity|]. split; [simpl; lia|].
    split; [now apply codeUnits_two|]. split; [discriminate|].
    constructor; [now apply (decode2_ge b0 b1)|constructor]. }
  destruct s2 as [|b2 s3].
  { apply (Hbad _ eq_refl). now apply codeUnits_bad2. }
  destruct (decode3 b0 b1 b2) as [u|] eqn:H3.
  { exists (String b0 (String b1 (String b2 EmptyString))), s3, [u].
    split; [reflexivity|]. split; [simpl; lia|].
    split; [now apply codeUnits_three|]. split; [discriminate|].
    constructor; [now apply (decode3_ge b0 b1 b2)|constructor]. }
  destruct s3 as [|b3 s4].
  { apply (Hbad _ eq_refl). now apply codeUnits_bad3. }
  destruct (decode4 b0 b1 b2 b3) as [cp|] eqn:H4.
  { exists (String b0 (String b1 (String b2 (String b3 EmptyString)))), s4,
      [55296 + (cp - 65536) / 1024; 56320 + (cp - 65536) mod 1024].
    split; [reflexivity|]. split; [simpl; lia|].
    split; [now apply codeUnits_four|]. split; [discriminate|].
    apply decode4_ge in H4.
    pose proof (Z.div_pos (cp - 65536) 1024 ltac:(lia) ltac:(lia)).
    pose proof (Z.mod_pos_bound (cp - 65536) 1024 ltac:(lia)).
    repeat constructor; lia. }
  apply (Hbad _ eq_refl). now apply codeUnits_bad4.
Qed.

Lemma units_prefix (ws us1 us2 rest : list Z) (u : Z) :
  ws ++ rest = us1 ++ u :: us2 ->
  Forall (fun w => 128 <= w) ws -> u < 128 ->
  exists us1', us1 = ws ++ us1' /\ rest = us1' ++ u :: us2.
Proof.
  revert us1. induction ws as [|w ws IH]; intros us1 Heq Hws Hu.
  - exists us1. split; [reflexivity|exact Heq].
  - inversion Hws as [|? ? Hw Hws']; subst.
    destruct us1 as [|x us1]; simpl in Heq.
    + injection Heq as -> _. lia.
    + injection Heq as -> Heq. destruct (IH us1 Heq Hws' Hu) as (us1' & -> & Hrest).
      exists us1'. split; [reflexivity|exact Hrest].
Qed.

Lemma isContinuation_ascii (c : ascii) : byte c < 128 -> isContinuation c = false.
Proof.
  intros H. unfold isContinuation.
  destruct (Z.leb_spec 128 (byte c)); [lia|reflexivity].
Qed.

(** ** Splitting at an ASCII character

    A code unit below 128 is a byte of the string: the string splits
    there, and the code units with it. *)
Lemma codeUnits_split (l : string) :
  forall us1 u us2,
    codeUnits l = us1 ++ u :: us2 -> u < 128 ->
    exists p c t,
      l = (p ++ String c t)%string /\ byte c = u /\
      codeUnits p = us1 /\ codeUnits t = us2.
Proof.
  remember (String.length l) as n eqn:Hn.
  assert (Hle : (String.length l <= n)%nat) by lia. clear Hn.
  revert l Hle. induction n as [|n IH]; intros l Hle us1 u us2 Heq Hu.
  { destruct l; [destruct us1; discriminate|simpl in Hle; lia]. }
  destruct l as [|b0 s1]; [destruct us1; discriminate|]. simpl in Hle.
  destruct (byte b0 <? 128)%Z eqn:H0.
  - rewrite codeUnits_ascii in Heq by exact H0.
    destruct us1 as [|x us1]; simpl in Heq.
    + injection Heq as <- <-. exists EmptyString, b0, s1. auto.
    + injection Heq as <- Heq.
      destruct (IH s1 ltac:(lia) us1 u us2 Heq Hu) as (p & c & t & -> & Hc & Hp & Ht).
      exists (String b0 p), c, t. split; [reflexivity|]. split; [exact Hc|].
      split; [|exact Ht]. rewrite codeUnits_ascii by exact H0. now rewrite Hp.
  - destruct (codeUnits_first b0 s1 H0) as (chunk & rest & ws & Hl & Hlen & Hc & Hne & Hws).
    rewrite Hc in Heq.
    destruct (units_prefix ws us1 us2 _ u Heq Hws Hu) as (us1' & -> & Hrest).
    simpl in Hlen.
    destruct (IH rest ltac:(lia) us1' u us2 Hrest Hu) as (p & c & t & -> & Hbyte & Hp & Ht).
    exists (chunk ++ p)%string, c, t.
    split; [rewrite Hl; now rewrite string_app_assoc|]. split; [exact Hbyte|].
    split; [|exact Ht].
    assert (Hcont : isContinuation c = false) by (apply isContinuation_ascii; lia).
    rewrite Hl in Hc. rewrite <- string_app_assoc in Hc.
    rewrite !(codeUnits_app c t Hcont) in Hc.
    rewrite app_assoc in Hc. apply app_inv_tail in Hc. now rewrite Hc, Hp.
Qed.

(** ** Strings of ASCII characters *)

Lemma isAscii_codeUnits (s : string) :
  isAscii s = true <-> Forall (fun u => u < 128) (codeUnits s).
Proof.
  induction s as [|c s IH].
  - split; [constructor|reflexivity].
  - destruct (byte c <? 128)%Z eqn:H0.
    + rewrite codeUnits_ascii by exact H0. cbn [isAscii]. rewrite H0. cbn [andb].
      rewrite IH. split.
      * intros H. constructor; [now apply Z.ltb_lt|exact H].
      * intros H. now inversion H.
    + cbn [isAscii]. rewrite H0. cbn [andb]. split; [discriminate|].
      destruct (codeUnits_first c s H0) as (chunk & rest & ws & _ & _ & -> & Hne & Hws).
      intros H. destruct ws as [|w ws]; [congruence|].
      inversion H; subst. inversion Hws; subst. lia.
Qed.

Lemma isAscii_app (a b : string) : isAscii (a ++ b) = isAscii a && isAscii b.
Proof.
  induction a as [|c a IH]; [reflexivity|].
  change (String c a ++ b)%string with (String c (a ++ b)). cbn [isAscii].
  now rewrite IH, andb_assoc.
Qed.

Lemma codeUnits_ascii_app (a b : string) :
  isAscii a = true -> codeUnits (a ++ b) = codeUnits a ++ codeUnits b.
Proof.
  induction a as [|c a IH]; [reflexivity|]. cbn [isAscii]. intros H.
  apply andb_true_iff in H. destruct H as [Hc Ha].
  change (String c a ++ b)%string with (String c (a ++ b)).
  rewrite !codeUnits_ascii by exact Hc. now rewrite IH.
Qed.

Lemma byte_inj (a b : ascii) : byte a = byte b -> a = b.
Proof.
  unfold byte. intros H. apply Nat2Z.inj in H.
  rewrite <- (ascii_nat_embedding a), <- (ascii_nat_embedding b). now rewrite H.
Qed.

Lemma codeUnits_inj_ascii (a b : string) :
  isAscii a = true -> isAscii b = true -> codeUnits a = codeUnits b -> a = b.
Proof.
  revert b. induction a as [|c a IH]; intros [|d b] Ha Hb Heq.
  - reflexivity.
  - cbn [isAscii] in Hb. apply andb_true_iff in Hb. destruct Hb as [Hd _].
    rewrite codeUnits_ascii in Heq by exact Hd. discriminate.
  - cbn [isAscii] in Ha. apply andb_true_iff in Ha. destruct Ha as [Hc _].
    rewrite codeUnits_ascii in Heq by exact Hc. discriminate.
  - cbn [isAscii] in Ha, Hb. apply andb_true_iff in Ha, Hb.
    destruct Ha as [Hc Ha], Hb as [Hd Hb].
    rewrite !codeUnits_ascii in Heq by assumption. injection Heq as Hcd Heq.
    apply byte_inj in Hcd. subst d. f_equal. now apply IH.
Qed.

Lemma byte_upperChar (c : ascii) : byte (upperChar c) = upperUnit (byte c).
Proof. destruct c as [[] [] [] [] [] [] [] []]; reflexivity. Qed.

Lemma codeUnits_asciiUpperCase (s : string) :
  isAscii s = true ->
  codeUnits (asciiUpperCase s) = map upperUnit (codeUnits s).
Proof.
  unfold asciiUpperCase. induction s as [|c s IH]; [reflexivity|].
  cbn [isAscii mapChars]. intros H. apply andb_true_iff in H. destruct H as [Hc Hs].
  rewrite !codeUnits_ascii by (rewrite ?upperChar_ascii; exact Hc).
  cbn [map]. now rewrite byte_upperChar, IH.
Qed.

(* ===================================================================== *)
(** * Regular expressions: the matcher is right *)
(* ===================================================================== *)

Import RegexSpec.

Lemma nullable_Matches (r : Regex) : nullable r = true <-> Matches r [].
Proof.
  split.
  - induction r as [| |c| |members|r1 IH1 r2 IH2|r1 IH1 r2 IH2|r IH]; simpl;
      try discriminate.
    + intros _. constructor.
    + intros H. apply andb_true_iff in H. destruct H as [H1 H2].
      change (@nil Z) with (@nil Z ++ []). constructor; auto.
    + intros H. apply orb_true_iff in H. destruct H as [H|H];
        [apply Matches_Alt_l|apply Matches_Alt_r]; auto.
    + intros _. constructor.
  - induction r as [| |c| |members|r1 IH1 r2 IH2|r1 IH1 r2 IH2|r IH]; intros H;
      inversion H; subst; simpl; auto.
    + match goal with Heq : _ ++ _ = [] |- _ =>
        apply app_eq_nil in Heq; destruct Heq as [-> ->] end.
      rewrite IH1, IH2 by assumption. reflexivity.
    + rewrite IH1 by assumption. reflexivity.
    + rewrite IH2 by assumption. apply orb_true_r.
Qed.

(** A non-empty match of a starred pattern starts with a non-empty match
    of the pattern. *)
Lemma Matches_Star_cons (r : Regex) (d : Z) (us : list Z) :
  Matches (Star r) (d :: us) ->
  exists us1 us2, us = us1 ++ us2 /\ Matches r (d :: us1) /\ Matches (Star r) us2.
Proof.
  intros H. remember (Star r) as r' eqn:Hr. remember (d :: us) as t eqn:Ht.
  revert us Ht. induction H as [| | | | | | | |r0 us1 us2 H1 _ H2 IH2]; intros rest Ht;
    try discriminate.
  injection Hr as ->. destruct us1 as [|c us1].
  - simpl in Ht. subst us2. now apply IH2.
  - simpl in Ht. injection Ht as -> <-. exists us1, us2. auto.
Qed.

Lemma deriv_Matches (r : Regex) :
  forall d us, Matches (deriv d r) us <-> Matches r (d :: us).
Proof.
  induction r as [| |c| |members|r1 IH1 r2 IH2|r1 IH1 r2 IH2|r IH]; intros d us; simpl.
  - split; intros H; inversion H.
  - split; intros H; inversion H.
  - destruct (chrMatches c d) eqn:E; split; intros H; inversion H; subst.
    + now constructor.
    + constructor.
    + congruence.
  - destruct (isLineTerminator d) eqn:E; split; intros H; inversion H; subst.
    + congruence.
    + now constructor.
    + constructor.
  - destruct (members d) eqn:E; split; intros H; inversion H; subst.
    + now constructor.
    + constructor.
    + congruence.
  - assert (Hseq : Matches (Seq (deriv d r1) r2) us -> Matches (Seq r1 r2) (d :: us)).
    { intros H. inversion H; subst.
      change (d :: us1 ++ us2) with ((d :: us1) ++ us2).
      constructor; [now apply IH1|assumption]. }
    assert (Hback : Matches (Seq r1 r2) (d :: us) ->
                    Matches (Seq (deriv d r1) r2) us \/
                    (Matches r1 [] /\ Matches (deriv d r2) us)).
    { intros H. inversion H as [| | | |? ? us1 us2 H1 H2| | | |]; subst.
      match goal with Heq : us1 ++ us2 = d :: us |- _ =>
        destruct us1 as [|c us1]; simpl in Heq;
        [ subst us2; right; split; [exact H1|now apply IH2]
        | injection Heq as -> <-; left; constructor; [now apply IH1|exact H2] ]
      end. }
    destruct (nullable r1) eqn:E.
    + split.
      * intros H. inversion H; subst; [now apply Hseq|].
        change (d :: us) with ([] ++ d :: us).
        constructor; [now apply nullable_Matches|now apply IH2].
      * intros H. destruct (Hback H) as [H1|[_ H2]];
          [now apply Matches_Alt_l|now apply Matches_Alt_r].
    + split; [exact Hseq|]. intros H. destruct (Hback H) as [H1|[H1 _]]; [exact H1|].
      apply nullable_Matches in H1. congruence.
  - split; intros H; inversion H; subst.
    + apply Matches_Alt_l. now apply IH1.
    + apply Matches_Alt_r. now apply IH2.
    + apply Matches_Alt_l. now apply IH1.
    + apply Matches_Alt_r. now apply IH2.
  - split.
    + intros H. inversion H; subst.
      change (d :: us1 ++ us2) with ((d :: us1) ++ us2).
      constructor; [now apply IH|assumption].
    + intros H. apply Matches_Star_cons in H. destruct H as (us1 & us2 & -> & H1 & H2).
      constructor; [now apply IH|exact H2].
Qed.

Lemma testUnits_Matches (us : list Z) : forall r, testUnits r us = true <-> Matches r us.
Proof.
  induction us as [|d us IH]; intros r; simpl.
  - apply nullable_Matches.
  - rewrite IH. apply deriv_Matches.
Qed.

(** [test] decides [Matches] on the code units of the string. *)
Lemma test_Matches (r : Regex) (s : string) :
  test r s = true <-> Matches r (codeUnits s).
Proof. apply testUnits_Matches. Qed.

(** ** Patterns of literal characters *)

Lemma string_app_nil_r (s : string) : (s ++ "")%string = s.
Proof.
  induction s as [|c s IH]; [reflexivity|].
  change (String c (s ++ "") = String c s)%string. now rewrite IH.
Qed.

Lemma mapChars_app (f : ascii -> ascii) (a b : string) :
  mapChars f (a ++ b) = (mapChars f a ++ mapChars f b)%string.
Proof.
  induction a as [|c a IH]; [reflexivity|].
  change (String (f c) (mapChars f (a ++ b)) =
          String (f c) (mapChars f a ++ mapChars f b))%string.
  now rewrite IH.
Qed.

Lemma upperUnit_lt (u : Z) : u < 128 -> upperUnit u < 128.
Proof.
  intros H. unfold upperUnit. destruct ((97 <=? u) && (u <=? 122))%Z; lia.
Qed.

Lemma reads_isAscii (us : list Z) (w : string) : reads us w -> isAscii w = true.
Proof.
  intros [Hlt Heq]. apply isAscii_codeUnits. rewrite <- Heq.
  apply List.Forall_forall. intros x Hx. apply in_map_iff in Hx.
  destruct Hx as (u & <- & Hu). apply upperUnit_lt.
  rewrite List.Forall_forall in Hlt. now apply Hlt.
Qed.

Lemma reads_app (us1 us2 : list Z) (w1 w2 : string) :
  reads us1 w1 -> reads us2 w2 -> reads (us1 ++ us2) (w1 ++ w2).
Proof.
  intros H1 H2. pose proof (reads_isAscii _ _ H1) as Hascii.
  destruct H1 as [Hlt1 Heq1], H2 as [Hlt2 Heq2]. split.
  - apply Forall_app. now split.
  - rewrite map_app, Heq1, Heq2. symmetry. now apply codeUnits_ascii_app.
Qed.

Lemma reads_split (us : list Z) (a b : string) :
  reads us (a ++ b) ->
  exists us1 us2, us = us1 ++ us2 /\ reads us1 a /\ reads us2 b.
Proof.
  intros H. pose proof (reads_isAscii _ _ H) as Hascii.
  rewrite isAscii_app in Hascii. apply andb_true_iff in Hascii.
  destruct Hascii as [Ha Hb]. destruct H as [Hlt Heq].
  rewrite codeUnits_ascii_app in Heq by exact Ha.
  apply map_eq_app in Heq. destruct Heq as (us1 & us2 & -> & H1 & H2).
  apply Forall_app in Hlt. destruct Hlt as [Hlt1 Hlt2].
  exists us1, us2. split; [reflexivity|]. split; split; assumption.
Qed.

(** A pattern of literal characters matches the words of its language
    only, case apart, and all of them. *)
Lemma language_sound (r : Regex) (us : list Z) :
  Matches r us -> forall L, language r = Some L -> exists w, In w L /\ reads us w.
Proof.
  intros H. induction H as [|c u Hc|u Hu|members u Hu|r1 r2 us1 us2 H1 IH1 H2 IH2
                           |r1 r2 us H1 IH1|r1 r2 us H2 IH2|r|r us1 us2 H1 IH1 H2 IH2];
    intros L HL; simpl in HL; try discriminate.
  - injection HL as <-. exists EmptyString. split; [now left|].
    split; [constructor|reflexivity].
  - injection HL as <-. exists (String (upperChar c) EmptyString). split; [now left|].
    unfold chrMatches in Hc. apply andb_true_iff in Hc. destruct Hc as [Hlt Heq].
    apply Z.ltb_lt in Hlt. apply Z.eqb_eq in Heq.
    split; [now repeat constructor|].
    rewrite codeUnits_ascii.
    + simpl. now rewrite byte_upperChar, Heq.
    + apply Z.ltb_lt. rewrite byte_upperChar, <- Heq. now apply upperUnit_lt.
  - destruct (language r1) as [l1|]; [|discriminate].
    destruct (language r2) as [l2|]; [|discriminate]. injection HL as <-.
    destruct (IH1 l1 eq_refl) as (w1 & Hw1 & Hr1).
    destruct (IH2 l2 eq_refl) as (w2 & Hw2 & Hr2).
    exists (w1 ++ w2)%string. split; [|now apply reads_app].
    unfold concatAll. apply in_flat_map. exists w1. split; [exact Hw1|].
    now apply in_map.
  - destruct (language r1) as [l1|]; [|discriminate].
    destruct (language r2) as [l2|]; [|discriminate]. injection HL as <-.
    destruct (IH1 l1 eq_refl) as (w & Hw & Hr). exists w.
    split; [apply in_or_app; now left|exact Hr].
  - destruct (language r1) as [l1|]; [|discriminate].
    destruct (language r2) as [l2|]; [|discriminate]. injection HL as <-.
    destruct (IH2 l2 eq_refl) as (w & Hw & Hr). exists w.
    split; [apply in_or_app; now right|exact Hr].
Qed.

Lemma language_complete (r : Regex) :
  forall L w us, language r = Some L -> In w L -> reads us w -> Matches r us.
Proof.
  induction r as [| |c| |members|r1 IH1 r2 IH2|r1 IH1 r2 IH2|r IH];
    intros L w us HL Hw Hr; simpl in HL; try discriminate.
  - injection HL as <-. contradiction.
  - injection HL as <-. destruct Hw as [<-|[]]. destruct Hr as [_ Heq].
    destruct us; [constructor|discriminate].
  - injection HL as <-. destruct Hw as [<-|[]].
    pose proof (reads_isAscii _ _ Hr) as Hascii. cbn [isAscii] in Hascii.
    rewrite andb_true_r in Hascii. destruct Hr as [Hlt Heq].
    rewrite codeUnits_ascii in Heq by exact Hascii.
    destruct us as [|u [|u' us]]; try discriminate.
    injection Heq as Heq. inversion Hlt; subst. constructor.
    unfold chrMatches. apply andb_true_iff. split; [now apply Z.ltb_lt|].
    apply Z.eqb_eq. now rewrite Heq, byte_upperChar.
  - destruct (language r1) as [l1|] eqn:E1; [|discriminate].
    destruct (language r2) as [l2|] eqn:E2; [|discriminate]. injection HL as <-.
    unfold concatAll in Hw. apply in_flat_map in Hw. destruct Hw as (a & Ha & Hw).
    apply in_map_iff in Hw. destruct Hw as (b & <- & Hb).
    apply reads_split in Hr. destruct Hr as (us1 & us2 & -> & Hr1 & Hr2).
    constructor; eauto.
  - destruct (language r1) as [l1|] eqn:E1; [|discriminate].
    destruct (language r2) as [l2|] eqn:E2; [|discriminate]. injection HL as <-.
    apply in_app_or in Hw. destruct Hw as [Hw|Hw];
      [apply Matches_Alt_l|apply Matches_Alt_r]; eauto.
Qed.

(** What such a pattern accepts, in terms of strings. *)
Lemma test_language (r : Regex) (L : list string) (l : string) :
  language r = Some L -> forallb isAscii L = true ->
  (test r l = true <-> In (asciiUpperCase l) L).
Proof.
  intros HL Hascii. rewrite test_Matches. rewrite forallb_forall in Hascii. split.
  - intros H. destruct (language_sound _ _ H _ HL) as (w & Hw & Hr).
    pose proof (reads_isAscii _ _ Hr) as Hwa. destruct Hr as [Hlt Heq].
    apply isAscii_codeUnits in Hlt.
    rewrite <- (codeUnits_asciiUpperCase l Hlt) in Heq.
    apply codeUnits_inj_ascii in Heq; [now rewrite Heq| |exact Hwa].
    now rewrite isAscii_asciiUpperCase.
  - intros Hin. pose proof (Hascii _ Hin) as Hl. rewrite isAscii_asciiUpperCase in Hl.
    apply (language_complete r L (asciiUpperCase l)); [exact HL|exact Hin|].
    split; [now apply isAscii_codeUnits|]. symmetry. now apply codeUnits_asciiUpperCase.
Qed.

(** The same for a list of lower-case names. *)
Lemma test_names (r : Regex) (names : list string) (l : string) :
  language r = Some (map asciiUpperCase names) ->
  forallb isAscii names = true ->
  forallb (fun w => String.eqb (asciiLowerCase w) w) names = true ->
  (test r l = true <-> In (asciiLowerCase l) names).
Proof.
  intros HL Hascii Hlower.
  rewrite forallb_forall in Hascii, Hlower.
  rewrite (test_language r _ l HL).
  - rewrite in_map_iff. split.
    + intros (w & Heq & Hw). apply (f_equal asciiLowerCase) in Heq.
      rewrite !asciiLowerCase_asciiUpperCase in Heq. rewrite <- Heq.
      specialize (Hlower w Hw). apply String.eqb_eq in Hlower. now rewrite Hlower.
    + intros Hin. exists (asciiLowerCase l). split; [|exact Hin].
      apply asciiUpperCase_asciiLowerCase.
  - apply forallb_forall. intros w Hw. apply in_map_iff in Hw.
    destruct Hw as (w0 & <- & Hw0). rewrite isAscii_asciiUpperCase. now apply Hascii.
Qed.

Lemma language_lit (w : string) : language (lit w) = Some [asciiUpperCase w].
Proof.
  induction w as [|c w IH]; [reflexivity|]. simpl. now rewrite IH.
Qed.

Lemma Matches_Star_Dot (us : list Z) :
  Matches (Star Dot) us <-> forallb (fun u => negb (isLineTerminator u)) us = true.
Proof.
  split.
  - intros H. remember (Star Dot) as r eqn:Hr.
    induction H as [| | | | | | | |r0 us1 us2 H1 _ H2 IH2]; try discriminate;
      [reflexivity|].
    injection Hr as ->. inversion H1; subst. cbn [app forallb].
    match goal with Hd : isLineTerminator _ = false |- _ => rewrite Hd end.
    simpl. now apply IH2.
  - induction us as [|u us IH]; simpl; intros H; [constructor|].
    apply andb_true_iff in H. destruct H as [Hu Hus]. apply negb_true_iff in Hu.
    change (u :: us) with ([u] ++ us).
    constructor; [now constructor|now apply IH].
Qed.

(** What [/^.*suffix$/i] matches, for a lower-case suffix that is not
    empty: the strings that end in it, case apart, after a prefix that
    holds no line terminator. *)
Lemma test_any_then (suffix l : string) :
  isAscii suffix = true -> asciiLowerCase suffix = suffix -> suffix <> EmptyString ->
  (test (Seq (Star Dot) (lit suffix)) l = true <->
   exists prefix ending,
     l = (prefix ++ ending)%string /\ asciiLowerCase ending = suffix /\
     onOneLine prefix = true).
Proof.
  intros Hascii Hlower Hne.
  assert (Hlit : forall x, test (lit suffix) x = true <-> asciiLowerCase x = suffix).
  { intros x. rewrite (test_names (lit suffix) [suffix] x).
    - simpl. split; [intros [H|[]]; now symmetry|intros H; now left].
    - now rewrite language_lit.
    - simpl. now rewrite Hascii.
    - simpl. rewrite Hlower. now rewrite String.eqb_refl. }
  rewrite test_Matches. split.
  - intros H. inversion H as [| | | |? ? us1 us2 H1 H2| | | |]; subst.
    destruct (language_sound _ _ H2 _ (language_lit suffix)) as (w & [<-|[]] & Hr).
    destruct us2 as [|u us2].
    { destruct Hr as [_ Heq]. destruct suffix; [congruence|].
      cbn [isAscii] in Hascii. apply andb_true_iff in Hascii.
      unfold asciiUpperCase in Heq. cbn [mapChars] in Heq.
      rewrite codeUnits_ascii in Heq by (rewrite upperChar_ascii; tauto).
      discriminate. }
    assert (Hu : u < 128) by (destruct Hr as [Hlt _]; now inversion Hlt).
    match goal with Heq : us1 ++ u :: us2 = codeUnits l |- _ =>
      symmetry in Heq;
      destruct (codeUnits_split l us1 u us2 Heq Hu) as (p & c & t & -> & Hc & Hp & Ht)
    end.
    exists p, (String c t). split; [reflexivity|]. split.
    + apply Hlit. apply test_Matches.
      rewrite codeUnits_ascii by (apply Z.ltb_lt; lia). now rewrite Hc, Ht.
    + unfold onOneLine. rewrite Hp. now apply Matches_Star_Dot.
  - intros (prefix & ending & -> & Hend & Hline).
    apply Hlit, test_Matches in Hend.
    destruct ending as [|c t].
    { apply nullable_Matches in Hend. destruct suffix; [congruence|discriminate]. }
    assert (Hc : (byte c <? 128)%Z = true).
    { destruct (language_sound _ _ Hend _ (language_lit suffix)) as (w & _ & Hlt & _).
      destruct (byte c <? 128)%Z eqn:E; [reflexivity|].
      destruct (codeUnits_first c t E) as (chunk & rest & ws & _ & _ & Heq & Hws & Hge).
      rewrite Heq in Hlt. destruct ws as [|w0 ws]; [congruence|].
      inversion Hlt; subst. inversion Hge; subst. lia. }
    rewrite codeUnits_app by (apply isContinuation_ascii; now apply Z.ltb_lt).
    constructor; [now apply Matches_Star_Dot|exact Hend].
Qed.

(** ** The names that count as times and dates *)

Lemma existsb_two {A : Type} (f : A -> bool) (a b : A) :
  existsb f [a; b] = f a || f b.
Proof. simpl. now rewrite orb_false_r. Qed.

Lemma time_names (l : string) :
  existsb (fun pattern => test pattern l) TIME_ONLY_PATTERNS = true <->
  In (asciiLowerCase l) ["start_time"; "starttime"; "end_time"; "endtime"; "time"].
Proof.
  pose proof (test_names (nth 0 TIME_ONLY_PATTERNS Never)
                ["start_time"; "starttime"; "end_time"; "endtime"] l
                eq_refl eq_refl eq_refl) as H1.
  pose proof (test_names (nth 1 TIME_ONLY_PATTERNS Never) ["time"] l
                eq_refl eq_refl eq_refl) as H2.
  cbv [nth TIME_ONLY_PATTERNS] in H1, H2.
  unfold TIME_ONLY_PATTERNS. rewrite existsb_two, orb_true_iff, H1, H2.
  change ["start_time"; "starttime"; "end_time"; "endtime"; "time"]
    with (["start_time"; "starttime"; "end_time"; "endtime"] ++ ["time"]).
  now rewrite in_app_iff.
Qed.

Lemma date_names (l : string) :
  existsb (fun pattern => test pattern l) DATE_ONLY_PATTERNS = true <->
  In (asciiLowerCase l)
     ["birth_date"; "birthdate"; "event_date"; "eventdate"; "start_date";
      "startdate"; "end_date"; "enddate"; "due_date"; "duedate"; "date"] \/
  exists prefix ending,
    l = (prefix ++ ending)%string /\ asciiLowerCase ending = "_date" /\
    onOneLine prefix = true.
Proof.
  pose proof (test_names (nth 0 DATE_ONLY_PATTERNS Never)
                ["birth_date"; "birthdate"; "event_date"; "eventdate"; "start_date";
                 "startdate"; "end_date"; "enddate"; "due_date"; "duedate"] l
                eq_refl eq_refl eq_refl) as H1.
  pose proof (test_names (nth 1 DATE_ONLY_PATTERNS Never) ["date"] l
                eq_refl eq_refl eq_refl) as H2.
  pose proof (test_any_then "_date" l eq_refl eq_refl ltac:(discriminate)) as H3.
  cbv [nth DATE_ONLY_PATTERNS] in H1, H2.
  unfold DATE_ONLY_PATTERNS. cbn [existsb]. rewrite orb_false_r.
  rewrite !orb_true_iff, H1, H2, H3.
  change ["birth_date"; "birthdate"; "event_date"; "eventdate"; "start_date";
          "startdate"; "end_date"; "enddate"; "due_date"; "duedate"; "date"]
    with (["birth_date"; "birthdate"; "event_date"; "eventdate"; "start_date";
           "startdate"; "end_date"; "enddate"; "due_date"; "duedate"] ++ ["date"]).
  rewrite in_app_iff. tauto.
Qed.

(** X21.  The column names that count as times and as dates.  The
    generator tests the lower-case form that the engine gives the name,
    and its patterns are blind to the case of the letters A to Z.  It
    takes a name for a time exactly when that form, its capitals lowered,
    is one of [start_time], [starttime], [end_time], [endtime], [time];
    and for a date exactly when it is [date] or one of [birth], [event],
    [start], [end], [due] followed by [date] or [_date], or the form ends
    in [_date], case apart, after a prefix that holds no line terminator
    (LF, CR, U+2028, U+2029). *)
Theorem X21_time_and_date_names (E : Engine) (name : string) :
  let lowerName := toLowerCase E name in
  (matchesDateTimePattern E name = Some time <->
   In (asciiLowerCase lowerName)
      ["start_time"; "starttime"; "end_time"; "endtime"; "time"]) /\
  (matchesDateTimePattern E name = Some date <->
   In (asciiLowerCase lowerName)
      ["birth_date"; "birthdate"; "event_date"; "eventdate"; "start_date";
       "startdate"; "end_date"; "enddate"; "due_date"; "duedate"; "date"] \/
   exists prefix ending,
     lowerName = (prefix ++ ending)%string /\ asciiLowerCase ending = "_date" /\
     onOneLine prefix = true).
Proof.
  intros lowerName. unfold matchesDateTimePattern. fold lowerName. cbn zeta.
  pose proof (time_names lowerName) as Htime.
  pose proof (date_names lowerName) as Hdate.
  assert (Hapart :
            In (asciiLowerCase lowerName)
               ["birth_date"; "birthdate"; "event_date"; "eventdate";
                "start_date"; "startdate"; "end_date"; "enddate";
                "due_date"; "duedate"; "date"] \/
            (exists prefix ending,
               lowerName = (prefix ++ ending)%string /\
               asciiLowerCase ending = "_date" /\ onOneLine prefix = true) ->
            ~ In (asciiLowerCase lowerName)
                 ["start_time"; "starttime"; "end_time"; "endtime"; "time"]).
  { intros Hd Ht.
    assert (He : endsWith "date" (asciiLowerCase lowerName) = true).
    { destruct Hd as [Hd|(prefix & ending & -> & Hend & _)].
      - simpl in Hd. repeat (destruct Hd as [<-|Hd]; [reflexivity|]). contradiction.
      - unfold asciiLowerCase in *. rewrite mapChars_app, Hend.
        change (mapChars lowerChar prefix ++ "_date")%string
          with (mapChars lowerChar prefix ++ "_" ++ "date")%string.
        rewrite <- string_app_assoc. apply endsWith_app. }
    simpl in Ht. repeat (destruct Ht as [Heq|Ht]; [rewrite <- Heq in He; discriminate He|]).
    contradiction. }
  destruct (existsb (fun pattern => test pattern lowerName) TIME_ONLY_PATTERNS) eqn:Et.
  - split.
    + split; [intros _; now apply Htime|reflexivity].
    + split; [discriminate|]. intros Hd. exfalso. apply (Hapart Hd). now apply Htime.
  - assert (Hnot : ~ In (asciiLowerCase lowerName)
                        ["start_time"; "starttime"; "end_time"; "endtime"; "time"]).
    { intros H. apply Htime in H. discriminate. }
    destruct (existsb (fun pattern => test pattern lowerName) DATE_ONLY_PATTERNS) eqn:Ed.
    + split; [split; [discriminate|contradiction]|].
      split; [intros _; now apply Hdate|reflexivity].
    + assert (Hnod : ~ (In (asciiLowerCase lowerName)
                           ["birth_date"; "birthdate"; "event_date"; "eventdate";
                            "start_date"; "startdate"; "end_date"; "enddate";
                            "due_date"; "duedate"; "date"] \/
                        exists prefix ending,
                          lowerName = (prefix ++ ending)%string /\
                          asciiLowerCase ending = "_date" /\
                          onOneLine prefix = true)).
      { intros H. apply Hdate in H. discriminate. }
      destruct (existsb (fun pattern => test pattern lowerName) DATE_TIME_PATTERNS);
        (split; (split; [discriminate|contradiction])).
Qed.

(* ===================================================================== *)
(** * The analytics queries *)
(* ===================================================================== *)

Import Analytics SqlSpec.

Lemma string_app_cons (c : ascii) (a b : string) :
  (String c a ++ b)%string = String c (a ++ b).
Proof. reflexivity. Qed.

Lemma includes_cons (p : string) (c : ascii) (s : string) :
  includes p (String c s) = startsWith p (String c s) || includes p s.
Proof. reflexivity. Qed.

Lemma startsWith_app (p s : string) : startsWith p (p ++ s) = true.
Proof.
  induction p as [|c p IH]; [reflexivity|].
  rewrite string_app_cons. simpl. now rewrite Ascii.eqb_refl, IH.
Qed.

Lemma drop_app (p s : string) : drop (String.length p) (p ++ s) = s.
Proof. induction p as [|c p IH]; [now destruct s|]. rewrite string_app_cons. exact IH. Qed.

(** A replacement without a dollar sign stands for itself. *)
Lemma expand_plain (replacement matched before after : string) :
  includes "$" replacement = false ->
  expand replacement matched before after = replacement.
Proof.
  induction replacement as [|c r IH]; [reflexivity|].
  rewrite includes_cons. intros H. apply orb_false_iff in H. destruct H as [Hc Hr].
  cbn [startsWith] in Hc. rewrite andb_true_r in Hc.
  assert (Hne : c <> "$"%char) by (intros ->; discriminate).
  specialize (IH Hr).
  destruct c as [[] [] [] [] [] [] [] []]; try congruence; cbn [expand]; now rewrite IH.
Qed.

(** Where the pattern does not occur, nothing is replaced. *)
Lemma replaceFrom_absent (pattern replacement : string) (s : string) :
  forall before, includes pattern s = false ->
  replaceFrom pattern replacement before 0 s = s.
Proof.
  induction s as [|c s IH]; intros before H; [reflexivity|].
  rewrite includes_cons in H. apply orb_false_iff in H. destruct H as [H1 H2].
  cbn [replaceFrom]. rewrite H1. now rewrite IH.
Qed.

(** Text in which the first character of the pattern does not occur is
    passed unchanged. *)
Lemma replaceFrom_pass (c0 : ascii) (pattern replacement : string) (pre : string) :
  forall before t,
    includes (String c0 EmptyString) pre = false ->
    replaceFrom (String c0 pattern) replacement before 0 (pre ++ t) =
    (pre ++ replaceFrom (String c0 pattern) replacement (before ++ pre) 0 t)%string.
Proof.
  induction pre as [|c pre IH]; intros before t H.
  - now rewrite string_app_nil_r.
  - rewrite includes_cons in H. apply orb_false_iff in H. destruct H as [H1 H2].
    cbn [startsWith] in H1. rewrite andb_true_r in H1.
    rewrite !string_app_cons. cbn [replaceFrom startsWith]. rewrite H1. cbn [andb].
    rewrite IH by exact H2. f_equal. f_equal.
    now rewrite string_app_assoc.
Qed.

(** The characters of an occurrence are skipped. *)
Lemma replaceFrom_skip (pattern replacement : string) (a : string) :
  forall before t,
    replaceFrom pattern replacement before (String.length a) (a ++ t) =
    replaceFrom pattern replacement (before ++ a) 0 t.
Proof.
  induction a as [|c a IH]; intros before t.
  - change (EmptyString ++ t)%string with t. rewrite string_app_nil_r.
    destruct t; reflexivity.
  - rewrite string_app_cons. cbn [String.length replaceFrom]. rewrite IH.
    now rewrite string_app_assoc.
Qed.

(** One occurrence, after text free of the pattern's first character and
    before text free of the pattern. *)
Lemma replaceAll_once (c0 : ascii) (pattern replacement pre post : string) :
  includes (String c0 EmptyString) pre = false ->
  includes (String c0 pattern) post = false ->
  replaceAll (String c0 pattern) replacement (pre ++ String c0 pattern ++ post) =
  (pre ++ expand replacement (String c0 pattern) pre post ++ post)%string.
Proof.
  intros Hpre Hpost. unfold replaceAll. rewrite replaceFrom_pass by exact Hpre.
  f_equal. change (EmptyString ++ pre)%string with pre.
  rewrite string_app_cons. cbn [replaceFrom].
  change (String c0 (pattern ++ post)) with (String c0 pattern ++ post)%string.
  rewrite startsWith_app, drop_app. f_equal.
  replace (String.length (String c0 pattern) - 1)%nat with (String.length pattern)
    by (simpl; lia).
  rewrite replaceFrom_skip.
  now apply replaceFrom_absent.
Qed.

Lemma doubleQuotes_plain (value : string) :
  includes "$" value = false -> includes "$" (doubleQuotes value) = false.
Proof.
  induction value as [|c v IH]; [reflexivity|].
  rewrite includes_cons. intros H. apply orb_false_iff in H. destruct H as [Hc Hv].
  specialize (IH Hv).
  destruct c as [[] [] [] [] [] [] [] []]; try discriminate Hc;
    cbn [doubleQuotes]; rewrite ?includes_cons, IH; reflexivity.
Qed.

Lemma includes_app_plain (a b : string) :
  includes "$" a = false -> includes "$" b = false -> includes "$" (a ++ b) = false.
Proof.
  intros Ha Hb. induction a as [|c a IH]; [exact Hb|].
  rewrite string_app_cons, includes_cons in *.
  apply orb_false_iff in Ha. destruct Ha as [Hc Ha].
  cbn [startsWith] in *. rewrite Hc. now apply IH.
Qed.

(** A value between quotes, its own quotes doubled, reads back as the
    value. *)
Lemma readQuoted_doubleQuotes (value rest : string) :
  startsWith "'" rest = false ->
  readQuoted (doubleQuotes value ++ "'" ++ rest) = Some (value, rest).
Proof.
  intros Hrest. induction value as [|c v IH].
  - change (doubleQuotes EmptyString ++ "'" ++ rest)%string with (String "'" rest).
    destruct rest as [|d rest]; [reflexivity|].
    cbn [startsWith] in Hrest. rewrite andb_true_r in Hrest.
    destruct d as [[] [] [] [] [] [] [] []]; try discriminate Hrest; reflexivity.
  - destruct (Ascii.eqb_spec c "'"%char) as [->|Hc].
    + change (doubleQuotes (String "'" v) ++ "'" ++ rest)%string
        with (String "'" (String "'" (doubleQuotes v ++ "'" ++ rest))).
      cbn [readQuoted]. now rewrite IH.
    + assert (Hd : (doubleQuotes (String c v) ++ "'" ++ rest)%string =
                   String c (doubleQuotes v ++ "'" ++ rest)).
      { destruct c as [[] [] [] [] [] [] [] []]; try congruence; reflexivity. }
      rewrite Hd.
      assert (Hr : readQuoted (String c (doubleQuotes v ++ "'" ++ rest)) =
                   match readQuoted (doubleQuotes v ++ "'" ++ rest) with
                   | Some (value0, after) => Some (String c value0, after)
                   | None => None
                   end).
      { destruct c as [[] [] [] [] [] [] [] []]; try congruence; reflexivity. }
      rewrite Hr, IH. reflexivity.
Qed.

(** X22.  A string parameter is inserted as one SQL string literal that
    denotes it.  For a value that is no interval and holds no dollar sign,
    and a query with one placeholder [{{key}}] (after text without "{",
    before text that holds no placeholder and does not start with a single
    quote): [substituteParams] puts in the place of the placeholder the
    value between single quotes, its own quotes doubled; read back as a
    string literal, that text gives the value, and what follows it is the
    rest of the query. *)
Theorem X22_string_parameter_is_one_literal (key value pre post : string) :
  let placeholder := ("{{" ++ key ++ "}}")%string in
  test INTERVAL_PATTERN value = false ->
  includes "$" value = false ->
  includes "{" pre = false ->
  includes placeholder post = false ->
  startsWith "'" post = false ->
  exists literal,
    substituteParams (pre ++ placeholder ++ post) (Some [(key, StringValue value)]) =
      (pre ++ literal ++ post)%string /\
    literal = ("'" ++ doubleQuotes value ++ "'")%string /\
    readLiteral (literal ++ post) = Some (value, post).
Proof.
  intros placeholder Hint Hplain Hpre Hpost Hquote.
  exists ("'" ++ doubleQuotes value ++ "'")%string. split; [|split; [reflexivity|]].
  - unfold substituteParams, substituteParam. cbn [fold_left].
    unfold escapedValue. rewrite Hint. cbn zeta. fold placeholder.
    change placeholder with (String "{" (String "{" (key ++ "}}"))) in *.
    rewrite (replaceAll_once "{" (String "{" (key ++ "}}")) _ pre post Hpre Hpost).
    rewrite expand_plain; [reflexivity|].
    change ("'" ++ doubleQuotes value ++ "'")%string
      with (String "'" (doubleQuotes value ++ "'")).
    rewrite includes_cons. cbn [startsWith Ascii.eqb Bool.eqb andb orb].
    apply includes_app_plain; [now apply doubleQuotes_plain|reflexivity].
  - change (("'" ++ doubleQuotes value ++ "'") ++ post)%string
      with (String "'" ((doubleQuotes value ++ "'") ++ post)).
    cbn [readLiteral]. rewrite string_app_assoc.
    now apply readQuoted_doubleQuotes.
Qed.

Lemma X22_string_parameter_is_one_literal_witness :
  exists literal,
    substituteParams "SELECT * FROM t WHERE a = {{who}} LIMIT 5"
                     (Some [("who", StringValue "O'Brien")]) =
      ("SELECT * FROM t WHERE a = " ++ literal ++ " LIMIT 5")%string /\
    literal = ("'" ++ doubleQuotes "O'Brien" ++ "'")%string /\
    readLiteral (literal ++ " LIMIT 5") = Some ("O'Brien", " LIMIT 5").
Proof.
  exact (X22_string_parameter_is_one_literal "who" "O'Brien"
           "SELECT * FROM t WHERE a = " " LIMIT 5"
           eq_refl eq_refl eq_refl eq_refl eq_refl).
Defined.

(** The replacement text is not taken literally: in a value, [$'] stands
    for the rest of the query, which is then inserted a second time. *)
Example dollar_sign_in_a_value :
  substituteParams "a = {{x}} AND b" (Some [("x", StringValue "$'")]) =
  "a = ' AND b'' AND b".
Proof. reflexivity. Qed.

(** ** Interval values *)

Lemma codeUnits_nil (s : string) : codeUnits s = [] -> s = EmptyString.
Proof.
  destruct s as [|c s]; [reflexivity|]. intros H. exfalso.
  destruct (byte c <? 128)%Z eqn:E.
  - rewrite codeUnits_ascii in H by exact E. discriminate.
  - destruct (codeUnits_first c s E) as (chunk & rest & ws & _ & _ & Heq & Hws & _).
    rewrite H in Heq. symmetry in Heq. apply app_eq_nil in Heq. tauto.
Qed.

Lemma Matches_Seq_inv (r1 r2 : Regex) (us : list Z) :
  Matches (Seq r1 r2) us <->
  exists us1 us2, us = us1 ++ us2 /\ Matches r1 us1 /\ Matches r2 us2.
Proof.
  split.
  - intros H. inversion H; subst. eauto.
  - intros (us1 & us2 & -> & H1 & H2). now constructor.
Qed.

Lemma Matches_Class_inv (p : Z -> bool) (us : list Z) :
  Matches (Class p) us <-> exists u, us = [u] /\ p u = true.
Proof.
  split.
  - intros H. inversion H; subst. eauto.
  - intros (u & -> & Hu). now constructor.
Qed.

Lemma Matches_Star_Class (p : Z -> bool) (us : list Z) :
  Matches (Star (Class p)) us <-> forallb p us = true.
Proof.
  split.
  - intros H. remember (Star (Class p)) as r eqn:Hr.
    induction H as [| | | | | | | |r0 us1 us2 H1 _ H2 IH2]; try discriminate;
      [reflexivity|].
    injection Hr as ->. apply Matches_Class_inv in H1. destruct H1 as (u & -> & Hu).
    cbn [app forallb]. rewrite Hu. now apply IH2.
  - induction us as [|u us IH]; simpl; intros H; [constructor|].
    apply andb_true_iff in H. destruct H as [Hu Hus].
    change (u :: us) with ([u] ++ us).
    constructor; [now constructor|now apply IH].
Qed.

Lemma Matches_plus_Class (p : Z -> bool) (us : list Z) :
  Matches (plus (Class p)) us <-> us <> [] /\ forallb p us = true.
Proof.
  unfold plus. rewrite Matches_Seq_inv. split.
  - intros (us1 & us2 & -> & H1 & H2).
    apply Matches_Class_inv in H1. destruct H1 as (u & -> & Hu).
    apply Matches_Star_Class in H2.
    split; [discriminate|]. cbn [app forallb]. now rewrite Hu, H2.
  - intros [Hne H]. destruct us as [|u us]; [congruence|]. simpl in H.
    apply andb_true_iff in H. destruct H as [Hu Hus].
    exists [u], us. split; [reflexivity|]. split.
    + now constructor.
    + now apply Matches_Star_Class.
Qed.

Lemma Matches_quote (us : list Z) : Matches (lit "'") us <-> us = [39].
Proof.
  cbn [lit]. rewrite Matches_Seq_inv. split.
  - intros (us1 & us2 & -> & H1 & H2). inversion H2; subst.
    inversion H1 as [|c u Hc| | | | | | |]; subst.
    unfold chrMatches in Hc. apply andb_true_iff in Hc. destruct Hc as [_ Hc].
    apply Z.eqb_eq in Hc. change (upperUnit (byte "'")) with 39 in Hc.
    unfold upperUnit in Hc.
    destruct ((97 <=? u) && (u <=? 122))%Z eqn:E.
    + apply andb_true_iff in E. destruct E as [E1 E2]. apply Z.leb_le in E1. lia.
    + now subst.
  - intros ->. exists [39], []. split; [reflexivity|].
    split; constructor. reflexivity.
Qed.

(** The units of an interval. *)
Lemma Matches_unit (unit : string) :
  Matches (oneOf ["SECOND"; "MINUTE"; "HOUR"; "DAY"; "WEEK"; "MONTH"; "YEAR"])
          (codeUnits unit) <->
  In (asciiUpperCase unit) ["SECOND"; "MINUTE"; "HOUR"; "DAY"; "WEEK"; "MONTH"; "YEAR"].
Proof.
  rewrite <- test_Matches. now apply test_language.
Qed.

Lemma doubleQuotes_length (v : string) :
  (String.length v <= String.length (doubleQuotes v ++ "'"))%nat.
Proof.
  induction v as [|c v IH]; [simpl; lia|].
  destruct (Ascii.eqb_spec c "'"%char) as [->|Hc].
  - change (doubleQuotes (String "'" v) ++ "'")%string
      with (String "'" (String "'" (doubleQuotes v ++ "'"))).
    cbn [String.length]. lia.
  - assert (Hd : (doubleQuotes (String c v) ++ "'")%string =
                 String c (doubleQuotes v ++ "'")).
    { destruct c as [[] [] [] [] [] [] [] []]; try congruence; reflexivity. }
    rewrite Hd. cbn [String.length]. lia.
Qed.

(** X23.  The only strings inserted without quoting are intervals of one
    shape.  A string value is taken as it stands exactly when it is a
    single quote, one or more decimal digits, a single quote, one or more
    white-space characters (those of Unicode: [\s]), and one of the units
    SECOND, MINUTE, HOUR, DAY, WEEK, MONTH, YEAR in any case of its ASCII
    letters; so the two quotes it holds enclose digits only. *)
Theorem X23_interval_values (value : string) :
  (test INTERVAL_PATTERN value = true <->
   exists digits spaces unit,
     value = ("'" ++ digits ++ "'" ++ spaces ++ unit)%string /\
     digits <> EmptyString /\ allUnits isDigit digits = true /\
     spaces <> EmptyString /\ allUnits isWhiteSpace spaces = true /\
     In (asciiUpperCase unit) ["SECOND"; "MINUTE"; "HOUR"; "DAY"; "WEEK"; "MONTH"; "YEAR"]) /\
  (escapedValue (StringValue value) = value <->
   test INTERVAL_PATTERN value = true).
Proof.
  split.
  - rewrite test_Matches. unfold INTERVAL_PATTERN, digit, space, allUnits.
    rewrite Matches_Seq_inv. split.
    + intros (q1 & r1 & Hvalue & Hq1 & H).
      apply Matches_quote in Hq1. subst q1.
      apply Matches_Seq_inv in H. destruct H as (ds & r2 & -> & Hd & H).
      apply Matches_plus_Class in Hd. destruct Hd as [Hd1 Hd2].
      apply Matches_Seq_inv in H. destruct H as (q2 & r3 & -> & Hq2 & H).
      apply Matches_quote in Hq2. subst q2.
      apply Matches_Seq_inv in H. destruct H as (ss & uu & -> & Hs & Hu).
      apply Matches_plus_Class in Hs. destruct Hs as [Hs1 Hs2].
      destruct uu as [|u0 uu].
      { apply nullable_Matches in Hu. discriminate Hu. }
      assert (Hu0 : u0 < 128).
      { destruct (language_sound _ _ Hu _ eq_refl) as (w & _ & Hlt & _).
        now inversion Hlt. }
      destruct (codeUnits_split value [] 39 (ds ++ [39] ++ ss ++ u0 :: uu) Hvalue)
        as (p & c1 & t1 & -> & Hc1 & Hp & Ht1); [lia|].
      apply codeUnits_nil in Hp. subst p.
      change 39 with (byte "'"%char) in Hc1. apply byte_inj in Hc1. subst c1.
      destruct (codeUnits_split t1 ds 39 (ss ++ u0 :: uu) Ht1)
        as (digits & c2 & t2 & -> & Hc2 & Hdigits & Ht2); [lia|].
      change 39 with (byte "'"%char) in Hc2. apply byte_inj in Hc2. subst c2.
      destruct (codeUnits_split t2 ss u0 uu Ht2 Hu0)
        as (spaces & c3 & t3 & -> & Hc3 & Hspaces & Ht3).
      exists digits, spaces, (String c3 t3). split; [reflexivity|].
      rewrite Hdigits, Hspaces.
      split; [intros ->; now apply Hd1|]. split; [exact Hd2|].
      split; [intros ->; now apply Hs1|]. split; [exact Hs2|].
      apply Matches_unit.
      rewrite codeUnits_ascii by (apply Z.ltb_lt; lia). now rewrite Hc3, Ht3.
    + intros (digits & spaces & unit & -> & Hd1 & Hd2 & Hs1 & Hs2 & Hu).
      assert (Hascii : isAscii unit = true).
      { rewrite <- isAscii_asciiUpperCase. simpl in Hu.
        repeat (destruct Hu as [<-|Hu]; [reflexivity|]). contradiction. }
      apply Matches_unit in Hu.
      destruct unit as [|c3 t3].
      { apply nullable_Matches in Hu. discriminate Hu. }
      cbn [isAscii] in Hascii. apply andb_true_iff in Hascii.
      destruct Hascii as [Hc3 _]. apply Z.ltb_lt in Hc3.
      exists [39], (codeUnits digits ++ [39] ++ codeUnits spaces ++ codeUnits (String c3 t3)).
      split.
      { change ("'" ++ digits ++ "'" ++ spaces ++ String c3 t3)%string
          with (String "'" (digits ++ String "'" (spaces ++ String c3 t3))).
        rewrite codeUnits_ascii by reflexivity.
        rewrite codeUnits_app by reflexivity.
        rewrite codeUnits_ascii by reflexivity.
        rewrite codeUnits_app by now apply isContinuation_ascii.
        reflexivity. }
      split; [now apply Matches_quote|].
      apply Matches_Seq_inv. eexists _, _. split; [reflexivity|].
      split.
      { apply Matches_plus_Class. split; [|exact Hd2].
        intros H. apply codeUnits_nil in H. contradiction. }
      apply Matches_Seq_inv. eexists _, _. split; [reflexivity|].
      split; [now apply Matches_quote|].
      apply Matches_Seq_inv. eexists _, _. split; [reflexivity|].
      split; [|exact Hu].
      apply Matches_plus_Class. split; [|exact Hs2].
      intros H. apply codeUnits_nil in H. contradiction.
  - unfold escapedValue. cbn zeta.
    destruct (test INTERVAL_PATTERN value); [tauto|].
    split; [|discriminate]. intros H. exfalso.
    apply (f_equal String.length) in H.
    change ("'" ++ doubleQuotes value ++ "'")%string
      with (String "'" (doubleQuotes value ++ "'")) in H.
    cbn [String.length] in H.
    pose proof (doubleQuotes_length value). lia.
Qed.

(** White space that is no ASCII character: an interval written with an
    ideographic space (U+3000) is taken as it stands. *)
Example interval_with_ideographic_space :
  let value := String "'" (String "7" (String "'"
                 (String (ascii_of_nat 227) (String (ascii_of_nat 128)
                   (String (ascii_of_nat 128) "day"))))) in
  escapedValue (StringValue value) = value.
Proof. reflexivity. Qed.

(* ===================================================================== *)
(** * The dashboard worker *)
(* ===================================================================== *)

Import AnalyticsWorker WorkerSpec.

Lemma startsWith_inv (p s : string) :
  startsWith p s = true -> exists rest, s = (p ++ rest)%string.
Proof.
  revert s. induction p as [|c p IH]; intros s H.
  - now exists s.
  - destruct s as [|d s]; [discriminate|]. simpl in H.
    apply andb_true_iff in H. destruct H as [Hc Hp].
    apply Ascii.eqb_eq in Hc. subst d.
    destruct (IH _ Hp) as [rest ->]. now exists rest.
Qed.

Lemma endsWith_inv (p s : string) :
  endsWith p s = true -> exists front, s = (front ++ p)%string.
Proof.
  induction s as [|c s IH]; intros H.
  - simpl in H. rewrite orb_false_r in H. apply String.eqb_eq in H. subst p.
    now exists EmptyString.
  - cbn [endsWith] in H. apply orb_true_iff in H. destruct H as [H|H].
    + apply String.eqb_eq in H. subst p. now exists EmptyString.
    + destruct (IH H) as [front ->]. now exists (String c front).
Qed.

Lemma string_length_app (a b : string) :
  String.length (a ++ b) = (String.length a + String.length b)%nat.
Proof.
  induction a as [|c a IH]; [reflexivity|].
  rewrite string_app_cons. simpl. now rewrite IH.
Qed.

Lemma onOneLine_app (a : string) (c : ascii) (t : string) :
  isContinuation c = false ->
  onOneLine (a ++ String c t) = onOneLine a && onOneLine (String c t).
Proof.
  intros Hc. unfold onOneLine. rewrite codeUnits_app by exact Hc.
  apply forallb_app.
Qed.

(** The schema route, read as the pattern reads it. *)
Lemma matchesSchemaRoute_spec (path : string) :
  matchesSchemaRoute path = true <->
  exists dataset,
    path = ("/datasets/" ++ dataset ++ "/schema")%string /\
    dataset <> EmptyString /\ onOneLine dataset = true.
Proof.
  unfold matchesSchemaRoute. split.
  - intros H. apply andb_true_iff in H. destruct H as [Hstart H].
    apply andb_true_iff in H. destruct H as [H Hline].
    apply andb_true_iff in H. destruct H as [Hend Hlen].
    destruct (startsWith_inv _ _ Hstart) as [rest ->].
    change 10%nat with (String.length "/datasets/") in *.
    rewrite drop_app in *.
    destruct (endsWith_inv _ _ Hend) as [dataset ->].
    exists dataset. split; [reflexivity|]. split.
    + intros ->. simpl in Hlen. discriminate.
    + rewrite onOneLine_app in Hline by reflexivity.
      now apply andb_true_iff in Hline.
  - intros (dataset & -> & Hne & Hline).
    rewrite startsWith_app. change 10%nat with (String.length "/datasets/").
    rewrite drop_app, endsWith_app, onOneLine_app, Hline by reflexivity.
    rewrite string_length_app. destruct dataset as [|c dataset]; [congruence|].
    cbn [andb String.length]. rewrite andb_true_r. apply Nat.ltb_lt. simpl. lia.
Qed.

(** The third part of a schema path is the dataset up to its first slash. *)
Lemma thirdPart_schema (dataset : string) :
  thirdPart ("/datasets/" ++ dataset ++ "/schema") = hd EmptyString (split "/" dataset).
Proof.
  unfold thirdPart.
  change ("/datasets/" ++ dataset ++ "/schema")%string
    with (String "/" ("datasets" ++ String "/" (dataset ++ String "/" "schema")))%string.
  change (split "/" (String "/" ?s)) with (EmptyString :: split "/" s).
  rewrite 2 split_app_sep.
  change (split "/" "datasets") with ["datasets"].
  change (split "/" "schema") with ["schema"].
  simpl. destruct (split "/" dataset) as [|part parts] eqn:E; [|reflexivity].
  now apply split_nonempty in E.
Qed.

Lemma jsonResponse_allows (data : Json) (status : Z) :
  allowsAnyOrigin (jsonResponse data status ∅).
Proof.
  unfold allowsAnyOrigin, jsonResponse. cbn [headers].
  rewrite (left_id_L ∅ (∪)). repeat split; reflexivity.
Qed.

Section WorkerFacts.

Variable platform : Platform.

(** The shapes of what the first half of the [try] block gives. *)
Lemma chooseSql_response (request : Request) (path : string) (response : Response) :
  chooseSql platform request path = Returned (inl response) ->
  response = jsonResponse (JObject [("error", JString "Not found")]) 404 ∅ /\
  path <> "/datasets" /\ matchesSchemaRoute path = false /\
  (path = "/query" -> method request <> "POST").
Proof.
  unfold chooseSql.
  destruct (String.eqb path "/datasets") eqn:E1; [discriminate|].
  destruct (matchesSchemaRoute path) eqn:E2.
  { destruct (decodeURIComponent platform (thirdPart path)); discriminate. }
  destruct (String.eqb path "/query" && String.eqb (method request) "POST") eqn:E3.
  { destruct (json request); discriminate. }
  intros H. injection H as <-. split; [reflexivity|].
  split; [now apply String.eqb_neq|]. split; [reflexivity|].
  intros ->. simpl in E3. now apply String.eqb_neq.
Qed.

Lemma chooseSql_sql (request : Request) (path sql : string) :
  chooseSql platform request path = Returned (inr sql) <->
  (path = "/datasets" /\ sql = "SHOW TABLES") \/
  (matchesSchemaRoute path = true /\
   exists datasetId,
     decodeURIComponent platform (thirdPart path) = Returned datasetId /\
     sql = ("SELECT * FROM " ++ datasetId ++ " LIMIT 1")%string) \/
  (path = "/query" /\ method request = "POST" /\
   exists body,
     json request = Returned body /\
     sql = substituteParams (query body) (params body)).
Proof.
  unfold chooseSql.
  destruct (String.eqb path "/datasets") eqn:E1.
  { apply String.eqb_eq in E1. subst path. split.
    - intros H. injection H as <-. now left.
    - intros [[_ ->]|[[H _]|[H _]]]; [reflexivity|discriminate|discriminate]. }
  apply String.eqb_neq in E1.
  destruct (matchesSchemaRoute path) eqn:E2.
  { split.
    - intros H. right. left. split; [reflexivity|].
      destruct (decodeURIComponent platform (thirdPart path)) as [datasetId|e];
        [|discriminate].
      simpl in H. injection H as <-. now exists datasetId.
    - intros [[H _]|[(_ & datasetId & -> & ->)|[-> _]]];
        [contradiction|reflexivity|discriminate]. }
  destruct (String.eqb path "/query" && String.eqb (method request) "POST") eqn:E3.
  { apply andb_true_iff in E3. destruct E3 as [Hp Hm].
    apply String.eqb_eq in Hp, Hm. split.
    - intros H. right. right. split; [assumption|]. split; [assumption|].
      destruct (json request) as [body|e]; [|discriminate].
      simpl in H. injection H as <-. now exists body.
    - intros [[H _]|[[H _]|(_ & _ & body & -> & ->)]];
        [contradiction|discriminate|reflexivity]. }
  split; [discriminate|].
  intros [[H _]|[[H _]|(-> & Hm & _)]]; [contradiction|discriminate|].
  rewrite Hm in E3. discriminate.
Qed.

Lemma answerFrom_response (path : string) (cfResponse : ApiResponse)
      (response : Response) :
  answerFrom platform path cfResponse = Returned response ->
  allowsAnyOrigin response /\
  (status response = if ok cfResponse then 200 else 502).
Proof.
  unfold answerFrom.
  destruct (ok cfResponse); cbn [negb].
  - destruct (api_json cfResponse) as [result|e]; [|discriminate]. cbn [await].
    destruct (String.eqb path "/datasets").
    { intros H. injection H as <-. split; [apply jsonResponse_allows|reflexivity]. }
    destruct (matchesSchemaRoute path).
    { destruct (decodeURIComponent platform (thirdPart path)); [|discriminate].
      cbn [await]. intros H. injection H as <-.
      split; [apply jsonResponse_allows|reflexivity]. }
    intros H. injection H as <-. split; [apply jsonResponse_allows|reflexivity].
  - destruct (api_text cfResponse) as [errorText|e]; [|discriminate]. cbn [await].
    intros H. injection H as <-. split; [apply jsonResponse_allows|reflexivity].
Qed.

Lemma tryBlock_response (request : Request) (path accountId apiToken : string)
      (response : Response) (sent : list ApiRequest) :
  tryBlock platform request path accountId apiToken = (Returned response, sent) ->
  allowsAnyOrigin response /\ In (status response) [200; 404; 502].
Proof.
  unfold tryBlock.
  destruct (chooseSql platform request path) as [[early|sql]|e] eqn:E.
  - intros H. injection H as <- <-.
    apply chooseSql_response in E. destruct E as [-> _].
    split; [apply jsonResponse_allows|]. simpl. tauto.
  - destruct (global_fetch platform (apiRequest accountId apiToken sql))
      as [cfResponse|e]; [|discriminate].
    cbn [await]. intros H. injection H as H _.
    apply answerFrom_response in H. destruct H as [Hcors Hstatus].
    split; [assumption|]. rewrite Hstatus. destruct (ok cfResponse); simpl; tauto.
  - discriminate.
Qed.

Lemma tryBlock_sent (request : Request) (path accountId apiToken : string) :
  snd (tryBlock platform request path accountId apiToken) =
  match chooseSql platform request path with
  | Returned (inr sql) => [apiRequest accountId apiToken sql]
  | _ => []
  end.
Proof.
  unfold tryBlock.
  now destruct (chooseSql platform request path) as [[early|sql]|e].
Qed.

(** What [fetch] sends is what its [try] block sends, and that only with
    both credentials. *)
Lemma fetch_sent (request : Request) (env : Env) :
  snd (fetch platform request env) =
  if startsWith "/api/analytics" (pathname request)
     && negb (String.eqb (method request) "OPTIONS")
     && negb (String.eqb (routeOf request) "/health")
  then
    match headers_get request "X-CF-Account-ID", headers_get request "X-CF-API-Token" with
    | Some accountId, Some apiToken =>
        if isEmpty accountId || isEmpty apiToken then []
        else snd (tryBlock platform request (routeOf request) accountId apiToken)
    | _, _ => []
    end
  else [].
Proof.
  unfold fetch, routeOf.
  destruct (startsWith "/api/analytics" (pathname request)); cbn [negb andb].
  2: { now destruct (ASSETS_fetch env request). }
  destruct (String.eqb (method request) "OPTIONS"); [reflexivity|]. cbn [negb andb].
  destruct (String.eqb (removeFirst "/api/analytics" (pathname request)) "/health");
    [reflexivity|]. cbn [negb].
  destruct (headers_get request "X-CF-Account-ID") as [accountId|]; [|reflexivity].
  destruct (headers_get request "X-CF-API-Token") as [apiToken|]; [|reflexivity].
  destruct (isEmpty accountId || isEmpty apiToken); [reflexivity|].
  now destruct (tryBlock platform request _ accountId apiToken) as [[response|[message]] sent].
Qed.

End WorkerFacts.

(** X24.  Every response of the worker to a request under [/api/analytics]
    carries the three CORS headers, whatever the request, the credentials
    and the Cloudflare API do, and its status is one of 200, 204, 400,
    404, 500 and 502. *)
Theorem X24_analytics_responses_allow_any_origin
    (platform : Platform) (request : Request) (env : Env) :
  startsWith "/api/analytics" (pathname request) = true ->
  let response := fst (fetch platform request env) in
  allowsAnyOrigin response /\
  In (status response) [200; 204; 400; 404; 500; 502].
Proof.
  intros Hpath. unfold fetch. rewrite Hpath. cbn [negb].
  destruct (String.eqb (method request) "OPTIONS").
  { cbn. split; [repeat split|tauto]. }
  destruct (String.eqb (removeFirst "/api/analytics" (pathname request)) "/health").
  { cbn [fst]. split; [apply jsonResponse_allows|simpl; tauto]. }
  assert (Hmissing : allowsAnyOrigin missingCredentials /\
                     In (status missingCredentials) [200; 204; 400; 404; 500; 502]).
  { split; [apply jsonResponse_allows|simpl; tauto]. }
  destruct (headers_get request "X-CF-Account-ID") as [accountId|]; [|exact Hmissing].
  destruct (headers_get request "X-CF-API-Token") as [apiToken|]; [|exact Hmissing].
  destruct (isEmpty accountId || isEmpty apiToken); [exact Hmissing|].
  destruct (tryBlock platform request _ accountId apiToken)
    as [[response|[message]] sent] eqn:E; cbn [fst].
  - apply tryBlock_response in E. destruct E as [Hcors Hstatus].
    split; [assumption|]. simpl in Hstatus |- *. tauto.
  - split; [apply jsonResponse_allows|simpl; tauto].
Qed.

Lemma X24_analytics_responses_allow_any_origin_witness :
  let platform := mkPlatform (fun _ => Thrown (mkError "offline")) Returned in
  let request :=
    mkRequest "/api/analytics/datasets" "GET" (fun _ => Some "abc")
              (Thrown (mkError "no body")) in
  let env := mkEnv (fun _ => Thrown (mkError "no assets")) in
  status (fst (fetch platform request env)) = 500 /\
  allowsAnyOrigin (fst (fetch platform request env)).
Proof.
  split; [reflexivity|].
  refine (proj1 (X24_analytics_responses_allow_any_origin _ _ _ _)). reflexivity.
Defined.

(** X25.  The worker sends at most one request to the Cloudflare API, and
    only for a request under [/api/analytics] that is not a preflight,
    carries both credentials, neither of them empty, and asks for one of
    the three routes.  The request sent is a POST to the account's SQL
    endpoint with the token as bearer; its body is [SHOW TABLES] for
    [/datasets], a [SELECT] from the decoded third part of the path for
    the schema route, and the substituted query for a POST to [/query]. *)
Theorem X25_api_called_only_with_credentials
    (platform : Platform) (request : Request) (env : Env) (sent : ApiRequest) :
  In sent (snd (fetch platform request env)) ->
  snd (fetch platform request env) = [sent] /\
  startsWith "/api/analytics" (pathname request) = true /\
  method request <> "OPTIONS" /\
  exists accountId apiToken sql,
    headers_get request "X-CF-Account-ID" = Some accountId /\
    accountId <> EmptyString /\
    headers_get request "X-CF-API-Token" = Some apiToken /\
    apiToken <> EmptyString /\
    api_url sent = (CF_API_BASE ++ "/" ++ accountId ++ "/analytics_engine/sql")%string /\
    api_method sent = "POST" /\
    api_headers sent !! "Authorization" = Some ("Bearer " ++ apiToken)%string /\
    api_body sent = sql /\
    ((routeOf request = "/datasets" /\ sql = "SHOW TABLES") \/
     (matchesSchemaRoute (routeOf request) = true /\
      exists datasetId,
        decodeURIComponent platform (thirdPart (routeOf request)) = Returned datasetId /\
        sql = ("SELECT * FROM " ++ datasetId ++ " LIMIT 1")%string) \/
     (routeOf request = "/query" /\ method request = "POST" /\
      exists body,
        json request = Returned body /\
        sql = substituteParams (query body) (params body))).
Proof.
  rewrite fetch_sent.
  destruct (startsWith "/api/analytics" (pathname request)); [|intros []].
  destruct (String.eqb (method request) "OPTIONS") eqn:Em; [intros []|].
  destruct (String.eqb (routeOf request) "/health"); [intros []|]. cbn [negb andb].
  destruct (headers_get request "X-CF-Account-ID") as [accountId|]; [|intros []].
  destruct (headers_get request "X-CF-API-Token") as [apiToken|]; [|intros []].
  destruct (isEmpty accountId || isEmpty apiToken) eqn:Ec; [intros []|].
  apply orb_false_iff in Ec. destruct Ec as [Ha Ht].
  rewrite tryBlock_sent.
  destruct (chooseSql platform request (routeOf request)) as [[early|sql]|e] eqn:E;
    [intros []| |intros []].
  intros [<-|[]]. split; [reflexivity|]. split; [reflexivity|].
  split; [now apply String.eqb_neq|].
  exists accountId, apiToken, sql.
  split; [reflexivity|]. split; [now apply isEmpty_false|].
  split; [reflexivity|]. split; [now apply isEmpty_false|].
  split; [reflexivity|]. split; [reflexivity|]. split; [reflexivity|].
  split; [reflexivity|]. now apply chooseSql_sql.
Qed.

Lemma X25_api_called_only_with_credentials_witness :
  let platform := mkPlatform (fun _ => Thrown (mkError "offline")) Returned in
  let request :=
    mkRequest "/api/analytics/datasets" "GET" (fun _ => Some "abc")
              (Thrown (mkError "no body")) in
  let env := mkEnv (fun _ => Thrown (mkError "no assets")) in
  snd (fetch platform request env) = [apiRequest "abc" "abc" "SHOW TABLES"].
Proof.
  refine (proj1 (X25_api_called_only_with_credentials _ _ _ _ _)).
  left. reflexivity.
Defined.

(** X26.  A path takes the schema route exactly when it is [/datasets/],
    a non-empty dataset on one line, and [/schema]; the table named in the
    SQL is then the decoded dataset up to its first slash, so that a
    dataset with a slash in it is queried under the part before the
    slash. *)
Theorem X26_schema_route_reads_first_segment
    (platform : Platform) (request : Request) :
  (forall path,
     matchesSchemaRoute path = true <->
     exists dataset,
       path = ("/datasets/" ++ dataset ++ "/schema")%string /\
       dataset <> EmptyString /\ onOneLine dataset = true) /\
  (forall dataset,
     dataset <> EmptyString -> onOneLine dataset = true ->
     chooseSql platform request ("/datasets/" ++ dataset ++ "/schema") =
     await (decodeURIComponent platform (hd EmptyString (split "/" dataset)))
           (fun datasetId =>
              Returned (inr ("SELECT * FROM " ++ datasetId ++ " LIMIT 1")%string))).
Proof.
  split; [exact matchesSchemaRoute_spec|].
  intros dataset Hne Hline. unfold chooseSql.
  assert (Hroute : matchesSchemaRoute ("/datasets/" ++ dataset ++ "/schema") = true).
  { apply matchesSchemaRoute_spec. now exists dataset. }
  rewrite Hroute, thirdPart_schema.
  destruct (String.eqb ("/datasets/" ++ dataset ++ "/schema") "/datasets") eqn:E;
    [|reflexivity].
  apply String.eqb_eq in E. apply (f_equal String.length) in E.
  rewrite !string_length_app in E. simpl in E. lia.
Qed.
